(* ===== verification/_CoqProject ===== *)
-Q . S2P
Prelude.v
Text.v
Slate.v
Types.v
Keys.v
Kv.v
Fork.v
Store.v
Batch.v
Append.v
Wf.v
Commit.v
Appended.v
Ops.v
Purge.v
History.v
Txn.v
Invariant.v
Samples.v
AppendThms.v
ReadThms.v
ForkThms.v
RetentionThms.v
TxnThms.v
JobThms.v
SnapshotThms.v
IndexThms.v
Reader.v
Frames.v
Bucket.v
Wal.v
Sqlite.v
PageThms.v
SqliteThms.v
SealThms.v
DbThms.v
Sessions.v
SqliteRuns.v
SqliteFaults.v
Btree.v
Image.v
ImageThms.v
Volume.v
FuseSamples.v
VolumeThms.v
CommitThms.v
Replica.v
FsElsewhere.v
Fs.v
FsTable.v
FsServe.v
FsThms.v
FsDurable.v
FsRuns.v
FsFaults.v
FsMounts.v
Disk.v
DiskThms.v
SqliteDisk.v
Mirror.v
MirrorTree.v
MirrorThms.v
MirrorPass.v
MirrorRuns.v
MirrorFaults.v
FsLegible.v
FsTree.v
FsMirror.v
FsMirrorRuns.v
BankAccount.v
FsSnapshots.v
Cli.v
Churn.v
Wire.v
Lifecycle.v
Demo.v
Probe.v
