(* ===== verification/Prelude.v ===== *)
(** * Landslide: event streams on an ordered key-value store

    A model of the Rust crates [landslide] (event store, [src/src]),
    [landslide-sqlite] (replication of SQLite databases,
    [src/landslide-sqlite/src]) and [landslide-fuse] (filesystem volumes on
    event streams, [src/landslide-fuse/src]) with the theorems that make them
    correct.

    ** The program

    Landslide keeps append-only event streams as keys of one SlateDB
    database.  Records, per-stream metadata (tail, fence, trim floor, deletion
    mark, fork reference, fork pins, rollback windows), a time index,
    snapshots and two journals (compactions, jobs) each have a key family.
    Appends, forks, trims, claims and publications are optimistic
    transactions: they read a snapshot, buffer writes and commit unless a key
    or range they read was changed in between.  Purges delete records in
    chunks.  Reads filter the records of a stream by its guards and resolve
    histories over fork chains.  The FUSE crate stores a volume as a stream of
    deltas; checkpoints fold deltas into segment objects of an object store,
    mounts and replicas load segments and replay the rest; a FUSE adapter
    turns kernel requests into deltas and commits them, and a mirror writes a
    replica's image into a local directory.  The SQLite crate
    captures committed transactions from the write-ahead log file, appends
    them to a stream and seals them into segment objects; a restore loads the
    segments and replays the records after them.

    ** Files

    - [Prelude]: results, machine integers, list lemmas, tactics, hints.
    - [Text]: byte order of strings, decimal and big-endian encodings,
      prefixes; the parts of Rust's string library the code uses.
    - [Slate]: SlateDB as a class of operations ([SlateDb]) and its documented
      laws ([SlateDbLaws]): reads, prefix scans in key order, atomic batches,
      conflict detection of transactions; [MemSlate] is an instance.
    - [Types]: [envelope.rs], [error.rs], [snapshot.rs], [jobs.rs],
      [fork.rs] data; JSON and bincode as classes with round-trip laws, and
      an instance; the clock and the ULID generator as an [Oracle].
    - [Keys]: the key functions of [kv.rs], structured keys ([Key]) and that
      their rendering is injective and respects families.
    - [Kv]: [kv.rs] reads with [bounds]; the abstract log of a stream.
    - [Fork]: [fork.rs]; the fuel of [resolve_fuel] is one more than the
      number of metadata keys, which [resolve_total] shows is enough on any
      store, because every step visits a stream that has a fork key and was
      not visited before.
    - [Store]: every operation of [store.rs], [aggregate.rs], [jobs.rs].
      [TM] is the monad of transaction bodies; [interf] is what other writers
      commit while a transaction is open, [watch] the status updates the
      durability barrier sees.  [purge_loop] takes one more step than there
      are records, which [purge_loop_spec] shows is enough.
    - [Batch], [Append], [Wf], [Commit], [Appended], [Ops], [Purge],
      [History], [Txn], [Invariant]: the theory.  [Wf.wf] is the well-formedness
      invariant, [Commit.drift] the state after some rounds of interference,
      [History.hist] the abstract specification of a stream's history,
      [Txn.plan_ops] that of a transaction, [Invariant.reachable] the step
      relation of all operations.
    - [Samples]: concrete stores at which theorems are instantiated.
    - [AppendThms], [ReadThms], [ForkThms], [RetentionThms], [TxnThms],
      [JobThms], [SnapshotThms], [IndexThms]: the properties of the store.
    - [Reader]: [reader.rs]; a follower is a function of the states its polls
      see.
    - [Bucket]: the object store of the client crates as a class
      ([ObjectStore]) with laws; [Frames]: what the store operations the client
      crates use keep of a stream ([own_append], [writable], [roomy]).
    - [Wal]: [wal.rs] on byte lists; [Sqlite]: [lib.rs] and [store.rs] of
      [landslide-sqlite].  The bytes of the WAL file and the answers of the
      SQLite connection are arguments; [capture_loop] runs at most as many
      steps as the file has bytes, and a frame takes more than one
      ([PageThms]).
    - [PageThms], [SqliteThms], [SealThms], [DbThms], [Sessions]: its theory.
      [SqliteThms.replicated] is the invariant of a stored database and
      [handle_ok] that of an open handle; [Sessions.session] the step relation
      of opens, syncs and checkpoints, in which a handle is kept after whatever
      it returned, with a [standing] that says what its memory has lost.  [SqliteRuns] runs them on a concrete
      database, [SqliteFaults] holds the runs that go wrong.
    - [Btree], [Image], [ImageThms]: [landslide-fuse] [lib.rs] and the
      [DeltaImage] of [store.rs]; images up to modification times.
    - [Volume], [FuseSamples], [VolumeThms], [CommitThms], [Replica]:
      [store.rs] and [replica.rs] of [landslide-fuse].  [CommitThms.stored] is
      the invariant of a stored volume, [calm] the condition under which a
      commit may chunk files.  [FsElsewhere]: what other processes do to the
      store of a volume ([elsewhere]: appends, fences, uploads, checkpoints,
      purges), and that it stays one a replica can follow ([kept]).
    - [Fs]: [fs.rs], a handler per request on a [World] (adapter, bucket,
      store); [FsTable]: inode tables; [FsServe]: the requests ([Request],
      [serve]); [FsThms], [FsDurable]: the theorems about mounts; [FsRuns],
      [FsFaults]: a concrete mount, and where it departs from its comments;
      [FsMounts]: [mount] and [mount_replica], with [rstep], the interleaving of
      requests, sync ticks and writers elsewhere.
    - [Disk], [DiskThms]: the local file system, as far as the crates use
      [std::fs]: paths are resolved through at most [MAXSYMLINKS] links, as
      Linux does; [SqliteDisk]: [DbImage::write_to] on it.
    - [Mirror]: [mirror.rs], a pass as a function of the mirror and the local
      file system; [MirrorTree], [MirrorThms], [MirrorPass]: its theory.
      [MirrorTree.tidy] is the shape of a mirrored directory,
      [MirrorThms.ready] what a pass needs, [MirrorPass.settled] what it
      leaves.  [MirrorRuns] and [MirrorFaults] are concrete passes.
    - [FsLegible]: that a mount's files can be read ([legible], [readable]).
    - [FsTree]: that a mount's images are trees ([treelike], [rooted], and
      [vfs], what the kernel guarantees of a request, and [flush_lands], that
      a handle is flushed to a file that is there, which it does not
      guarantee); [FsMirror]: from a mount to a mirrored directory; [FsMirrorRuns]: runs of both.
    - [Wire]: the types of the three crates in serde's data model ([Value]), by
      their derives and field attributes, with the base64 field codecs; structs
      are maps by field name for JSON and positional for bincode.
    - [Lifecycle]: [Config], [EventStore::open], settings and the clients the
      programs build from their environment, over SlateDB's builder.
    - [Cli]: [landslidefs.rs]; [BankAccount], [FsSnapshots], [Demo]
      ([landslide-fuse]'s [churn.rs]), [Churn] and [Probe] ([landslide-sqlite]'s):
      the examples.

    ** What is shown

    - Every reachable state is well formed ([reachable_wf]): keys and values
      decode, no record lies past its tail, every fork is pinned, fork
      references are acyclic.
    - Appends are linearizable under interference, accept exactly the
      batches their checks allow, retry a bounded number of times, never
      commit against a foreign fence, and never touch other streams.
    - Reads return the log filtered by the guards; histories are the parent's
      up to the fork point plus the own records; the walk terminates on any
      store; pages, tails, time seeks, stream lists and followers return what
      they promise.
    - Forks share history; deletion and purges keep what live forks read, with
      the provisos stated; trims are monotone.
    - A cross-stream transaction is its operations in sequence, all or nothing.
    - Compaction and rehydration agree with a full replay; job claims are
      exclusive when journal keys grow in commit order.
    - Checkpoint segments merged in path order equal the replay of the deltas;
      mounts and replicas reconstruct the replay of the whole stream, also
      after retention; range reads over blocks return the bytes of the range.
    - A commit is durable, chunked or not: a mount after it has the image of
      the committing process ([commit_durable]), files read as before
      ([commit_reads]), and the same holds for whatever a mount served
      ([mount_durable]).  Every file of a mount can be read, also after commits
      that failed ([mount_files_readable]).  Inode numbers are stable and follow renames,
      listings are exact, written bytes are read back after a flush, replica
      mounts change nothing and serve a prefix of the log that never shrinks
      while others write, checkpoint and purge ([replica_mount_follows]).
    - A mirror's pass makes the directory exactly the image and touches
      nothing outside it ([materialize_exact]), from a fresh directory, after a
      restart ([reopen_settles]) and after an interruption
      ([interrupted_pass_converges]); with the replica's sync it follows the
      stream ([sync_once_follows]).  The conditions are those of [tree] and
      [ready], of which [MirrorFaults] shows passes going wrong without, and
      that permission bits do not stop the process.
    - The images a mount serves are trees of directories with plain names
      ([mount_stays_tree]), and with the theorems above a mirror of the volume
      shows exactly what the mount accepted ([mirror_shows_mount]).
    - Every record, delta, segment and manifest is read back from the value it
      is written as ([wire_roundtrip]); a string that is not base64 is refused.
    - Captured WAL frames are the committed transactions; syncs append exactly
      those, checkpoints seal them, coalescing, retirement and purging lose
      none, and every restore in a session of opens, syncs and checkpoints
      gives the database all accepted transactions produced, as long as a
      handle makes no checkpoint after one of its checkpoints failed half way
      or one of its syncs did not see its wait return
      ([SqliteFaults.failed_checkpoint_loses_pages]); the churn probe's final comparison succeeds ([probe_verifies]).
    - Where the code departs from its documentation a closed theorem shows
      it on a concrete store: see the sections after the instances of
      [RetentionThms], [JobThms], [SnapshotThms], [IndexThms], [Reader],
      [ImageThms], [VolumeThms], [CommitThms] and [Replica], the runs of [Cli],
      [FsSnapshots], [FsMirrorRuns], [Lifecycle], [Demo] and [Probe], and the
      files [SqliteFaults], [FsFaults] and [MirrorFaults].

    ** Conventions and bounds

    Integers are [Z]; additions of [u64] wrap ([u64_add]).  Versions,
    sequences and timestamps are formatted with sixteen digits, so key order
    is numeric order below [10^16] ([key_num], [key_lim]); theorems that
    depend on order assume it of the numbers they add.  Stream ids must not
    contain a slash ([slash_free]); [IndexThms] shows what happens otherwise.
    Panics are a constructor of [Error] that no theorem's success includes; in
    the examples and [write_to] a panic is [None].

    ** Not modelled

    SlateDB, the text of JSON, bincode's bytes, base64, zstd, SHA-256, SQLite,
    fuser and the object store themselves are parameters, with laws where
    theorems need them (that SHA-256 has no collisions is the law
    [CommitThms.HashLaw]).  The derives of serde are modelled as the data model
    they document ([Wire]); the theorems about the store and its clients use
    the round-trip laws of [Types] instead, which hold of all integers, not
    only of those that fit their fields.  The re-exports of [lib.rs], the
    timings the churn probe prints, tokio's scheduling and the object store
    clients' credentials have no behaviour to state.  Permissions of the local
    file system are stored and not enforced (the theorems about mirrors are
    about a process they do not stop), and a mirror's directory has no
    other writer during a pass.
    The transactions of a purge interleave with the other operations in
    [Invariant.reachable] ([reach_purge_chunk]).  Elsewhere, within a mount, a
    checkpoint, a purge and a replica's sync, the store calls run without other
    writers in between
    ([RetentionThms.purge_races_fork] and [SqliteFaults.restore_races_purge]
    show two such races). *)

From Stdlib Require Export ZArith Ascii String Strings.Byte.
From stdpp Require Export base gmap strings list sorting.

(** ** Results

    Rust's [Result<T, E>]: every fallible operation of the crate returns one.
    [?] is [bind]. *)

Inductive result (E A : Type) : Type :=
| Ok (a : A)
| Err (e : E).
Arguments Ok {E A} a.
Arguments Err {E A} e.

Definition rbind {E A B} (c : result E A) (f : A → result E B) : result E B :=
  match c with
  | Ok a => f a
  | Err e => Err e
  end.

Definition rmap {E A B} (f : A → B) (c : result E A) : result E B :=
  match c with
  | Ok a => Ok (f a)
  | Err e => Err e
  end.

Declare Scope landslide_scope.
Delimit Scope landslide_scope with L.
Open Scope landslide_scope.

Notation "'let?' x := c 'in' k" := (rbind c (λ x, k))
  (at level 10, x pattern, c at level 100, k at level 200) : landslide_scope.

(** [Option::map_or] and [Option::is_some_and]. *)
Definition map_or {A B} (d : B) (f : A → B) (o : option A) : B :=
  match o with
  | Some a => f a
  | None => d
  end.

Definition is_some {A} (o : option A) : bool := match o with Some _ => true | None => false end.

(** [collect::<Result<Vec<_>>>]: the first error wins. *)
Fixpoint collect {E A} (l : list (result E A)) : result E (list A) :=
  match l with
  | [] => Ok []
  | r :: l => let? a := r in let? rest := collect l in Ok (a :: rest)
  end.

(** ** Machine integers

    [u64] values are integers of [Z]; [+] on them is the release profile's
    wrap-around addition. *)

Definition U64 : Z := 2 ^ 64.
Definition u64_max : Z := U64 - 1.

Definition u64_add (a b : Z) : Z := ((a + b) `mod` U64)%Z.
Definition saturating_sub (a b : Z) : Z := Z.max 0 (a - b).

(** Versions and sequence numbers are written into keys with the width
    specifier [:016]; below this bound the rendering is exactly 16 digits. *)
Definition KEY_MAX : Z := 10 ^ 16.

(** The sixteen digit bound of the keys lies far below the width of [u64]. *)
Lemma KEY_MAX_U64 : (KEY_MAX < U64)%Z.
Proof. reflexivity. Qed.

Lemma KEY_MAX_eq : KEY_MAX = 10000000000000000%Z.
Proof. reflexivity. Qed.

Lemma U64_eq : U64 = 18446744073709551616%Z.
Proof. reflexivity. Qed.

Lemma KEY_MAX_pos : (0 < KEY_MAX)%Z.
Proof. reflexivity. Qed.

Global Opaque KEY_MAX U64.

Ltac u64_facts :=
  pose proof KEY_MAX_U64; pose proof KEY_MAX_pos.

Lemma u64_add_small a b : (0 ≤ a + b < U64)%Z → u64_add a b = (a + b)%Z.
Proof. intros. unfold u64_add. by rewrite Z.mod_small. Qed.

Lemma u64_add_range a b : (0 ≤ u64_add a b < U64)%Z.
Proof. unfold u64_add. apply Z.mod_pos_bound. u64_facts. lia. Qed.

(** Rewrites every wrapping addition whose operands stay below the width. *)
Ltac u64_norm :=
  u64_facts;
  repeat match goal with
  | |- context [u64_add ?a ?b] => rewrite (u64_add_small a b) by lia
  | H : context [u64_add ?a ?b] |- _ => rewrite (u64_add_small a b) in H by lia
  end.

(** ** Shared automation *)

Create HintDb landslide.

(** Case analysis on every [match] and [if] that blocks the goal. *)
Ltac break_match :=
  match goal with
  | |- context [match ?x with _ => _ end] => destruct x eqn:?
  | H : context [match ?x with _ => _ end] |- _ => destruct x eqn:?
  end.

Ltac inv_ok :=
  repeat match goal with
  | H : Ok _ = Ok _ |- _ => injection H as H; subst
  | H : Err _ = Err _ |- _ => injection H as H; subst
  | H : Ok _ = Err _ |- _ => discriminate H
  | H : Err _ = Ok _ |- _ => discriminate H
  | H : Some _ = Some _ |- _ => injection H as H; subst
  | H : Some _ = None |- _ => discriminate H
  | H : None = Some _ |- _ => discriminate H
  | H : (_, _) = (_, _) |- _ => injection H as ? ?; subst
  end.

(** [x <? y], [x <=? y] and [x =? y] on integers as propositions. *)
Ltac z_cases :=
  repeat match goal with
  | |- context [(?a <? ?b)%Z] => destruct (Z.ltb_spec a b)
  | |- context [(?a <=? ?b)%Z] => destruct (Z.leb_spec a b)
  | |- context [(?a =? ?b)%Z] => destruct (Z.eqb_spec a b)
  | H : context [(?a <? ?b)%Z] |- _ => destruct (Z.ltb_spec a b)
  | H : context [(?a <=? ?b)%Z] |- _ => destruct (Z.leb_spec a b)
  | H : context [(?a =? ?b)%Z] |- _ => destruct (Z.eqb_spec a b)
  end.

Lemma rbind_Ok {E A B} (c : result E A) (f : A → result E B) b :
  rbind c f = Ok b → ∃ a, c = Ok a ∧ f a = Ok b.
Proof. destruct c; simpl; naive_solver. Qed.

Lemma rmap_Ok {E A B} (f : A → B) (c : result E A) b :
  rmap f c = Ok b → ∃ a, c = Ok a ∧ b = f a.
Proof. destruct c; simpl; naive_solver. Qed.

Ltac inv_bind :=
  repeat match goal with
  | H : rbind _ _ = Ok _ |- _ => apply rbind_Ok in H as (? & ? & H)
  | H : rmap _ _ = Ok _ |- _ => apply rmap_Ok in H as (? & ? & H)
  end.

(** ** Sorted lists

    A scan returns its entries in strictly increasing key order; a strictly
    sorted list is determined by its elements. *)

Section sorted.
Context {A : Type} (R : relation A) `{!Irreflexive R, !Transitive R}.

Lemma StronglySorted_irrefl_NoDup l : StronglySorted R l → NoDup l.
Proof.
  induction 1 as [|a l Hl IH Hall]; constructor; [|done].
  intros Hin. rewrite Forall_forall in Hall.
  by destruct (irreflexivity R a (Hall a Hin)).
Qed.

Lemma StronglySorted_ext l1 l2 :
  StronglySorted R l1 → StronglySorted R l2 → (∀ x, x ∈ l1 ↔ x ∈ l2) → l1 = l2.
Proof.
  intros H1 H2 Hiff.
  apply (StronglySorted_unique_strong R); [|done|done|].
  - intros x y _ _ Hxy Hyx. destruct (irreflexivity R x). by etrans.
  - apply NoDup_Permutation; eauto using StronglySorted_irrefl_NoDup.
Qed.

Lemma StronglySorted_filter (P : A → Prop) `{∀ x, Decision (P x)} l :
  StronglySorted R l → StronglySorted R (filter P l).
Proof.
  induction 1 as [|a l Hl IH Hall]; [constructor|].
  rewrite filter_cons. case_decide; [|done].
  constructor; [done|]. rewrite Forall_forall in Hall |- *.
  intros x Hx. apply list_elem_of_filter in Hx as [_ Hx]. eauto.
Qed.
End sorted.

(** A strictly sorted list maps injectively, so its images can be compared by
    their elements. *)
Lemma StronglySorted_fmap_inv {A B} (f : A → B) (R : relation B) l :
  StronglySorted R (f <$> l) → StronglySorted (λ x y, R (f x) (f y)) l.
Proof.
  induction l as [|a l IH]; simpl; [constructor|].
  intros [H1 H2]%StronglySorted_inv. constructor; [eauto|].
  rewrite Forall_fmap in H2. exact H2.
Qed.

(** ** Boolean list predicates of the source's iterators *)

Lemma elem_of_existsb {A} (f : A → bool) l : existsb f l = true ↔ ∃ x, x ∈ l ∧ f x = true.
Proof. rewrite existsb_exists. by setoid_rewrite list_elem_of_In. Qed.

Lemma existsb_false {A} (f : A → bool) l : existsb f l = false ↔ ∀ x, x ∈ l → f x = false.
Proof.
  rewrite <-not_true_iff_false, elem_of_existsb. split.
  - intros H x Hx. destruct (f x) eqn:E; [|done]. exfalso. eauto.
  - intros H (x & Hx & Hf). by rewrite H in Hf.
Qed.

Lemma collect_Ok_map {E A B} (f : A → result E B) (g : A → B) l :
  (∀ x, x ∈ l → f x = Ok (g x)) → collect (f <$> l) = Ok (g <$> l).
Proof.
  induction l as [|a l IH]; intros H; [done|]. rewrite !fmap_cons. cbn [collect].
  rewrite (H a) by left. cbn [rbind]. rewrite IH; [done|]. intros x Hx. apply H. by right.
Qed.

(** ** Filters and partial maps over lists *)

Lemma omap_filter {A B} (f : A → option B) (P : A → Prop) (Q : B → Prop)
    `{∀ x, Decision (P x)} `{∀ x, Decision (Q x)} (l : list A) :
  (∀ x y, x ∈ l → f x = Some y → P x ↔ Q y) →
  omap f (filter P l) = filter Q (omap f l).
Proof.
  induction l as [|x l IH]; intros HPQ; [done|]. rewrite filter_cons.
  assert (omap f (filter P l) = filter Q (omap f l)) as IH'.
  { apply IH. intros y z Hy. apply HPQ. by right. }
  cbn [omap list_omap]. destruct (f x) as [y|] eqn:E.
  - rewrite filter_cons. pose proof (HPQ x y (list_elem_of_here _ _) E).
    destruct (decide (P x)), (decide (Q y)); try tauto.
    cbn [omap list_omap]. rewrite E. f_equal. exact IH'.
  - destruct (decide (P x)); [|exact IH']. cbn [omap list_omap]. by rewrite E.
Qed.

Lemma omap_sorted {A B} (f : A → option B) (RA : relation A) (RB : relation B) (l : list A) :
  (∀ x y a b, x ∈ l → y ∈ l → f x = Some a → f y = Some b → RA x y → RB a b) →
  StronglySorted RA l → StronglySorted RB (omap f l).
Proof.
  intros Hf Hs. induction Hs as [|x l Hs IH Hall]; [constructor|]. cbn [omap list_omap].
  assert (StronglySorted RB (omap f l)) as IH'.
  { apply IH. intros u v a b Hu Hv. apply Hf; by right. }
  destruct (f x) as [a|] eqn:E; [|exact IH']. constructor; [exact IH'|].
  apply Forall_forall. intros b (y & Hy & Hb)%list_elem_of_omap.
  rewrite Forall_forall in Hall. apply (Hf x y); [by left|by right|done..|]. by apply Hall.
Qed.

Lemma filter_none {A} (P : A → Prop) `{∀ x, Decision (P x)} (l : list A) :
  (∀ x, x ∈ l → ¬ P x) → filter P l = [].
Proof.
  induction l as [|x l IH]; intros HP; [done|]. rewrite filter_cons_False by (apply HP; by left).
  apply IH. intros y Hy. apply HP. by right.
Qed.

Lemma filter_all {A} (P : A → Prop) `{∀ x, Decision (P x)} (l : list A) :
  (∀ x, x ∈ l → P x) → filter P l = l.
Proof.
  induction l as [|x l IH]; intros HP; [done|]. rewrite filter_cons_True by (apply HP; by left).
  f_equal. apply IH. intros y Hy. apply HP. by right.
Qed.

Lemma filter_ext_in {A} (P Q : A → Prop) `{∀ x, Decision (P x)} `{∀ x, Decision (Q x)} (l : list A) :
  (∀ x, x ∈ l → P x ↔ Q x) → filter P l = filter Q l.
Proof.
  induction l as [|x l IH]; intros HP; [done|]. rewrite !filter_cons.
  pose proof (HP x (list_elem_of_here _ _)). rewrite IH by (intros y Hy; apply HP; by right).
  destruct (decide (P x)), (decide (Q x)); tauto.
Qed.
