(* ===== verification/Text.v ===== *)
(** * Text and byte encodings of the standard library

    The parts of Rust's standard library the key layout depends on: the byte
    order of keys, [format!("{v:016}")], [u64::from_str], big-endian integers,
    [str::strip_prefix]/[strip_suffix]/[rsplit('/')].  A Rust [String] or a
    key of the store is its sequence of octets, a [string]; a value of the
    store ([bytes::Bytes]) is a list of bytes. *)

From S2P Require Import Prelude.
Local Open Scope Z_scope.

Abbreviation bytes := (list byte).

#[global] Instance byte_eq_decision : EqDecision byte := Byte.byte_eq_dec.

#[global] Instance byte_countable : Countable byte.
Proof.
  apply (inj_countable Byte.to_N Byte.of_N). exact Byte.of_to_N.
Defined.

(** ** Byte order *)

Fixpoint str_ltb (a b : string) : bool :=
  match a, b with
  | _, EmptyString => false
  | EmptyString, String _ _ => true
  | String x a', String y b' =>
      ((N_of_ascii x <? N_of_ascii y)%N || (Ascii.eqb x y && str_ltb a' b'))
  end.

Definition str_leb (a b : string) : bool := negb (str_ltb b a).

Definition str_lt (a b : string) : Prop := str_ltb a b = true.
Definition str_le (a b : string) : Prop := str_leb a b = true.

#[global] Instance str_lt_dec : RelDecision str_lt.
Proof. intros a b. unfold str_lt. apply _. Defined.

#[global] Instance str_le_dec : RelDecision str_le.
Proof. intros a b. unfold str_le. apply _. Defined.

(** ** Conversions between text and bytes *)

Definition as_bytes (s : string) : bytes := list_byte_of_string s.
Definition from_utf8 (b : bytes) : string := string_of_list_byte b.

Definition Z_of_byte (b : byte) : Z := Z.of_N (Byte.to_N b).
Definition byte_of_Z (z : Z) : byte :=
  match Byte.of_N (Z.to_N (z `mod` 256)) with
  | Some b => b
  | None => x00
  end.

(** [n] big-endian bytes of [v], and back. *)
Fixpoint be_bytes (n : nat) (v : Z) : bytes :=
  match n with
  | O => []
  | S n => byte_of_Z (v / 256 ^ Z.of_nat n) :: be_bytes n v
  end.

Definition of_be (b : bytes) : Z := fold_left (λ acc x, acc * 256 + Z_of_byte x) b 0.

Definition to_be_bytes (v : Z) : bytes := be_bytes 8 v.

(** [u64::from_be_bytes(b.try_into().unwrap_or([0; 8]))]. *)
Definition from_be_bytes (b : bytes) : Z := if Nat.eqb (length b) 8 then of_be b else 0.

(** ** Decimal text *)

Definition digit (d : Z) : ascii := ascii_of_N (48 + Z.to_N d).

(** The [w] low decimal digits of [v], most significant first. *)
Fixpoint fixed_dec (w : nat) (v : Z) : string :=
  match w with
  | O => EmptyString
  | S w => String (digit ((v / 10 ^ Z.of_nat w) `mod` 10)) (fixed_dec w v)
  end.

(** Number of decimal digits of [v]; [fuel] bounds it, and 20 digits hold any
    64-bit integer. *)
Fixpoint ndigits_upto (fuel : nat) (w : nat) (v : Z) : nat :=
  match fuel with
  | O => w
  | S fuel => if v <? 10 ^ Z.of_nat w then w else ndigits_upto fuel (S w) v
  end.

Definition ndigits (v : Z) : nat := ndigits_upto 20 1 v.

(** [format!("{v:016}")]: zero padded to 16 columns, sign included, never
    truncated. *)
Definition fmt016 (v : Z) : string :=
  if v <? 0 then String "-" (fixed_dec (Nat.max 15 (ndigits (- v))) (- v))
  else fixed_dec (Nat.max 16 (ndigits v)) v.

Definition digit_val (c : ascii) : option Z :=
  let n := Z.of_N (N_of_ascii c) in
  if (48 <=? n) && (n <=? 57) then Some (n - 48) else None.

Fixpoint parse_digits (acc : Z) (s : string) : option Z :=
  match s with
  | EmptyString => Some acc
  | String c s =>
      match digit_val c with
      | None => None
      | Some d =>
          let acc := acc * 10 + d in
          if acc <? U64 then parse_digits acc s else None
      end
  end.

(** [str::parse::<u64>]: an optional [+], then at least one digit, no overflow. *)
Definition parse_u64 (s : string) : option Z :=
  match s with
  | EmptyString => None
  | String "+" EmptyString => None
  | String "+" s => parse_digits 0 s
  | s => parse_digits 0 s
  end.

(** ** Searching in text *)

Fixpoint strip_prefix (p s : string) : option string :=
  match p, s with
  | EmptyString, _ => Some s
  | String x p, String y s => if Ascii.eqb x y then strip_prefix p s else None
  | String _ _, EmptyString => None
  end.

Definition starts_with (p s : string) : bool := is_some (strip_prefix p s).

Fixpoint drop_chars (n : nat) (s : string) : string :=
  match n, s with
  | S n, String _ s => drop_chars n s
  | _, _ => s
  end.

Fixpoint take_chars (n : nat) (s : string) : string :=
  match n, s with
  | S n, String c s => String c (take_chars n s)
  | _, _ => EmptyString
  end.

Definition strip_suffix (suf s : string) : option string :=
  let n := (String.length s - String.length suf)%nat in
  if (Nat.leb (String.length suf) (String.length s)) && String.eqb (drop_chars n s) suf
  then Some (take_chars n s) else None.

Fixpoint has_slash (s : string) : bool :=
  match s with
  | EmptyString => false
  | String c s => Ascii.eqb c "/" || has_slash s
  end.

Definition slash_free (s : string) : Prop := has_slash s = false.

#[global] Instance slash_free_dec s : Decision (slash_free s).
Proof. unfold slash_free. apply _. Defined.

(** [s.rsplit('/').next()]: the text after the last slash. *)
Fixpoint after_last_slash (s : string) : string :=
  match s with
  | EmptyString => EmptyString
  | String c s' => if has_slash s then after_last_slash s' else s
  end.

(** [p0/p1/.../pn]. *)
Fixpoint join (ps : list string) : string :=
  match ps with
  | [] => EmptyString
  | [p] => p
  | p :: ps => p +:+ "/" +:+ join ps
  end.

#[local] Arguments String.append !_ _ : simpl nomatch.

(** ** The byte order is a strict total order *)

Lemma ascii_eqb_N x y : Ascii.eqb x y = (N_of_ascii x =? N_of_ascii y)%N.
Proof.
  destruct (Ascii.eqb_spec x y) as [->|Hne]; [by rewrite N.eqb_refl|].
  symmetry. apply N.eqb_neq. intros E. apply Hne.
  by rewrite <-(ascii_N_embedding x), E, ascii_N_embedding.
Qed.

Lemma str_ltb_cons x a y b :
  str_ltb (String x a) (String y b) =
    ((N_of_ascii x <? N_of_ascii y)%N || ((N_of_ascii x =? N_of_ascii y)%N && str_ltb a b)).
Proof. simpl. by rewrite ascii_eqb_N. Qed.

Lemma str_ltb_irrefl a : str_ltb a a = false.
Proof.
  induction a as [|x a IH]; [done|]. rewrite str_ltb_cons, IH, N.ltb_irrefl.
  by rewrite andb_false_r.
Qed.

#[global] Instance str_lt_irreflexive : Irreflexive str_lt.
Proof. intros a H. unfold str_lt in H. by rewrite str_ltb_irrefl in H. Qed.

#[global] Instance str_lt_transitive : Transitive str_lt.
Proof.
  unfold str_lt. intros a. induction a as [|x a IH]; intros [|y b] [|z c]; try done.
  rewrite !str_ltb_cons, !orb_true_iff, !andb_true_iff, !N.ltb_lt, !N.eqb_eq.
  intros [H1 | [H1 H1']] [H2 | [H2 H2']]; [left; lia | left; lia | left; lia | ].
  right. split; [lia|eauto].
Qed.

Lemma str_lt_total a b : str_lt a b ∨ a = b ∨ str_lt b a.
Proof.
  unfold str_lt. revert b. induction a as [|x a IH]; intros [|y b]; [by auto..|].
  rewrite !str_ltb_cons, !orb_true_iff, !andb_true_iff, !N.ltb_lt, !N.eqb_eq.
  destruct (N.lt_trichotomy (N_of_ascii x) (N_of_ascii y)) as [H | [H | H]]; [by auto| |by auto].
  assert (x = y) as ->.
  { by rewrite <-(ascii_N_embedding x), H, ascii_N_embedding. }
  destruct (IH b) as [H' | [-> | H']]; auto.
Qed.

Lemma str_leb_lt_eq a b : str_leb a b = true ↔ str_lt a b ∨ a = b.
Proof.
  unfold str_leb, str_lt. rewrite negb_true_iff. split.
  - intros H. destruct (str_lt_total a b) as [? | [? | ?]]; auto. congruence.
  - intros [H| ->]; [|apply str_ltb_irrefl].
    destruct (str_ltb b a) eqn:E; [|done]. destruct (irreflexivity str_lt a).
    by trans b.
Qed.

Lemma str_ltb_app_cancel p a b : str_ltb (p +:+ a) (p +:+ b) = str_ltb a b.
Proof.
  induction p as [|x p IH]; [done|].
  change (str_ltb (String x (p +:+ a)) (String x (p +:+ b)) = str_ltb a b).
  by rewrite str_ltb_cons, N.ltb_irrefl, N.eqb_refl, IH.
Qed.

Lemma str_leb_app_cancel p a b : str_leb (p +:+ a) (p +:+ b) = str_leb a b.
Proof. unfold str_leb. by rewrite str_ltb_app_cancel. Qed.

(** ** Concatenation and prefixes *)

Lemma str_app_cons x (a b : string) : String x a +:+ b = String x (a +:+ b).
Proof. done. Qed.

Lemma str_app_assoc (a b c : string) : (a +:+ b) +:+ c = a +:+ (b +:+ c).
Proof. induction a as [|x a IH]; [done|]. by rewrite !str_app_cons, IH. Qed.

Lemma str_app_nil_r (a : string) : a +:+ "" = a.
Proof. induction a as [|x a IH]; [done|]. by rewrite str_app_cons, IH. Qed.

Lemma str_app_inj_l (p a b : string) : p +:+ a = p +:+ b → a = b.
Proof. induction p as [|x p IH]; [done|]. rewrite !str_app_cons. intros [=]. auto. Qed.

Lemma str_length_app (a b : string) :
  String.length (a +:+ b) = (String.length a + String.length b)%nat.
Proof. induction a as [|x a IH]; [done|]. rewrite str_app_cons. simpl. by rewrite IH. Qed.

Lemma strip_prefix_app p s : strip_prefix p (p +:+ s) = Some s.
Proof. induction p as [|x p IH]; [by destruct s|]. rewrite str_app_cons. simpl. by rewrite Ascii.eqb_refl. Qed.

Lemma strip_prefix_Some p s r : strip_prefix p s = Some r ↔ s = p +:+ r.
Proof.
  split; [|intros ->; apply strip_prefix_app].
  revert s. induction p as [|x p IH]; intros s; [by intros [= ->]|].
  destruct s as [|y s]; [done|]. simpl.
  destruct (Ascii.eqb_spec x y) as [->|]; [|done]. intros H. by rewrite (IH s).
Qed.

Lemma starts_with_app p s : starts_with p (p +:+ s) = true.
Proof. unfold starts_with. by rewrite strip_prefix_app. Qed.

Lemma starts_with_true p s : starts_with p s = true ↔ ∃ r, s = p +:+ r.
Proof.
  unfold starts_with. destruct (strip_prefix p s) as [r|] eqn:E; simpl.
  - apply strip_prefix_Some in E. naive_solver.
  - split; [done|]. intros (r & ->). by rewrite strip_prefix_app in E.
Qed.

(** ** Slash-separated keys are uniquely decodable *)

Lemma has_slash_app a b : has_slash (a +:+ b) = has_slash a || has_slash b.
Proof. induction a as [|x a IH]; simpl; [done|]. by rewrite IH, orb_assoc. Qed.

Lemma slash_split a b x y :
  slash_free a → slash_free b → a +:+ "/" +:+ x = b +:+ "/" +:+ y → a = b ∧ x = y.
Proof.
  unfold slash_free. revert b. induction a as [|c a IH]; intros [|d b]; simpl.
  - intros _ _ [= ->]. done.
  - intros _ Hb [= <- _]. done.
  - intros Ha _ [= -> _]. done.
  - rewrite !orb_false_iff. intros [_ Ha] [_ Hb] [= -> E].
    destruct (IH b Ha Hb E) as [-> ->]. done.
Qed.

Lemma slash_free_no_slash a x y : slash_free x → x ≠ a +:+ "/" +:+ y.
Proof.
  unfold slash_free. intros Hx ->. rewrite !has_slash_app in Hx. simpl in Hx.
  by rewrite orb_true_r in Hx.
Qed.

Lemma join_cons p q ps : join (p :: q :: ps) = p +:+ "/" +:+ join (q :: ps).
Proof. done. Qed.

(** A key that extends a component prefix extends it by whole components. *)
Lemma join_prefix ps cs suf :
  ps ≠ [] → Forall slash_free ps → Forall slash_free cs →
  join cs = (join ps +:+ "/") +:+ suf →
  ∃ rest, rest ≠ [] ∧ cs = ps ++ rest ∧ suf = join rest.
Proof.
  revert cs. induction ps as [|p ps IH]; [done|]. intros [|c cs] _ Hps Hcs E.
  { exfalso. destruct ps; simpl in E; destruct p; discriminate. }
  apply Forall_cons in Hps as [Hp Hps]. apply Forall_cons in Hcs as [Hc Hcs].
  destruct cs as [|c' cs].
  { exfalso. change (join [c]) with c in E. destruct ps as [|p' ps].
    - change (join [p]) with p in E. rewrite str_app_assoc in E. by apply slash_free_no_slash in E.
    - rewrite join_cons, !str_app_assoc in E. by apply slash_free_no_slash in E. }
  rewrite join_cons in E. destruct ps as [|p' ps].
  - change (join [p]) with p in E. rewrite (str_app_assoc p) in E.
    apply slash_split in E as [-> <-]; [|done..]. by exists (c' :: cs).
  - rewrite join_cons, !str_app_assoc in E.
    apply slash_split in E as [-> E]; [|done..].
    destruct (IH (c' :: cs)) as (rest & ? & Hr & ->); [done..|by rewrite str_app_assoc|].
    exists rest. split; [done|]. by rewrite Hr.
Qed.

Lemma join_app ps rest : ps ≠ [] → rest ≠ [] → join (ps ++ rest) = (join ps +:+ "/") +:+ join rest.
Proof.
  induction ps as [|p ps IH]; [done|]. intros _ Hr. destruct ps as [|p' ps].
  - simpl. destruct rest; [done|]. by rewrite str_app_assoc.
  - change ((p :: p' :: ps) ++ rest) with (p :: p' :: (ps ++ rest)).
    rewrite !join_cons. rewrite !str_app_assoc. do 2 f_equal.
    specialize (IH ltac:(done) Hr). change ((p' :: ps) ++ rest) with (p' :: (ps ++ rest)) in IH.
    rewrite IH. by rewrite !str_app_assoc.
Qed.

Lemma join_inj cs ds :
  cs ≠ [] → ds ≠ [] → Forall slash_free cs → Forall slash_free ds → join cs = join ds → cs = ds.
Proof.
  revert ds. induction cs as [|c cs IH]; [done|]. intros [|d ds] _ Hd0 Hcs Hds; [done|].
  apply Forall_cons in Hcs as [Hc Hcs]. apply Forall_cons in Hds as [Hd Hds].
  destruct cs as [|c' cs], ds as [|d' ds].
  - simpl. by intros ->.
  - rewrite join_cons. intros E. simpl in E. by apply slash_free_no_slash in E.
  - rewrite join_cons. intros E. simpl in E. symmetry in E. by apply slash_free_no_slash in E.
  - rewrite !join_cons. intros E. apply slash_split in E as [-> E]; [|done..].
    f_equal. by apply IH.
Qed.

Lemma after_last_slash_free s : slash_free s → after_last_slash s = s.
Proof. destruct s as [|c s]; [done|]. unfold slash_free. intros H. simpl in *. by rewrite H. Qed.

Lemma after_last_slash_app a s : slash_free s → after_last_slash (a +:+ "/" +:+ s) = s.
Proof.
  intros Hs. induction a as [|c a IH].
  - simpl. by apply after_last_slash_free.
  - rewrite str_app_cons. cbn [after_last_slash has_slash].
    assert (has_slash (a +:+ "/" +:+ s) = true) as ->.
    { rewrite has_slash_app. simpl. by rewrite orb_true_r. }
    by rewrite orb_true_r.
Qed.

(** ** Decimal text *)

Lemma N_of_digit d : 0 ≤ d < 10 → N_of_ascii (digit d) = (48 + Z.to_N d)%N.
Proof. intros H. unfold digit. apply N_ascii_embedding. lia. Qed.

Lemma digit_val_digit d : 0 ≤ d < 10 → digit_val (digit d) = Some d.
Proof.
  intros H. unfold digit_val. rewrite N_of_digit by done.
  replace (Z.of_N (48 + Z.to_N d)) with (48 + d) by lia.
  replace (48 <=? 48 + d) with true by (symmetry; apply Z.leb_le; lia).
  replace (48 + d <=? 57) with true by (symmetry; apply Z.leb_le; lia).
  simpl. f_equal. lia.
Qed.

Lemma pow10_pos w : 0 < 10 ^ Z.of_nat w.
Proof. apply Z.pow_pos_nonneg; lia. Qed.

Lemma pow10_S w : 10 ^ Z.of_nat (S w) = 10 * 10 ^ Z.of_nat w.
Proof. rewrite Nat2Z.inj_succ, Z.pow_succ_r by lia. done. Qed.

Lemma fixed_dec_length w v : String.length (fixed_dec w v) = w.
Proof. induction w as [|w IH]; simpl; [done|]. by rewrite IH. Qed.

Lemma top_digit w v : 0 ≤ v < 10 ^ Z.of_nat (S w) →
  (v / 10 ^ Z.of_nat w) `mod` 10 = v / 10 ^ Z.of_nat w ∧ 0 ≤ v / 10 ^ Z.of_nat w < 10.
Proof.
  rewrite pow10_S. intros H. pose proof (pow10_pos w).
  assert (0 ≤ v / 10 ^ Z.of_nat w < 10) as Hd.
  { split; [apply Z.div_pos; lia|]. apply Z.div_lt_upper_bound; lia. }
  split; [|done]. by apply Z.mod_small.
Qed.

(** Only the low [w] digits matter. *)
Lemma fixed_dec_mod w k v : (w ≤ k)%nat → fixed_dec w (v `mod` 10 ^ Z.of_nat k) = fixed_dec w v.
Proof.
  intros Hle. induction w as [|w IH]; [done|]. cbn [fixed_dec]. rewrite IH by lia. f_equal. f_equal.
  pose proof (pow10_pos w). pose proof (pow10_pos (k - S w)).
  replace (10 ^ Z.of_nat k) with (10 ^ Z.of_nat w * (10 * 10 ^ Z.of_nat (k - S w))).
  2: { rewrite <-pow10_S, <-Z.pow_add_r by lia. f_equal. lia. }
  rewrite (Z.rem_mul_r v) by lia.
  rewrite (Z.mul_comm (10 ^ Z.of_nat w)), Z.div_add by lia.
  rewrite (Z.div_small (v `mod` _)) by (apply Z.mod_pos_bound; lia).
  rewrite Z.add_0_l, (Z.rem_mul_r _ 10) by lia.
  rewrite Z.mul_comm, Z.mod_add by lia. by rewrite Z.mod_mod by lia.
Qed.

(** Zero padding makes byte order coincide with numeric order. *)
Lemma fixed_dec_ltb w a b :
  0 ≤ a < 10 ^ Z.of_nat w → 0 ≤ b < 10 ^ Z.of_nat w →
  str_ltb (fixed_dec w a) (fixed_dec w b) = (a <? b).
Proof.
  revert a b. induction w as [|w IH]; intros a b Ha Hb.
  { change (10 ^ Z.of_nat 0) with 1 in *. symmetry. apply Z.ltb_ge. lia. }
  cbn [fixed_dec]. rewrite str_ltb_cons.
  destruct (top_digit w a Ha) as [-> Hda], (top_digit w b Hb) as [-> Hdb].
  rewrite !N_of_digit by done. pose proof (pow10_pos w).
  pose proof (Z.mod_pos_bound a (10 ^ Z.of_nat w) ltac:(lia)) as Hma.
  pose proof (Z.mod_pos_bound b (10 ^ Z.of_nat w) ltac:(lia)) as Hmb.
  rewrite <-(fixed_dec_mod w w a), <-(fixed_dec_mod w w b), IH by done.
  pose proof (Z.div_mod a (10 ^ Z.of_nat w) ltac:(lia)) as Ea.
  pose proof (Z.div_mod b (10 ^ Z.of_nat w) ltac:(lia)) as Eb.
  set (qa := a / 10 ^ Z.of_nat w) in *. set (qb := b / 10 ^ Z.of_nat w) in *.
  destruct (Z.ltb_spec a b) as [Hlt | Hge].
  - apply orb_true_iff. destruct (Z.lt_trichotomy qa qb) as [? | [? | ?]].
    + left. apply N.ltb_lt. lia.
    + right. apply andb_true_iff. split; [apply N.eqb_eq; lia|apply Z.ltb_lt; nia].
    + nia.
  - apply orb_false_iff. split.
    + apply N.ltb_ge. enough (qb ≤ qa) by lia. nia.
    + apply andb_false_iff. destruct (Z.eq_dec qa qb).
      * right. apply Z.ltb_ge. nia.
      * left. apply N.eqb_neq. lia.
Qed.

Lemma fixed_dec_slash_free w v : slash_free (fixed_dec w v).
Proof.
  unfold slash_free. induction w as [|w IH]; [done|]. cbn [fixed_dec has_slash].
  rewrite IH, orb_false_r. rewrite ascii_eqb_N, N_of_digit.
  - apply N.eqb_neq. change (N_of_ascii "/") with 47%N. lia.
  - apply Z.mod_pos_bound. lia.
Qed.

Lemma parse_fixed_dec w v acc :
  0 ≤ acc → 0 ≤ v < 10 ^ Z.of_nat w → acc * 10 ^ Z.of_nat w + v < U64 →
  parse_digits acc (fixed_dec w v) = Some (acc * 10 ^ Z.of_nat w + v).
Proof.
  revert acc v. induction w as [|w IH]; intros acc v Hacc Hv Hb.
  { simpl. change (10 ^ Z.of_nat 0) with 1 in *. f_equal. lia. }
  cbn [fixed_dec parse_digits]. destruct (top_digit w v Hv) as [-> Hd].
  rewrite digit_val_digit by done. rewrite pow10_S in *. pose proof (pow10_pos w).
  pose proof (Z.mod_pos_bound v (10 ^ Z.of_nat w) ltac:(lia)) as Hm.
  pose proof (Z.div_mod v (10 ^ Z.of_nat w) ltac:(lia)) as E.
  set (q := v / 10 ^ Z.of_nat w) in *.
  destruct (Z.ltb_spec (acc * 10 + q) U64); [|nia].
  rewrite <-(fixed_dec_mod w w v) by done. rewrite IH; [f_equal; nia|lia|lia|nia].
Qed.

Lemma ndigits_upto_small fuel w k v :
  (1 ≤ w ≤ k)%nat → 0 ≤ v < 10 ^ Z.of_nat k → (ndigits_upto fuel w v ≤ k)%nat.
Proof.
  revert w. induction fuel as [|fuel IH]; intros w Hw Hv; simpl; [lia|].
  destruct (Z.ltb_spec v (10 ^ Z.of_nat w)); [lia|]. apply IH; [|done].
  destruct (decide (w = k)) as [-> |]; lia.
Qed.

Lemma fmt016_small v : 0 ≤ v < KEY_MAX → fmt016 v = fixed_dec 16 v.
Proof.
  intros Hv. unfold fmt016. destruct (Z.ltb_spec v 0); [lia|].
  assert (ndigits v ≤ 16)%nat.
  { apply ndigits_upto_small; [lia|]. rewrite KEY_MAX_eq in Hv. exact Hv. }
  by replace (Nat.max 16 (ndigits v)) with 16%nat by lia.
Qed.

Lemma fmt016_ltb a b :
  0 ≤ a < KEY_MAX → 0 ≤ b < KEY_MAX → str_ltb (fmt016 a) (fmt016 b) = (a <? b).
Proof. intros. rewrite !fmt016_small by done. by apply fixed_dec_ltb. Qed.

Lemma fmt016_leb a b :
  0 ≤ a < KEY_MAX → 0 ≤ b < KEY_MAX → str_leb (fmt016 a) (fmt016 b) = (a <=? b).
Proof.
  intros. unfold str_leb. rewrite fmt016_ltb by done.
  destruct (Z.ltb_spec b a), (Z.leb_spec a b); simpl; lia.
Qed.

Lemma fmt016_slash_free v : 0 ≤ v < KEY_MAX → slash_free (fmt016 v).
Proof. intros. rewrite fmt016_small by done. apply fixed_dec_slash_free. Qed.

Lemma fmt016_length v : 0 ≤ v < KEY_MAX → String.length (fmt016 v) = 16%nat.
Proof. intros. rewrite fmt016_small by done. apply fixed_dec_length. Qed.

Lemma fmt016_inj a b : 0 ≤ a < KEY_MAX → 0 ≤ b < KEY_MAX → fmt016 a = fmt016 b → a = b.
Proof.
  intros Ha Hb E. pose proof (fmt016_ltb a b Ha Hb) as H1. pose proof (fmt016_ltb b a Hb Ha) as H2.
  rewrite E, str_ltb_irrefl in H1. rewrite E, str_ltb_irrefl in H2. z_cases; lia.
Qed.

Lemma parse_u64_digits c s : c ≠ "+"%char → parse_u64 (String c s) = parse_digits 0 (String c s).
Proof. intros H. unfold parse_u64. repeat case_match; congruence. Qed.

Lemma parse_fmt016 v : 0 ≤ v < KEY_MAX → parse_u64 (fmt016 v) = Some v.
Proof.
  intros Hv. rewrite fmt016_small by done.
  assert (parse_u64 (fixed_dec 16 v) = parse_digits 0 (fixed_dec 16 v)) as ->.
  { cbn [fixed_dec]. apply parse_u64_digits. intros E. apply (f_equal N_of_ascii) in E.
    rewrite N_of_digit in E by (apply Z.mod_pos_bound; lia).
    change (N_of_ascii "+") with 43%N in E. lia. }
  rewrite parse_fixed_dec; [f_equal; lia|lia|exact Hv|]. u64_facts. lia.
Qed.

(** ** Big-endian integers *)

Lemma Z_of_byte_of_Z z : Z_of_byte (byte_of_Z z) = z `mod` 256.
Proof.
  unfold byte_of_Z, Z_of_byte. pose proof (Z.mod_pos_bound z 256 ltac:(lia)) as H.
  destruct (Byte.of_N _) as [b|] eqn:E.
  - apply Byte.to_of_N in E. rewrite E. lia.
  - apply Byte.of_N_None_iff in E. lia.
Qed.

Lemma be_bytes_length n v : length (be_bytes n v) = n.
Proof. induction n as [|n IH]; simpl; [done|]. by rewrite IH. Qed.

Lemma fold_be_app b acc :
  fold_left (λ acc x, acc * 256 + Z_of_byte x) b acc = acc * 256 ^ Z.of_nat (length b) + of_be b.
Proof.
  unfold of_be. revert acc. induction b as [|x b IH]; intros acc; simpl; [lia|].
  rewrite IH, (IH (0 * 256 + _)). rewrite Nat2Z.inj_succ, Z.pow_succ_r by lia. lia.
Qed.

Lemma of_be_be_bytes n v : of_be (be_bytes n v) = v `mod` 256 ^ Z.of_nat n.
Proof.
  induction n as [|n IH]; [by rewrite Z.mod_1_r|]. cbn [be_bytes].
  unfold of_be. cbn [fold_left]. rewrite fold_be_app, IH, be_bytes_length, Z_of_byte_of_Z.
  rewrite Nat2Z.inj_succ, Z.pow_succ_r, (Z.mul_comm 256) by lia.
  assert (0 < 256 ^ Z.of_nat n) by (apply Z.pow_pos_nonneg; lia).
  rewrite (Z.rem_mul_r v) by lia. lia.
Qed.

(** The counters, pins, floors and watermarks survive their encoding. *)
Lemma from_to_be_bytes v : 0 ≤ v < U64 → from_be_bytes (to_be_bytes v) = v.
Proof.
  intros Hv. unfold from_be_bytes, to_be_bytes. rewrite be_bytes_length. simpl Nat.eqb.
  cbv iota. rewrite of_be_be_bytes. by apply Z.mod_small.
Qed.

Lemma from_be_bytes_to v : from_be_bytes (to_be_bytes v) = v `mod` U64.
Proof.
  unfold from_be_bytes, to_be_bytes. rewrite be_bytes_length. simpl Nat.eqb. cbv iota.
  by rewrite of_be_be_bytes.
Qed.

Lemma from_as_bytes s : from_utf8 (as_bytes s) = s.
Proof. apply string_of_list_byte_of_string. Qed.

(** ** Suffixes *)

Lemma take_drop_chars n s : take_chars n s +:+ drop_chars n s = s.
Proof.
  revert s. induction n as [|n IH]; intros [|c s]; try done.
  change (String c (take_chars n s +:+ drop_chars n s) = String c s). by rewrite IH.
Qed.

Lemma take_chars_app a b : take_chars (String.length a) (a +:+ b) = a.
Proof.
  induction a as [|c a IH]; [by destruct b|].
  change (String c (take_chars (String.length a) (a +:+ b)) = String c a). by rewrite IH.
Qed.

Lemma drop_chars_app a b : drop_chars (String.length a) (a +:+ b) = b.
Proof. induction a as [|c a IH]; [by destruct b|]. exact IH. Qed.

Lemma strip_suffix_Some suf s r : strip_suffix suf s = Some r ↔ s = r +:+ suf.
Proof.
  unfold strip_suffix. split.
  - destruct (_ && _) eqn:E; [|done]. intros [= <-]. apply andb_true_iff in E as [_ E].
    apply String.eqb_eq in E. rewrite <-E at 2. by rewrite take_drop_chars.
  - intros ->. rewrite str_length_app, Nat.add_sub, drop_chars_app, take_chars_app, String.eqb_refl.
    by rewrite (proj2 (Nat.leb_le _ _)) by lia.
Qed.
