(* ===== verification/Slate.v ===== *)
(** * The SlateDB interface

    SlateDB is not part of the repository: it enters the development as the
    class [SlateDb] of the operations the crate calls and the class
    [SlateDbLaws] of what it documents about them -- point reads, ordered
    prefix scans with a suffix range, atomic write batches, and serializable
    snapshot transactions whose tracked keys must not have changed between
    [begin] and [commit].  [mem_slate] is an in-memory store that satisfies
    the laws (the backend the crate's own tests run on has the same shape). *)

From S2P Require Import Prelude Text.
Local Open Scope Z_scope.

(** A write of a batch: [Some v] puts, [None] deletes. *)
Abbreviation write := (string * option bytes)%type.

(** A transaction: the snapshot taken by [begin], the writes buffered so far
    (oldest first), the keys removed from conflict detection by
    [unmark_write], and the keys and prefixes read. *)
Record Txn (db : Type) := mkTxn {
  t_snap : db;
  t_writes : list write;
  t_unmarked : list string;
  t_reads : list string;
  t_scans : list string;
}.
Arguments mkTxn {db}.
Arguments t_snap {db}.
Arguments t_writes {db}.
Arguments t_unmarked {db}.
Arguments t_reads {db}.
Arguments t_scans {db}.

Class SlateDb := {
  db : Type;
  (** [Db::get] *)
  db_get : db → string → option bytes;
  (** [Db::scan_prefix(prefix, lo..hi)]: [lo] inclusive, [hi] exclusive, both
      relative to the prefix, [None] for an unbounded end. *)
  db_scan : db → string → option string → option string → list (string * bytes);
  (** An atomic write batch. *)
  db_apply : db → list write → db;
  (** The sequence number of the last committed batch. *)
  db_last_seq : db → Z;
  (** Conflict detection at commit against the current state. *)
  db_conflict : Txn db → db → bool;
}.

(** The last write to a key in a batch. *)
Fixpoint last_write (ws : list write) (k : string) : option (option bytes) :=
  match ws with
  | [] => None
  | (k', v) :: ws =>
      match last_write ws k with
      | Some w => Some w
      | None => if String.eqb k' k then Some v else None
      end
  end.

Definition in_bounds (lo hi : option string) (s : string) : Prop :=
  match lo with Some lo => str_leb lo s = true | None => True end ∧
  match hi with Some hi => str_ltb s hi = true | None => True end.

#[global] Instance in_bounds_dec lo hi s : Decision (in_bounds lo hi s).
Proof. unfold in_bounds. destruct lo, hi; apply _. Defined.

(** The keys a transaction's commit is checked on.  An unmarked key is not
    one of them: every writer of the one such key, [g/seq], unmarks it, so
    reading it never conflicts either. *)
Definition tracked {D} (t : Txn D) (k : string) : Prop :=
  (k ∉ t_unmarked t) ∧
  (k ∈ t_reads t ∨ k ∈ (t_writes t).*1 ∨ ∃ p s, p ∈ t_scans t ∧ k = p +:+ s).

Class SlateDbLaws `{SlateDb} : Prop := {
  db_get_apply d ws k :
    db_get (db_apply d ws) k = match last_write ws k with Some w => w | None => db_get d k end;
  db_scan_elem d p lo hi k v :
    (k, v) ∈ db_scan d p lo hi ↔ db_get d k = Some v ∧ ∃ s, k = p +:+ s ∧ in_bounds lo hi s;
  db_scan_sorted d p lo hi : StronglySorted str_lt (db_scan d p lo hi).*1;
  db_apply_seq d ws : ws ≠ [] → db_last_seq d < db_last_seq (db_apply d ws);
  db_conflict_clean t : db_conflict t (t_snap t) = false;
  db_conflict_sound t cur k :
    db_conflict t cur = false → tracked t k → db_get cur k = db_get (t_snap t) k;
}.

(** ** Transactions *)

Section txn.
Context `{SlateDb}.

Definition begin (d : db) : Txn db := mkTxn d [] [] [] [].

(** Reads inside a transaction see its own writes. *)
Definition view (t : Txn db) : db := db_apply (t_snap t) (t_writes t).

Definition txn_put (k : string) (v : bytes) (t : Txn db) : Txn db :=
  mkTxn (t_snap t) (t_writes t ++ [(k, Some v)]) (t_unmarked t) (t_reads t) (t_scans t).

Definition txn_delete (k : string) (t : Txn db) : Txn db :=
  mkTxn (t_snap t) (t_writes t ++ [(k, None)]) (t_unmarked t) (t_reads t) (t_scans t).

Definition txn_mark_read (k : string) (t : Txn db) : Txn db :=
  mkTxn (t_snap t) (t_writes t) (t_unmarked t) (k :: t_reads t) (t_scans t).

Definition txn_mark_scan (p : string) (t : Txn db) : Txn db :=
  mkTxn (t_snap t) (t_writes t) (t_unmarked t) (t_reads t) (p :: t_scans t).

Definition txn_unmark_write (k : string) (t : Txn db) : Txn db :=
  mkTxn (t_snap t) (t_writes t) (k :: t_unmarked t) (t_reads t) (t_scans t).

(** [commit] against the current state: [None] is the transaction-conflict
    error; otherwise the new state and the write handle's sequence number,
    which an empty batch does not have. *)
Definition txn_commit (t : Txn db) (cur : db) : option (db * option Z) :=
  if db_conflict t cur then None
  else match t_writes t with
       | [] => Some (cur, None)
       | ws => let d := db_apply cur ws in Some (d, Some (db_last_seq d))
       end.
End txn.

(** The order of the entries of a scan. *)
Definition entry_lt (x y : string * bytes) : Prop := str_lt x.1 y.1.

#[global] Instance entry_lt_irreflexive : Irreflexive entry_lt.
Proof. intros [k v] H. by apply (irreflexivity str_lt k). Qed.

#[global] Instance entry_lt_transitive : Transitive entry_lt.
Proof. intros [k1 v1] [k2 v2] [k3 v3]. unfold entry_lt; simpl. apply transitivity. Qed.

Lemma entries_sorted l : StronglySorted str_lt l.*1 ↔ StronglySorted entry_lt l.
Proof.
  split; [apply (StronglySorted_fmap_inv fst str_lt)|].
  by apply (StronglySorted_fmap fst entry_lt str_lt).
Qed.

(** A key lies in a range of a prefix. *)
Definition suffix_in (p : string) (lo hi : option string) (k : string) : Prop :=
  match strip_prefix p k with
  | Some s => in_bounds lo hi s
  | None => False
  end.

#[global] Instance suffix_in_dec p lo hi k : Decision (suffix_in p lo hi k).
Proof. unfold suffix_in. destruct (strip_prefix p k); apply _. Defined.

Lemma suffix_in_spec p lo hi k :
  suffix_in p lo hi k ↔ ∃ s, k = p +:+ s ∧ in_bounds lo hi s.
Proof.
  unfold suffix_in. destruct (strip_prefix p k) as [s|] eqn:E.
  - apply strip_prefix_Some in E as ->. split; [by eauto|].
    intros (s' & Heq & ?). by apply str_app_inj_l in Heq as ->.
  - split; [done|]. intros (s' & -> & _). by rewrite strip_prefix_app in E.
Qed.

(** ** Two states with the same contents are indistinguishable *)

Section equiv.
Context `{SlateDbLaws}.

#[global] Instance db_equiv : Equiv db := λ d1 d2, ∀ k, db_get d1 k = db_get d2 k.

#[global] Instance db_equivalence : Equivalence (≡@{db}).
Proof. split; [by intros ? ?|by intros ? ? ? ?|intros ? ? ? H1 H2 k; by rewrite (H1 k)]. Qed.

#[global] Instance db_get_proper : Proper ((≡) ==> (=) ==> (=)) db_get.
Proof. intros d1 d2 E k _ <-. apply E. Qed.

Lemma scan_fst_inj d p lo hi k v1 v2 :
  (k, v1) ∈ db_scan d p lo hi → (k, v2) ∈ db_scan d p lo hi → v1 = v2.
Proof. rewrite !db_scan_elem. intros [? _] [? _]. congruence. Qed.

(** A list that is sorted by key and has the right entries is the scan. *)
Lemma db_scan_unique d p lo hi l :
  StronglySorted str_lt l.*1 →
  (∀ k v, (k, v) ∈ l ↔ db_get d k = Some v ∧ ∃ s, k = p +:+ s ∧ in_bounds lo hi s) →
  db_scan d p lo hi = l.
Proof.
  intros Hs Hel.
  apply (StronglySorted_ext entry_lt).
  - apply entries_sorted, db_scan_sorted.
  - by apply entries_sorted.
  - intros [k v]. by rewrite db_scan_elem, Hel.
Qed.

#[global] Instance db_scan_proper : Proper ((≡) ==> (=) ==> (=) ==> (=) ==> (=)) db_scan.
Proof.
  intros d1 d2 E p _ <- lo _ <- hi _ <-. symmetry. apply db_scan_unique; [apply db_scan_sorted|].
  intros k v. by rewrite db_scan_elem, (E k).
Qed.

Lemma scan_equiv d1 d2 p lo hi : d1 ≡ d2 → db_scan d1 p lo hi = db_scan d2 p lo hi.
Proof. intros E. by apply db_scan_proper. Qed.

#[global] Instance db_apply_proper : Proper ((≡) ==> (=) ==> (≡)) db_apply.
Proof. intros d1 d2 E ws _ <- k. by rewrite !db_get_apply, (E k). Qed.

(** A bounded scan reads exactly the entries a full scan would keep after
    filtering: pushing the range down loses nothing. *)
Lemma db_scan_filter d p lo hi :
  db_scan d p lo hi =
    filter (λ kv, suffix_in p lo hi kv.1) (db_scan d p None None).
Proof.
  apply db_scan_unique.
  - apply entries_sorted, StronglySorted_filter, entries_sorted, db_scan_sorted.
  - intros k v. rewrite list_elem_of_filter, db_scan_elem, suffix_in_spec. simpl. split.
    + intros ((s & Hs & Hb) & Hg & _). eauto.
    + intros (Hg & s & -> & Hb). split; [by exists s|]. split; [done|]. by exists s.
Qed.
End equiv.

(** ** An in-memory store *)

Module MemSlate.

Record mem := mkMem { m_kvs : gmap string bytes; m_seq : Z }.

Definition m_write (m : gmap string bytes) (w : write) : gmap string bytes :=
  match w with
  | (k, Some v) => <[k := v]> m
  | (k, None) => delete k m
  end.

Definition m_apply (m : mem) (ws : list write) : mem :=
  mkMem (fold_left m_write ws (m_kvs m)) (m_seq m + 1).

Definition entry_le (x y : string * bytes) : Prop := str_le x.1 y.1.

#[global] Instance entry_le_dec : RelDecision entry_le.
Proof. intros x y. unfold entry_le. apply _. Defined.

Definition m_scan (m : mem) (p : string) (lo hi : option string) : list (string * bytes) :=
  merge_sort entry_le
    (filter (λ kv, suffix_in p lo hi kv.1) (map_to_list (m_kvs m))).

Definition same_at (m1 m2 : mem) (k : string) : bool := bool_decide (m_kvs m1 !! k = m_kvs m2 !! k).

Definition under (u : list string) (p : string) (m : mem) : gmap string bytes :=
  filter (λ kv, starts_with p kv.1 = true ∧ kv.1 ∉ u) (m_kvs m).

Definition same_under (u : list string) (m1 m2 : mem) (p : string) : bool :=
  bool_decide (under u p m1 = under u p m2).

Definition m_conflict (t : Txn mem) (cur : mem) : bool :=
  negb (forallb (same_at (t_snap t) cur)
          (filter (λ k, k ∉ t_unmarked t) (t_reads t ++ (t_writes t).*1)) &&
        forallb (same_under (t_unmarked t) (t_snap t) cur) (t_scans t)).

#[export] Instance mem_slate : SlateDb := {|
  db := mem;
  db_get := λ m k, m_kvs m !! k;
  db_scan := m_scan;
  db_apply := m_apply;
  db_last_seq := m_seq;
  db_conflict := m_conflict;
|}.

Definition mem_empty : db := mkMem ∅ 0.

Lemma fold_write_lookup ws m k :
  fold_left m_write ws m !! k = match last_write ws k with Some w => w | None => m !! k end.
Proof.
  revert m. induction ws as [|[k' [v|]] ws IH]; intros m; simpl; [done|..];
    rewrite IH; destruct (last_write ws k); try done;
    destruct (String.eqb_spec k' k) as [-> |]; by simplify_map_eq.
Qed.

#[export] Instance entry_le_transitive : Transitive entry_le.
Proof.
  intros [k1 v1] [k2 v2] [k3 v3]. unfold entry_le, str_le; simpl. rewrite !str_leb_lt_eq.
  intros [H1 | ->] [H2 | ->]; eauto. left. by trans k2.
Qed.

#[export] Instance entry_le_total : Total entry_le.
Proof.
  intros [k1 v1] [k2 v2]. unfold entry_le, str_le; simpl. rewrite !str_leb_lt_eq.
  destruct (str_lt_total k1 k2) as [? | [-> | ?]]; auto.
Qed.

Lemma sorted_le_lt l :
  NoDup l.*1 → StronglySorted entry_le l → StronglySorted str_lt l.*1.
Proof.
  induction l as [|[k v] l IH]; [constructor|]. rewrite fmap_cons.
  intros [Hk Hnd]%NoDup_cons [Hs Hall]%StronglySorted_inv. constructor; [by apply IH|].
  rewrite Forall_fmap, Forall_forall in *. intros [k' v'] Hin. simpl.
  pose proof (Hall (k', v') Hin) as Hle.
  unfold entry_le, str_le in Hle. simpl in Hle. apply str_leb_lt_eq in Hle as [? | ->]; [done|].
  exfalso. apply Hk. apply list_elem_of_fmap. by exists (k', v').
Qed.

#[export] Instance mem_slate_laws : SlateDbLaws.
Proof.
  split; simpl.
  - intros d ws k. apply fold_write_lookup.
  - intros d p lo hi k v. unfold m_scan. rewrite merge_sort_Permutation, list_elem_of_filter.
    rewrite suffix_in_spec, elem_of_map_to_list. simpl. tauto.
  - intros d p lo hi. unfold m_scan. apply sorted_le_lt.
    + rewrite (merge_sort_Permutation entry_le).
      apply NoDup_fmap_fst.
      * intros k v1 v2 [_ H1]%list_elem_of_filter [_ H2]%list_elem_of_filter.
        apply elem_of_map_to_list in H1, H2. congruence.
      * apply NoDup_filter, NoDup_map_to_list.
    + apply (StronglySorted_merge_sort entry_le).
  - intros d ws _. lia.
  - intros t. unfold m_conflict. apply negb_false_iff. rewrite !andb_true_iff, !forallb_forall.
    unfold same_at, same_under. repeat split; intros x _; by apply bool_decide_eq_true.
  - intros t cur k. unfold m_conflict. rewrite negb_false_iff, !andb_true_iff, !forallb_forall.
    unfold same_at, same_under. intros [HA HB] [Hu Hk]. symmetry.
    apply Logic.or_assoc in Hk. destruct Hk as [Hk | (p & s & Hp & ->)].
    + specialize (HA k). rewrite <-list_elem_of_In, list_elem_of_filter, elem_of_app in HA.
      specialize (HA (conj Hu Hk)). by apply bool_decide_eq_true_1 in HA.
    + apply list_elem_of_In in Hp. specialize (HB p Hp). apply bool_decide_eq_true_1 in HB.
      assert (∀ m, under (t_unmarked t) p m !! (p +:+ s) = m_kvs m !! (p +:+ s)) as Hf.
      { intros m. unfold under. rewrite map_lookup_filter.
        destruct (m_kvs m !! (p +:+ s)); [|done]. simpl.
        by rewrite option_guard_True by (split; [apply starts_with_app|done]). }
      by rewrite <-Hf, HB, Hf.
Qed.

End MemSlate.
