(* ===== verification/Types.v ===== *)
(** * Data model of the core crate

    Events, envelopes, errors and the records stored as values
    ([src/envelope.rs], [src/error.rs], [src/snapshot.rs], [src/jobs.rs],
    [src/fork.rs], [src/kv.rs]), with the serialization crates as parameters. *)

From S2P Require Import Prelude Text.
Local Open Scope Z_scope.

(** ** Events ([src/envelope.rs]) *)

Abbreviation Version := Z.

Inductive ExpectedVersion :=
| Any
| NoStream
| Exact (v : Version).

Record NewEvent := mkNewEvent {
  ne_type : string;
  ne_data : bytes;
  ne_metadata : list (string * bytes);
}.

(** [NewEvent::new] *)
Definition NewEvent_new (event_type : string) (data : bytes) : NewEvent :=
  mkNewEvent event_type data [].

Record Envelope := mkEnvelope {
  env_id : string;
  env_type : string;
  env_version : Version;
  env_seq : Z;
  env_data : bytes;
  env_metadata : list (string * bytes);
  env_ts_ms : Z;
}.

Record Event := mkEvent {
  ev_id : string;
  ev_type : string;
  ev_version : Version;
  ev_global_seq : Z;
  ev_data : bytes;
  ev_metadata : list (string * bytes);
  ev_ts_ms : Z;
}.

(** [Event::from_parts] *)
Definition from_parts (e : Envelope) : Event :=
  {| ev_id := env_id e;
     ev_type := env_type e;
     ev_version := env_version e;
     ev_global_seq := env_seq e;
     ev_data := env_data e;
     ev_metadata := env_metadata e;
     ev_ts_ms := env_ts_ms e |}.

(** What one API call draws from outside the program: the strings of
    successive [Ulid::new()] calls and the readings of the system clock
    (milliseconds since the epoch, [None] when the clock is before it). *)
Record Oracle := mkOracle {
  o_ulid : nat → string;
  o_clock : nat → option Z;
}.

(** [as i64] on a [u128]. *)
Definition as_i64 (z : Z) : Z :=
  let m := z `mod` U64 in if m <? 2 ^ 63 then m else m - U64.

(** [now_ms] *)
Definition now_ms (clock : option Z) : Z := map_or 0 as_i64 clock.

(** [Envelope::new]: the [i]-th event of the call. *)
Definition Envelope_new (o : Oracle) (i : nat) (e : NewEvent) (version : Version) : Envelope :=
  {| env_id := o_ulid o i;
     env_type := ne_type e;
     env_version := version;
     env_seq := 0;
     env_data := ne_data e;
     env_metadata := ne_metadata e;
     env_ts_ms := now_ms (o_clock o i) |}.

(** ** Stored records *)

(** [kv::TailRecord] *)
Record TailRecord := mkTail { tail_version : Version; tail_ts_ms : Z }.

(** [fork::ForkRef] *)
Record ForkRef := mkForkRef { fr_stream : string; fr_at_version : Version }.

(** [snapshot::SnapshotRecord] *)
Record SnapshotRecord := mkSnapshot {
  sn_through_version : Version;
  sn_ts_ms : Z;
  sn_state : bytes;
}.

(** [snapshot::CompactionRecord] *)
Record CompactionRecord := mkCompaction {
  cr_stream : string;
  cr_through_version : Version;
  cr_events_compacted : Z;
  cr_job_id : option string;
  cr_ts_ms : Z;
}.

(** [jobs::JobEvent] *)
Inductive JobEvent :=
| Requested (job_id stream : string) (ts_ms : Z)
| Claimed (job_id worker : string) (ts_ms : Z)
| JobFailed (job_id error : string) (ts_ms : Z).

(** [JobEvent::job_id] *)
Definition job_id_of (e : JobEvent) : string :=
  match e with
  | Requested j _ _ | Claimed j _ _ | JobFailed j _ _ => j
  end.

(** [jobs::JobStatus] *)
Inductive JobStatus :=
| StPending
| StClaimed (worker : string)
| StCompleted
| StFailed (error : string).

(** ** Errors ([src/error.rs])

    [InvalidInput] carries its call site's message as a constructor with the
    values the message formats. *)

Inductive reason :=
| ParentDoesNotExist (parent : string)
| CannotForkAt (parent : string) (tail at_version : Version)
| EmptyBatch
| BatchTooLarge (n : Z)
| RecordTooLarge (n : Z)
| BadVersionedKey
| NoEventsToCompact (stream : string)
| NotClaimable (job_id : string) (status : option JobStatus)
| ForkCycle (stream : string)
| NoSnapshotImpl
| NoRestoreImpl
| BucketIo
| NothingToCheckpoint
| BacklogPruned (vol : string)
| PrunedPastCheckpoint (vol : string) (from first through : Version)
| CodecFailed
| SqliteFailed
| NotReconstructable (target reached : Z)
| MirrorIo
| Vanished (path : string)
| Application (message : string).

Inductive backend_error :=
| TransactionConflict
| BackendClosed.

Inductive Error :=
| VersionConflict (stream : string) (expected : ExpectedVersion) (actual : option Version)
| FenceMismatch (stream current_token : string)
| Backend (e : backend_error)
| Encoding
| Bincode
| InvalidInput (r : reason)
(** Not a value of the Rust enum: the call panicked at the named operation. *)
| Panicked (operation : string).

Abbreviation R := (result Error).

(** ** Serialization

    [serde_json] and [bincode] are parameters: a pair of functions per type
    and the round trip they document for derived implementations. *)

Class Json (T : Type) := {
  to_vec : T → bytes;
  from_slice : bytes → option T;
}.

Class JsonLaw (T : Type) `{Json T} : Prop := {
  from_to_vec (x : T) : from_slice (to_vec x) = Some x;
}.

(** [NewEvent::json]; serializing a value of these types does not fail. *)
Definition NewEvent_json {T} `{Json T} (event_type : string) (value : T) : NewEvent :=
  NewEvent_new event_type (to_vec value).

(** [Event::json] *)
Definition Event_json (T : Type) `{Json T} (e : Event) : R T :=
  match from_slice (ev_data e) with Some x => Ok x | None => Err Encoding end.

Class Bincode_ (T : Type) := {
  bincode_serialize : T → bytes;
  bincode_deserialize : bytes → option T;
}.

(** A struct is its fields in order, and a [String] field its length as eight
    little-endian bytes and then its text: the first byte of an envelope is
    the low byte of the length of its id. *)
Class BincodeLaw `{Bincode_ Envelope} : Prop := {
  deserialize_serialize (e : Envelope) : bincode_deserialize (bincode_serialize e) = Some e;
  serialize_head (e : Envelope) :
    head (bincode_serialize e) = Some (byte_of_Z (Z.of_nat (String.length (env_id e))));
}.

(** The codecs the core crate uses. *)
Class Codecs := {
  #[global] codec_tail :: Json TailRecord;
  #[global] codec_fork :: Json ForkRef;
  #[global] codec_snap :: Json SnapshotRecord;
  #[global] codec_comp :: Json CompactionRecord;
  #[global] codec_job :: Json JobEvent;
  #[global] codec_env_json :: Json Envelope;
  #[global] codec_env_bin :: Bincode_ Envelope;
}.

Class CodecLaws `{Codecs} : Prop := {
  #[global] codec_tail_law :: JsonLaw TailRecord;
  #[global] codec_fork_law :: JsonLaw ForkRef;
  #[global] codec_snap_law :: JsonLaw SnapshotRecord;
  #[global] codec_comp_law :: JsonLaw CompactionRecord;
  #[global] codec_job_law :: JsonLaw JobEvent;
  #[global] codec_env_bin_law :: BincodeLaw;
}.

Section envelope_codec.
Context `{Codecs}.

Definition brace : byte := x7b.

(** [Envelope::encode] *)
Definition Envelope_encode (e : Envelope) : bytes := bincode_serialize e.

(** [Envelope::decode]: records written before the binary format start with
    an opening brace. *)
Definition Envelope_decode (b : bytes) : R Envelope :=
  if bool_decide (head b = Some brace)
  then match from_slice b with Some e => Ok e | None => Err Encoding end
  else match bincode_deserialize b with Some e => Ok e | None => Err Bincode end.
End envelope_codec.

(** ** What is assumed of the oracle

    A ULID is 26 characters of Crockford base 32; clock readings fit the key
    width. *)

Definition ulid_ok (s : string) : Prop := String.length s = 26%nat ∧ slash_free s.

Record oracle_ok (o : Oracle) : Prop := {
  oracle_ulid i : ulid_ok (o_ulid o i);
  oracle_clock i : 0 ≤ now_ms (o_clock o i) < KEY_MAX - 1;
}.

(** ** Decidable equality *)

#[global] Instance expected_eq_dec : EqDecision ExpectedVersion.
Proof. solve_decision. Defined.
#[global] Instance envelope_eq_dec : EqDecision Envelope.
Proof. solve_decision. Defined.
#[global] Instance event_eq_dec : EqDecision Event.
Proof. solve_decision. Defined.
#[global] Instance tail_eq_dec : EqDecision TailRecord.
Proof. solve_decision. Defined.
#[global] Instance fork_eq_dec : EqDecision ForkRef.
Proof. solve_decision. Defined.
#[global] Instance snapshot_eq_dec : EqDecision SnapshotRecord.
Proof. solve_decision. Defined.
#[global] Instance compaction_eq_dec : EqDecision CompactionRecord.
Proof. solve_decision. Defined.
#[global] Instance job_event_eq_dec : EqDecision JobEvent.
Proof. solve_decision. Defined.
#[global] Instance job_status_eq_dec : EqDecision JobStatus.
Proof. solve_decision. Defined.
#[global] Instance reason_eq_dec : EqDecision reason.
Proof. solve_decision. Defined.
#[global] Instance backend_error_eq_dec : EqDecision backend_error.
Proof. solve_decision. Defined.
#[global] Instance error_eq_dec : EqDecision Error.
Proof. solve_decision. Defined.

(** ** Round trip of the record format *)

Lemma length_brace n : byte_of_Z (Z.of_nat n) = brace → Z.of_nat n `mod` 256 = 123.
Proof. intros E. apply (f_equal Z_of_byte) in E. by rewrite Z_of_byte_of_Z in E. Qed.

Lemma Envelope_decode_encode `{CodecLaws} e :
  Z.of_nat (String.length (env_id e)) `mod` 256 ≠ 123 →
  Envelope_decode (Envelope_encode e) = Ok e.
Proof.
  intros Hid. unfold Envelope_decode, Envelope_encode.
  rewrite serialize_head, bool_decide_eq_false_2.
  - by rewrite deserialize_serialize.
  - intros [= E]. by apply length_brace in E.
Qed.

Lemma ulid_decodable s : ulid_ok s → Z.of_nat (String.length s) `mod` 256 ≠ 123.
Proof. intros [-> _]. done. Qed.

(** ** A concrete codec

    Every countable type has a byte encoding with a total inverse on its
    image; it instantiates the serialization parameters. *)

Module SampleCodec.

Fixpoint pos_bytes (p : positive) : bytes :=
  match p with
  | xH => []
  | xO p => x00 :: pos_bytes p
  | xI p => x01 :: pos_bytes p
  end.

Fixpoint bytes_pos (b : bytes) : positive :=
  match b with
  | [] => xH
  | x00 :: b => xO (bytes_pos b)
  | _ :: b => xI (bytes_pos b)
  end.

Lemma bytes_pos_bytes p : bytes_pos (pos_bytes p) = p.
Proof. induction p as [p IH|p IH|]; simpl; [by rewrite IH..|done]. Qed.

Definition json_of_countable T `{Countable T} : Json T := {|
  to_vec x := pos_bytes (encode x);
  from_slice b := decode (bytes_pos b);
|}.

Lemma json_of_countable_law T `{Countable T} : @JsonLaw T (json_of_countable T).
Proof. split. intros x. simpl. by rewrite bytes_pos_bytes, decode_encode. Qed.

#[export] Instance tail_countable : Countable TailRecord.
Proof.
  apply (inj_countable' (λ t, (tail_version t, tail_ts_ms t)) (λ p, mkTail p.1 p.2)). by intros [].
Defined.
#[export] Instance fork_countable : Countable ForkRef.
Proof.
  apply (inj_countable' (λ t, (fr_stream t, fr_at_version t)) (λ p, mkForkRef p.1 p.2)). by intros [].
Defined.
#[export] Instance snapshot_countable : Countable SnapshotRecord.
Proof.
  apply (inj_countable' (λ t, (sn_through_version t, sn_ts_ms t, sn_state t))
    (λ p, mkSnapshot p.1.1 p.1.2 p.2)). by intros [].
Defined.
#[export] Instance compaction_countable : Countable CompactionRecord.
Proof.
  apply (inj_countable'
    (λ t, (cr_stream t, cr_through_version t, cr_events_compacted t, cr_job_id t, cr_ts_ms t))
    (λ p, mkCompaction p.1.1.1.1 p.1.1.1.2 p.1.1.2 p.1.2 p.2)). by intros [].
Defined.
#[export] Instance job_event_countable : Countable JobEvent.
Proof.
  apply (inj_countable'
    (λ e, match e with
          | Requested j s t => (0%nat, j, s, t)
          | Claimed j s t => (1%nat, j, s, t)
          | JobFailed j s t => (2%nat, j, s, t)
          end)
    (λ p, match p.1.1.1 with
          | O => Requested p.1.1.2 p.1.2 p.2
          | S O => Claimed p.1.1.2 p.1.2 p.2
          | _ => JobFailed p.1.1.2 p.1.2 p.2
          end)). by intros [].
Defined.
#[export] Instance envelope_countable : Countable Envelope.
Proof.
  apply (inj_countable'
    (λ e, (env_id e, env_type e, env_version e, env_seq e, env_data e, env_metadata e, env_ts_ms e))
    (λ p, mkEnvelope p.1.1.1.1.1.1 p.1.1.1.1.1.2 p.1.1.1.1.2 p.1.1.1.2 p.1.1.2 p.1.2 p.2)).
  by intros [].
Defined.

#[export] Instance sample_bincode : Bincode_ Envelope := {|
  bincode_serialize e :=
    byte_of_Z (Z.of_nat (String.length (env_id e))) :: pos_bytes (encode e);
  bincode_deserialize b := match b with [] => None | _ :: b => decode (bytes_pos b) end;
|}.

#[export] Instance sample_codecs : Codecs := {|
  codec_tail := json_of_countable TailRecord;
  codec_fork := json_of_countable ForkRef;
  codec_snap := json_of_countable SnapshotRecord;
  codec_comp := json_of_countable CompactionRecord;
  codec_job := json_of_countable JobEvent;
  codec_env_json := json_of_countable Envelope;
  codec_env_bin := sample_bincode;
|}.

#[export] Instance sample_codec_laws : CodecLaws.
Proof.
  split; try apply json_of_countable_law.
  split; intros e; [|done]. simpl. by rewrite bytes_pos_bytes, decode_encode.
Qed.

(** An oracle with distinct, increasing ULIDs and a ticking clock, starting
    at [n]. *)
Definition sample_ulid (n : nat) : string := "0123456789" +:+ fixed_dec 16 (Z.of_nat n).
Definition sample_oracle (n : nat) : Oracle :=
  mkOracle (λ i, sample_ulid (n + i)) (λ i, Some (1000 + Z.of_nat ((n + i) `mod` 1000))).

Lemma sample_oracle_ok n : oracle_ok (sample_oracle n).
Proof.
  split; intros i; cbn [sample_oracle o_clock o_ulid].
  - split; [|].
    + unfold sample_ulid. by rewrite str_length_app, fixed_dec_length.
    + unfold slash_free, sample_ulid. rewrite has_slash_app.
      change (has_slash "0123456789") with false. apply fixed_dec_slash_free.
  - pose proof (Nat.mod_upper_bound (n + i) 1000 ltac:(lia)) as Hm. revert Hm.
    generalize ((n + i) `mod` 1000)%nat. intros k Hk. unfold now_ms, as_i64. cbn [map_or].
    rewrite Z.mod_small by (rewrite U64_eq; lia). rewrite KEY_MAX_eq.
    change (2 ^ 63) with 9223372036854775808.
    destruct (Z.ltb_spec (1000 + Z.of_nat k) 9223372036854775808); lia.
Qed.
End SampleCodec.
