(* ===== verification/Keys.v ===== *)
(** * Key layout ([src/kv.rs], first half)

    The functions that render keys, and the inverse view: every key the
    program writes is the rendering of a structured [Key], whose components
    between slashes determine it.  The theorems here are what the rest of the
    development needs from the layout: distinct structured keys have distinct
    renderings, a prefix scan returns exactly one family of keys, and numeric
    order of versions is byte order of keys -- the latter up to [KEY_MAX]. *)

From S2P Require Import Prelude Text Types.
Local Open Scope Z_scope.
Local Open Scope string_scope.

(** ** Rendering *)

Definition r_prefix (stream : string) : string := "r/" +:+ stream +:+ "/".

Definition r_key (stream : string) (version : Version) : string :=
  "r/" +:+ stream +:+ "/" +:+ fmt016 version.

Definition m_key (stream field : string) : string := "m/" +:+ stream +:+ "/" +:+ field.

Definition ts_key (stream : string) (ts_ms : Z) (version : Version) : string :=
  "i/" +:+ stream +:+ "/" +:+ fmt016 ts_ms +:+ "/" +:+ fmt016 version.

(** The prefix [seek_timestamp] scans. *)
Definition ts_prefix (stream : string) : string := "i/" +:+ stream +:+ "/".

Definition snap_prefix (stream : string) : string := "snap/" +:+ stream +:+ "/".

Definition COMPACTIONS_PREFIX : string := "j/compactions/".
Definition SEQ_KEY : string := "g/seq".
Definition JOBS_PREFIX : string := "j/jobs/".

(** [version_suffix]: parses the last 16 bytes; the slice panics on a shorter
    key. *)
Definition version_suffix (key : string) : R Version :=
  if Nat.ltb (String.length key) 16 then Err (Panicked "version_suffix")
  else match parse_u64 (drop_chars (String.length key - 16) key) with
       | Some v => Ok v
       | None => Err (InvalidInput BadVersionedKey)
       end.

(** ** Structured keys *)

Inductive Key :=
| KRec (stream : string) (version : Version)
| KTail (stream : string)
| KFence (stream : string)
| KTrim (stream : string)
| KDeleted (stream : string)
| KFork (stream : string)
| KPin (stream child : string)
| KRollback (stream : string) (from : Version)
| KTs (stream : string) (ts_ms : Z) (version : Version)
| KSnap (stream : string) (seq : Z)
| KCompaction (ulid : string)
| KJob (ulid : string)
| KSeq.

Definition comps (k : Key) : list string :=
  match k with
  | KRec s v => ["r"; s; fmt016 v]
  | KTail s => ["m"; s; "tail"]
  | KFence s => ["m"; s; "fence"]
  | KTrim s => ["m"; s; "trim"]
  | KDeleted s => ["m"; s; "deleted"]
  | KFork s => ["m"; s; "fork"]
  | KPin s c => ["m"; s; "forks"; c]
  | KRollback s v => ["m"; s; "rollback"; fmt016 v]
  | KTs s ts v => ["i"; s; fmt016 ts; fmt016 v]
  | KSnap s q => ["snap"; s; fmt016 q]
  | KCompaction u => ["j"; "compactions"; u]
  | KJob u => ["j"; "jobs"; u]
  | KSeq => ["g"; "seq"]
  end.

Definition render (k : Key) : string := join (comps k).

(** Numbers below the width of a key, and those whose successor still is. *)
Definition key_lim (v : Z) : Prop := 0 ≤ v < KEY_MAX.
Definition key_num (v : Z) : Prop := 0 ≤ v < KEY_MAX - 1.

Lemma key_num_lim v : key_num v → key_lim v.
Proof. unfold key_num, key_lim. lia. Qed.
#[export] Hint Resolve key_num_lim : landslide.

(** Bounds of numbers in keys, by assumption. *)
Ltac key_bound := solve [eassumption | apply key_num_lim; eassumption].

(** Names carry no slash and numbers fit sixteen digits. *)
Definition key_ok (k : Key) : Prop :=
  match k with
  | KRec s v | KRollback s v | KSnap s v => slash_free s ∧ key_num v
  | KTail s | KFence s | KTrim s | KDeleted s | KFork s => slash_free s
  | KPin s c => slash_free s ∧ slash_free c
  | KTs s ts v => slash_free s ∧ key_num ts ∧ key_num v
  | KCompaction u | KJob u => slash_free u
  | KSeq => True
  end.

#[global] Instance Key_eq_dec : EqDecision Key.
Proof. solve_decision. Defined.

(** ** The rendering functions are [render] *)

Lemma render_rec s v : r_key s v = render (KRec s v).
Proof. reflexivity. Qed.
Lemma render_ts s ts v : ts_key s ts v = render (KTs s ts v).
Proof. reflexivity. Qed.
Lemma render_tail s : m_key s "tail" = render (KTail s).
Proof. reflexivity. Qed.
Lemma render_fence s : m_key s "fence" = render (KFence s).
Proof. reflexivity. Qed.
Lemma render_trim s : m_key s "trim" = render (KTrim s).
Proof. reflexivity. Qed.
Lemma render_deleted s : m_key s "deleted" = render (KDeleted s).
Proof. reflexivity. Qed.
Lemma render_fork s : m_key s "fork" = render (KFork s).
Proof. reflexivity. Qed.
Lemma render_pin s c : m_key s ("forks/" +:+ c) = render (KPin s c).
Proof. reflexivity. Qed.
Lemma render_rollback s v : m_key s ("rollback/" +:+ fmt016 v) = render (KRollback s v).
Proof. reflexivity. Qed.
Lemma render_snap s q : snap_prefix s +:+ fmt016 q = render (KSnap s q).
Proof. unfold snap_prefix, render. simpl. by rewrite !str_app_assoc. Qed.
Lemma render_seq : SEQ_KEY = render KSeq.
Proof. reflexivity. Qed.

Definition render_rules :=
  (render_rec, render_ts, render_tail, render_fence, render_trim, render_deleted, render_fork,
   render_pin, render_rollback, render_snap, render_seq).

(** ** Distinct keys render differently *)

Lemma comps_ne k : comps k ≠ [].
Proof. by destruct k. Qed.

Lemma comps_slash_free k : key_ok k → Forall slash_free (comps k).
Proof.
  destruct k; simpl; intros Hk; repeat match goal with H : _ ∧ _ |- _ => destruct H end;
    repeat constructor; try done; by apply fmt016_slash_free, key_num_lim.
Qed.

Lemma comps_inj k1 k2 : key_ok k1 → key_ok k2 → comps k1 = comps k2 → k1 = k2.
Proof.
  destruct k1, k2; simpl; intros H1 H2 E;
    repeat match goal with H : _ ∧ _ |- _ => destruct H end; try discriminate E;
    simplify_eq; try done; repeat f_equal; apply fmt016_inj; try apply key_num_lim; done.
Qed.

Lemma render_inj k1 k2 : key_ok k1 → key_ok k2 → render k1 = render k2 → k1 = k2.
Proof.
  intros H1 H2 E. apply comps_inj; [done..|].
  apply join_inj; auto using comps_ne, comps_slash_free.
Qed.

(** ** A prefix selects one family *)

Lemma render_extends k ps suf :
  key_ok k → ps ≠ [] → Forall slash_free ps → render k = (join ps +:+ "/") +:+ suf →
  ∃ rest, rest ≠ [] ∧ comps k = (ps ++ rest)%list ∧ suf = join rest.
Proof.
  intros Hk Hps Hsf E. apply join_prefix; [done|done|by apply comps_slash_free|done].
Qed.

Ltac family ps :=
  intros Hk; intros;
  match goal with E : render ?k = _ |- _ =>
    destruct (render_extends k ps _ Hk ltac:(done) ltac:(repeat constructor; done) E)
      as (rest & Hrest & Hc & ->);
    destruct k; simpl in Hc; try discriminate Hc; simplify_eq; eauto
  end.

Lemma rec_family k s suf :
  key_ok k → slash_free s → render k = r_prefix s +:+ suf → ∃ v, k = KRec s v ∧ suf = fmt016 v.
Proof. family ["r"; s]. Qed.

Lemma ts_family k s suf :
  key_ok k → slash_free s → render k = ts_prefix s +:+ suf →
  ∃ ts v, k = KTs s ts v ∧ suf = fmt016 ts +:+ "/" +:+ fmt016 v.
Proof. family ["i"; s]. Qed.

Lemma snap_family k s suf :
  key_ok k → slash_free s → render k = snap_prefix s +:+ suf → ∃ q, k = KSnap s q ∧ suf = fmt016 q.
Proof. family ["snap"; s]. Qed.

Lemma compaction_family k suf :
  key_ok k → render k = COMPACTIONS_PREFIX +:+ suf → ∃ u, k = KCompaction u ∧ suf = u.
Proof. family ["j"; "compactions"]. Qed.

Lemma job_family k suf : key_ok k → render k = JOBS_PREFIX +:+ suf → ∃ u, k = KJob u ∧ suf = u.
Proof. family ["j"; "jobs"]. Qed.

Lemma m_key_join s f : m_key s (f +:+ "/") = join ["m"; s; f] +:+ "/".
Proof. unfold m_key. simpl. by rewrite !str_app_assoc. Qed.

Lemma pin_family k s suf :
  key_ok k → slash_free s → render k = m_key s "forks/" +:+ suf → ∃ c, k = KPin s c ∧ suf = c.
Proof. change "forks/" with ("forks" +:+ "/"). rewrite m_key_join. family ["m"; s; "forks"]. Qed.

Lemma rollback_family k s suf :
  key_ok k → slash_free s → render k = m_key s "rollback/" +:+ suf →
  ∃ v, k = KRollback s v ∧ suf = fmt016 v.
Proof.
  change "rollback/" with ("rollback" +:+ "/"). rewrite m_key_join. family ["m"; s; "rollback"].
Qed.

(** ** Versions in keys *)

Lemma version_suffix_app p v : key_lim v → version_suffix (p +:+ fmt016 v) = Ok v.
Proof.
  intros Hv. unfold version_suffix. rewrite str_length_app, fmt016_length by done.
  destruct (Nat.ltb_spec (String.length p + 16) 16); [lia|].
  replace (String.length p + 16 - 16)%nat with (String.length p) by lia.
  by rewrite drop_chars_app, parse_fmt016.
Qed.

Lemma version_suffix_rec s v : key_lim v → version_suffix (r_key s v) = Ok v.
Proof. intros. unfold r_key. rewrite <-!str_app_assoc. by apply version_suffix_app. Qed.

Lemma version_suffix_rollback s v :
  key_lim v → version_suffix (render (KRollback s v)) = Ok v.
Proof.
  intros. change (render (KRollback s v)) with ("m/" +:+ s +:+ "/rollback/" +:+ fmt016 v).
  rewrite <-!str_app_assoc. by apply version_suffix_app.
Qed.

Lemma version_suffix_ts s ts v : key_lim v → version_suffix (ts_key s ts v) = Ok v.
Proof. intros. unfold ts_key. rewrite <-!str_app_assoc. by apply version_suffix_app. Qed.

Lemma r_key_ltb s v w : key_lim v → key_lim w → str_ltb (r_key s v) (r_key s w) = (v <? w)%Z.
Proof. intros. unfold r_key. rewrite <-!str_app_assoc, str_ltb_app_cancel. by apply fmt016_ltb. Qed.

Lemma r_key_lt s v w : key_lim v → key_lim w → str_lt (r_key s v) (r_key s w) ↔ (v < w)%Z.
Proof. intros. unfold str_lt. rewrite r_key_ltb by done. apply Z.ltb_lt. Qed.
