(* ===== verification/Kv.v ===== *)
(** * Read primitives ([src/kv.rs], second half)

    [read_events] and its guards, the tail, snapshot and fork lookups.  The
    section's theorems say what a guarded, range-bounded read returns in terms
    of the stream's log, the list of the envelopes stored for it. *)

From S2P Require Import Prelude Text Slate Types Keys.
Local Open Scope Z_scope.

(** [std::ops::Bound] and [store::bounds]. *)
Inductive Bound :=
| Included (v : Version)
| Excluded (v : Version)
| Unbounded.

Definition bounds (range : Bound * Bound) : Version * option Version :=
  let lo := match range.1 with
            | Included v => v
            | Excluded v => u64_add v 1
            | Unbounded => 0
            end in
  let hi := match range.2 with
            | Included v => Some (u64_add v 1)
            | Excluded v => Some v
            | Unbounded => None
            end in
  (lo, hi).

Section reads.
Context `{SlateDb} `{Codecs}.

Definition get_be (d : db) (key : string) : option Z := from_be_bytes <$> db_get d key.

Definition opt_json {T} `{Json T} (b : option bytes) : R (option T) :=
  match b with
  | None => Ok None
  | Some b => match from_slice b with
              | Some x => Ok (Some x)
              | None => Err Encoding
              end
  end.

Definition get_json {T} `{Json T} (d : db) (key : string) : R (option T) :=
  opt_json (db_get d key).

Definition tail (d : db) (stream : string) : R (option TailRecord) :=
  get_json d (m_key stream "tail").

Definition fork_ref (d : db) (stream : string) : R (option ForkRef) :=
  get_json d (m_key stream "fork").

Definition latest_snapshot (d : db) (stream : string) : R (option SnapshotRecord) :=
  match last (db_scan d (snap_prefix stream) None None) with
  | None => Ok None
  | Some (_, value) => match from_slice value with
                       | Some r => Ok (Some r)
                       | None => Err Encoding
                       end
  end.

(** The child a pin key names. *)
Definition pin_child (key : string) : string := after_last_slash key.

Definition is_deleted (d : db) (stream : string) : bool :=
  is_some (db_get d (m_key stream "deleted")).

Definition ceiling_step (d : db) (ceiling : option Version) (kv : string * bytes) : option Version :=
  if is_deleted d (pin_child kv.1) then ceiling
  else let at_ := from_be_bytes kv.2 in Some (map_or at_ (λ c, Z.max c at_) ceiling).

Definition ceiling (d : db) (stream : string) : option Version :=
  fold_left (ceiling_step d) (db_scan d (m_key stream "forks/") None None) None.

Definition rollbacks (d : db) (stream : string) : R (list (Version * Z)) :=
  collect ((λ kv : string * bytes, let? v := version_suffix kv.1 in Ok (v, from_be_bytes kv.2))
             <$> db_scan d (m_key stream "rollback/") None None).

Definition rolled_back (rbs : list (Version * Z)) (e : Envelope) : bool :=
  existsb (λ rb, (rb.1 <=? env_version e) && (rb.2 <? env_seq e)) rbs.

(** The guards of the scan loop of [read_events]. *)
Definition skipped (lo : Version) (hi : option Version) (deleted : bool) (ceil : option Version)
    (rbs : list (Version * Z)) (e : Envelope) : bool :=
  (env_version e <? lo) || map_or false (λ hi, hi <=? env_version e) hi
  || (deleted && negb (map_or false (λ c, env_version e <=? c) ceil))
  || rolled_back rbs e.

Fixpoint read_loop (skip : Envelope → bool) (kvs : list (string * bytes)) : R (list Event) :=
  match kvs with
  | [] => Ok []
  | (_, value) :: kvs =>
      let? env := Envelope_decode value in
      if skip env then read_loop skip kvs
      else let? rest := read_loop skip kvs in Ok (from_parts env :: rest)
  end.

Definition read_events (d : db) (stream : string) (range : Bound * Bound) : R (list Event) :=
  let '(lo, hi) := bounds range in
  let floor := default 0 (get_be d (m_key stream "trim")) in
  let deleted := is_deleted d stream in
  let ceil := if deleted then ceiling d stream else None in
  let? rbs := rollbacks d stream in
  let lo := Z.max lo floor in
  if map_or false (λ hi, hi <=? lo) hi then Ok []
  else read_loop (skipped lo hi deleted ceil rbs)
         (db_scan d (r_prefix stream) (Some (fmt016 lo)) (fmt016 <$> hi)).

(** ** Abstraction: the log of a stream *)

(** The envelope stored at a version. *)
Definition stored (d : db) (s : string) (v : Version) : option Envelope :=
  b ← db_get d (r_key s v);
  match Envelope_decode b with Ok e => Some e | Err _ => None end.

Definition decode_entry (kv : string * bytes) : option Envelope :=
  match Envelope_decode kv.2 with Ok e => Some e | Err _ => None end.

(** Every envelope stored for a stream, in key order. *)
Definition log (d : db) (s : string) : list Envelope :=
  omap decode_entry (db_scan d (r_prefix s) None None).

Definition floor_of (d : db) (s : string) : Version := default 0 (get_be d (m_key s "trim")).

(** The rollback windows of a stream, read without the error channel. *)
Definition windows (d : db) (s : string) : list (Version * Z) :=
  omap (λ kv : string * bytes,
    match version_suffix kv.1 with Ok v => Some (v, from_be_bytes kv.2) | Err _ => None end)
    (db_scan d (m_key s "rollback/") None None).

(** What the guards let through, range aside. *)
Definition visible (d : db) (s : string) (e : Envelope) : bool :=
  (floor_of d s <=? env_version e)
  && (negb (is_deleted d s) || map_or false (λ c, env_version e <=? c) (ceiling d s))
  && negb (rolled_back (windows d s) e).

Definition in_window (lo : Version) (hi : option Version) (e : Envelope) : bool :=
  (lo <=? env_version e) && map_or true (λ hi, env_version e <? hi) hi.

(** ** Well-formed contents *)

Definition val_ok (k : Key) (b : bytes) : Prop :=
  match k with
  | KRec s v => ∃ e, Envelope_decode b = Ok e ∧ env_version e = v
  | KTail s => ∃ t, from_slice b = Some t ∧ key_num (tail_version t) ∧ key_num (tail_ts_ms t)
  | KTrim s => key_lim (from_be_bytes b)
  | KPin s _ => key_num (from_be_bytes b)
  | KSeq => 0 ≤ from_be_bytes b < U64
  | KFork s => ∃ f, from_slice b = Some f ∧ slash_free (fr_stream f) ∧ key_num (fr_at_version f)
  | KSnap s _ => ∃ r : SnapshotRecord, from_slice b = Some r ∧ key_num (sn_through_version r)
  | KCompaction _ => ∃ r : CompactionRecord, from_slice b = Some r
  | KJob _ => ∃ e : JobEvent, from_slice b = Some e
  | KFence _ | KDeleted _ | KRollback _ _ | KTs _ _ _ => True
  end.

(** Every key is the rendering of a structured key and its value decodes. *)
Definition shaped (d : db) : Prop :=
  ∀ k b, db_get d k = Some b → ∃ K, k = render K ∧ key_ok K ∧ val_ok K b.
End reads.

(** Order of a stream's log. *)
Definition version_lt (e f : Envelope) : Prop := env_version e < env_version f.

#[global] Instance version_lt_irreflexive : Irreflexive version_lt.
Proof. intros e. unfold version_lt, complement. lia. Qed.

#[global] Instance version_lt_transitive : Transitive version_lt.
Proof. intros e f g. unfold version_lt. lia. Qed.

Section read_laws.
Context `{SlateDbLaws} `{CodecLaws}.

Lemma db_scan_rec d s lo hi k b :
  shaped d → slash_free s → (k, b) ∈ db_scan d (r_prefix s) lo hi →
  ∃ v e, k = r_key s v ∧ key_num v ∧ db_get d k = Some b ∧ Envelope_decode b = Ok e
         ∧ env_version e = v ∧ in_bounds lo hi (fmt016 v).
Proof.
  intros Hsh Hs. rewrite db_scan_elem. intros (Hg & suf & -> & Hb).
  destruct (Hsh _ _ Hg) as (K & HK & Hok & Hv).
  destruct (rec_family K s suf Hok Hs (eq_sym HK)) as (v & -> & ->).
  destruct Hok as [_ Hnum], Hv as (e & He & Hev).
  exists v, e. by split_and!.
Qed.

Lemma in_bounds_window lo hi e :
  key_lim lo → from_option key_lim True hi → key_num (env_version e) →
  in_bounds (Some (fmt016 lo)) (fmt016 <$> hi) (fmt016 (env_version e)) ↔ in_window lo hi e = true.
Proof.
  intros Hlo Hhi Hv. unfold in_bounds, in_window. rewrite andb_true_iff, fmt016_leb by key_bound.
  destruct hi as [hi|]; simpl in *; [|tauto]. by rewrite fmt016_ltb by key_bound.
Qed.

Lemma stored_version d s v e : shaped d → slash_free s → key_num v →
  stored d s v = Some e → env_version e = v.
Proof.
  intros Hsh Hs Hv. unfold stored. destruct (db_get d (r_key s v)) as [b|] eqn:E; [|done]. simpl.
  destruct (Hsh _ _ E) as (K & HK & Hok & Hval).
  assert (K = KRec s v) as ->.
  { apply render_inj; [done|done|]. by rewrite <-HK. }
  destruct Hval as (e' & -> & ?). naive_solver.
Qed.

Lemma log_elem d s e : shaped d → slash_free s →
  e ∈ log d s ↔ key_num (env_version e) ∧ stored d s (env_version e) = Some e.
Proof.
  intros Hsh Hs. unfold log. rewrite list_elem_of_omap. split.
  - intros ([k b] & Hin & He). destruct (db_scan_rec d s _ _ k b Hsh Hs Hin)
      as (v & e' & -> & Hv & Hg & Hd & Hve & _).
    unfold decode_entry in He. cbn [snd] in He. rewrite Hd in He. simplify_eq.
    split; [done|]. unfold stored. rewrite Hg. simpl. by rewrite Hd.
  - intros [Hv Hst]. unfold stored in Hst.
    destruct (db_get d (r_key s (env_version e))) as [b|] eqn:Hg; [|done]. simpl in Hst.
    exists (r_key s (env_version e), b). split; [|done]. apply db_scan_elem.
    split; [done|]. exists (fmt016 (env_version e)).
    split; [unfold r_key, r_prefix; by rewrite !str_app_assoc|done].
Qed.

Lemma log_sorted d s : shaped d → slash_free s → StronglySorted version_lt (log d s).
Proof.
  intros Hsh Hs. unfold log. apply (omap_sorted _ entry_lt); [|apply entries_sorted, db_scan_sorted].
  intros [k1 b1] [k2 b2] e1 e2 Hi1 Hi2 He1 He2 Hlt.
  destruct (db_scan_rec d s _ _ k1 b1 Hsh Hs Hi1) as (v1 & e1' & -> & Hv1 & _ & Hd1 & Hve1 & _).
  destruct (db_scan_rec d s _ _ k2 b2 Hsh Hs Hi2) as (v2 & e2' & -> & Hv2 & _ & Hd2 & Hve2 & _).
  unfold decode_entry in He1, He2. cbn [snd] in *. rewrite Hd1 in He1. rewrite Hd2 in He2.
  simplify_eq. unfold entry_lt in Hlt. cbn [fst] in Hlt.
  apply r_key_lt in Hlt; [done|by apply key_num_lim..].
Qed.

(** A stream's log is determined by the versions stored. *)
Lemma log_unique d s l :
  shaped d → slash_free s → StronglySorted version_lt l →
  (∀ e, e ∈ l ↔ key_num (env_version e) ∧ stored d s (env_version e) = Some e) → log d s = l.
Proof.
  intros Hsh Hs Hl Hel. apply (StronglySorted_ext version_lt); [by apply log_sorted|done|].
  intros e. by rewrite log_elem, Hel.
Qed.

Lemma log_ext d1 d2 s :
  shaped d1 → shaped d2 → slash_free s →
  (∀ v, key_num v → stored d1 s v = stored d2 s v) → log d1 s = log d2 s.
Proof.
  intros Hsh1 Hsh2 Hs Heq. apply log_unique; [done|done|by apply log_sorted|].
  intros e. rewrite log_elem by done. split; intros [Hv E]; split; [done| |done|].
  - by rewrite Heq.
  - by rewrite <-Heq.
Qed.

Lemma read_loop_Ok skip kvs :
  (∀ kv, kv ∈ kvs → ∃ e, Envelope_decode kv.2 = Ok e) →
  read_loop skip kvs = Ok (from_parts <$> filter (λ e, skip e = false) (omap decode_entry kvs)).
Proof.
  induction kvs as [|[k b] kvs IH]; intros Hd; [done|]. cbn [read_loop omap list_omap].
  unfold decode_entry at 1. cbn [snd].
  destruct (Hd (k, b) (list_elem_of_here _ _)) as [e He]. cbn [snd] in He. rewrite He. cbn [rbind].
  rewrite IH by (intros kv Hkv; apply Hd; by right). rewrite filter_cons.
  destruct (skip e) eqn:E; [by rewrite decide_False by congruence|]. by rewrite decide_True.
Qed.

Lemma rollbacks_Ok d s : shaped d → slash_free s → rollbacks d s = Ok (windows d s).
Proof.
  intros Hsh Hs. unfold rollbacks, windows.
  assert (∀ kv, kv ∈ db_scan d (m_key s "rollback/") None None →
    ∃ v, version_suffix kv.1 = Ok v) as Hall.
  { intros [k b] (Hg & suf & -> & _)%db_scan_elem. destruct (Hsh _ _ Hg) as (K & HK & Hok & _).
    destruct (rollback_family K s suf Hok Hs (eq_sym HK)) as (v & -> & ->). exists v. simpl.
    rewrite HK. apply version_suffix_rollback. by apply key_num_lim, Hok. }
  induction (db_scan d (m_key s "rollback/") None None) as [|[k b] l IH]; [done|].
  rewrite fmap_cons. cbn [collect omap list_omap fst snd].
  destruct (Hall (k, b) (list_elem_of_here _ _)) as [v Hv]. cbn [fst] in Hv. rewrite Hv.
  cbn [rbind]. rewrite IH by (intros kv Hkv; apply Hall; by right). done.
Qed.

(** Pins, floors and the deletion mark of a read are those of the log's owner:
    a bounded read is the unbounded log, filtered. *)
Lemma read_events_log d s range lo hi :
  shaped d → slash_free s → bounds range = (lo, hi) →
  key_lim lo → from_option key_lim True hi → key_lim (floor_of d s) →
  read_events d s range =
    Ok (from_parts <$>
        filter (λ e, in_window lo hi e = true ∧ visible d s e = true) (log d s)).
Proof.
  intros Hsh Hs Hb Hlo Hhi Hfl. unfold read_events. rewrite Hb, rollbacks_Ok by done.
  cbn [rbind]. fold (floor_of d s). set (lo' := Z.max lo (floor_of d s)).
  assert (key_lim lo') as Hlo' by (unfold lo', key_lim in *; lia).
  destruct (map_or false (λ hi, hi <=? lo') hi) eqn:Ehi.
  { destruct hi as [hi|]; [|done]. simpl in Ehi. apply Z.leb_le in Ehi.
    rewrite filter_none; [done|]. intros e _ [Hw Hvis]. unfold in_window, visible in *. simpl in *.
    rewrite !andb_true_iff, Z.leb_le, Z.ltb_lt in Hw. rewrite !andb_true_iff, Z.leb_le in Hvis.
    unfold lo' in *. lia. }
  rewrite read_loop_Ok.
  2: { intros [k b] Hin. destruct (db_scan_rec d s _ _ k b Hsh Hs Hin) as (v & e & ? & ? & ? & ? & ?).
       by exists e. }
  do 2 f_equal. rewrite db_scan_filter.
  rewrite (omap_filter _ _ (λ e, in_window lo' hi e = true)).
  2: { intros [k b] e Hin He. destruct (db_scan_rec d s _ _ k b Hsh Hs Hin)
         as (v & e' & -> & Hv & _ & Hd & Hve & _).
       unfold decode_entry in He. cbn [snd fst] in *. rewrite Hd in He. simplify_eq.
       rewrite <-(in_bounds_window lo' hi) by done. rewrite suffix_in_spec.
       unfold r_key, r_prefix. rewrite <-!str_app_assoc. split; [|by eauto].
       intros (suf & Heq & ?). by apply str_app_inj_l in Heq as ->. }
  fold (log d s). rewrite list_filter_filter. apply filter_ext_in.
  intros e _. unfold skipped, in_window, visible. fold (floor_of d s).
  set (c := map_or false (λ c, env_version e <=? c) (ceiling d s)).
  set (r := rolled_back (windows d s) e).
  transitivity (lo' ≤ env_version e ∧ map_or True (λ hi, env_version e < hi) hi
                ∧ (is_deleted d s = true → c = true) ∧ r = false).
  - destruct (is_deleted d s), hi as [hi|], r; simpl; fold c; destruct c; simpl;
      rewrite ?orb_false_iff, ?andb_true_iff, ?Z.ltb_ge, ?Z.leb_gt, ?Z.leb_le, ?Z.ltb_lt;
      intuition (congruence || lia).
  - destruct (is_deleted d s), hi as [hi|], r, c; simpl; unfold lo';
      rewrite ?andb_true_iff, ?Z.leb_le, ?Z.ltb_lt; intuition (congruence || lia).
Qed.
End read_laws.
