(* ===== verification/Fork.v ===== *)
(** * Fork-chain resolution ([src/fork.rs])

    [resolve_history] walks the fork references of a stream, intersecting the
    requested range with each segment of the chain.  The recursion of the
    source is bounded only by its [visited] set; here it takes fuel and
    returns [None] when that runs out, and [resolve_total] shows that one more
    than the number of metadata keys is always enough, cyclic data
    included. *)

From S2P Require Import Prelude Text Slate Types Keys Kv.
Local Open Scope Z_scope.

Section resolve.
Context `{SlateDb} `{Codecs}.

(** The upper end of the parent's contribution. *)
Definition parent_hi (hi : option Version) (at_version : Version) : Version :=
  map_or (u64_add at_version 1) (λ hi, Z.min hi (u64_add at_version 1)) hi.

Definition own_range (lo : Version) (hi : option Version) : Bound * Bound :=
  (Included lo, map_or Unbounded Excluded hi).

Definition empty_range (lo : Version) (hi : option Version) : bool :=
  map_or false (λ hi, hi <=? lo) hi.

Fixpoint resolve_fuel (fuel : nat) (d : db) (stream : string) (visited : gset string)
    (lo : Version) (hi : option Version) : option (R (list Event)) :=
  match fuel with
  | O => None
  | S fuel =>
      if empty_range lo hi then Some (Ok [])
      else if bool_decide (stream ∈ visited) then Some (Err (InvalidInput (ForkCycle stream)))
      else
        let visited := {[stream]} ∪ visited in
        match fork_ref d stream with
        | Err e => Some (Err e)
        | Ok f =>
            events ← match f with
                     | None => Some (Ok [])
                     | Some f =>
                         let phi := parent_hi hi (fr_at_version f) in
                         if lo <? phi
                         then resolve_fuel fuel d (fr_stream f) visited lo (Some phi)
                         else Some (Ok [])
                     end;
            Some (let? events := events in
                  let? own := read_events d stream (own_range lo hi) in
                  Ok (events ++ own))
        end
  end.

Definition resolve_history (d : db) (stream : string) (lo : Version) (hi : option Version) :
    R (list Event) :=
  match resolve_fuel (S (length (db_scan d "m/" None None))) d stream ∅ lo hi with
  | Some r => r
  | None => Err (Panicked "resolve_history")
  end.
End resolve.

(** ** The fuel is enough *)

Section termination.
Context `{SlateDbLaws} `{CodecLaws}.

(** Metadata keys that are not the fork reference of a visited stream. *)
Definition unvisited (d : db) (visited : gset string) : list string :=
  filter (λ k, Forall (λ s, k ≠ m_key s "fork") (elements visited)) (db_scan d "m/" None None).*1.

Lemma str_app_inj_r (suf a b : string) : a +:+ suf = b +:+ suf → a = b.
Proof.
  revert b. induction a as [|c a IH]; intros [|c' b]; rewrite ?str_app_cons; intros E; [done|..].
  - apply (f_equal String.length) in E. simpl in E. rewrite ?str_length_app in E. simpl in E. lia.
  - apply (f_equal String.length) in E. simpl in E. rewrite ?str_length_app in E. simpl in E. lia.
  - injection E as -> E. f_equal. by apply IH.
Qed.

Lemma m_key_fork_inj s t : m_key s "fork" = m_key t "fork" → s = t.
Proof. unfold m_key. intros E%str_app_inj_l. by apply str_app_inj_r in E. Qed.

Lemma filter_length_le {A} (P Q : A → Prop) `{∀ x, Decision (P x)} `{∀ x, Decision (Q x)}
    (l : list A) :
  (∀ x, P x → Q x) → (length (filter P l) ≤ length (filter Q l))%nat.
Proof.
  intros HPQ. induction l as [|x l IH]; [done|]. rewrite !filter_cons.
  repeat case_decide; simpl; try lia. exfalso. eauto.
Qed.

Lemma filter_length_lt {A} (P Q : A → Prop) `{∀ x, Decision (P x)} `{∀ x, Decision (Q x)}
    (l : list A) y :
  (∀ x, P x → Q x) → y ∈ l → Q y → ¬ P y → (length (filter P l) < length (filter Q l))%nat.
Proof.
  intros HPQ Hin HQ HP. induction l as [|x l IH]; [by apply not_elem_of_nil in Hin|].
  rewrite !filter_cons. apply elem_of_cons in Hin as [<- | Hin].
  - rewrite decide_False, decide_True by done. simpl.
    pose proof (filter_length_le P Q l HPQ). lia.
  - specialize (IH Hin). repeat case_decide; simpl; try lia. exfalso. eauto.
Qed.

Lemma unvisited_shrinks d s visited f :
  fork_ref d s = Ok (Some f) → s ∉ visited →
  (length (unvisited d ({[s]} ∪ visited)) < length (unvisited d visited))%nat.
Proof.
  intros Hf Hs. unfold unvisited. apply (filter_length_lt _ _ _ (m_key s "fork")).
  - intros k. rewrite !Forall_forall. set_solver.
  - unfold fork_ref, get_json, opt_json in Hf. destruct (db_get d (m_key s "fork")) as [b|] eqn:E; [|done].
    apply list_elem_of_fmap. exists (m_key s "fork", b). split; [done|]. apply db_scan_elem.
    split; [done|]. by exists (s +:+ "/" +:+ "fork").
  - apply Forall_forall. intros x Hx E. apply m_key_fork_inj in E as <-. set_solver.
  - rewrite Forall_forall. intros Hall. apply (Hall s); set_solver.
Qed.

Lemma resolve_fuel_enough d fuel s visited lo hi :
  (length (unvisited d visited) < fuel)%nat → is_Some (resolve_fuel fuel d s visited lo hi).
Proof.
  revert s visited lo hi. induction fuel as [|fuel IH]; intros s visited lo hi Hfuel; [lia|].
  cbn [resolve_fuel]. destruct (empty_range lo hi); [eauto|].
  case_bool_decide as Hv; [eauto|].
  destruct (fork_ref d s) as [[f|]|e] eqn:Hf; [|eauto..].
  pose proof (unvisited_shrinks d s visited f Hf Hv) as Hlt.
  destruct (lo <? parent_hi hi (fr_at_version f)); [|simpl; eauto].
  destruct (IH (fr_stream f) ({[s]} ∪ visited) lo (Some (parent_hi hi (fr_at_version f))))
    as [r ->]; [lia|]. simpl. eauto.
Qed.

Lemma resolve_total d s visited lo hi :
  is_Some (resolve_fuel (S (length (db_scan d "m/" None None))) d s visited lo hi).
Proof.
  apply resolve_fuel_enough. unfold unvisited.
  pose proof (length_filter (λ k, Forall (λ s, k ≠ m_key s "fork") (elements visited))
    (db_scan d "m/" None None).*1) as Hle.
  rewrite length_fmap in Hle. lia.
Qed.

(** More fuel does not change the result. *)
Lemma resolve_fuel_mono d n m s visited lo hi r :
  (n ≤ m)%nat → resolve_fuel n d s visited lo hi = Some r → resolve_fuel m d s visited lo hi = Some r.
Proof.
  revert m s visited lo hi r. induction n as [|n IH]; intros m s visited lo hi r Hle; [done|].
  destruct m as [|m]; [lia|]. cbn [resolve_fuel]. destruct (empty_range lo hi); [done|].
  case_bool_decide; [done|]. destruct (fork_ref d s) as [[f|]|e]; [|done..].
  destruct (lo <? parent_hi hi (fr_at_version f)); [|done].
  destruct (resolve_fuel n d (fr_stream f) _ _ _) as [r'|] eqn:E; [|done].
  rewrite (IH m (fr_stream f) _ _ _ r'); [done|lia|done].
Qed.

Lemma resolve_history_fuel d n s lo hi r :
  resolve_fuel n d s ∅ lo hi = Some r → resolve_history d s lo hi = r.
Proof.
  intros E. unfold resolve_history.
  destruct (resolve_total d s ∅ lo hi) as [r' Hr']. rewrite Hr'.
  apply (resolve_fuel_mono _ _ (Nat.max n (S (length (db_scan d "m/" None None))))) in E; [|lia].
  eapply (resolve_fuel_mono _ _ (Nat.max n (S (length (db_scan d "m/" None None))))) in Hr'; [|lia].
  congruence.
Qed.
End termination.
