(* ===== verification/Store.v ===== *)
(** * The event store ([src/store.rs])

    Every operation of [EventStore], over an abstract SlateDB.  A transaction
    body is a function of the transaction it runs in ([TM]); [run_txn] begins
    it on one state and commits it on another, which is the same one unless
    other writers committed in between: [interf] is what they did.  The clock and
    the ULID generator are the argument [o]; the status updates the durability
    barrier waits on are the argument [watch]. *)

From S2P Require Import Prelude Text Slate Types Keys Kv Fork.
Local Open Scope Z_scope.

Definition MAX_BATCH_RECORDS : Z := 1000.
Definition COMMIT_RETRIES : nat := 8.
Definition MAX_RECORD_BYTES : Z := 2 ^ 20.
Definition PURGE_CHUNK : nat := 1024.

Record CommitInfo := mkInfo {
  first_version : Version;
  last_version : Version;
  start_sequence : Z;
}.

Record CommitTicket := mkTicket {
  ticket_info : CommitInfo;
  ticket_seq : Z;
}.

Record PageLimit := mkLimit {
  max_count : Z;
  max_bytes : Z;
}.

Inductive Op :=
| OpAppend (stream : string) (expected : ExpectedVersion) (events : list NewEvent)
| OpFence (stream : string) (token : option string).

(** [Transaction]: the queued operations, and the two builder methods. *)
Abbreviation Transaction := (list Op).
Definition transaction : Transaction := [].
Definition tx_append (ops : Transaction) stream expected events : Transaction :=
  ops ++ [OpAppend stream expected events].
Definition tx_fence (ops : Transaction) stream token : Transaction :=
  ops ++ [OpFence stream token].

(** [slatedb::DbStatus], as far as the barrier reads it. *)
Record DbStatus := mkStatus { durable_seq : Z; closed : bool }.

(** [Aggregate] *)
Class Aggregate (A : Type) := {
  agg_default : A;
  agg_apply : A → Event → A;
  agg_snapshot : A → R bytes;
  agg_restore : bytes → R A;
}.

(** The trait's default [snapshot] and [restore]. *)
Definition no_snapshot {A} (_ : A) : R bytes := Err (InvalidInput NoSnapshotImpl).
Definition no_restore {A} (_ : bytes) : R A := Err (InvalidInput NoRestoreImpl).

(** [jobs::fold] *)
Definition job_status_of (e : JobEvent) : JobStatus :=
  match e with
  | Requested _ _ _ => StPending
  | Claimed _ worker _ => StClaimed worker
  | JobFailed _ error _ => StFailed error
  end.

Definition job_fold (events : list JobEvent) : option JobStatus :=
  fold_left (λ _ e, Some (job_status_of e)) events None.

(** [check_batch] *)
Definition check_batch (events : list NewEvent) : R unit :=
  if MAX_BATCH_RECORDS <? Z.of_nat (length events)
  then Err (InvalidInput (BatchTooLarge (Z.of_nat (length events))))
  else match List.find (λ e, MAX_RECORD_BYTES <? Z.of_nat (length (ne_data e))) events with
       | Some e => Err (InvalidInput (RecordTooLarge (Z.of_nat (length (ne_data e)))))
       | None => Ok tt
       end.

(** [tail_commit_info] *)
Definition tail_commit_info (tail : option TailRecord) : CommitInfo :=
  let v := map_or 0 tail_version tail in
  {| first_version := v; last_version := v; start_sequence := 0 |}.

Section store.
Context `{SlateDb} `{Codecs}.

(** ** Transaction bodies *)

Definition TM (A : Type) : Type := Txn db → R (A * Txn db).

Definition tret {A} (a : A) : TM A := λ t, Ok (a, t).
Definition terr {A} (e : Error) : TM A := λ _, Err e.
Definition tbind {A B} (c : TM A) (f : A → TM B) : TM B :=
  λ t, match c t with
       | Ok (a, t) => f a t
       | Err e => Err e
       end.
Definition tlift {A} (r : R A) : TM A := λ t, let? a := r in Ok (a, t).
Definition tget (k : string) : TM (option bytes) :=
  λ t, Ok (db_get (view t) k, txn_mark_read k t).
Definition tscan (p : string) : TM (list (string * bytes)) :=
  λ t, Ok (db_scan (view t) p None None, txn_mark_scan p t).
Definition tput (k : string) (v : bytes) : TM unit := λ t, Ok (tt, txn_put k v t).
Definition tdelete (k : string) : TM unit := λ t, Ok (tt, txn_delete k t).

Local Notation "'let!' x := c 'in' k" := (tbind c (λ x, k))
  (at level 10, x pattern, c at level 100, k at level 200).
Local Notation "c ;;; k" := (tbind c (λ _, k)) (at level 100, right associativity).

(** [kv::tail], [kv::get_be] on a transaction. *)
Definition txn_tail (stream : string) : TM (option TailRecord) :=
  let! b := tget (m_key stream "tail") in tlift (opt_json b).
Definition txn_get_be (key : string) : TM (option Z) :=
  let! b := tget key in tret (from_be_bytes <$> b).

(** [begin], the body, [commit]. *)
Definition run_txn {A} (interf : db → db) (body : TM A) (d : db) : R (A * option Z) * db :=
  match body (begin d) with
  | Err e => (Err e, interf d)
  | Ok (a, t) =>
      match txn_commit t (interf d) with
      | None => (Err (Backend TransactionConflict), interf d)
      | Some (d', h) => (Ok (a, h), d')
      end
  end.

(** ** Append *)

(** The loop of [replay_append] over the batch, from its [i]-th event. *)
Fixpoint put_events (o : Oracle) (stream : string) (first start_seq : Z) (index_ts : bool)
    (i : nat) (last_ts : Z) (events : list NewEvent) : TM Z :=
  match events with
  | [] => tret last_ts
  | e :: events =>
      let version := u64_add first (Z.of_nat i) in
      let env := Envelope_new o i e version in
      let env := {| env_id := env_id env; env_type := env_type env; env_version := env_version env;
                    env_seq := u64_add start_seq (Z.of_nat i);
                    env_data := env_data env; env_metadata := env_metadata env;
                    env_ts_ms := Z.max (env_ts_ms env) last_ts |} in
      tput (r_key stream version) (Envelope_encode env) ;;;
      (if index_ts then tput (ts_key stream (env_ts_ms env) version) [] else tret tt) ;;;
      put_events o stream first start_seq index_ts (S i) (env_ts_ms env) events
  end.

Definition expected_matches (expected : ExpectedVersion) (current : option Version) : bool :=
  match expected with
  | Any => true
  | NoStream => negb (is_some current)
  | Exact v => bool_decide (current = Some v)
  end.

(** The fence check of [replay_append]. *)
Definition check_fence (stream : string) (fence_token : option string) : TM unit :=
  match fence_token with
  | None => tret tt
  | Some token =>
      let! b := tget (m_key stream "fence") in
      match b with
      | None => tret tt
      | Some b =>
          let current_token := from_utf8 b in
          if String.eqb current_token token then tret tt
          else terr (FenceMismatch stream current_token)
      end
  end.

(** [replay_append]: returns the new value of the sequence cursor with the
    commit info. *)
Definition replay_append (o : Oracle) (seq : Z) (stream : string) (expected : ExpectedVersion)
    (from_version : option Version) (fence_token : option string) (events : list NewEvent)
    (index_ts : bool) : TM (CommitInfo * Z) :=
  let! tail := txn_tail stream in
  let current := tail_version <$> tail in
  check_fence stream fence_token ;;;
  if negb (expected_matches expected current)
  then terr (VersionConflict stream expected current)
  else match events with
  | [] => terr (InvalidInput EmptyBatch)
  | _ =>
      let first := default (map_or 0 (λ v, u64_add v 1) current) from_version in
      let n := Z.of_nat (length events) in
      let last := u64_add first (n - 1) in
      let start_seq := u64_add seq 1 in
      let! last_ts := put_events o stream first start_seq index_ts 0
                        (map_or 0 tail_ts_ms tail) events in
      let seq := u64_add start_seq (n - 1) in
      let tail := {| tail_version := map_or last (λ c, Z.max c last) current;
                     tail_ts_ms := last_ts |} in
      tput (m_key stream "tail") (to_vec tail) ;;;
      tret ({| first_version := first; last_version := last; start_sequence := start_seq |}, seq)
  end.

(** [commit_seq] *)
Definition commit_seq (t : Txn db) (seq : Z) (cur : db) : option (db * option Z) :=
  txn_commit (txn_unmark_write SEQ_KEY (txn_put SEQ_KEY (to_be_bytes seq) t)) cur.

(** One attempt of [commit_appends]: the replayed transaction before commit. *)
Definition append_body (o : Oracle) (stream : string) (expected : ExpectedVersion)
    (from_version : option Version) (fence_token : option string) (events : list NewEvent)
    (index_ts : bool) : TM (CommitInfo * Z) :=
  let! seq := txn_get_be SEQ_KEY in
  replay_append o (default 0 seq) stream expected from_version fence_token events index_ts.

(** The loop of [commit_appends]: [retries] attempts remain after this one,
    [attempt] have been made. *)
Fixpoint commit_loop (o : nat → Oracle) (interf : nat → db → db) (retries attempt : nat)
    (stream : string) (expected : ExpectedVersion) (from_version : option Version)
    (fence_token : option string) (events : list NewEvent) (index_ts : bool) (d : db) :
    R CommitTicket * db :=
  match append_body (o attempt) stream expected from_version fence_token events index_ts (begin d) with
  | Err e => (Err e, d)
  | Ok ((info, seq), t) =>
      let cur := interf attempt d in
      match commit_seq t seq cur with
      | Some (d', Some wal_seq) => (Ok {| ticket_info := info; ticket_seq := wal_seq |}, d')
      | Some (d', None) => (Err (Panicked "append always writes"), d')
      | None =>
          match retries with
          | S retries =>
              commit_loop o interf retries (S attempt) stream expected from_version fence_token
                events index_ts cur
          | O =>
              (match tail cur stream with
               | Ok t => Err (VersionConflict stream expected (tail_version <$> t))
               | Err e => Err e
               end, cur)
          end
      end
  end.

Definition commit_appends (o : nat → Oracle) (interf : nat → db → db)
    (stream : string) (expected : ExpectedVersion) (from_version : option Version)
    (fence_token : option string) (events : list NewEvent) (index_ts : bool) (d : db) :
    R CommitTicket * db :=
  match check_batch events with
  | Err e => (Err e, d)
  | Ok _ => commit_loop o interf COMMIT_RETRIES 0 stream expected from_version fence_token
              events index_ts d
  end.

Definition append_lazy o interf stream expected events d : R CommitTicket * db :=
  commit_appends o interf stream expected None None events true d.

Definition append o interf stream expected events d : R CommitInfo * db :=
  let '(r, d) := append_lazy o interf stream expected events d in (rmap ticket_info r, d).

Definition append_at o interf stream from_version expected events d : R CommitInfo * db :=
  let '(r, d) := commit_appends o interf stream expected (Some from_version) None events true d in
  (rmap ticket_info r, d).

Definition append_with_token o interf stream token expected events d : R CommitInfo * db :=
  let '(r, d) := commit_appends o interf stream expected None (Some token) events true d in
  (rmap ticket_info r, d).

Definition append_with_token_lazy o interf stream token expected events index_ts d :
    R CommitTicket * db :=
  commit_appends o interf stream expected None (Some token) events index_ts d.

(** ** Durability *)

(** [await_seq]: [watch] is the sequence of statuses the subscription sees
    before its sender is dropped. *)
Definition await_seq (watch : list DbStatus) (seq : Z) : R unit :=
  match List.find (λ s, (seq <=? durable_seq s) || closed s) watch with
  | None => Err (Backend BackendClosed)
  | Some s => if durable_seq s <? seq then Err (Backend BackendClosed) else Ok tt
  end.

Definition await_durable (watch : list DbStatus) (ticket : CommitTicket) : R unit :=
  await_seq watch (ticket_seq ticket).

(** [append_durable] and [append_with_token_durable]: the wait, then the info. *)
Definition durably (watch : list DbStatus) (r : R CommitTicket * db) : R CommitInfo * db :=
  (let? t := r.1 in let? _ := await_durable watch t in Ok (ticket_info t), r.2).

Definition append_durable o interf watch stream expected events d : R CommitInfo * db :=
  durably watch (append_lazy o interf stream expected events d).

Definition append_with_token_durable o interf watch stream token expected events d :
    R CommitInfo * db :=
  durably watch (append_with_token_lazy o interf stream token expected events true d).

(** ** Fence, fork, trim, delete *)

Definition replay_fence (stream : string) (token : option string) : TM unit :=
  let key := m_key stream "fence" in
  match token with
  | Some "" | None => tdelete key
  | Some t => tput key (as_bytes t)
  end.

Definition fence_body (stream : string) (token : option string) : TM (option TailRecord) :=
  let! tail := txn_tail stream in replay_fence stream token ;;; tret tail.

Definition fence (interf : db → db) (watch : list DbStatus) (stream : string) (token : option string) (d : db) :
    R CommitInfo * db :=
  let '(r, d) := run_txn interf (fence_body stream token) d in
  (let? (tail, handle) := r in
   let? _ := match handle with Some h => await_seq watch h | None => Ok tt end in
   Ok (tail_commit_info tail), d).

Definition fork_body (parent : string) (at_version : Version) (child : string) : TM unit :=
  let! parent_tail := txn_tail parent in
  match parent_tail with
  | None => terr (InvalidInput (ParentDoesNotExist parent))
  | Some parent_tail =>
      if tail_version parent_tail <? at_version
      then terr (InvalidInput (CannotForkAt parent (tail_version parent_tail) at_version))
      else
        let! child_tail := txn_tail child in
        match child_tail with
        | Some t => terr (VersionConflict child NoStream (Some (tail_version t)))
        | None =>
            tput (m_key child "fork")
              (to_vec {| fr_stream := parent; fr_at_version := at_version |}) ;;;
            tput (m_key child "tail")
              (to_vec {| tail_version := at_version; tail_ts_ms := tail_ts_ms parent_tail |}) ;;;
            tput (m_key parent ("forks/" +:+ child)) (to_be_bytes at_version)
        end
  end.

Definition fork (interf : db → db) (parent : string) (at_version : Version) (child : string)
    (d : db) : R unit * db :=
  let '(r, d) := run_txn interf (fork_body parent at_version child) d in (rmap fst r, d).

Definition trim_body (stream : string) (from_version : Version) (txn : Z) :
    TM (option TailRecord) :=
  let! tail := txn_tail stream in
  tput (m_key stream ("rollback/" +:+ fmt016 from_version)) (to_be_bytes txn) ;;;
  tret tail.

Definition trim (interf : db → db) (stream : string) (from_version : Version) (txn : Z) (d : db) :
    R CommitInfo * db :=
  let '(r, d) := run_txn interf (trim_body stream from_version txn) d in
  (rmap (λ p, tail_commit_info p.1) r, d).

Definition trim_below_body (stream : string) (floor : Version) : TM (option TailRecord) :=
  let! tail := txn_tail stream in
  let! old := txn_get_be (m_key stream "trim") in
  let floor := Z.max (Z.min floor (map_or u64_max (λ t, u64_add (tail_version t) 1) tail))
                     (default 0 old) in
  tput (m_key stream "trim") (to_be_bytes floor) ;;;
  tret tail.

Definition trim_below (interf : db → db) (stream : string) (floor : Version) (d : db) :
    R CommitInfo * db :=
  let '(r, d) := run_txn interf (trim_below_body stream floor) d in
  (rmap (λ p, tail_commit_info p.1) r, d).

(** One transaction of [purge_below]. *)
Fixpoint delete_keys (keys : list string) : TM unit :=
  match keys with
  | [] => tret tt
  | k :: keys => tdelete k ;;; delete_keys keys
  end.

(** The loop of [purge_below]; [None] when the fuel runs out. *)
Fixpoint purge_loop (fuel : nat) (stream : string) (floor next : Version) (purged : Z) (d : db) :
    option (R Z * db) :=
  match fuel with
  | O => None
  | S fuel =>
      if next <? floor then
        let entries := db_scan d (r_prefix stream) (Some (fmt016 next)) (Some (fmt016 floor)) in
        let keys := (firstn PURGE_CHUNK entries).*1 in
        match last keys with
        | None => Some (Ok purged, d)
        | Some k =>
            match version_suffix k with
            | Err e => Some (Err e, d)
            | Ok last_version =>
                match run_txn (λ d, d) (delete_keys keys) d with
                | (Err e, d) => Some (Err e, d)
                | (Ok _, d) =>
                    purge_loop fuel stream floor (u64_add last_version 1)
                      (u64_add purged (Z.of_nat (length keys))) d
                end
            end
        end
      else Some (Ok purged, d)
  end.

Definition purge_below (stream : string) (floor : Version) (d : db) : R Z * db :=
  let pin_floor := map_or 0 (λ c, u64_add c 1) (ceiling d stream) in
  match purge_loop (S (length (db_scan d (r_prefix stream) None None)))
          stream floor pin_floor 0 d with
  | Some r => r
  | None => (Err (Panicked "purge_below"), d)
  end.

(** Whether there is a stream to delete; without one the transaction is
    dropped. *)
Definition delete_body (stream : string) : TM bool :=
  let! tail := txn_tail stream in
  match tail with
  | Some _ => tput (m_key stream "deleted") [] ;;; tret true
  | None => tret false
  end.

Definition delete_stream (interf : db → db) (stream : string) (d : db) : R unit * db :=
  match delete_body stream (begin d) with
  | Err e => (Err e, interf d)
  | Ok (false, _) => (Ok tt, interf d)
  | Ok (true, _) =>
      let '(r, d) := run_txn interf (delete_body stream) d in (rmap (λ _, tt) r, d)
  end.

(** ** Reads *)

Definition read_stream (d : db) (stream : string) (range : Bound * Bound) : R (list Event) :=
  read_events d stream range.

Definition read_history (d : db) (stream : string) (range : Bound * Bound) : R (list Event) :=
  let '(lo, hi) := bounds range in resolve_history d stream lo hi.

Definition stream_version (d : db) (stream : string) : R (option Version) :=
  let? t := tail d stream in Ok (tail_version <$> t).

Definition check_tail (d : db) (stream : string) : R (option (Version * Z)) :=
  let? t := tail d stream in Ok ((λ t, (tail_version t, tail_ts_ms t)) <$> t).

Definition read_tail (d : db) (stream : string) (n : Z) : R (list Event) :=
  let? t := tail d stream in
  match t with
  | None => Ok []
  | Some t =>
      let start := saturating_sub (u64_add (tail_version t) 1) n in
      read_events d stream (Included start, Unbounded)
  end.

(** The loop of [read_page]: the page built so far, its payload bytes, and
    whether the stream was drained. *)
Fixpoint page_loop (limit : PageLimit) (out : list Event) (nbytes : Z) (events : list Event) :
    list Event * bool :=
  match events with
  | [] => (out, true)
  | e :: events =>
      let len := Z.of_nat (length (ev_data e)) in
      if negb (bool_decide (out = []))
         && ((max_count limit <=? Z.of_nat (length out)) || (max_bytes limit <? nbytes + len))
      then (out, false)
      else page_loop limit (out ++ [e]) (nbytes + len) events
  end.

Definition read_page (d : db) (stream : string) (from_version : Version) (limit : PageLimit) :
    R (list Event * option Version) :=
  let? events := read_events d stream (Included from_version, Unbounded) in
  let '(out, drained) := page_loop limit [] 0 events in
  let cursor := if drained then None else (λ e, u64_add (ev_version e) 1) <$> last out in
  Ok (out, cursor).

Definition seek_timestamp (d : db) (stream : string) (ts_ms : Z) : R (option Version) :=
  match head (db_scan d (ts_prefix stream) (Some (fmt016 ts_ms)) None) with
  | None => Ok None
  | Some kv => let? v := version_suffix kv.1 in Ok (Some v)
  end.

(** [fold]: the state and the last version folded. *)
Definition fold_events {T} (apply : T → Event → T) (init : T) (events : list Event) :
    T * option Version :=
  fold_left (λ acc e, (apply acc.1 e, Some (ev_version e))) events (init, None).

Definition fold {T} (d : db) (stream : string) (range : Bound * Bound) (init : T)
    (apply : T → Event → T) : R (T * option Version) :=
  let '(lo, hi) := bounds range in
  let? events := resolve_history d stream lo hi in
  Ok (fold_events apply init events).

Definition rehydrate (A : Type) `{Aggregate A} (d : db) (stream : string) :
    R (A * option Version) :=
  let? snap := latest_snapshot d stream in
  match snap with
  | Some s =>
      let? init := agg_restore (sn_state s) in
      let? (a, tail) := fold d stream (Included (u64_add (sn_through_version s) 1), Unbounded)
                           init agg_apply in
      Ok (a, match tail with Some v => Some v | None => Some (sn_through_version s) end)
  | None => fold d stream (Included 0, Unbounded) agg_default agg_apply
  end.

(** ** Snapshots and compaction *)

Definition publish_body (o : Oracle) (stream : string) (record : CompactionRecord) (state : bytes) :
    TM Z :=
  let! cur := txn_get_be SEQ_KEY in
  let seq := u64_add (default 0 cur) 1 in
  tput (snap_prefix stream +:+ fmt016 seq)
    (to_vec {| sn_through_version := cr_through_version record;
               sn_ts_ms := cr_ts_ms record; sn_state := state |}) ;;;
  tput (COMPACTIONS_PREFIX +:+ o_ulid o 0) (to_vec record) ;;;
  tret seq.

Definition publish_snapshot (o : Oracle) (interf : db → db) (watch : list DbStatus) (stream : string)
    (record : CompactionRecord) (state : bytes) (d : db) : R unit * db :=
  match publish_body o stream record state (begin d) with
  | Err e => (Err e, interf d)
  | Ok (seq, t) =>
      match commit_seq t seq (interf d) with
      | None => (Err (Backend TransactionConflict), interf d)
      | Some (d', Some wal_seq) => (await_seq watch wal_seq, d')
      | Some (d', None) => (Ok tt, d')
      end
  end.

Definition compact_inner (o : Oracle) (interf : db → db) (watch : list DbStatus) (stream : string)
    (job_id : option string) (build : list Event → R bytes) (d : db) : R CompactionRecord * db :=
  match (let? events := read_history d stream (Included 0, Unbounded) in
         let? state := build events in
         match last events with
         | None => Err (InvalidInput (NoEventsToCompact stream))
         | Some l =>
             Ok ({| cr_stream := stream; cr_through_version := ev_version l;
                    cr_events_compacted := Z.of_nat (length events); cr_job_id := job_id;
                    cr_ts_ms := now_ms (o_clock o 0) |}, state)
         end) with
  | Err e => (Err e, d)
  | Ok (record, state) =>
      let '(r, d) := publish_snapshot o interf watch stream record state d in
      (let? _ := r in Ok record, d)
  end.

Definition compact_with o interf watch stream build d : R CompactionRecord * db :=
  compact_inner o interf watch stream None build d.

Definition compact_job o interf watch stream job_id build d : R CompactionRecord * db :=
  compact_inner o interf watch stream (Some job_id) build d.

Definition compact (A : Type) `{Aggregate A} o interf watch stream d : R CompactionRecord * db :=
  compact_with o interf watch stream
    (λ events, agg_snapshot (fold_left agg_apply events (agg_default : A))) d.

(** ** Compaction jobs *)

(** [Db::put]: a batch of one write. *)
Definition db_put (k : string) (v : bytes) (d : db) : db := db_apply d [(k, Some v)].

Definition job_key (o : Oracle) (i : nat) : string := JOBS_PREFIX +:+ o_ulid o i.

Definition write_job (o : Oracle) (i : nat) (event : JobEvent) (d : db) : db :=
  db_put (job_key o i) (to_vec event) d.

Definition request_compaction (o : Oracle) (stream : string) (d : db) : R string * db :=
  let job_id := o_ulid o 0 in
  (Ok job_id, write_job o 1 (Requested job_id stream (now_ms (o_clock o 0))) d).

(** [job_events] over the entries of a scan of the journal. *)
Fixpoint job_events_of (job_id : string) (kvs : list (string * bytes)) : R (list JobEvent) :=
  match kvs with
  | [] => Ok []
  | (_, value) :: kvs =>
      match from_slice value with
      | None => Err Encoding
      | Some e =>
          let? rest := job_events_of job_id kvs in
          Ok (if String.eqb (job_id_of e) job_id then e :: rest else rest)
      end
  end.

Definition claim_body (o : Oracle) (job_id worker : string) : TM unit :=
  let! kvs := tscan JOBS_PREFIX in
  let! events := tlift (job_events_of job_id kvs) in
  match job_fold events with
  | Some StPending =>
      tput (job_key o 0) (to_vec (Claimed job_id worker (now_ms (o_clock o 0))))
  | other => terr (InvalidInput (NotClaimable job_id other))
  end.

Definition claim_compaction (o : Oracle) (interf : db → db) (job_id worker : string) (d : db) :
    R unit * db :=
  let '(r, d) := run_txn interf (claim_body o job_id worker) d in (rmap fst r, d).

Definition fail_compaction (o : Oracle) (job_id error : string) (d : db) : R unit * db :=
  (Ok tt, write_job o 0 (JobFailed job_id error (now_ms (o_clock o 0))) d).

Definition compaction_records (d : db) : R (list CompactionRecord) :=
  collect ((λ kv : string * bytes,
              match from_slice kv.2 with Some r => Ok r | None => Err Encoding end)
             <$> db_scan d COMPACTIONS_PREFIX None None).

Definition job_status (d : db) (job_id : string) : R (option JobStatus) :=
  let? records := compaction_records d in
  if existsb (λ r, bool_decide (cr_job_id r = Some job_id)) records then Ok (Some StCompleted)
  else let? events := job_events_of job_id (db_scan d JOBS_PREFIX None None) in
       Ok (job_fold events).

Definition compaction_backlog (d : db) (stream : string) : R Z :=
  let? v := stream_version d stream in
  let tip := map_or 0 (λ v, u64_add v 1) v in
  let? s := latest_snapshot d stream in
  let snap := map_or 0 (λ s, u64_add (sn_through_version s) 1) s in
  Ok (saturating_sub tip snap).

(** The loop of [list_streams]. *)
Fixpoint list_loop (streams deleted : list string) (kvs : list (string * bytes)) :
    list string * list string :=
  match kvs with
  | [] => (streams, deleted)
  | (key, _) :: kvs =>
      match strip_prefix "m/" key with
      | None => list_loop streams deleted kvs
      | Some rest =>
          match strip_suffix "/tail" rest with
          | Some stream => list_loop (streams ++ [stream]) deleted kvs
          | None =>
              match strip_suffix "/deleted" rest with
              | Some stream => list_loop streams (deleted ++ [stream]) kvs
              | None => list_loop streams deleted kvs
              end
          end
      end
  end.

Definition list_streams (d : db) : list string :=
  let '(streams, deleted) := list_loop [] [] (db_scan d "m/" None None) in
  filter (λ s, s ∉ deleted) streams.

(** ** Cross-stream transactions *)

(** The loop of [commit] over the queued operations. *)
Fixpoint replay_ops (o : nat → Oracle) (i : nat) (seq : Z) (ops : Transaction) :
    TM (list CommitInfo * Z) :=
  match ops with
  | [] => tret ([], seq)
  | OpAppend stream expected events :: ops =>
      let! (info, seq) := replay_append (o i) seq stream expected None None events true in
      let! (infos, seq) := replay_ops o (S i) seq ops in
      tret (info :: infos, seq)
  | OpFence stream token :: ops =>
      replay_fence stream token ;;; replay_ops o (S i) seq ops
  end.

Fixpoint check_ops (ops : Transaction) : R unit :=
  match ops with
  | [] => Ok tt
  | OpAppend _ _ events :: ops => let? _ := check_batch events in check_ops ops
  | OpFence _ _ :: ops => check_ops ops
  end.

Definition commit_body (o : nat → Oracle) (ops : Transaction) : TM (list CommitInfo * Z) :=
  let! seq := txn_get_be SEQ_KEY in replay_ops o 0 (default 0 seq) ops.

Definition commit (o : nat → Oracle) (interf : db → db) (ops : Transaction) (d : db) : R (list CommitInfo) * db :=
  match check_ops ops with
  | Err e => (Err e, d)
  | Ok _ =>
      match commit_body o ops (begin d) with
      | Err e => (Err e, interf d)
      | Ok ((infos, seq), t) =>
          match commit_seq t seq (interf d) with
          | None => (Err (Backend TransactionConflict), interf d)
          | Some (d', _) => (Ok infos, d')
          end
      end
  end.

Definition durable_sequence (d : db) : Z := default 0 (get_be d SEQ_KEY).
End store.
