(* ===== verification/Append.v ===== *)
(** * Appends

    [append_plan] states what [replay_append] does as a function of the state
    it reads: the error it returns or the batch it writes.  From it follow the
    behaviour of [commit_appends] without interference, the effect of a
    successful append on the stream's log, and the isolation of other
    streams. *)

From S2P Require Import Prelude Text Slate Types Keys Kv Fork Store Batch.
Local Open Scope Z_scope.

(** The envelopes of a batch, from its [i]-th event. *)
Fixpoint stamp (o : Oracle) (first start_seq : Z) (i : nat) (last_ts : Z) (events : list NewEvent) :
    list Envelope :=
  match events with
  | [] => []
  | e :: events =>
      let ts := Z.max (now_ms (o_clock o i)) last_ts in
      {| env_id := o_ulid o i; env_type := ne_type e; env_version := u64_add first (Z.of_nat i);
         env_seq := u64_add start_seq (Z.of_nat i); env_data := ne_data e;
         env_metadata := ne_metadata e; env_ts_ms := ts |}
      :: stamp o first start_seq (S i) ts events
  end.

Definition final_ts (last_ts : Z) (envs : list Envelope) : Z := map_or last_ts env_ts_ms (last envs).

(** No other writer commits between [begin] and [commit]. *)
Definition quiet {D} : nat → D → D := λ _ d, d.

Section plan.
Context `{SlateDb} `{Codecs}.

Definition event_kws (s : string) (index_ts : bool) (e : Envelope) : list kwrite :=
  (KRec s (env_version e), Some (Envelope_encode e))
  :: if index_ts then [(KTs s (env_ts_ms e) (env_version e), Some [])] else [].

Definition append_kws (s : string) (index_ts : bool) (envs : list Envelope) (t : TailRecord) :
    list kwrite :=
  concat (event_kws s index_ts <$> envs) ++ [(KTail s, Some (to_vec t))].

Definition fence_ok (d : db) (s : string) (tok : option string) : R unit :=
  match tok, db_get d (m_key s "fence") with
  | Some token, Some b =>
      if String.eqb (from_utf8 b) token then Ok tt else Err (FenceMismatch s (from_utf8 b))
  | _, _ => Ok tt
  end.

Definition first_of (tl : option TailRecord) (from_version : option Version) : Version :=
  default (map_or 0 (λ v, u64_add v 1) (tail_version <$> tl)) from_version.

Definition new_tail (tl : option TailRecord) (lastv : Version) (envs : list Envelope) : TailRecord :=
  {| tail_version := map_or lastv (λ c, Z.max c lastv) (tail_version <$> tl);
     tail_ts_ms := final_ts (map_or 0 tail_ts_ms tl) envs |}.

Definition append_plan (d : db) (o : Oracle) (seq : Z) (s : string) (expected : ExpectedVersion)
    (from_version : option Version) (tok : option string) (events : list NewEvent)
    (index_ts : bool) : R (CommitInfo * Z * list kwrite) :=
  let? tl := tail d s in
  let? _ := fence_ok d s tok in
  if negb (expected_matches expected (tail_version <$> tl))
  then Err (VersionConflict s expected (tail_version <$> tl))
  else match events with
  | [] => Err (InvalidInput EmptyBatch)
  | _ =>
      let first := first_of tl from_version in
      let n := Z.of_nat (length events) in
      let lastv := u64_add first (n - 1) in
      let start_seq := u64_add seq 1 in
      let envs := stamp o first start_seq 0 (map_or 0 tail_ts_ms tl) events in
      Ok ({| first_version := first; last_version := lastv; start_sequence := start_seq |},
          u64_add start_seq (n - 1), append_kws s index_ts envs (new_tail tl lastv envs))
  end.

Definition fence_reads (s : string) (tok : option string) : list string :=
  match tok with None => [] | Some _ => [m_key s "fence"] end.

Definition txn_add (t : Txn db) (reads : list string) (ws : list kwrite) : Txn db :=
  mkTxn (t_snap t) (t_writes t ++ render_ws ws) (t_unmarked t) (reads ++ t_reads t) (t_scans t).

(** The whole batch of a sequential append: the plan and the counter. *)
Definition seq_write (seq : Z) : kwrite := (KSeq, Some (to_be_bytes seq)).
End plan.

Section plan_laws.
Context `{SlateDbLaws} `{CodecLaws}.

Lemma final_ts_cons lt e envs : final_ts lt (e :: envs) = final_ts (env_ts_ms e) envs.
Proof.
  unfold final_ts. destruct envs as [|x l]; [done|]. rewrite last_cons_cons.
  destruct (last (x :: l)) eqn:E; [done|]. by apply last_None in E.
Qed.

Lemma put_events_eq o s first q idx i lt evs t :
  put_events o s first q idx i lt evs t =
    Ok (final_ts lt (stamp o first q i lt evs),
        txn_add t [] (concat (event_kws s idx <$> stamp o first q i lt evs))).
Proof.
  revert i lt t. induction evs as [|e evs IH]; intros i lt t.
  { simpl. unfold tret, txn_add, final_ts. simpl. rewrite app_nil_r. by destruct t. }
  cbn [put_events stamp]. rewrite final_ts_cons, fmap_cons. cbn [concat].
  unfold tbind at 1. unfold tput at 1. unfold tbind at 1.
  destruct idx; [unfold tput at 1|unfold tret at 1]; rewrite IH; do 2 f_equal;
    unfold txn_add, txn_put, render_ws; cbn [t_snap t_writes t_unmarked t_reads t_scans];
    by rewrite <-!app_assoc.
Qed.

Lemma replay_append_eq o seq s expd fv tok evs idx t :
  replay_append o seq s expd fv tok evs idx t =
    let? (info, seq', ws) := append_plan (view t) o seq s expd fv tok evs idx in
    Ok ((info, seq'), txn_add t (fence_reads s tok ++ [m_key s "tail"]) ws).
Proof.
  unfold replay_append, append_plan, txn_tail, tail, get_json. unfold tbind at 1. unfold tbind at 1.
  unfold tget at 1. destruct (opt_json (db_get (view t) (m_key s "tail"))) as [tl|e]; [|done].
  cbn [tlift rbind]. unfold tbind at 1.
  assert (check_fence s tok (txn_mark_read (m_key s "tail") t) =
    let? _ := fence_ok (view t) s tok in Ok (tt, txn_add t (fence_reads s tok ++ [m_key s "tail"]) []))
    as ->.
  { unfold check_fence, fence_ok, txn_add. destruct tok as [tok|]; [|simpl; by rewrite app_nil_r].
    unfold tbind, tget. change (view (txn_mark_read _ t)) with (view t).
    destruct (db_get (view t) (m_key s "fence")) as [b|]; [|simpl; by rewrite app_nil_r].
    destruct (String.eqb (from_utf8 b) tok); [|done]. simpl. by rewrite app_nil_r. }
  destruct (fence_ok (view t) s tok) as [[]|e]; [|done]. cbn [rbind].
  destruct (negb _); [done|]. destruct evs as [|e evs]; [done|].
  unfold tbind at 1. rewrite put_events_eq. cbn [rbind]. unfold tbind, tput, tret, txn_add.
  unfold append_kws, txn_put, render_ws, new_tail, first_of. rewrite fmap_app.
  cbn [t_snap t_writes t_unmarked t_reads t_scans fmap list_fmap]. by rewrite !app_nil_r, <-!app_assoc.
Qed.

#[global] Instance tail_proper : Proper ((≡) ==> (=) ==> (=)) tail.
Proof. intros d1 d2 E s _ <-. unfold tail, get_json. by rewrite (E _). Qed.

#[global] Instance fence_ok_proper : Proper ((≡) ==> (=) ==> (=) ==> (=)) fence_ok.
Proof. intros d1 d2 E s _ <- tok _ <-. unfold fence_ok. by rewrite (E _). Qed.

(** The plan reads the tail and, with a token, the fence. *)
Lemma append_plan_ext d1 d2 o seq s expd fv tok evs idx :
  db_get d1 (m_key s "tail") = db_get d2 (m_key s "tail") →
  (tok ≠ None → db_get d1 (m_key s "fence") = db_get d2 (m_key s "fence")) →
  append_plan d1 o seq s expd fv tok evs idx = append_plan d2 o seq s expd fv tok evs idx.
Proof.
  intros E1 E2. unfold append_plan, tail, get_json, fence_ok. rewrite E1.
  destruct tok; [|done]. by rewrite E2.
Qed.

Lemma get_be_begin d k : from_be_bytes <$> db_get (view (begin d)) k = get_be d k.
Proof. unfold get_be. f_equal. apply view_begin. Qed.

Lemma append_body_eq o s expd fv tok evs idx d :
  append_body o s expd fv tok evs idx (begin d) =
    let? (info, seq', ws) :=
      append_plan d o (durable_sequence d) s expd fv tok evs idx in
    Ok ((info, seq'),
        txn_add (txn_mark_read SEQ_KEY (begin d)) (fence_reads s tok ++ [m_key s "tail"]) ws).
Proof.
  unfold append_body, txn_get_be. unfold tbind at 1. unfold tbind at 1. unfold tget, tret.
  rewrite get_be_begin, replay_append_eq.
  rewrite (append_plan_ext _ d) by (intros; apply view_begin). done.
Qed.

(** Without interference the first attempt commits. *)
Lemma commit_appends_quiet o s expd fv tok evs idx d :
  commit_appends o quiet s expd fv tok evs idx d =
    match check_batch evs with
    | Err e => (Err e, d)
    | Ok _ =>
        match append_plan d (o 0%nat) (durable_sequence d) s expd fv tok evs idx with
        | Err e => (Err e, d)
        | Ok (info, seq', ws) =>
            let d' := db_apply d (render_ws (ws ++ [seq_write seq'])) in
            (Ok {| ticket_info := info; ticket_seq := db_last_seq d' |}, d')
        end
    end.
Proof.
  unfold commit_appends. destruct (check_batch evs) as [[]|e]; [|done].
  unfold COMMIT_RETRIES. cbn [commit_loop]. rewrite append_body_eq.
  destruct (append_plan d _ _ _ _ _ _ _ _) as [[[info seq'] ws]|e]; [|done]. cbn [rbind].
  unfold commit_seq, txn_commit, quiet. set (t := txn_unmark_write _ _).
  change d with (t_snap t) at 1. rewrite db_conflict_clean.
  assert (t_writes t = render_ws (ws ++ [seq_write seq'])) as ->.
  { unfold render_ws. rewrite fmap_app. done. }
  destruct (render_ws (ws ++ [seq_write seq'])) eqn:E; [|done].
  unfold render_ws in E. rewrite fmap_app in E. by destruct ((λ w, _) <$> ws).
Qed.
End plan_laws.

(** ** The stamped batch *)

Lemma length_stamp o f q i lt evs : length (stamp o f q i lt evs) = length evs.
Proof. revert i lt. induction evs as [|e evs IH]; intros i lt; simpl; [done|]. by rewrite IH. Qed.

Lemma stamp_lookup o f q i lt evs j e :
  stamp o f q i lt evs !! j = Some e →
  ∃ ne, evs !! j = Some ne ∧ env_version e = u64_add f (Z.of_nat (i + j))
    ∧ env_seq e = u64_add q (Z.of_nat (i + j)) ∧ env_id e = o_ulid o (i + j)
    ∧ env_type e = ne_type ne ∧ env_data e = ne_data ne ∧ env_metadata e = ne_metadata ne.
Proof.
  revert i lt j. induction evs as [|ne evs IH]; intros i lt j; [done|]. cbn [stamp].
  destruct j as [|j]; simpl.
  - intros [= <-]. exists ne. rewrite Nat.add_0_r. done.
  - intros E. apply IH in E as (ne' & E). exists ne'.
    by replace (i + S j)%nat with (S i + j)%nat by lia.
Qed.

Lemma stamp_ts_ge o f q i lt evs e : e ∈ stamp o f q i lt evs → lt ≤ env_ts_ms e.
Proof.
  revert i lt. induction evs as [|ne evs IH]; intros i lt; cbn [stamp].
  - intros Hin. by apply not_elem_of_nil in Hin.
  - intros [-> | Hin]%elem_of_cons; simpl; [lia|]. apply IH in Hin. lia.
Qed.

(** Timestamps never move backwards within a batch. *)
Lemma stamp_ts_sorted o f q i lt evs :
  StronglySorted (λ e g, env_ts_ms e ≤ env_ts_ms g) (stamp o f q i lt evs).
Proof.
  revert i lt. induction evs as [|ne evs IH]; intros i lt; cbn [stamp]; [constructor|].
  constructor; [apply IH|]. apply Forall_forall. intros e He. simpl. by apply stamp_ts_ge in He.
Qed.

Lemma stamp_ts_num o f q i lt evs e :
  oracle_ok o → 0 ≤ lt < KEY_MAX - 1 → e ∈ stamp o f q i lt evs → key_num (env_ts_ms e).
Proof.
  intros Ho. revert i lt. induction evs as [|ne evs IH]; intros i lt Hlt; cbn [stamp].
  - intros Hin. by apply not_elem_of_nil in Hin.
  - pose proof (oracle_clock o Ho i). intros [-> | Hin]%elem_of_cons.
    + unfold key_num. simpl. lia.
    + apply IH in Hin; [done|]. lia.
Qed.

Lemma final_ts_num o f q evs lt :
  oracle_ok o → key_num lt → key_num (final_ts lt (stamp o f q 0 lt evs)).
Proof.
  intros Ho Hlt. unfold final_ts. destruct (last _) as [e|] eqn:E; [|done]. simpl.
  eapply stamp_ts_num; [done|exact Hlt|]. by apply last_Some_elem_of in E.
Qed.

Lemma stamp_ids o f q i lt evs e : oracle_ok o → e ∈ stamp o f q i lt evs → ulid_ok (env_id e).
Proof.
  intros Ho [j Hj]%list_elem_of_lookup. apply stamp_lookup in Hj as (? & _ & _ & _ & -> & _).
  apply Ho.
Qed.

Lemma stamp_version o f q lt evs e :
  0 ≤ f → f + Z.of_nat (length evs) ≤ KEY_MAX → e ∈ stamp o f q 0 lt evs →
  f ≤ env_version e < f + Z.of_nat (length evs).
Proof.
  intros Hf Hcap [j Hj]%list_elem_of_lookup. pose proof (lookup_lt_Some _ _ _ Hj) as Hlt.
  rewrite length_stamp in Hlt. apply stamp_lookup in Hj as (? & _ & -> & _). u64_norm. lia.
Qed.

Lemma stamp_seq o f q lt evs e :
  0 ≤ q → q + Z.of_nat (length evs) ≤ KEY_MAX → e ∈ stamp o f q 0 lt evs →
  q ≤ env_seq e < q + Z.of_nat (length evs).
Proof.
  intros Hf Hcap [j Hj]%list_elem_of_lookup. pose proof (lookup_lt_Some _ _ _ Hj) as Hlt.
  rewrite length_stamp in Hlt. apply stamp_lookup in Hj as (? & _ & _ & -> & _). u64_norm. lia.
Qed.

Lemma stamp_sorted o f q i lt evs :
  0 ≤ f → f + Z.of_nat (i + length evs) ≤ KEY_MAX →
  StronglySorted version_lt (stamp o f q i lt evs).
Proof.
  revert i lt. induction evs as [|ne evs IH]; intros i lt Hf Hcap; cbn [stamp]; [constructor|].
  simpl in Hcap. constructor; [apply IH; lia|]. apply Forall_forall.
  intros e [j Hj]%list_elem_of_lookup. pose proof (lookup_lt_Some _ _ _ Hj) as Hlt.
  rewrite length_stamp in Hlt. apply stamp_lookup in Hj as (? & _ & Hv & _).
  unfold version_lt. rewrite Hv. simpl. u64_norm. lia.
Qed.

(** Every version of the range is in the batch. *)
Lemma stamp_covers o f q lt evs v :
  0 ≤ f → f + Z.of_nat (length evs) ≤ KEY_MAX → f ≤ v < f + Z.of_nat (length evs) →
  ∃ e, e ∈ stamp o f q 0 lt evs ∧ env_version e = v.
Proof.
  intros Hf Hcap Hv.
  destruct (lookup_lt_is_Some_2 (stamp o f q 0 lt evs) (Z.to_nat (v - f))) as [e He].
  { rewrite length_stamp. lia. }
  exists e. split; [apply list_elem_of_lookup; eauto|].
  apply stamp_lookup in He as (? & _ & -> & _). u64_norm. lia.
Qed.

(** ** The effect of a batch of events *)

Section effect.
Context `{SlateDbLaws} `{CodecLaws}.

Lemma event_kws_elem s idx envs w :
  w ∈ concat (event_kws s idx <$> envs) ↔
  ∃ e, e ∈ envs ∧ (w = (KRec s (env_version e), Some (Envelope_encode e))
    ∨ (idx = true ∧ w = (KTs s (env_ts_ms e) (env_version e), Some []))).
Proof.
  rewrite list_elem_of_In, in_concat. split.
  - intros (l & Hl & Hw). apply list_elem_of_In in Hl. apply list_elem_of_In in Hw.
    apply list_elem_of_fmap in Hl as (e & -> & He). exists e. split; [done|].
    unfold event_kws in Hw. apply elem_of_cons in Hw as [-> | Hw]; [by left|].
    destruct idx; [|by apply not_elem_of_nil in Hw]. apply list_elem_of_singleton in Hw. by right.
  - intros (e & He & Hw). exists (event_kws s idx e). rewrite <-!list_elem_of_In. split.
    + apply list_elem_of_fmap. eauto.
    + unfold event_kws. destruct Hw as [-> | [-> ->]]; set_solver.
Qed.

Lemma klast_event s idx envs e :
  StronglySorted version_lt envs → e ∈ envs →
  klast (concat (event_kws s idx <$> envs)) (KRec s (env_version e)) = Some (Some (Envelope_encode e)).
Proof.
  intros Hs Hin. induction Hs as [|f envs Hs IH Hall]; [by apply not_elem_of_nil in Hin|].
  rewrite fmap_cons. cbn [concat]. rewrite klast_app. apply elem_of_cons in Hin as [-> | Hin].
  - assert (klast (concat (event_kws s idx <$> envs)) (KRec s (env_version f)) = None) as ->.
    { apply klast_None. intros w (g & Hg & Hw)%event_kws_elem. rewrite Forall_forall in Hall.
      specialize (Hall g Hg). unfold version_lt in Hall.
      destruct Hw as [-> | [_ ->]]; simpl; [intros [=]; lia|done]. }
    unfold event_kws. simpl. destruct idx; simpl; by rewrite ?decide_True.
  - by rewrite (IH Hin).
Qed.

Lemma klast_event_None s s' idx envs v :
  (s' ≠ s ∨ ∀ e, e ∈ envs → env_version e ≠ v) →
  klast (concat (event_kws s idx <$> envs)) (KRec s' v) = None.
Proof.
  intros Hn. apply klast_None. intros w (e & He & Hw)%event_kws_elem.
  destruct Hw as [-> | [_ ->]]; simpl; [|done]. intros [= -> <-].
  destruct Hn as [? | Hn]; [done|]. by apply (Hn e).
Qed.

(** Envelopes a batch may carry. *)
Definition env_ok (e : Envelope) : Prop :=
  key_num (env_version e) ∧ ulid_ok (env_id e) ∧ key_num (env_ts_ms e).

Definition tail_ok (t : TailRecord) : Prop := key_num (tail_version t) ∧ key_num (tail_ts_ms t).

Lemma env_ok_decode e : env_ok e → Envelope_decode (Envelope_encode e) = Ok e.
Proof. intros (_ & Hid & _). by apply Envelope_decode_encode, ulid_decodable. Qed.

Lemma append_kws_ok s idx envs t :
  slash_free s → (∀ e, e ∈ envs → env_ok e) → tail_ok t → batch_ok (append_kws s idx envs t).
Proof.
  intros Hs Henvs [Ht1 Ht2]. unfold batch_ok, append_kws. apply Forall_app. split.
  - apply Forall_forall. intros w (e & He & Hw)%event_kws_elem.
    pose proof (Henvs e He) as Hok. destruct (Hok) as (Hv & Hid & Hts).
    destruct Hw as [-> | [_ ->]]; simpl; [|done]. split; [done|].
    exists e. split; [|done]. by apply env_ok_decode.
  - repeat constructor; [done|]. simpl. exists t. by rewrite from_to_vec.
Qed.

Lemma seq_write_ok q : 0 ≤ q < U64 → batch_ok [seq_write q].
Proof. intros Hq. apply batch_ok_one; [done|]. simpl. by rewrite from_to_be_bytes. Qed.

(** Keys an append to [s] does not write. *)
Definition untouched (s : string) (k : Key) : Prop :=
  match k with
  | KRec s' _ | KTs s' _ _ | KTail s' => s' ≠ s
  | KSeq => False
  | _ => True
  end.

Lemma append_kws_untouched s idx envs t q k :
  untouched s k → ∀ w, w ∈ append_kws s idx envs t ++ [seq_write q] → w.1 ≠ k.
Proof.
  intros Hk w. unfold append_kws. rewrite !elem_of_app, event_kws_elem, !list_elem_of_singleton.
  intros [[(e & He & [-> | [_ ->]]) | ->] | ->]; simpl; intros <-; simpl in Hk; done.
Qed.

Section one_append.
Context (d : db) (s : string) (idx : bool) (envs : list Envelope) (t : TailRecord) (q : Z).
Context (Hs : slash_free s) (Henvs : ∀ e, e ∈ envs → env_ok e) (Ht : tail_ok t) (Hq : 0 ≤ q < U64).

Let ws := append_kws s idx envs t ++ [seq_write q].
Let d' := db_apply d (render_ws ws).

Lemma append_batch_ok : batch_ok ws.
Proof.
  apply Forall_app. split; [by apply append_kws_ok|by apply seq_write_ok].
Qed.

Lemma append_shaped : shaped d → shaped d'.
Proof. intros. apply shaped_batch; [done|apply append_batch_ok]. Qed.

Lemma append_get_untouched k : key_ok k → untouched s k → db_get d' (render k) = db_get d (render k).
Proof.
  intros Hk Hu. apply get_batch_other; [apply append_batch_ok|done|].
  by apply append_kws_untouched.
Qed.

Lemma append_tail : tail d' s = Ok (Some t).
Proof.
  unfold tail, get_json. rewrite render_tail. unfold d'.
  rewrite get_batch by (done || apply append_batch_ok).
  unfold ws, append_kws, seq_write. rewrite klast_snoc_ne, klast_snoc_eq by done.
  simpl. by rewrite from_to_vec.
Qed.

Lemma append_sequence : durable_sequence d' = q.
Proof.
  unfold durable_sequence, get_be. rewrite render_seq. unfold d'.
  rewrite get_batch by (done || apply append_batch_ok).
  unfold ws, seq_write. rewrite klast_snoc_eq. simpl. by apply from_to_be_bytes.
Qed.

Lemma append_stored_new e :
  StronglySorted version_lt envs → e ∈ envs → stored d' s (env_version e) = Some e.
Proof.
  intros Hsort He. destruct (Henvs e He) as (Hv & _). unfold stored. rewrite render_rec. unfold d'.
  rewrite get_batch by (done || apply append_batch_ok).
  unfold ws, append_kws, seq_write. rewrite !klast_snoc_ne by done.
  rewrite klast_event by done. simpl. by rewrite env_ok_decode by auto.
Qed.

Lemma append_stored_old s' v :
  slash_free s' → key_num v → (s' ≠ s ∨ ∀ e, e ∈ envs → env_version e ≠ v) →
  stored d' s' v = stored d s' v.
Proof.
  intros Hs' Hv Hn. unfold stored. rewrite render_rec. unfold d'.
  rewrite get_batch by (done || apply append_batch_ok).
  unfold ws, append_kws, seq_write. rewrite !klast_snoc_ne by done.
  by rewrite klast_event_None.
Qed.

(** The timestamp index gains the entries of the batch. *)
Lemma append_index ts v :
  idx = true → key_num ts → key_num v →
  is_Some (db_get d' (render (KTs s ts v))) ↔
  is_Some (db_get d (render (KTs s ts v))) ∨ ∃ e, e ∈ envs ∧ env_ts_ms e = ts ∧ env_version e = v.
Proof.
  intros Hidx Hts Hv. unfold d'. rewrite get_batch by (done || apply append_batch_ok).
  destruct (klast ws (KTs s ts v)) as [w|] eqn:Ek.
  - apply klast_elem in Ek. unfold ws, append_kws in Ek.
    rewrite !elem_of_app, event_kws_elem, !list_elem_of_singleton in Ek.
    destruct Ek as [[(e & He & [? | [_ [= -> -> ->]]]) | ?] | ?]; try done. split; [|by eauto].
    intros _. right. by exists e.
  - rewrite klast_None in Ek. split; [by left|]. intros [? | (e & He & <- & <-)]; [done|].
    exfalso. apply (Ek (KTs s (env_ts_ms e) (env_version e), Some [])); [|done].
    unfold ws, append_kws. rewrite !elem_of_app, event_kws_elem. left. left. exists e. auto.
Qed.

(** Appending past the end of the log extends it. *)
Lemma append_log :
  shaped d → StronglySorted version_lt envs →
  (∀ v e f, key_num v → stored d s v = Some e → f ∈ envs → v < env_version f) →
  log d' s = log d s ++ envs.
Proof.
  intros Hsh Hsort Hpast. apply log_unique; [by apply append_shaped|done|..].
  - apply StronglySorted_app_2; [|by apply log_sorted|done].
    intros e f He Hf. apply log_elem in He as [Hv Hst]; [|done..]. by apply (Hpast _ e).
  - intros e. rewrite elem_of_app, log_elem by done. split.
    + intros [[Hv Hst] | He].
      * split; [done|]. rewrite append_stored_old; [done..|]. right. intros f Hf E.
        pose proof (Hpast _ e f Hv Hst Hf). lia.
      * split; [apply Henvs, He|by apply append_stored_new].
    + intros [Hv Hst]. destruct (decide (Exists (λ f, env_version f = env_version e) envs)) as [Hex|Hex].
      * apply Exists_exists in Hex as (f & Hf & Hfv). right.
        rewrite <-Hfv, append_stored_new in Hst by done. by injection Hst as <-.
      * left. split; [done|]. rewrite append_stored_old in Hst; [done..|]. right.
        intros f Hf E. apply Hex, Exists_exists. eauto.
Qed.

Lemma append_log_other s' : shaped d → slash_free s' → s' ≠ s → log d' s' = log d s'.
Proof.
  intros Hsh Hs' Hne. apply log_ext; [by apply append_shaped|done..|].
  intros v Hv. apply append_stored_old; auto.
Qed.
End one_append.
End effect.
