(* ===== verification/Wf.v ===== *)
(** * The store invariant

    [wf]: every key and value is well formed, no record lies past its
    stream's tail, and fork references point to existing streams, are pinned
    by their parents and form no cycle.  This file gives the conditions under
    which a write batch keeps it; [Invariant.v] applies them to every
    operation. *)

From S2P Require Import Prelude Text Slate Types Keys Kv Fork Store Batch Append.
Local Open Scope Z_scope.

Section invariant.
Context `{SlateDb} `{Codecs}.

(** The tail of a stream reaches a version. *)
Definition reaches (d : db) (s : string) (v : Version) : Prop :=
  ∃ t, tail d s = Ok (Some t) ∧ v ≤ tail_version t.

(** [s] was forked from [f]: both tails are past the fork point and the
    parent holds the pin. *)
Definition fork_ok (d : db) (s : string) (f : ForkRef) : Prop :=
  reaches d s (fr_at_version f) ∧ reaches d (fr_stream f) (fr_at_version f)
  ∧ db_get d (m_key (fr_stream f) ("forks/" +:+ s)) = Some (to_be_bytes (fr_at_version f)).

Definition forks_from (d : db) (s : string) (f : ForkRef) : Prop :=
  slash_free s ∧ fork_ref d s = Ok (Some f).

Record wf (d : db) : Prop := {
  wf_shaped : shaped d;
  wf_records s v e : slash_free s → key_num v → stored d s v = Some e → reaches d s v;
  wf_forks s f : forks_from d s f → fork_ok d s f;
  wf_pins s c b : slash_free s → slash_free c → db_get d (m_key s ("forks/" +:+ c)) = Some b →
    forks_from d c {| fr_stream := s; fr_at_version := from_be_bytes b |};
  wf_acyclic : ∃ rank : string → nat, ∀ s f, forks_from d s f → (rank (fr_stream f) < rank s)%nat;
}.
End invariant.

Section preservation.
Context `{SlateDbLaws} `{CodecLaws}.

#[global] Instance fork_ref_proper : Proper ((≡) ==> (=) ==> (=)) fork_ref.
Proof. intros d1 d2 E s _ <-. unfold fork_ref, get_json. by rewrite (E _). Qed.

#[global] Instance stored_proper : Proper ((≡) ==> (=) ==> (=) ==> (=)) stored.
Proof. intros d1 d2 E s _ <- v _ <-. unfold stored. by rewrite (E _). Qed.

#[global] Instance log_proper : Proper ((≡) ==> (=) ==> (=)) log.
Proof. intros d1 d2 E s _ <-. unfold log. by rewrite E. Qed.

#[global] Instance reaches_proper : Proper ((≡) ==> (=) ==> (=) ==> iff) reaches.
Proof. intros d1 d2 E s _ <- v _ <-. unfold reaches. by setoid_rewrite E. Qed.

#[global] Instance forks_from_proper : Proper ((≡) ==> (=) ==> (=) ==> iff) forks_from.
Proof. intros d1 d2 E s _ <- f _ <-. unfold forks_from. by rewrite E. Qed.

#[global] Instance fork_ok_proper : Proper ((≡) ==> (=) ==> (=) ==> iff) fork_ok.
Proof. intros d1 d2 E s _ <- f _ <-. unfold fork_ok. by rewrite E. Qed.

#[global] Instance wf_proper : Proper ((≡) ==> iff) wf.
Proof.
  assert (∀ d1 d2, d1 ≡ d2 → wf d1 → wf d2) as Himp.
  { intros d1 d2 E [Hsh Hrec Hfk Hpn [rank Hrk]]. split.
    - by rewrite <-E.
    - intros s v e. rewrite <-E. apply Hrec.
    - intros s f. rewrite <-E. apply Hfk.
    - intros s c b. rewrite <-E. apply Hpn.
    - exists rank. intros s f. rewrite <-E. apply Hrk. }
  intros d1 d2 E. split; apply Himp; [done|by symmetry].
Qed.

(** ** Lookups in a well-shaped store *)

Lemma shaped_value d k b : shaped d → key_ok k → db_get d (render k) = Some b → val_ok k b.
Proof.
  intros Hsh Hk Hg. destruct (Hsh _ _ Hg) as (K & HK & Hok & Hv).
  apply render_inj in HK; [|done..]. by subst.
Qed.

Lemma tail_shaped d s : shaped d → slash_free s →
  ∃ tl, tail d s = Ok tl ∧ from_option tail_ok True tl.
Proof.
  intros Hsh Hs. unfold tail, get_json. rewrite render_tail.
  destruct (db_get d (render (KTail s))) as [b|] eqn:E; [|by exists None].
  destruct (shaped_value d (KTail s) b Hsh Hs E) as (t & Ht & ?). exists (Some t). simpl. by rewrite Ht.
Qed.

Lemma fork_ref_shaped d s : shaped d → slash_free s →
  ∃ f, fork_ref d s = Ok f
    ∧ from_option (λ f, slash_free (fr_stream f) ∧ key_num (fr_at_version f)) True f.
Proof.
  intros Hsh Hs. unfold fork_ref, get_json. rewrite render_fork.
  destruct (db_get d (render (KFork s))) as [b|] eqn:E; [|by exists None].
  destruct (shaped_value d (KFork s) b Hsh Hs E) as (t & Ht & ?). exists (Some t). simpl. by rewrite Ht.
Qed.

Lemma floor_shaped d s : shaped d → slash_free s → key_lim (floor_of d s).
Proof.
  intros Hsh Hs. unfold floor_of, get_be. rewrite render_trim.
  destruct (db_get d (render (KTrim s))) as [b|] eqn:E; simpl.
  - exact (shaped_value d (KTrim s) b Hsh Hs E).
  - pose proof KEY_MAX_pos. unfold key_lim. lia.
Qed.

Lemma forks_from_shaped d s f : shaped d → forks_from d s f →
  slash_free (fr_stream f) ∧ key_num (fr_at_version f).
Proof.
  intros Hsh [Hs Hf]. destruct (fork_ref_shaped d s Hsh Hs) as (f' & E & Hok).
  rewrite Hf in E. injection E as <-. exact Hok.
Qed.

(** ** What a batch must respect *)

Lemma wf_preserve d d' :
  wf d → shaped d' →
  (∀ s v, slash_free s → reaches d s v → reaches d' s v) →
  (∀ s v e, slash_free s → key_num v → stored d' s v = Some e →
    stored d s v = Some e ∨ reaches d' s v) →
  (∀ s, slash_free s → db_get d' (m_key s "fork") = db_get d (m_key s "fork")) →
  (∀ s c, slash_free s → slash_free c →
    db_get d' (m_key s ("forks/" +:+ c)) = db_get d (m_key s ("forks/" +:+ c))) →
  wf d'.
Proof.
  intros [Hsh Hrec Hfk Hpn [rank Hrk]] Hsh' Htail Hst Hfork Hpin.
  assert (∀ s f, forks_from d' s f → forks_from d s f) as Hff.
  { intros s f [Hs Hf]. split; [done|]. unfold fork_ref, get_json in *. by rewrite <-Hfork. }
  split; [done|..].
  - intros s v e Hs Hv He. destruct (Hst _ _ _ Hs Hv He) as [He'|]; [|done]. eauto.
  - intros s f Hf%Hff. destruct (forks_from_shaped d s f Hsh Hf) as [Hp _].
    destruct (Hfk _ _ Hf) as (Hr1 & Hr2 & Hg). destruct Hf as [Hs _].
    split_and!; [eauto..|]. by rewrite Hpin.
  - intros s c b Hs Hc Hg. rewrite Hpin in Hg by done. destruct (Hpn s c b Hs Hc Hg) as [_ Hf].
    split; [done|]. unfold fork_ref, get_json in *. by rewrite Hfork.
  - exists rank. eauto.
Qed.

(** Keys outside the records, tails and the fork bookkeeping. *)
Definition side_key (k : Key) : Prop :=
  match k with
  | KRec _ _ | KTail _ | KFork _ | KPin _ _ => False
  | _ => True
  end.

Lemma wf_side d ws :
  wf d → batch_ok ws → Forall (λ w, side_key w.1) ws → wf (db_apply d (render_ws ws)).
Proof.
  intros Hwf Hok Hside. rewrite Forall_forall in Hside.
  assert (∀ k, key_ok k → ¬ side_key k →
    db_get (db_apply d (render_ws ws)) (render k) = db_get d (render k)) as Hget.
  { intros k Hk Hns. apply get_batch_other; [done|done|]. intros w Hw <-. by apply Hns, Hside. }
  apply (wf_preserve d); [done|by apply shaped_batch; [apply Hwf|]|..].
  - intros s v Hs (t & Ht & Hv). exists t. split; [|done].
    unfold tail, get_json in *. rewrite render_tail in *. by rewrite Hget by auto.
  - intros s v e Hs Hv He. left. unfold stored in *. rewrite render_rec in *.
    by rewrite Hget in He by (simpl; auto).
  - intros s Hs. rewrite render_fork. by apply Hget; simpl; auto.
  - intros s c Hs Hc. rewrite render_pin. by apply Hget; simpl; auto.
Qed.
End preservation.
