(* ===== verification/Commit.v ===== *)
(** * The commit loop of appends

    [commit_appends] under arbitrary interference: each attempt runs on a
    snapshot, other writers commit ([interf]), and the attempt is checked
    against the state they leave.  [commit_loop_spec] says that a successful
    append takes effect at one point, on the state current at its commit, and
    lists the ways it can fail. *)

From S2P Require Import Prelude Text Slate Types Keys Kv Fork Store Batch Append Wf.
Local Open Scope Z_scope.

(** The state after the interference of attempts [i], ..., [i + k - 1]. *)
Fixpoint drift {D} (interf : nat → D → D) (i k : nat) (d : D) : D :=
  match k with
  | O => d
  | S k => drift interf (S i) k (interf i d)
  end.

Section commit.
Context `{SlateDbLaws} `{CodecLaws}.

(** The append takes effect on [cur]: its checks pass there and its batch is
    applied to it.  Only the sequence counter may come from an older state. *)
Definition takes_effect (cur d' : db) (o : Oracle) (seq : Z) (s : string)
    (expd : ExpectedVersion) (fv : option Version) (tok : option string) (evs : list NewEvent)
    (idx : bool) (info : CommitInfo) : Prop :=
  ∃ seq' ws, append_plan cur o seq s expd fv tok evs idx = Ok (info, seq', ws)
    ∧ d' = db_apply cur (render_ws (ws ++ [seq_write seq'])).

Lemma m_key_not_seq s f : m_key s f ∉ [SEQ_KEY].
Proof. rewrite list_elem_of_singleton. done. Qed.

Lemma commit_attempt o s expd fv tok evs idx d cur info seq t d' h :
  append_body o s expd fv tok evs idx (begin d) = Ok ((info, seq), t) →
  commit_seq t seq cur = Some (d', h) →
  takes_effect cur d' o (durable_sequence d) s expd fv tok evs idx info
  ∧ h = Some (db_last_seq d') ∧ db_get cur (m_key s "tail") = db_get d (m_key s "tail").
Proof.
  rewrite append_body_eq. intros E Hc. apply rbind_Ok in E as ([[info0 seq0] ws] & Hp & [= -> -> <-]).
  unfold commit_seq, txn_commit in Hc. set (t' := txn_unmark_write _ _) in Hc.
  destruct (db_conflict t' cur) eqn:Hcf; [done|].
  pose proof (db_conflict_sound t' cur) as Hsame.
  assert (t_writes t' = render_ws (ws ++ [seq_write seq])) as Hws.
  { unfold render_ws. rewrite fmap_app. done. }
  assert (∀ k, k ∈ fence_reads s tok ++ [m_key s "tail"] → k ∉ [SEQ_KEY] →
    db_get cur k = db_get d k) as Hread.
  { intros k Hk Hn. apply (Hsame k Hcf). split; [done|]. left. simpl. apply elem_of_app. by left. }
  rewrite Hws in Hc. destruct (render_ws (ws ++ [seq_write seq])) as [|w l] eqn:El.
  { unfold render_ws in El. rewrite fmap_app in El. by destruct ((λ w, _) <$> ws). }
  assert (db_get cur (m_key s "tail") = db_get d (m_key s "tail")) as Htail
    by (apply Hread; [set_solver|apply m_key_not_seq]).
  injection Hc as <- <-. split; [|done]. exists seq, ws. split; [|by rewrite El].
  rewrite <-Hp. apply append_plan_ext.
  - exact Htail.
  - intros Htok. apply Hread; [|apply m_key_not_seq]. destruct tok; [|done]. simpl. set_solver.
Qed.

Section spec.
Context (o : nat → Oracle) (interf : nat → db → db) (s : string) (expd : ExpectedVersion)
  (fv : option Version) (tok : option string) (evs : list NewEvent) (idx : bool).

(** The outcomes of the loop from attempt [i]: success at attempt [i + k], a
    check that fails on a fresh snapshot, or a conflict on every attempt. *)
Definition outcome (retries i : nat) (d : db) (r : R CommitTicket) (d' : db) : Prop :=
  ∃ k, (k ≤ retries)%nat ∧
  match r with
  | Ok tk =>
      takes_effect (drift interf i (S k) d) d' (o (i + k)%nat)
        (durable_sequence (drift interf i k d)) s expd fv tok evs idx (ticket_info tk)
      ∧ ticket_seq tk = db_last_seq d'
      ∧ db_get (drift interf i (S k) d) (m_key s "tail") = db_get (drift interf i k d) (m_key s "tail")
  | Err e =>
      (append_plan (drift interf i k d) (o (i + k)%nat) (durable_sequence (drift interf i k d))
         s expd fv tok evs idx = Err e ∧ d' = drift interf i k d)
      ∨ (k = retries ∧ d' = drift interf i (S k) d
         ∧ (tail d' s = Err e
            ∨ ∃ tl, tail d' s = Ok tl ∧ e = VersionConflict s expd (tail_version <$> tl)))
  end.

Lemma commit_loop_spec retries i d :
  outcome retries i d (commit_loop o interf retries i s expd fv tok evs idx d).1
    (commit_loop o interf retries i s expd fv tok evs idx d).2.
Proof.
  revert i d. induction retries as [|retries IH]; intros i d; cbn [commit_loop];
    destruct (append_body (o i) s expd fv tok evs idx (begin d)) as [[[info seq] t]|e] eqn:Eb.
  2, 4: exists 0%nat; split; [lia|]; simpl; left; rewrite Nat.add_0_r;
    rewrite append_body_eq in Eb; destruct (append_plan _ _ _ _ _ _ _ _ _) as [[[??]?]|] eqn:Ep;
    [discriminate Eb|injection Eb as <-; done].
  all: destruct (commit_seq t seq (interf i d)) as [[d' h]|] eqn:Ec.
  1, 3: destruct (commit_attempt _ _ _ _ _ _ _ _ _ _ _ _ _ _ Eb Ec) as (Hte & -> & Htail);
    exists 0%nat; split; [lia|]; simpl; rewrite Nat.add_0_r; done.
  - exists 0%nat. split; [lia|]. simpl. destruct (tail (interf i d) s) as [tl|e] eqn:Et; simpl.
    + right. split_and!; [done..|]. right. exists tl. done.
    + right. split_and!; [done..|]. by left.
  - destruct (IH (S i) (interf i d)) as (k & Hk & Hout). exists (S k). split; [lia|].
    replace (i + S k)%nat with (S i + k)%nat by lia. cbn [drift].
    destruct (commit_loop _ _ _ _ _ _ _ _ _ _ _) as [[tk|e] d']; cbn [fst snd] in *; [done|].
    destruct Hout as [?|(-> & ?)]; [by left|]. right. split; [lia|done].
Qed.

Lemma commit_appends_spec d :
  check_batch evs = Ok tt →
  outcome COMMIT_RETRIES 0 d (commit_appends o interf s expd fv tok evs idx d).1
    (commit_appends o interf s expd fv tok evs idx d).2.
Proof. intros Hb. unfold commit_appends. rewrite Hb. apply commit_loop_spec. Qed.
End spec.

Lemma drift_inv (P : db → Prop) interf i k d :
  (∀ n d, P d → P (interf n d)) → P d → P (drift interf i k d).
Proof. intros Hi. revert i d. induction k as [|k IH]; intros i d Hd; simpl; [done|]. auto. Qed.

Lemma drift_quiet k i (d : db) : drift quiet i k d = d.
Proof. revert i. induction k as [|k IH]; intros i; simpl; [done|]. apply IH. Qed.
End commit.
