(* ===== verification/Appended.v ===== *)
(** * What a committed append did

    The abstract view of a stream is its log; [appended] is the abstract
    operation.  An append that takes effect refines it, and keeps the store
    invariant. *)

From S2P Require Import Prelude Text Slate Types Keys Kv Fork Store Batch Append Wf Commit.
Local Open Scope Z_scope.

(** The payload an envelope carries. *)
Definition payload (e : Envelope) : NewEvent := mkNewEvent (env_type e) (env_data e) (env_metadata e).

(** Consecutive versions. *)
Definition versions (first : Version) (n : nat) : list Version :=
  (λ i, first + Z.of_nat i) <$> seq 0 n.

Section appended.
Context `{SlateDb} `{Codecs}.

(** The envelopes [envs] are the events [evs] at consecutive versions from
    [first], with timestamps that never move backwards from [ts]. *)
Record batch_of (envs : list Envelope) (evs : list NewEvent) (first : Version) (ts : Z) : Prop := {
  bo_payload : payload <$> envs = evs;
  bo_versions : env_version <$> envs = versions first (length evs);
  bo_times : StronglySorted (λ e f, env_ts_ms e ≤ env_ts_ms f) envs;
  bo_start : Forall (λ e, ts ≤ env_ts_ms e) envs;
}.

(** [d'] is [d] with the batch written at [first]: everything but the
    records, the timestamp index and the tail of [s] and the sequence counter
    is as before. *)
Record appended (d d' : db) (s : string) (envs : list Envelope) : Prop := {
  ap_new e : e ∈ envs → stored d' s (env_version e) = Some e;
  ap_old v : key_num v → (∀ e, e ∈ envs → env_version e ≠ v) → stored d' s v = stored d s v;
  ap_log_other s' : slash_free s' → s' ≠ s → log d' s' = log d s';
  ap_tail_other s' : slash_free s' → s' ≠ s → tail d' s' = tail d s';
  ap_untouched k : key_ok k → untouched s k → db_get d' (render k) = db_get d (render k);
}.
End appended.

Lemma stamp_payload o f q i lt evs : payload <$> stamp o f q i lt evs = evs.
Proof.
  revert i lt. induction evs as [|e evs IH]; intros i lt; [done|]. cbn [stamp].
  rewrite fmap_cons, IH. by destruct e.
Qed.

Lemma versions_cons f n : versions f (S n) = f :: versions (f + 1) n.
Proof.
  unfold versions. simpl. f_equal; [lia|]. rewrite <-fmap_S_seq, <-list_fmap_compose.
  apply list_fmap_ext. intros ? x _. simpl. lia.
Qed.

Lemma stamp_versions o f q i lt evs :
  0 ≤ f → f + Z.of_nat (i + length evs) ≤ KEY_MAX →
  env_version <$> stamp o f q i lt evs = versions (f + Z.of_nat i) (length evs).
Proof.
  revert i lt. induction evs as [|e evs IH]; intros i lt Hf Hcap; [done|]. cbn [stamp length] in *.
  rewrite fmap_cons, versions_cons. cbn [env_version]. u64_norm. f_equal.
  rewrite IH by lia. f_equal. lia.
Qed.

Lemma batch_of_range envs evs first ts e :
  batch_of envs evs first ts → e ∈ envs →
  first ≤ env_version e < first + Z.of_nat (length evs).
Proof.
  intros Hbo He. assert (env_version e ∈ versions first (length evs)) as Hin.
  { rewrite <-(bo_versions _ _ _ _ Hbo). apply list_elem_of_fmap. eauto. }
  unfold versions in Hin. apply list_elem_of_fmap in Hin as (i & -> & Hi%elem_of_seq). lia.
Qed.

Lemma check_batch_length evs : check_batch evs = Ok tt → Z.of_nat (length evs) ≤ 1000.
Proof.
  unfold check_batch, MAX_BATCH_RECORDS. destruct (Z.ltb_spec 1000 (Z.of_nat (length evs))); [done|lia].
Qed.

Section effect.
Context `{SlateDbLaws} `{CodecLaws}.
Context (cur d' : db) (o : Oracle) (sq : Z) (s : string) (expd : ExpectedVersion)
  (fv : option Version) (tok : option string) (evs : list NewEvent) (idx : bool) (info : CommitInfo).
Context (Hwf : wf cur) (Hs : slash_free s) (Ho : oracle_ok o) (Hb : check_batch evs = Ok tt)
  (Heff : takes_effect cur d' o sq s expd fv tok evs idx info)
  (Hfirst : key_num (first_version info)) (Hlast : key_num (last_version info)).

(** The checks that passed and the batch that was written. *)
Lemma effect_facts : ∃ tl seq' envs,
  tail cur s = Ok tl ∧ from_option tail_ok True tl ∧ fence_ok cur s tok = Ok tt
  ∧ expected_matches expd (tail_version <$> tl) = true
  ∧ evs ≠ [] ∧ first_version info = first_of tl fv
  ∧ last_version info = first_of tl fv + Z.of_nat (length evs) - 1
  ∧ start_sequence info = u64_add sq 1
  ∧ envs = stamp o (first_of tl fv) (u64_add sq 1) 0 (map_or 0 tail_ts_ms tl) evs
  ∧ 0 ≤ seq' < U64
  ∧ d' = db_apply cur (render_ws (append_kws s idx envs (new_tail tl (last_version info) envs)
           ++ [seq_write seq'])).
Proof.
  destruct Heff as (seq' & ws & Hp & ->). unfold append_plan in Hp.
  destruct (tail_shaped cur s (wf_shaped _ Hwf) Hs) as (tl & Htl & Hok). rewrite Htl in Hp.
  cbn [rbind] in Hp. destruct (fence_ok cur s tok) as [[]|e] eqn:Ef; [|done]. cbn [rbind] in Hp.
  destruct (expected_matches expd (tail_version <$> tl)) eqn:Em; [|done]. simpl in Hp.
  destruct evs as [|e evs'] eqn:Eevs; [done|]. rewrite <-Eevs in *. injection Hp as Hi Hq <-.
  pose proof (check_batch_length _ Hb) as Hlen. clear Hb.
  assert (u64_add (first_of tl fv) (Z.of_nat (length evs) - 1)
    = first_of tl fv + Z.of_nat (length evs) - 1) as El.
  { subst info. simpl in *. pose proof KEY_MAX_eq. pose proof U64_eq. unfold key_num in *.
    assert (1 ≤ Z.of_nat (length evs)) by (rewrite Eevs; simpl; lia).
    rewrite u64_add_small; lia. }
  eexists tl, seq', _. split_and!; try done; try (by subst info).
  - by rewrite Eevs.
  - rewrite <-Hq. apply u64_add_range.
  - rewrite <-Hq. apply u64_add_range.
Qed.

Ltac facts :=
  destruct effect_facts as (tl & seq' & envs & Htl & Htok & Hfence & Hexp & Hne & Hf & Hl & Hsq
    & Henvs & Hseq & Hd').

Lemma effect_cap tl : evs ≠ [] → first_version info = first_of tl fv →
  last_version info = first_of tl fv + Z.of_nat (length evs) - 1 →
  0 ≤ first_of tl fv ∧ first_of tl fv + Z.of_nat (length evs) ≤ KEY_MAX - 1.
Proof. intros Hne Hf Hl. rewrite Hf in Hfirst. rewrite Hl in Hlast. unfold key_num in *. lia. Qed.

Lemma effect_batch : ∃ tl envs,
  tail cur s = Ok tl ∧ from_option tail_ok True tl
  ∧ expected_matches expd (tail_version <$> tl) = true ∧ fence_ok cur s tok = Ok tt
  ∧ evs ≠ [] ∧ first_version info = first_of tl fv
  ∧ last_version info = first_version info + Z.of_nat (length evs) - 1
  ∧ batch_of envs evs (first_version info) (map_or 0 tail_ts_ms tl)
  ∧ (∀ e, e ∈ envs → env_ok e) ∧ StronglySorted version_lt envs
  ∧ shaped d' ∧ tail d' s = Ok (Some (new_tail tl (last_version info) envs))
  ∧ (fv = None → log d' s = log cur s ++ envs)
  ∧ (∃ seq', 0 ≤ seq' < U64 ∧ d' = db_apply cur (render_ws
      (append_kws s idx envs (new_tail tl (last_version info) envs) ++ [seq_write seq'])))
  ∧ appended cur d' s envs.
Proof.
  facts. destruct (effect_cap tl Hne Hf Hl) as [Hc1 Hc2]. pose proof (wf_shaped _ Hwf) as Hsh.
  assert (first_of tl fv + Z.of_nat (length evs) ≤ KEY_MAX) as Hc3 by lia.
  assert (key_num (map_or 0 tail_ts_ms tl)) as Hts.
  { pose proof KEY_MAX_eq. destruct tl as [t|]; [apply Htok|]. unfold key_num. simpl. lia. }
  assert (∀ e, e ∈ envs → env_ok e) as Hok.
  { intros e He. rewrite Henvs in He. split_and!.
    - pose proof (stamp_version _ _ _ _ _ _ Hc1 Hc3 He). unfold key_num. lia.
    - by eapply stamp_ids.
    - eapply stamp_ts_num; [done|exact Hts|done]. }
  assert (StronglySorted version_lt envs) as Hsort.
  { rewrite Henvs. apply stamp_sorted; lia. }
  assert (tail_ok (new_tail tl (last_version info) envs)) as Hnt.
  { split; simpl.
    - destruct tl as [t|]; simpl; [|done]. destruct Htok. unfold key_num in *. lia.
    - rewrite Henvs. by apply final_ts_num. }
  exists tl, envs. split_and!; try done.
  - rewrite Hf. exact Hl.
  - rewrite Hf, Henvs. split.
    + apply stamp_payload.
    + rewrite stamp_versions by lia. f_equal. lia.
    + apply stamp_ts_sorted.
    + apply Forall_forall. intros e. apply stamp_ts_ge.
  - rewrite Hd'. by apply append_shaped.
  - rewrite Hd'. by apply append_tail.
  - intros ->. rewrite Hd'. apply append_log; [done..|]. intros v e f Hv Hst Hfin.
    destruct (wf_records _ Hwf s _ _ Hs Hv Hst) as (t & Ht & Hle). rewrite Htl in Ht. injection Ht as ->.
    rewrite Henvs in Hfin. pose proof (stamp_version _ _ _ _ _ _ Hc1 Hc3 Hfin) as Hfv.
    unfold first_of in Hfv. simpl in *. destruct Htok as [Htv _]. unfold key_num in Htv. u64_norm. lia.
  - by exists seq'.
  - rewrite Hd'. split.
    + intros e He. by apply append_stored_new.
    + intros v Hv Hn. apply append_stored_old; auto.
    + intros s' Hs' Hnes. by apply append_log_other.
    + intros s' Hs' Hnes. unfold tail, get_json. rewrite render_tail.
      by rewrite append_get_untouched.
    + intros k Hk Hu. by apply append_get_untouched.
Qed.

(** An append keeps the invariant. *)
Lemma effect_wf : wf d'.
Proof.
  destruct effect_batch as (tl & envs & Htl & _ & _ & _ & _ & Hf & Hl & Hbo & Hok & _ & Hsh' & Ht' & _ & _
    & [Hnew Hold _ Hto Hun]).
  apply (wf_preserve cur); [done|done|..].
  - intros s' v Hs' (t & Ht & Hv). destruct (decide (s' = s)) as [-> |Hne].
    + exists (new_tail tl (last_version info) envs). split; [done|]. simpl.
      rewrite Htl in Ht. injection Ht as ->. simpl. lia.
    + exists t. by rewrite Hto.
  - intros s' v e Hs' Hv He. destruct (decide (s' = s)) as [-> |Hne].
    + destruct (decide (Exists (λ e, env_version e = v) envs)) as [Hex|Hex].
      * right. exists (new_tail tl (last_version info) envs). split; [done|]. simpl.
        apply Exists_exists in Hex as (e' & He' & <-).
        pose proof (batch_of_range _ _ _ _ _ Hbo He'). destruct tl; simpl; lia.
      * left. rewrite Hold in He; [done..|]. intros e' He' Heq. apply Hex, Exists_exists. eauto.
    + left. unfold stored in *. rewrite render_rec in *. by rewrite Hun in He by (simpl; auto).
  - intros s' Hs'. rewrite render_fork. by apply Hun.
  - intros s' c Hs' Hc. rewrite render_pin. by apply Hun.
Qed.

End effect.
