(* ===== verification/Ops.v ===== *)
(** * The transactions of the other operations

    For each operation that runs one transaction: the batch it commits and
    the conditions it checked, all of them true of the state the batch is
    applied to ([interf d]), whatever the other writers did after [begin]. *)

From S2P Require Import Prelude Text Slate Types Keys Kv Fork Store Batch Append Wf Commit.
Local Open Scope Z_scope.

Section txns.
Context `{SlateDbLaws} `{CodecLaws}.

Lemma run_txn_Err {A} interf (body : TM A) d e d' :
  run_txn interf body d = (Err e, d') → d' = interf d.
Proof.
  unfold run_txn. destruct (body (begin d)) as [[a t]|e']; [|by intros [= _ <-]].
  destruct (txn_commit t (interf d)) as [[? ?]|]; [done|]. by intros [= _ <-].
Qed.

Lemma run_txn_Ok {A} interf (body : TM A) d a h d' :
  run_txn interf body d = (Ok (a, h), d') →
  ∃ t, body (begin d) = Ok (a, t) ∧ d' ≡ db_apply (interf d) (t_writes t)
    ∧ ∀ k, tracked t k → db_get (interf d) k = db_get (t_snap t) k.
Proof.
  unfold run_txn. destruct (body (begin d)) as [[a' t]|e'] eqn:Eb; [|done].
  unfold txn_commit. destruct (db_conflict t (interf d)) eqn:Ec; [done|]. intros E.
  exists t. assert (a' = a ∧ d' ≡ db_apply (interf d) (t_writes t)) as [-> Hd].
  { destruct (t_writes t) as [|w ws]; injection E as <- _ <-; (split; [done|]); [|done].
    intros k. by rewrite db_get_apply. }
  split_and!; [done..|]. intros k Hk. by apply db_conflict_sound.
Qed.

(** A transaction that only writes structured keys and reads point keys. *)
Definition plain_txn (d : db) (ws : list kwrite) (reads : list string) : Txn db :=
  mkTxn d (render_ws ws) [] reads [].

Lemma run_plain {A} interf (body : TM A) d a h d' a0 ws reads :
  run_txn interf body d = (Ok (a, h), d') → body (begin d) = Ok (a0, plain_txn d ws reads) →
  a = a0 ∧ d' ≡ db_apply (interf d) (render_ws ws)
  ∧ ∀ k, k ∈ reads → db_get (interf d) k = db_get d k.
Proof.
  intros Hrun Hbody. apply run_txn_Ok in Hrun as (t & Ht & Hd & Htr). rewrite Hbody in Ht.
  injection Ht as <- <-. split_and!; [done..|]. intros k Hk. apply Htr. split; [apply not_elem_of_nil|].
  by left.
Qed.

Lemma tail_cong d1 d2 s :
  db_get d1 (m_key s "tail") = db_get d2 (m_key s "tail") → tail d1 s = tail d2 s.
Proof. intros E. unfold tail, get_json. by rewrite E. Qed.

Lemma txn_tail_eq s (t : Txn db) :
  txn_tail s t = let? tl := tail (view t) s in Ok (tl, txn_mark_read (m_key s "tail") t).
Proof. unfold txn_tail, tbind, tget, tail, get_json. by destruct (opt_json _). Qed.

(** ** Fences *)

Definition fence_value (token : option string) : option bytes :=
  match token with Some "" | None => None | Some t => Some (as_bytes t) end.

Lemma fence_body_eq d s token tl :
  tail d s = Ok tl →
  fence_body s token (begin d) = Ok (tl, plain_txn d [(KFence s, fence_value token)] [m_key s "tail"]).
Proof.
  intros Htl. unfold fence_body. unfold tbind at 1. rewrite txn_tail_eq, view_begin, Htl. cbn [rbind].
  unfold replay_fence, tbind, tret. by destruct token as [[|c token]|].
Qed.

Lemma fence_Ok interf watch s token d r d' :
  fence interf watch s token d = (r, d') → shaped d → slash_free s →
  d' = interf d ∨
  (d' ≡ db_apply (interf d) (render_ws [(KFence s, fence_value token)]) ∧ tail (interf d) s = tail d s).
Proof.
  intros E Hsh Hs. unfold fence in E. destruct (run_txn interf (fence_body s token) d) as [r0 d0] eqn:Er.
  injection E as _ <-. destruct r0 as [[a h]|e]; [|left; by eapply run_txn_Err].
  right. destruct (tail_shaped d s Hsh Hs) as (tl & Htl & _).
  destruct (run_plain _ _ _ _ _ _ _ _ _ Er (fence_body_eq d s token tl Htl)) as (-> & Hd & Hr).
  split; [done|]. apply tail_cong, Hr. set_solver.
Qed.

(** ** Forks *)

Definition fork_kws (parent : string) (at_version : Version) (child : string) (ts : Z) : list kwrite :=
  [(KFork child, Some (to_vec {| fr_stream := parent; fr_at_version := at_version |}));
   (KTail child, Some (to_vec {| tail_version := at_version; tail_ts_ms := ts |}));
   (KPin parent child, Some (to_be_bytes at_version))].

(** The outcome of [fork]'s checks on the state it reads. *)
Definition fork_plan (d : db) (parent : string) (at_version : Version) (child : string) :
    R (list kwrite) :=
  let? pt := tail d parent in
  match pt with
  | None => Err (InvalidInput (ParentDoesNotExist parent))
  | Some pt =>
      if tail_version pt <? at_version
      then Err (InvalidInput (CannotForkAt parent (tail_version pt) at_version))
      else
        let? ct := tail d child in
        match ct with
        | Some t => Err (VersionConflict child NoStream (Some (tail_version t)))
        | None => Ok (fork_kws parent at_version child (tail_ts_ms pt))
        end
  end.

Lemma fork_body_eq d p v c :
  fork_body p v c (begin d) =
    let? ws := fork_plan d p v c in
    Ok (tt, plain_txn d ws [m_key c "tail"; m_key p "tail"]).
Proof.
  unfold fork_body, fork_plan. unfold tbind at 1. rewrite txn_tail_eq, view_begin.
  destruct (tail d p) as [[pt|]|e]; [|done..]. cbn [rbind].
  destruct (tail_version pt <? v); [done|]. unfold tbind at 1. rewrite txn_tail_eq.
  change (view (txn_mark_read _ (begin d))) with (view (begin d)). rewrite view_begin.
  destruct (tail d c) as [[ct|]|e]; done.
Qed.

Lemma fork_plan_ext d1 d2 p v c :
  tail d1 p = tail d2 p → tail d1 c = tail d2 c → fork_plan d1 p v c = fork_plan d2 p v c.
Proof. intros E1 E2. unfold fork_plan. by rewrite E1, E2. Qed.

Lemma fork_Ok interf p v c d d' :
  fork interf p v c d = (Ok tt, d') →
  ∃ ws, fork_plan (interf d) p v c = Ok ws ∧ d' ≡ db_apply (interf d) (render_ws ws).
Proof.
  intros E. unfold fork in E. destruct (run_txn interf (fork_body p v c) d) as [[[a h]|e] d0] eqn:Er;
    [|done]. injection E as _ <-.
  pose proof (run_txn_Ok _ _ _ _ _ _ Er) as (t & Hb & _). rewrite fork_body_eq in Hb.
  destruct (fork_plan d p v c) as [ws|] eqn:Ep; [|done].
  assert (fork_body p v c (begin d) = Ok (tt, plain_txn d ws [m_key c "tail"; m_key p "tail"])) as Hb'.
  { by rewrite fork_body_eq, Ep. }
  destruct (run_plain _ _ _ _ _ _ _ _ _ Er Hb') as (_ & Hd & Hr). exists ws. split; [|done].
  rewrite <-Ep. apply fork_plan_ext; apply tail_cong, Hr; set_solver.
Qed.

Lemma fork_Err interf p v c d e d' : fork interf p v c d = (Err e, d') → d' = interf d.
Proof.
  unfold fork. destruct (run_txn interf (fork_body p v c) d) as [[[a h]|e'] d0] eqn:Er; [done|].
  intros [= _ <-]. by eapply run_txn_Err.
Qed.

(** ** Rollback windows and floors *)

Definition trim_kws (s : string) (from : Version) (txn : Z) : list kwrite :=
  [(KRollback s from, Some (to_be_bytes txn))].

Lemma trim_body_eq d s from txn tl :
  tail d s = Ok tl →
  trim_body s from txn (begin d) = Ok (tl, plain_txn d (trim_kws s from txn) [m_key s "tail"]).
Proof.
  intros Htl. unfold trim_body. unfold tbind at 1. rewrite txn_tail_eq, view_begin, Htl. done.
Qed.

(** The floor [trim_below] stores. *)
Definition new_floor (d : db) (s : string) (tl : option TailRecord) (floor : Version) : Version :=
  Z.max (Z.min floor (map_or u64_max (λ t, u64_add (tail_version t) 1) tl)) (floor_of d s).

Definition trim_below_kws (s : string) (floor : Version) : list kwrite :=
  [(KTrim s, Some (to_be_bytes floor))].

Lemma trim_below_body_eq d s floor tl :
  tail d s = Ok tl →
  trim_below_body s floor (begin d) =
    Ok (tl, plain_txn d (trim_below_kws s (new_floor d s tl floor)) [m_key s "trim"; m_key s "tail"]).
Proof.
  intros Htl. unfold trim_below_body. unfold tbind at 1. rewrite txn_tail_eq, view_begin, Htl.
  cbn [rbind]. unfold txn_get_be. unfold tbind at 1. unfold tbind at 1. unfold tget, tret at 1.
  change (view (txn_mark_read _ (begin d))) with (view (begin d)). rewrite (view_begin d _).
  unfold tbind, tput, tret. do 2 f_equal.
Qed.

(** ** Deletion *)

Definition delete_kws (s : string) (tl : option TailRecord) : list kwrite :=
  match tl with Some _ => [(KDeleted s, Some [])] | None => [] end.

Lemma delete_body_eq d s tl :
  tail d s = Ok tl →
  delete_body s (begin d) = Ok (is_some tl, plain_txn d (delete_kws s tl) [m_key s "tail"]).
Proof.
  intros Htl. unfold delete_body. unfold tbind at 1. rewrite txn_tail_eq, view_begin, Htl.
  by destruct tl.
Qed.

(** The three of them share one outcome. *)
Lemma meta_outcome {A} interf (body : TM A) d ws a0 reads r d' :
  run_txn interf body d = (r, d') → body (begin d) = Ok (a0, plain_txn d ws reads) →
  (r = Err (Backend TransactionConflict) ∧ d' = interf d) ∨
  (∃ h, r = Ok (a0, h) ∧ d' ≡ db_apply (interf d) (render_ws ws)
   ∧ ∀ k, k ∈ reads → db_get (interf d) k = db_get d k).
Proof.
  intros Hrun Hbody. destruct r as [[a h]|e].
  - right. destruct (run_plain _ _ _ _ _ _ _ _ _ Hrun Hbody) as (-> & ? & ?). eauto.
  - left. pose proof (run_txn_Err _ _ _ _ _ Hrun). split; [|done]. unfold run_txn in Hrun.
    rewrite Hbody in Hrun. destruct (txn_commit _ _) as [[? ?]|]; [done|]. by injection Hrun as <-.
Qed.

Lemma delete_outcome interf s d tl r d' :
  tail d s = Ok tl → delete_stream interf s d = (r, d') →
  (d' = interf d ∧ (tl = None ∧ r = Ok tt ∨ r = Err (Backend TransactionConflict))) ∨
  (r = Ok tt ∧ is_Some tl ∧ d' ≡ db_apply (interf d) (render_ws [(KDeleted s, Some [])])
   ∧ tail (interf d) s = Ok tl).
Proof.
  intros Htl E. unfold delete_stream in E. rewrite (delete_body_eq d s tl Htl) in E.
  destruct tl as [t|]; simpl in E; [|injection E as <- <-; auto].
  destruct (run_txn interf (delete_body s) d) as [r0 d0] eqn:Er. injection E as <- <-.
  destruct (meta_outcome _ _ _ _ _ _ _ _ Er (delete_body_eq d s _ Htl)) as [[-> ->] | (h & -> & Hd & Hr)]; [auto|].
  right. split_and!; [done|by eauto|done|]. rewrite <-Htl. apply tail_cong, Hr. set_solver.
Qed.
End txns.
