(* ===== verification/Purge.v ===== *)
(** * Physical purge ([EventStore::purge_below])

    The loop deletes the records of a version range in chunks, one
    transaction per chunk.  [purge_loop_spec]: with one unit of fuel more than
    there are records in the range it ends, has deleted exactly those records
    and counted them. *)

From S2P Require Import Prelude Text Slate Types Keys Kv Fork Store Batch Append Wf Ops.
Local Open Scope Z_scope.

(** Strictly increasing integers in an interval are at most as many as the
    interval is long. *)
Lemma sorted_count l a b :
  StronglySorted Z.lt l → (∀ x, x ∈ l → a ≤ x < b) → Z.of_nat (length l) ≤ Z.max 0 (b - a).
Proof.
  intros Hs. revert a. induction Hs as [|x l Hs IH Hall]; intros a Hin; simpl; [lia|].
  rewrite Forall_forall in Hall. assert (a ≤ x < b) by (apply Hin; by left).
  assert (Z.of_nat (length l) ≤ Z.max 0 (b - (x + 1))).
  { apply IH. intros y Hy. specialize (Hall y Hy). assert (a ≤ y < b) by (apply Hin; by right). lia. }
  lia.
Qed.

Section purge.
Context `{SlateDbLaws} `{CodecLaws}.

(** The records of a range, as keys. *)
Definition range_keys (d : db) (s : string) (lo hi : Version) : list string :=
  (db_scan d (r_prefix s) (Some (fmt016 lo)) (Some (fmt016 hi))).*1.

(** [d'] is [d] without the keys of [ks]. *)
Definition without (d d' : db) (ks : list string) : Prop :=
  ∀ k, db_get d' k = if decide (k ∈ ks) then None else db_get d k.

Lemma delete_keys_eq ks (t : Txn db) :
  delete_keys ks t = Ok (tt, mkTxn (t_snap t) (t_writes t ++ ((λ k, (k, None)) <$> ks))
                         (t_unmarked t) (t_reads t) (t_scans t)).
Proof.
  revert t. induction ks as [|k ks IH]; intros t; simpl.
  - unfold tret. rewrite app_nil_r. by destruct t.
  - unfold tbind, tdelete. rewrite IH. simpl. by rewrite <-app_assoc.
Qed.

Lemma last_write_deletes ks k :
  last_write ((λ k, (k, None)) <$> ks) k = if decide (k ∈ ks) then Some None else None.
Proof.
  induction ks as [|k' ks IH]; [done|]. rewrite fmap_cons. cbn [last_write]. rewrite IH.
  destruct (decide (k ∈ ks)) as [Hin|Hin].
  - by rewrite decide_True by (by right).
  - destruct (String.eqb_spec k' k) as [-> |Hne].
    + by rewrite decide_True by left.
    + by rewrite decide_False by (rewrite not_elem_of_cons; auto).
Qed.

Lemma run_deletes ks d :
  ∃ h d', run_txn (λ d, d) (delete_keys ks) d = (Ok (tt, h), d') ∧ without d d' ks.
Proof.
  unfold run_txn. rewrite delete_keys_eq. cbn [begin t_snap t_writes t_unmarked t_reads t_scans app].
  unfold txn_commit. set (t := mkTxn _ _ _ _ _). change d with (t_snap t) at 1.
  rewrite db_conflict_clean.
  assert (∀ k, db_get (db_apply d (t_writes t)) k = if decide (k ∈ ks) then None else db_get d k) as Hg.
  { intros k. rewrite db_get_apply. simpl. rewrite last_write_deletes. by case_decide. }
  destruct (t_writes t) as [|w ws]; eexists _, _; (split; [done|]); [|exact Hg].
  intros k. rewrite <-(Hg k). by rewrite db_get_apply.
Qed.

(** The deletions when others committed in between. *)
Lemma deletes_outcome interf ks d r d' :
  run_txn interf (delete_keys ks) d = (r, d') → d' = interf d ∨ without (interf d) d' ks.
Proof.
  unfold run_txn. rewrite delete_keys_eq. cbn [begin t_snap t_writes t_unmarked t_reads t_scans app].
  unfold txn_commit. destruct (db_conflict _ _); [intros [= _ <-]; by left|]. cbn [t_writes].
  destruct ks as [|k ks]; [intros [= _ <-]; by left|]. intros [= _ <-]. right. intros q.
  change ((k, None) :: _) with ((λ k : string, (k, @None bytes)) <$> (k :: ks)). rewrite db_get_apply, last_write_deletes. by case_decide.
Qed.

Lemma without_shaped d d' ks : shaped d → without d d' ks → shaped d'.
Proof. intros Hsh Hw k b. rewrite (Hw k). case_decide; [done|]. apply Hsh. Qed.

Lemma range_key_version d s lo hi k :
  shaped d → slash_free s → key_lim lo → key_lim hi → k ∈ range_keys d s lo hi →
  ∃ v, k = r_key s v ∧ key_num v ∧ lo ≤ v < hi.
Proof.
  intros Hsh Hs Hlo Hhi ([k' b] & -> & Hin)%list_elem_of_fmap.
  destruct (db_scan_rec d s _ _ k' b Hsh Hs Hin) as (v & e & -> & Hv & _ & _ & <- & Hb).
  exists (env_version e). split_and!; [done|done|..];
    apply (in_bounds_window lo (Some hi)) in Hb; try done; unfold in_window, map_or in Hb;
    rewrite andb_true_iff, Z.leb_le, Z.ltb_lt in Hb; lia.
Qed.

(** After deleting a prefix of the range, the rest of it lies past the last
    key deleted. *)
Lemma range_rest_lt d d' s lo hi l1 l2 v :
  shaped d → slash_free s → key_lim lo → key_lim hi → lo ≤ v < hi →
  range_keys d s lo hi = l1 ++ l2 → last l1 = Some (r_key s v) → without d d' l1 →
  v + 1 < hi → range_keys d' s (v + 1) hi = l2.
Proof.
  intros Hsh Hs Hlo Hhi Hv Hsplit Hlast Hw Hlt.
  pose proof (without_shaped _ _ _ Hsh Hw) as Hsh'.
  assert (key_lim (v + 1)) as Hv1 by (unfold key_lim in *; lia).
  assert (StronglySorted str_lt (l1 ++ l2)) as Hsort by (rewrite <-Hsplit; apply db_scan_sorted).
  apply (StronglySorted_ext str_lt).
  - apply db_scan_sorted.
  - by apply StronglySorted_app_1_r in Hsort.
  - intros k. split.
    + intros Hk. destruct (range_key_version _ _ _ _ _ Hsh' Hs Hv1 Hhi Hk) as (w & -> & Hwn & Hwr).
      apply list_elem_of_fmap in Hk as ([k' b] & Ek & Hin). simpl in Ek. subst k'.
      apply db_scan_elem in Hin as [Hg _]. rewrite (Hw _) in Hg. case_decide as Hnin; [done|].
      assert (r_key s w ∈ l1 ++ l2) as Hin'.
      { rewrite <-Hsplit. apply list_elem_of_fmap. exists (r_key s w, b). split; [done|].
        apply db_scan_elem. split; [done|]. exists (fmt016 w).
        split; [unfold r_key, r_prefix; by rewrite !str_app_assoc|].
        split; [rewrite fmt016_leb|rewrite fmt016_ltb]; try key_bound;
          [apply Z.leb_le|apply Z.ltb_lt]; lia. }
      apply elem_of_app in Hin' as [?|]; done.
    + intros Hk. assert (k ∈ range_keys d s lo hi) as Hk0 by (rewrite Hsplit; apply elem_of_app; by right).
      destruct (range_key_version _ _ _ _ _ Hsh Hs Hlo Hhi Hk0) as (w & -> & Hwn & Hwr).
      assert (str_lt (r_key s v) (r_key s w)) as Hvw.
      { eapply (StronglySorted_app_1_elem_of str_lt); [done| |done]. by apply last_Some_elem_of. }
      apply r_key_lt in Hvw; [|unfold key_lim in *; lia|key_bound].
      assert (r_key s w ∉ l1) as Hnin.
      { intros Hin. by apply (irreflexivity str_lt (r_key s w)), (StronglySorted_app_1_elem_of str_lt l1 l2). }
      apply list_elem_of_fmap in Hk0 as ([k' b] & Ek & Hin). simpl in Ek. subst k'.
      apply db_scan_elem in Hin as [Hg _]. apply list_elem_of_fmap. exists (r_key s w, b).
      split; [done|]. apply db_scan_elem. split.
      * rewrite (Hw _). by rewrite decide_False.
      * exists (fmt016 w). split; [unfold r_key, r_prefix; by rewrite !str_app_assoc|].
        split; [rewrite fmt016_leb|rewrite fmt016_ltb]; try key_bound;
          [apply Z.leb_le|apply Z.ltb_lt]; lia.
Qed.

Lemma range_keys_empty d s lo hi :
  shaped d → slash_free s → key_lim lo → key_lim hi → hi ≤ lo → range_keys d s lo hi = [].
Proof.
  intros Hsh Hs Hlo Hhi Hle. destruct (range_keys d s lo hi) as [|k l] eqn:E; [done|].
  destruct (range_key_version d s lo hi k Hsh Hs Hlo Hhi) as (v & _ & _ & Hv); [|lia].
  rewrite E. by left.
Qed.

Lemma range_rest d d' s lo hi l1 l2 v :
  shaped d → slash_free s → key_lim lo → key_lim hi → lo ≤ v < hi →
  range_keys d s lo hi = l1 ++ l2 → last l1 = Some (r_key s v) → without d d' l1 →
  range_keys d' s (v + 1) hi = l2.
Proof.
  intros Hsh Hs Hlo Hhi Hv Hsplit Hlast Hw.
  destruct (decide (v + 1 < hi)) as [Hl|Hl]; [by apply (range_rest_lt d d' s lo hi l1 l2)|].
  assert (key_lim v ∧ key_lim (v + 1)) as [Hvl Hv1] by (unfold key_lim in *; lia).
  rewrite range_keys_empty; [|by apply (without_shaped d d' l1)|done..|lia].
  destruct l2 as [|w l2]; [done|]. exfalso.
  destruct (range_key_version d s lo hi w) as (u & -> & Hun & Hu); [done..| |].
  { rewrite Hsplit. apply elem_of_app. right. by left. }
  assert (str_lt (r_key s v) (r_key s u)) as Hvu.
  { apply (StronglySorted_app_1_elem_of str_lt l1 (r_key s u :: l2));
      [|by apply last_Some_elem_of|by left]. rewrite <-Hsplit. apply db_scan_sorted. }
  apply r_key_lt in Hvu; [lia|key_bound..].
Qed.

Lemma without_nil d : without d d [].
Proof. intros k. by rewrite decide_False by apply not_elem_of_nil. Qed.

Lemma without_app d d1 d2 l1 l2 : without d d1 l1 → without d1 d2 l2 → without d d2 (l1 ++ l2).
Proof.
  intros W1 W2 k. pose proof (W1 k) as E1. pose proof (W2 k) as E2.
  destruct (decide (k ∈ l1)), (decide (k ∈ l2)), (decide (k ∈ l1 ++ l2)) as [E|E];
    rewrite elem_of_app in E; (congruence || tauto).
Qed.

Lemma u64_add_assoc_l a b c : u64_add (u64_add a b) c = u64_add a (b + c).
Proof. unfold u64_add. rewrite Zplus_mod_idemp_l. f_equal. lia. Qed.

Lemma purge_loop_spec fuel s floor next purged d :
  shaped d → slash_free s → key_lim floor → key_lim next → 0 ≤ purged < U64 →
  (length (range_keys d s next floor) < fuel)%nat →
  ∃ d', purge_loop fuel s floor next purged d
      = Some (Ok (u64_add purged (Z.of_nat (length (range_keys d s next floor)))), d')
    ∧ without d d' (range_keys d s next floor).
Proof.
  revert next purged d. induction fuel as [|fuel IH]; intros next purged d Hsh Hs Hfl Hnx Hp Hfuel; [lia|].
  cbn [purge_loop]. destruct (Z.ltb_spec next floor) as [Hlt|Hge].
  2: { rewrite range_keys_empty by done. simpl. rewrite u64_add_small by lia.
       exists d. split; [by rewrite Z.add_0_r|apply without_nil]. }
  unfold range_keys in *. set (entries := db_scan d (r_prefix s) _ _) in *.
  destruct (last (firstn PURGE_CHUNK entries).*1) as [k|] eqn:El.
  2: { apply last_None in El. apply fmap_nil_inv in El. destruct entries as [|e es]; [|done]. simpl.
       rewrite u64_add_small by lia. exists d. split; [by rewrite Z.add_0_r|apply without_nil]. }
  rewrite fmap_take in El |- *. set (l1 := firstn PURGE_CHUNK entries.*1) in *.
  set (l2 := skipn PURGE_CHUNK entries.*1).
  assert (range_keys d s next floor = l1 ++ l2) as Hsplit by (symmetry; apply firstn_skipn).
  change (entries.*1) with (range_keys d s next floor). rewrite Hsplit.
  assert (k ∈ range_keys d s next floor) as Hk.
  { rewrite Hsplit. apply elem_of_app. left. by apply last_Some_elem_of. }
  destruct (range_key_version _ _ _ _ _ Hsh Hs Hnx Hfl Hk) as (v & -> & Hvn & Hv).
  rewrite version_suffix_rec by key_bound.
  destruct (run_deletes l1 d) as (h & d1 & -> & Hw1).
  assert (u64_add v 1 = v + 1) as -> by (unfold key_num in Hvn; u64_norm; lia).
  assert (range_keys d1 s (v + 1) floor = l2) as Hrest by (by apply (range_rest d d1 s next floor l1 l2)).
  destruct (IH (v + 1) (u64_add purged (Z.of_nat (length l1))) d1) as (d' & Hrun & Hw2).
  - by eapply without_shaped.
  - done.
  - done.
  - unfold key_num, key_lim in *; lia.
  - apply u64_add_range.
  - change (length (range_keys d1 s (v + 1) floor) < fuel)%nat. rewrite Hrest.
    assert (length l1 ≠ 0%nat) by (destruct l1; [done|simpl; lia]).
    apply (f_equal length) in Hsplit. rewrite length_app in Hsplit.
    change (length entries.*1 < S fuel)%nat in Hfuel. unfold range_keys in Hsplit. fold entries in Hsplit. lia.
  - exists d'. change ((db_scan d1 _ _ _).*1) with (range_keys d1 s (v + 1) floor) in *.
    rewrite Hrest in *. rewrite Hrun, u64_add_assoc_l. split.
    + do 3 f_equal. rewrite length_app. f_equal. lia.
    + by eapply without_app.
Qed.
(** The range, in terms of the log. *)
Lemma range_keys_log d s lo hi :
  shaped d → slash_free s → key_lim lo → key_lim hi →
  range_keys d s lo hi =
    (λ e, r_key s (env_version e)) <$> filter (λ e, in_window lo (Some hi) e = true) (log d s).
Proof.
  intros Hsh Hs Hlo Hhi. apply (StronglySorted_ext str_lt).
  - apply db_scan_sorted.
  - pose proof (StronglySorted_filter version_lt (λ e, in_window lo (Some hi) e = true) (log d s)
      (log_sorted d s Hsh Hs)) as Hf.
    assert (∀ e, e ∈ filter (λ e, in_window lo (Some hi) e = true) (log d s) → key_lim (env_version e)) as Hn.
    { intros e [_ [He _]%log_elem]%list_elem_of_filter; [by apply key_num_lim|done..]. }
    induction Hf as [|e l Hf IH Hall]; [constructor|]. rewrite fmap_cons.
    constructor; [apply IH; intros f Hf'; apply Hn; by right|].
    rewrite Forall_fmap, Forall_forall in *. intros f Hfin. simpl.
    apply r_key_lt; [apply Hn; by left|apply Hn; by right|by apply Hall].
  - intros k. rewrite list_elem_of_fmap. split.
    + intros Hk. pose proof Hk as ([k' b] & -> & Hin)%list_elem_of_fmap.
      destruct (db_scan_rec d s _ _ k' b Hsh Hs Hin) as (v & e & -> & Hv & Hg & Hd & <- & Hb).
      exists e. split; [done|]. apply list_elem_of_filter. split; [by apply in_bounds_window|].
      apply log_elem; [done..|]. split; [done|]. unfold stored. rewrite Hg. simpl. by rewrite Hd.
    + intros (e & -> & [Hw [Hv Hst]%log_elem]%list_elem_of_filter); [|done..].
      unfold stored in Hst. destruct (db_get d (r_key s (env_version e))) as [b|] eqn:Hg; [|done].
      apply list_elem_of_fmap. exists (r_key s (env_version e), b). split; [done|].
      apply db_scan_elem. split; [done|]. exists (fmt016 (env_version e)).
      split; [unfold r_key, r_prefix; by rewrite !str_app_assoc|].
      by apply (in_bounds_window lo (Some hi)).
Qed.

Lemma range_keys_count d s lo hi :
  shaped d → slash_free s → key_lim lo → key_lim hi →
  Z.of_nat (length (range_keys d s lo hi)) < KEY_MAX.
Proof.
  intros Hsh Hs Hlo Hhi. rewrite range_keys_log, length_fmap by done.
  set (l := filter _ _).
  pose proof (sorted_count (env_version <$> l) 0 (KEY_MAX - 1)) as Hc. rewrite length_fmap in Hc.
  pose proof KEY_MAX_pos. enough (Z.of_nat (length l) ≤ Z.max 0 (KEY_MAX - 1 - 0)) by lia. apply Hc.
  - apply (StronglySorted_fmap env_version version_lt Z.lt); [done|].
    by apply StronglySorted_filter, log_sorted.
  - intros x (e & -> & [_ [He _]%log_elem]%list_elem_of_filter)%list_elem_of_fmap; done.
Qed.
End purge.
