(* ===== verification/History.v ===== *)
(** * Histories across forks

    [hist d s l]: the full history of [s] is [l] -- the parent's history up to
    the fork point, then the stream's own visible records.  On a well-formed
    store every stream has exactly one, and [resolve_history] returns its
    restriction to the range it is given, without ever reporting a cycle. *)

From S2P Require Import Prelude Text Slate Types Keys Kv Fork Store Batch Append Wf.
Local Open Scope Z_scope.

Section hist.
Context `{SlateDb} `{Codecs}.

(** The records of a stream its readers see. *)
Definition vis (d : db) (s : string) : list Envelope := filter (λ e, visible d s e = true) (log d s).

Definition upto (v : Version) (l : list Envelope) : list Envelope :=
  filter (λ e, env_version e ≤ v) l.

Definition within (lo : Version) (hi : option Version) (l : list Envelope) : list Envelope :=
  filter (λ e, in_window lo hi e = true) l.

Inductive hist (d : db) : string → list Envelope → Prop :=
| hist_root s : fork_ref d s = Ok None → hist d s (vis d s)
| hist_fork s f l :
    fork_ref d s = Ok (Some f) → hist d (fr_stream f) l →
    hist d s (upto (fr_at_version f) l ++ vis d s).
End hist.

Lemma within_upto lo hi v l :
  within lo hi (upto v l) = within lo (Some (map_or (v + 1) (λ h, Z.min h (v + 1)) hi)) l.
Proof.
  unfold within, upto. rewrite list_filter_filter. apply filter_ext_in. intros e _.
  unfold in_window. destruct hi as [h|]; simpl;
    rewrite ?andb_true_iff, ?Z.leb_le, ?Z.ltb_lt; intuition lia.
Qed.

Lemma within_empty lo hi l : empty_range lo hi = true → within lo hi l = [].
Proof.
  unfold empty_range. destruct hi as [h|]; simpl; [|done]. intros Hle%Z.leb_le.
  apply filter_none. intros e _. unfold in_window. simpl.
  rewrite andb_true_iff, Z.leb_le, Z.ltb_lt. lia.
Qed.

Section laws.
Context `{SlateDbLaws} `{CodecLaws}.

(** ** Scans depend on one family of keys *)

Lemma scan_ext d1 d2 p lo hi :
  shaped d1 → shaped d2 →
  (∀ K suf, key_ok K → render K = p +:+ suf → db_get d1 (render K) = db_get d2 (render K)) →
  db_scan d1 p lo hi = db_scan d2 p lo hi.
Proof.
  intros Hsh1 Hsh2 Heq. apply db_scan_unique; [apply db_scan_sorted|]. intros k v.
  rewrite db_scan_elem. split; intros (Hg & suf & -> & Hb).
  - destruct (Hsh2 _ _ Hg) as (K & HK & Hok & _). rewrite HK in Hg |- *.
    split; [by rewrite (Heq K suf)|]. exists suf. by rewrite HK.
  - destruct (Hsh1 _ _ Hg) as (K & HK & Hok & _). rewrite HK in Hg |- *.
    split; [by rewrite <-(Heq K suf)|]. exists suf. by rewrite HK.
Qed.

(** The guards of a stream other than its floor: its deletion mark, its
    rollback windows and its pins with their children's deletion marks. *)
Definition admitted (d : db) (s : string) (e : Envelope) : bool :=
  (negb (is_deleted d s) || map_or false (λ c, env_version e <=? c) (ceiling d s))
  && negb (rolled_back (windows d s) e).

Lemma visible_admitted d s e : visible d s e = (floor_of d s <=? env_version e) && admitted d s e.
Proof. unfold visible, admitted. by rewrite andb_assoc. Qed.

Record same_guards (d1 d2 : db) (s : string) : Prop := {
  sg_deleted c : slash_free c → db_get d1 (m_key c "deleted") = db_get d2 (m_key c "deleted");
  sg_pin c : slash_free c → db_get d1 (render (KPin s c)) = db_get d2 (render (KPin s c));
  sg_rollback v : key_num v → db_get d1 (render (KRollback s v)) = db_get d2 (render (KRollback s v));
}.

Lemma pin_child_render s c : slash_free c → pin_child (m_key s "forks/" +:+ c) = c.
Proof.
  intros Hc. unfold pin_child, m_key.
  replace (("m/" +:+ s +:+ "/" +:+ "forks/") +:+ c) with (("m/" +:+ s +:+ "/forks") +:+ "/" +:+ c)
    by by rewrite !str_app_assoc. by apply after_last_slash_app.
Qed.

Lemma fold_left_ext_in {A B} (f g : A → B → A) l a :
  (∀ a b, b ∈ l → f a b = g a b) → fold_left f l a = fold_left g l a.
Proof.
  revert a. induction l as [|b l IH]; intros a Hfg; simpl; [done|].
  rewrite Hfg by left. apply IH. intros a' b' Hb. apply Hfg. by right.
Qed.

Lemma pin_scan d s k b :
  shaped d → slash_free s → (k, b) ∈ db_scan d (m_key s "forks/") None None →
  ∃ c, slash_free c ∧ k = render (KPin s c) ∧ pin_child k = c ∧ db_get d k = Some b
    ∧ key_num (from_be_bytes b).
Proof.
  intros Hsh Hs (Hg & suf & -> & _)%db_scan_elem. destruct (Hsh _ _ Hg) as (K & HK & Hok & Hv).
  destruct (pin_family K s suf Hok Hs (eq_sym HK)) as (c & -> & ->). destruct Hok as [_ Hc].
  exists c. split_and!; [done..|by apply pin_child_render|done|exact Hv].
Qed.

Lemma ceiling_ext d1 d2 s :
  shaped d1 → shaped d2 → slash_free s → same_guards d1 d2 s → ceiling d1 s = ceiling d2 s.
Proof.
  intros Hsh1 Hsh2 Hs Hg. unfold ceiling. rewrite (scan_ext d1 d2); [|done..|].
  - apply fold_left_ext_in. intros c [k b] Hin.
    destruct (pin_scan d2 s k b Hsh2 Hs Hin) as (ch & Hch & _ & Hpc & _).
    unfold ceiling_step, is_deleted. cbn [fst snd]. by rewrite Hpc, (sg_deleted _ _ _ Hg).
  - intros K suf HK E. destruct (pin_family K s suf HK Hs E) as (c & -> & _).
    apply (sg_pin _ _ _ Hg). apply HK.
Qed.

Lemma windows_ext d1 d2 s :
  shaped d1 → shaped d2 → slash_free s → same_guards d1 d2 s → windows d1 s = windows d2 s.
Proof.
  intros Hsh1 Hsh2 Hs Hg. unfold windows. rewrite (scan_ext d1 d2); [done..|].
  intros K suf HK E. destruct (rollback_family K s suf HK Hs E) as (v & -> & _).
  apply (sg_rollback _ _ _ Hg). apply HK.
Qed.

Lemma admitted_ext d1 d2 s e :
  shaped d1 → shaped d2 → slash_free s → same_guards d1 d2 s → admitted d1 s e = admitted d2 s e.
Proof.
  intros Hsh1 Hsh2 Hs Hg. unfold admitted, is_deleted. rewrite (sg_deleted _ _ _ Hg s Hs).
  by rewrite (ceiling_ext d1 d2), (windows_ext d1 d2).
Qed.

Lemma visible_ext d1 d2 s e :
  shaped d1 → shaped d2 → slash_free s → same_guards d1 d2 s →
  db_get d1 (m_key s "trim") = db_get d2 (m_key s "trim") → visible d1 s e = visible d2 s e.
Proof.
  intros Hsh1 Hsh2 Hs Hg Ht. rewrite !visible_admitted, (admitted_ext d1 d2) by done.
  unfold floor_of, get_be. by rewrite Ht.
Qed.

Lemma vis_ext d1 d2 s :
  shaped d1 → shaped d2 → slash_free s → same_guards d1 d2 s →
  db_get d1 (m_key s "trim") = db_get d2 (m_key s "trim") → log d1 s = log d2 s →
  vis d1 s = vis d2 s.
Proof.
  intros Hsh1 Hsh2 Hs Hg Ht Hl. unfold vis. rewrite Hl. apply filter_ext_in. intros e _.
  by rewrite (visible_ext d1 d2).
Qed.

#[global] Instance visible_proper : Proper ((≡) ==> (=) ==> (=) ==> (=)) visible.
Proof.
  intros d1 d2 E s _ <- e _ <-.
  assert (∀ x, is_deleted d1 x = is_deleted d2 x) as Hdel by (intros x; unfold is_deleted; by rewrite E).
  assert (ceiling d1 s = ceiling d2 s) as Hc.
  { unfold ceiling. rewrite (scan_equiv d1 d2) by done. apply fold_left_ext_in. intros a b _. unfold ceiling_step. by rewrite Hdel. }
  unfold visible, floor_of, get_be, windows. by rewrite Hdel, Hc, (scan_equiv d1 d2), (E (m_key s "trim")).
Qed.

#[global] Instance vis_proper : Proper ((≡) ==> (=) ==> (=)) vis.
Proof.
  intros d1 d2 E s _ <-. unfold vis. rewrite (log_proper _ _ E s s eq_refl).
  apply filter_ext_in. intros e _. by rewrite (visible_proper _ _ E s s eq_refl e e eq_refl).
Qed.

#[global] Instance hist_proper : Proper ((≡) ==> (=) ==> (=) ==> iff) hist.
Proof.
  assert (∀ d1 d2 s l, d1 ≡ d2 → hist d1 s l → hist d2 s l) as Himp.
  { intros d1 d2 s l E Hl. induction Hl as [s Hf|s f l Hf Hl IH];
      rewrite (vis_proper _ _ E s s eq_refl); [apply hist_root|eapply hist_fork; [|done]];
      by rewrite <-(fork_ref_proper _ _ E s s eq_refl). }
  intros d1 d2 E s _ <- l _ <-. split; apply Himp; [done|by symmetry].
Qed.

(** ** Reads of a stream's own records *)

Lemma own_read d s lo hi :
  shaped d → slash_free s → key_lim lo → from_option key_lim True hi →
  read_events d s (own_range lo hi) = Ok (from_parts <$> within lo hi (vis d s)).
Proof.
  intros Hsh Hs Hlo Hhi. rewrite (read_events_log d s _ lo hi); [|done|done| |done..|by apply floor_shaped].
  - do 2 f_equal. unfold within, vis. by rewrite list_filter_filter.
  - by destruct hi.
Qed.

(** ** Existence and uniqueness *)

Lemma hist_unique d s l1 l2 : hist d s l1 → hist d s l2 → l1 = l2.
Proof.
  intros Hl1. revert l2. induction Hl1 as [s Hf|s f l Hf Hh IH]; intros l2 Hl2;
    inversion Hl2 as [? Hf'|? f' l' Hf' Hh']; subst; rewrite Hf in Hf'; simplify_eq; [done|].
  by rewrite (IH l').
Qed.

Lemma hist_exists d s : wf d → slash_free s → ∃ l, hist d s l.
Proof.
  intros Hwf. destruct (wf_acyclic d Hwf) as [rank Hrk].
  remember (rank s) as n eqn:En. revert s En.
  induction (lt_wf n) as [n _ IH]. intros s -> Hs.
  destruct (fork_ref_shaped d s (wf_shaped d Hwf) Hs) as ([f|] & Hf & Hok).
  - destruct (IH (rank (fr_stream f)) (Hrk s f (conj Hs Hf)) (fr_stream f)) as [l Hl]; [done|apply Hok|].
    eexists. by eapply hist_fork.
  - eexists. by apply hist_root.
Qed.

(** ** Resolution *)

Definition lim_window (lo : Version) (hi : option Version) : Prop :=
  key_lim lo ∧ from_option key_lim True hi.

Lemma parent_hi_eq hi v : key_num v →
  parent_hi hi v = map_or (v + 1) (λ h, Z.min h (v + 1)) hi.
Proof. intros Hv. unfold parent_hi, key_num in *. u64_norm. done. Qed.

(** The walk meets no stream twice: ranks fall strictly along it. *)
Lemma resolve_fuel_hist d s l (rank : string → nat) fuel visited lo hi r :
  shaped d → (∀ s f, forks_from d s f → (rank (fr_stream f) < rank s)%nat) →
  hist d s l → slash_free s → lim_window lo hi →
  (∀ x, x ∈ visited → (rank s < rank x)%nat) →
  resolve_fuel fuel d s visited lo hi = Some r → r = Ok (from_parts <$> within lo hi l).
Proof.
  intros Hsh Hrk Hl. revert fuel visited lo hi r.
  induction Hl as [s Hf|s f l Hf Hl IH]; intros [|fuel] visited lo hi r Hs [Hlo Hhi] Hvis Hres;
    try done; cbn [resolve_fuel] in Hres;
    (destruct (empty_range lo hi) eqn:Ee; [by injection Hres as <-; rewrite within_empty|]);
    rewrite bool_decide_eq_false_2 in Hres by (intros Hin; specialize (Hvis s Hin); lia);
    rewrite Hf in Hres; simpl in Hres.
  - rewrite own_read in Hres by done. simpl in Hres. by injection Hres as <-.
  - destruct (forks_from_shaped d s f Hsh (conj Hs Hf)) as [Hp Hat].
    rewrite parent_hi_eq in Hres by done. set (ph := map_or _ _ hi) in Hres.
    assert (key_lim (Z.max 0 ph)) as Hph.
    { unfold ph, key_num, key_lim in *. destruct hi; simpl in *; lia. }
    assert (∃ ev, ev = within lo (Some ph) l ∧
      Some (let? events := Ok (from_parts <$> ev) in
            let? own := read_events d s (own_range lo hi) in Ok (events ++ own)) = Some r)
      as (ev & -> & Hr).
    { destruct (Z.ltb_spec lo ph) as [Hlt|Hge].
      - destruct (resolve_fuel fuel d (fr_stream f) ({[s]} ∪ visited) lo (Some ph)) as [r'|] eqn:Er;
          [|done]. eexists. split; [done|]. rewrite <-Hres. simpl. f_equal.
        pose proof (IH fuel ({[s]} ∪ visited) lo (Some ph) r' Hp) as IH'.
        rewrite IH'; [done| | |done].
        + split; [done|]. simpl. unfold key_lim in *. lia.
        + intros x [->%elem_of_singleton | Hx]%elem_of_union; [by apply (Hrk s f)|].
          specialize (Hvis x Hx). pose proof (Hrk s f (conj Hs Hf)). lia.
      - eexists. split; [done|]. rewrite <-Hres. rewrite within_empty; [done|].
        simpl. by apply Z.leb_le. }
    rewrite own_read in Hr by done. simpl in Hr. injection Hr as <-.
    rewrite <-fmap_app. do 2 f_equal. unfold within at 3. rewrite filter_app.
    fold (within lo hi (upto (fr_at_version f) l)). by rewrite within_upto.
Qed.

Lemma resolve_history_hist d s l lo hi :
  wf d → slash_free s → hist d s l → lim_window lo hi →
  resolve_history d s lo hi = Ok (from_parts <$> within lo hi l).
Proof.
  intros Hwf Hs Hl Hw. destruct (wf_acyclic d Hwf) as [rank Hrk].
  destruct (resolve_total d s ∅ lo hi) as [r Hr].
  rewrite (resolve_history_fuel d _ s lo hi r Hr).
  eapply (resolve_fuel_hist d s l rank _ ∅ lo hi r); [apply Hwf|done..| |exact Hr]. set_solver.
Qed.
End laws.
