(* ===== verification/Txn.v ===== *)
(** * Cross-stream transactions ([EventStore::commit])

    [plan_ops] threads the state through the queued operations, each one
    seeing the writes of those before it.  It is what the transaction commits
    ([commit_spec]), and it is what running the operations one by one would
    write ([plan_ops_sequential]). *)

From S2P Require Import Prelude Text Slate Types Keys Kv Fork Store Batch Append Wf Commit.
From S2P Require Import Appended Ops.
Local Open Scope Z_scope.

Section plan.
Context `{SlateDb} `{Codecs}.

(** The infos, the final sequence cursor and the writes of a list of
    operations run from [d]. *)
Fixpoint plan_ops (d : db) (o : nat → Oracle) (i : nat) (seq : Z) (ops : Transaction) :
    R (list CommitInfo * Z * list kwrite) :=
  match ops with
  | [] => Ok ([], seq, [])
  | OpAppend s expd evs :: ops =>
      let? (info, seq, ws) := append_plan d (o i) seq s expd None None evs true in
      let? (infos, seq, ws') := plan_ops (db_apply d (render_ws ws)) o (S i) seq ops in
      Ok (info :: infos, seq, ws ++ ws')
  | OpFence s token :: ops =>
      let ws := [(KFence s, fence_value token)] in
      let? (infos, seq, ws') := plan_ops (db_apply d (render_ws ws)) o (S i) seq ops in
      Ok (infos, seq, ws ++ ws')
  end.

(** The keys the transaction reads, oldest last. *)
Fixpoint op_reads (ops : Transaction) : list string :=
  match ops with
  | [] => []
  | OpAppend s _ _ :: ops => op_reads ops ++ [m_key s "tail"]
  | OpFence _ _ :: ops => op_reads ops
  end.

(** Each operation as a transaction of its own. *)
Fixpoint run_each (o : nat → Oracle) (i : nat) (ops : Transaction) (d : db) :
    R (list CommitInfo) * db :=
  match ops with
  | [] => (Ok [], d)
  | OpAppend s expd evs :: ops =>
      match append (λ _, o i) quiet s expd evs d with
      | (Err e, d) => (Err e, d)
      | (Ok info, d) =>
          let '(r, d) := run_each o (S i) ops d in (rmap (cons info) r, d)
      end
  | OpFence s token :: ops =>
      match run_txn (λ d, d) (replay_fence s token) d with
      | (Err e, d) => (Err e, d)
      | (Ok _, d) => run_each o (S i) ops d
      end
  end.
End plan.

Section laws.
Context `{SlateDbLaws} `{CodecLaws}.

Lemma render_ws_app ws1 ws2 : render_ws (ws1 ++ ws2) = render_ws ws1 ++ render_ws ws2.
Proof. apply fmap_app. Qed.

Lemma apply_app d ws1 ws2 : db_apply (db_apply d ws1) ws2 ≡ db_apply d (ws1 ++ ws2).
Proof. intros k. rewrite !db_get_apply, last_write_app. by destruct (last_write ws2 k). Qed.

(** Contents up to the sequence counter. *)
Definition but_seq (d1 d2 : db) : Prop := ∀ k, k ≠ SEQ_KEY → db_get d1 k = db_get d2 k.

Lemma but_seq_apply d1 d2 ws : but_seq d1 d2 → but_seq (db_apply d1 ws) (db_apply d2 ws).
Proof. intros E k Hk. rewrite !db_get_apply. destruct (last_write ws k); [done|]. by apply E. Qed.

Lemma but_seq_snoc d1 d2 ws q :
  but_seq d1 d2 →
  but_seq (db_apply d1 (render_ws ws)) (db_apply d2 (render_ws (ws ++ [seq_write q]))).
Proof.
  intros E k Hk. rewrite !db_get_apply, render_ws_app, last_write_app.
  assert (last_write (render_ws [seq_write q]) k = None) as ->.
  { apply last_write_None. by intros ->%list_elem_of_singleton. }
  destruct (last_write (render_ws ws) k); [done|]. by apply E.
Qed.

Lemma append_plan_but_seq d1 d2 o seq s expd fv tok evs idx :
  but_seq d1 d2 →
  append_plan d1 o seq s expd fv tok evs idx = append_plan d2 o seq s expd fv tok evs idx.
Proof. intros E. apply append_plan_ext; intros; by apply E. Qed.

Lemma plan_ops_but_seq d1 d2 o i seq ops :
  but_seq d1 d2 → plan_ops d1 o i seq ops = plan_ops d2 o i seq ops.
Proof.
  revert d1 d2 i seq. induction ops as [|[s expd evs|s token] ops IH]; intros d1 d2 i seq E; simpl; [done|..].
  - rewrite (append_plan_but_seq d1 d2) by done.
    destruct (append_plan d2 _ _ _ _ _ _ _ _) as [[[info sq] ws]|e]; [|done]. simpl.
    by rewrite (IH _ (db_apply d2 (render_ws ws))) by by apply but_seq_apply.
  - by rewrite (IH _ (db_apply d2 (render_ws [(KFence s, fence_value token)]))) by by apply but_seq_apply.
Qed.

Lemma equiv_but_seq d1 d2 : d1 ≡ d2 → but_seq d1 d2.
Proof. intros E k _. apply E. Qed.

(** ** The transaction body writes the plan *)

Lemma view_add (t : Txn db) reads ws :
  view (txn_add t reads ws) ≡ db_apply (view t) (render_ws ws).
Proof. unfold view. simpl. symmetry. apply apply_app. Qed.

Lemma replay_ops_eq o i seq ops (t : Txn db) :
  replay_ops o i seq ops t =
    let? (infos, seq', ws) := plan_ops (view t) o i seq ops in
    Ok ((infos, seq'), txn_add t (op_reads ops) ws).
Proof.
  revert i seq t. induction ops as [|[s expd evs|s token] ops IH]; intros i seq t; cbn [replay_ops plan_ops].
  - unfold tret, txn_add. simpl. rewrite app_nil_r. by destruct t.
  - unfold tbind at 1. rewrite replay_append_eq.
    destruct (append_plan (view t) _ _ _ _ _ _ _ _) as [[[info sq] ws]|e]; [|done]. cbn [rbind].
    unfold tbind. rewrite IH.
    rewrite (plan_ops_but_seq _ (db_apply (view t) (render_ws ws))) by apply equiv_but_seq, view_add.
    destruct (plan_ops _ _ _ _ _) as [[[infos sq'] ws']|e]; [|done]. cbn [rbind tret]. unfold tret.
    do 2 f_equal. unfold txn_add. simpl. by rewrite render_ws_app, <-!app_assoc.
  - unfold tbind.
    assert (replay_fence s token t = Ok (tt, txn_add t [] [(KFence s, fence_value token)])) as ->
      by by destruct token as [[|c token]|].
    rewrite IH.
    rewrite (plan_ops_but_seq _ (db_apply (view t) (render_ws [(KFence s, fence_value token)])))
      by apply equiv_but_seq, view_add.
    destruct (plan_ops _ _ _ _ _) as [[[infos sq'] ws']|e]; [|done]. cbn [rbind].
    do 2 f_equal. unfold txn_add. cbn [t_snap t_writes t_unmarked t_reads t_scans app].
    by rewrite <-!app_assoc.
Qed.

Lemma commit_body_eq o ops d :
  commit_body o ops (begin d) =
    let? (infos, seq', ws) := plan_ops d o 0 (durable_sequence d) ops in
    Ok ((infos, seq'), txn_add (txn_mark_read SEQ_KEY (begin d)) (op_reads ops) ws).
Proof.
  unfold commit_body, txn_get_be. unfold tbind at 1. unfold tbind at 1. unfold tget, tret.
  rewrite get_be_begin, replay_ops_eq.
  rewrite (plan_ops_but_seq _ d) by apply equiv_but_seq, view_begin. done.
Qed.

(** The plan depends on the tails of the streams appended to. *)
Lemma plan_ops_reads d1 d2 o i seq ops :
  (∀ k, k ∈ op_reads ops → db_get d1 k = db_get d2 k) →
  plan_ops d1 o i seq ops = plan_ops d2 o i seq ops.
Proof.
  revert d1 d2 i seq. induction ops as [|[s expd evs|s token] ops IH]; intros d1 d2 i seq E; simpl; [done|..].
  - rewrite (append_plan_ext d1 d2) by (done || (apply E; simpl; set_solver)).
    destruct (append_plan d2 _ _ _ _ _ _ _ _) as [[[info sq] ws]|e]; [|done]. simpl.
    rewrite (IH _ (db_apply d2 (render_ws ws))); [done|]. intros k Hk. rewrite !db_get_apply.
    destruct (last_write _ k); [done|]. apply E. simpl. set_solver.
  - rewrite (IH _ (db_apply d2 (render_ws [(KFence s, fence_value token)]))); [done|].
    intros k Hk. rewrite !db_get_apply. destruct (last_write _ k); [done|]. by apply E.
Qed.

Lemma op_reads_not_seq ops k : k ∈ op_reads ops → k ∉ [SEQ_KEY].
Proof.
  induction ops as [|[s expd evs|s token] ops IH]; simpl; [by intros ?%not_elem_of_nil|..|done].
  intros [? | ->%list_elem_of_singleton]%elem_of_app; [auto|apply m_key_not_seq].
Qed.

(** What [commit] does, on every branch. *)
Lemma commit_spec o interf ops d r d' :
  commit o interf ops d = (r, d') →
  match r with
  | Err e => (check_ops ops = Err e ∧ d' = d) ∨
      (check_ops ops = Ok tt ∧ d' = interf d ∧
       (plan_ops d o 0 (durable_sequence d) ops = Err e ∨ e = Backend TransactionConflict))
  | Ok infos => check_ops ops = Ok tt ∧ ∃ seq' ws,
      plan_ops (interf d) o 0 (durable_sequence d) ops = Ok (infos, seq', ws)
      ∧ d' = db_apply (interf d) (render_ws (ws ++ [seq_write seq']))
  end.
Proof.
  unfold commit. destruct (check_ops ops) as [[]|e]; [|by intros [= <- <-]; left].
  rewrite commit_body_eq.
  destruct (plan_ops d o 0 (durable_sequence d) ops) as [[[infos seq'] ws]|e] eqn:Ep;
    [|by intros [= <- <-]; right; auto]. cbn [rbind].
  unfold commit_seq, txn_commit. set (t := txn_unmark_write _ _).
  destruct (db_conflict t (interf d)) eqn:Ec; [by intros [= <- <-]; right; auto|].
  assert (t_writes t = render_ws (ws ++ [seq_write seq'])) as -> by (by rewrite render_ws_app).
  destruct (render_ws (ws ++ [seq_write seq'])) as [|w l] eqn:El.
  { rewrite render_ws_app in El. by destruct (render_ws ws). }
  intros [= <- <-]. split; [done|]. exists seq', ws. split; [|by rewrite El].
  rewrite <-Ep. apply plan_ops_reads. intros k Hk.
  apply (db_conflict_sound t (interf d) k Ec). split; [by apply op_reads_not_seq in Hk|].
  left. simpl. apply elem_of_app. by left.
Qed.

(** ** Equivalence with running the operations one by one *)

Lemma run_fence s token d :
  ∃ h d', run_txn (λ d, d) (replay_fence s token) d = (Ok (tt, h), d')
    ∧ d' = db_apply d (render_ws [(KFence s, fence_value token)]).
Proof.
  unfold run_txn.
  assert (replay_fence s token (begin d) = Ok (tt, plain_txn d [(KFence s, fence_value token)] [])) as ->
    by by destruct token as [[|c token]|].
  unfold txn_commit. set (t := plain_txn _ _ _). change d with (t_snap t) at 1.
  rewrite db_conflict_clean. eexists _, _. split; [reflexivity|done].
Qed.

Lemma append_plan_seq d o seq s expd fv tok evs idx info seq' ws :
  append_plan d o seq s expd fv tok evs idx = Ok (info, seq', ws) → 0 ≤ seq' < U64.
Proof.
  unfold append_plan. intros E. apply rbind_Ok in E as (tl & _ & E).
  apply rbind_Ok in E as (? & _ & E). destruct (negb _); [done|]. destruct evs; [done|].
  injection E as _ <- _. apply u64_add_range.
Qed.

Lemma durable_after d ws q : 0 ≤ q < U64 →
  durable_sequence (db_apply d (render_ws (ws ++ [seq_write q]))) = q.
Proof.
  intros Hq. unfold durable_sequence, get_be. rewrite db_get_apply, render_ws_app, last_write_app. simpl.
  by apply from_to_be_bytes.
Qed.

(** From states that agree up to the counter, with the cursor equal to the
    counter of the second: the plan succeeds exactly when each operation run
    on its own does, with the same infos and contents. *)
Lemma plan_ops_sequential o i ops d d1 seq :
  check_ops ops = Ok tt → but_seq d d1 → durable_sequence d1 = seq →
  match plan_ops d o i seq ops with
  | Err e => ∃ d2, run_each o i ops d1 = (Err e, d2)
  | Ok (infos, seq', ws) => ∃ d2, run_each o i ops d1 = (Ok infos, d2)
      ∧ but_seq (db_apply d (render_ws ws)) d2 ∧ durable_sequence d2 = seq'
  end.
Proof.
  revert i d d1 seq. induction ops as [|[s expd evs|s token] ops IH];
    intros i d d1 seq Hck Hbs Hseq; cbn [plan_ops run_each].
  - exists d1. split_and!; [done| |done]. intros k Hk. rewrite db_get_apply. by apply Hbs.
  - simpl in Hck. destruct (check_batch evs) as [[]|] eqn:Eb; [|done]. simpl in Hck.
    unfold append, append_lazy. rewrite commit_appends_quiet, Eb, Hseq.
    rewrite <-(append_plan_but_seq d d1) by done.
    destruct (append_plan d _ _ _ _ _ _ _ _) as [[[info sq] ws]|e] eqn:Ep; cbn [rbind rmap];
      [|by exists d1].
    set (d1' := db_apply d1 _).
    pose proof (IH (S i) (db_apply d (render_ws ws)) d1' sq Hck) as IH'.
    destruct (plan_ops (db_apply d (render_ws ws)) o (S i) sq ops) as [[[infos sq'] ws']|e]; cbn [rbind].
    + destruct IH' as (d2 & -> & Hb2 & Hs2);
        [by apply but_seq_snoc|by apply durable_after; eapply append_plan_seq|].
      exists d2. split_and!; [done| |done]. intros k Hk. rewrite <-Hb2 by done.
      rewrite render_ws_app. symmetry. apply apply_app.
    + destruct IH' as (d2 & ->);
        [by apply but_seq_snoc|by apply durable_after; eapply append_plan_seq|]. by exists d2.
  - simpl in Hck. destruct (run_fence s token d1) as (h & d1' & -> & ->).
    pose proof (IH (S i) (db_apply d (render_ws [(KFence s, fence_value token)]))
      (db_apply d1 (render_ws [(KFence s, fence_value token)])) seq Hck) as IH'.
    assert (durable_sequence (db_apply d1 (render_ws [(KFence s, fence_value token)])) = seq) as Hs1.
    { rewrite <-Hseq. unfold durable_sequence, get_be. rewrite db_get_apply. by destruct token as [[|]|]. }
    destruct (plan_ops _ _ _ _ _) as [[[infos sq'] ws']|e]; cbn [rbind].
    + destruct IH' as (d2 & -> & Hb2 & Hs2); [by apply but_seq_apply|done|].
      exists d2. split_and!; [done| |done]. intros k Hk. rewrite <-Hb2 by done.
      symmetry. apply (apply_app d (render_ws [_])).
    + destruct IH' as (d2 & ->); [by apply but_seq_apply|done|]. by exists d2.
Qed.
End laws.
