(* ===== verification/Invariant.v ===== *)
(** * Every operation keeps the store well formed

    [reachable] lists the calls of the public API that write, with any
    arguments within the key format (names without a slash, numbers below
    sixteen digits) and any interleaving of their transactions. *)

From S2P Require Import Prelude Text Slate Types Keys Kv Fork Store Batch Append Wf Commit.
From S2P Require Import Appended Ops Purge History Txn.
Local Open Scope Z_scope.

(** Versions handed out by a successful append fit the keys. *)
Definition fits (info : CommitInfo) : Prop :=
  key_num (first_version info) ∧ key_num (last_version info).

Section calls.
Context `{SlateDb} `{Codecs}.

Definition op_stream (op : Op) : string :=
  match op with OpAppend s _ _ | OpFence s _ => s end.

(** The reachable states: the empty store, and the outcome of any call that
    began on a reachable state and committed on a reachable state. *)
Inductive reachable : db → Prop :=
| reach_empty d : (∀ k, db_get d k = None) → reachable d
| reach_append o interf s expd fv tok evs idx d r d' :
    slash_free s → (∀ n, oracle_ok (o n)) → (∀ k, reachable (drift interf 0 k d)) →
    commit_appends o interf s expd fv tok evs idx d = (r, d') →
    (∀ tk, r = Ok tk → fits (ticket_info tk)) → reachable d'
| reach_fence interf watch s token d r d' :
    slash_free s → reachable d → reachable (interf d) →
    fence interf watch s token d = (r, d') → reachable d'
| reach_fork interf p v c d r d' :
    slash_free p → slash_free c → 0 ≤ v → reachable d → reachable (interf d) →
    fork interf p v c d = (r, d') → reachable d'
| reach_trim interf s from txn d r d' :
    slash_free s → key_num from → reachable d → reachable (interf d) →
    trim interf s from txn d = (r, d') → reachable d'
| reach_trim_below interf s floor d r d' :
    slash_free s → key_lim floor → reachable d → reachable (interf d) →
    trim_below interf s floor d = (r, d') → reachable d'
| reach_purge s floor d r d' :
    slash_free s → key_lim floor → reachable d → purge_below s floor d = (r, d') → reachable d'
(** One turn of its loop between those of other calls: the keys were scanned on
    one state, their transaction began on a second and committed on a third. *)
| reach_purge_chunk interf s floor next scanned d r d' :
    slash_free s → key_lim floor → key_lim next → reachable scanned → reachable d → reachable (interf d) →
    run_txn interf (delete_keys (firstn PURGE_CHUNK (range_keys scanned s next floor))) d = (r, d') → reachable d'
| reach_delete interf s d r d' :
    slash_free s → reachable d → reachable (interf d) →
    delete_stream interf s d = (r, d') → reachable d'
| reach_publish o interf watch s record state d r d' :
    slash_free s → oracle_ok o → key_num (cr_through_version record) →
    key_num (durable_sequence d + 1) → reachable d → reachable (interf d) →
    publish_snapshot o interf watch s record state d = (r, d') → reachable d'
| reach_compact o interf watch s job build d r d' :
    slash_free s → oracle_ok o → key_num (durable_sequence d + 1) → reachable d →
    reachable (interf d) → compact_inner o interf watch s job build d = (r, d') → reachable d'
| reach_request o s d r d' :
    oracle_ok o → reachable d → request_compaction o s d = (r, d') → reachable d'
| reach_claim o interf job worker d r d' :
    oracle_ok o → reachable d → reachable (interf d) →
    claim_compaction o interf job worker d = (r, d') → reachable d'
| reach_fail o job error d r d' :
    oracle_ok o → reachable d → fail_compaction o job error d = (r, d') → reachable d'
| reach_commit o interf ops d r d' :
    Forall (λ op, slash_free (op_stream op)) ops → (∀ n, oracle_ok (o n)) →
    reachable d → reachable (interf d) → commit o interf ops d = (r, d') →
    (∀ infos, r = Ok infos → Forall fits infos) → reachable d'.
End calls.

Section laws.
Context `{SlateDbLaws} `{CodecLaws}.

Lemma wf_empty d : (∀ k, db_get d k = None) → wf d.
Proof.
  intros He. split.
  - intros k b. by rewrite He.
  - intros s v e _ _. unfold stored. by rewrite He.
  - intros s f [_ Hf]. unfold fork_ref, get_json in Hf. by rewrite He in Hf.
  - intros s c b _ _. by rewrite He.
  - exists (λ _, 0%nat). intros s f [_ Hf]. unfold fork_ref, get_json in Hf. by rewrite He in Hf.
Qed.

Lemma wf_append o interf s expd fv tok evs idx d r d' :
  slash_free s → (∀ n, oracle_ok (o n)) → (∀ k, wf (drift interf 0 k d)) →
  commit_appends o interf s expd fv tok evs idx d = (r, d') →
  (∀ tk, r = Ok tk → fits (ticket_info tk)) → wf d'.
Proof.
  intros Hs Ho Hdr E Hfits. destruct (check_batch evs) as [[]|e] eqn:Eb.
  2: { unfold commit_appends in E. rewrite Eb in E. by injection E as _ <-; apply (Hdr 0%nat). }
  destruct (commit_appends_spec o interf s expd fv tok evs idx d Eb) as (k & _ & Hout).
  rewrite E in Hout. simpl in Hout.
  destruct r as [tk|e].
  - destruct Hout as (Heff & _). destruct (Hfits tk eq_refl) as [Hf Hl].
    eapply effect_wf; [exact (Hdr (S k))|done|apply Ho|done|exact Heff|done|done].
  - destruct Hout as [[_ ->] | (_ & -> & _)]; apply (Hdr k) || apply (Hdr (S k)).
Qed.

(** ** Operations that only touch side keys *)

Lemma wf_run_side {A} interf (body : TM A) d ws a0 reads r d' :
  wf d → wf (interf d) → run_txn interf body d = (r, d') →
  body (begin d) = Ok (a0, plain_txn d ws reads) →
  batch_ok ws → Forall (λ w, side_key w.1) ws → wf d'.
Proof.
  intros Hwf Hr Hrun Hb Hok Hside.
  destruct (meta_outcome _ _ _ _ _ _ _ _ Hrun Hb) as [[_ ->] | (h & _ & -> & _)]; [exact Hr|].
  by apply wf_side.
Qed.

Lemma wf_fence interf watch s token d r d' :
  wf d → slash_free s → wf (interf d) → fence interf watch s token d = (r, d') → wf d'.
Proof.
  intros Hwf Hs Hr E. destruct (fence_Ok _ _ _ _ _ _ _ E (wf_shaped _ Hwf) Hs) as [-> | [-> _]];
    [exact Hr|].
  apply wf_side; [exact Hr| |by repeat constructor]. apply batch_ok_one; [done|].
  by destruct (fence_value token).
Qed.

Lemma wf_trim interf s from txn d r d' :
  wf d → slash_free s → key_num from → wf (interf d) → trim interf s from txn d = (r, d') → wf d'.
Proof.
  intros Hwf Hs Hf Hr E. unfold trim in E.
  destruct (tail_shaped d s (wf_shaped _ Hwf) Hs) as (tl & Htl & _).
  destruct (run_txn interf (trim_body s from txn) d) as [r0 d0] eqn:Er. injection E as _ <-.
  eapply (wf_run_side interf _ d (trim_kws s from txn)); [done..|by apply trim_body_eq| |by repeat constructor].
  by apply batch_ok_one.
Qed.

Lemma new_floor_lim d s tl floor :
  shaped d → slash_free s → from_option tail_ok True tl → key_lim floor →
  key_lim (new_floor d s tl floor).
Proof.
  intros Hsh Hs Htl Hf. pose proof (floor_shaped d s Hsh Hs) as Hold. unfold new_floor.
  destruct tl as [t|]; simpl in *.
  - destruct Htl as [Hv _]. unfold key_num, key_lim in *. u64_norm. lia.
  - unfold key_lim, u64_max in *. u64_facts. lia.
Qed.

Lemma key_lim_u64 v : key_lim v → 0 ≤ v < U64.
Proof. unfold key_lim. u64_facts. lia. Qed.

Lemma wf_trim_below interf s floor d r d' :
  wf d → slash_free s → key_lim floor → wf (interf d) → trim_below interf s floor d = (r, d') → wf d'.
Proof.
  intros Hwf Hs Hf Hr E. unfold trim_below in E.
  destruct (tail_shaped d s (wf_shaped _ Hwf) Hs) as (tl & Htl & Hok).
  destruct (run_txn interf (trim_below_body s floor) d) as [r0 d0] eqn:Er. injection E as _ <-.
  eapply (wf_run_side interf _ d (trim_below_kws s (new_floor d s tl floor)));
    [done..|by apply trim_below_body_eq| |by repeat constructor].
  pose proof (new_floor_lim d s tl floor (wf_shaped _ Hwf) Hs Hok Hf) as Hn.
  apply batch_ok_one; [done|]. simpl. rewrite from_to_be_bytes; [done|by apply key_lim_u64].
Qed.

Lemma wf_delete interf s d r d' :
  wf d → slash_free s → wf (interf d) → delete_stream interf s d = (r, d') → wf d'.
Proof.
  intros Hwf Hs Hr E. destruct (tail_shaped d s (wf_shaped _ Hwf) Hs) as (tl & Htl & _).
  destruct (delete_outcome _ _ _ _ _ _ Htl E) as [[-> _] | (_ & _ & -> & _)]; [exact Hr|].
  apply wf_side; [exact Hr|by apply batch_ok_one|by repeat constructor].
Qed.

(** ** Forks *)

Lemma fork_plan_inv d p v c ws :
  fork_plan d p v c = Ok ws →
  ∃ pt, tail d p = Ok (Some pt) ∧ v ≤ tail_version pt ∧ tail d c = Ok None
    ∧ ws = fork_kws p v c (tail_ts_ms pt).
Proof.
  unfold fork_plan. destruct (tail d p) as [[pt|]|]; simpl; [|done..].
  destruct (Z.ltb_spec (tail_version pt) v); [done|].
  destruct (tail d c) as [[ct|]|]; simpl; [done| |done]. intros [= <-]. eauto.
Qed.

Section forked.
Context (d : db) (p c : string) (v : Version) (pt : TailRecord).
Context (Hwf : wf d) (Hp : slash_free p) (Hc : slash_free c) (Hv : 0 ≤ v ≤ tail_version pt)
  (Hpt : tail d p = Ok (Some pt)) (Hct : tail d c = Ok None).

Let ws := fork_kws p v c (tail_ts_ms pt).
Let d' := db_apply d (render_ws ws).

Lemma fork_tail_ok : tail_ok pt.
Proof.
  destruct (tail_shaped d p (wf_shaped _ Hwf) Hp) as (tl & E & Hok). rewrite Hpt in E.
  by injection E as <-.
Qed.

Lemma fork_batch_ok : batch_ok ws.
Proof.
  destruct fork_tail_ok as [Htv Hts]. unfold key_num in Htv.
  assert (key_num v) as Hvn by (unfold key_num; lia).
  unfold batch_ok, ws, fork_kws. rewrite !Forall_cons, Forall_nil. simpl.
  rewrite from_to_be_bytes by (apply key_lim_u64; by apply key_num_lim).
  pose proof (key_num_lim v Hvn). rewrite !from_to_vec. split_and!; eauto.
Qed.

Lemma fork_get k : key_ok k →
  db_get d' (render k) =
    (if decide (KPin p c = k) then Some (to_be_bytes v)
     else if decide (KTail c = k) then
       Some (to_vec {| tail_version := v; tail_ts_ms := tail_ts_ms pt |})
     else if decide (KFork c = k) then Some (to_vec {| fr_stream := p; fr_at_version := v |})
     else db_get d (render k)).
Proof.
  intros Hk. unfold d'. rewrite get_batch by (done || apply fork_batch_ok).
  unfold ws, fork_kws. cbn [klast].
  destruct (decide (KPin p c = k)); [done|]. destruct (decide (KTail c = k)); [done|].
  by destruct (decide (KFork c = k)).
Qed.

Lemma fork_get_other k : key_ok k → KPin p c ≠ k → KTail c ≠ k → KFork c ≠ k →
  db_get d' (render k) = db_get d (render k).
Proof. intros Hk N1 N2 N3. rewrite fork_get by done. by rewrite !decide_False. Qed.

Lemma fork_tail_child : tail d' c = Ok (Some {| tail_version := v; tail_ts_ms := tail_ts_ms pt |}).
Proof.
  unfold tail, get_json. rewrite render_tail, fork_get by done.
  rewrite decide_False, decide_True by done. simpl. by rewrite from_to_vec.
Qed.

Lemma fork_tail_other s : slash_free s → s ≠ c → tail d' s = tail d s.
Proof.
  intros Hs Hne. unfold tail, get_json. rewrite render_tail, fork_get_other; [done..|congruence|done].
Qed.

Lemma fork_ref_child : fork_ref d' c = Ok (Some {| fr_stream := p; fr_at_version := v |}).
Proof.
  unfold fork_ref, get_json. rewrite render_fork, fork_get by done.
  rewrite !decide_False, decide_True by done. simpl. by rewrite from_to_vec.
Qed.

Lemma fork_ref_other s : slash_free s → s ≠ c → fork_ref d' s = fork_ref d s.
Proof.
  intros Hs Hne. unfold fork_ref, get_json. rewrite render_fork, fork_get_other; [done..|congruence].
Qed.

Lemma fork_stored s w : slash_free s → key_num w → stored d' s w = stored d s w.
Proof. intros Hs Hw. unfold stored. by rewrite render_rec, fork_get_other by (simpl; auto). Qed.

Lemma fork_parent_ne : p ≠ c.
Proof. intros ->. by rewrite Hpt in Hct. Qed.

(** The child had no references to it and none of its own. *)
Lemma fork_fresh s f : forks_from d s f → s ≠ c ∧ fr_stream f ≠ c.
Proof.
  intros Hf. destruct (wf_forks _ Hwf s f Hf) as ((t1 & E1 & _) & (t2 & E2 & _) & _).
  split; intros E; congruence.
Qed.

Lemma fork_wf : wf d'.
Proof.
  destruct Hwf as [Hsh Hrec Hfk Hpn [rank Hrk]]. pose proof fork_parent_ne as Hpc.
  assert (∀ s f, s ≠ c → forks_from d' s f → forks_from d s f) as Hback.
  { intros s f Hne [Hs Hf]. split; [done|]. by rewrite <-fork_ref_other. }
  split.
  - apply shaped_batch; [done|apply fork_batch_ok].
  - intros s w e Hs Hw He. rewrite fork_stored in He by done.
    destruct (Hrec s w e Hs Hw He) as (t & Ht & Hle). destruct (decide (s = c)) as [-> |Hne].
    + by rewrite Hct in Ht.
    + exists t. by rewrite fork_tail_other.
  - intros s f Hf. destruct (decide (s = c)) as [-> |Hne].
    + destruct Hf as [_ Hf]. rewrite fork_ref_child in Hf. injection Hf as <-.
      split_and!; simpl.
      * eexists. split; [apply fork_tail_child|]. simpl. lia.
      * exists pt. rewrite fork_tail_other by done. split; [done|]. lia.
      * rewrite render_pin, fork_get by done. by rewrite decide_True.
    + apply Hback in Hf; [|done]. destruct (fork_fresh s f Hf) as [_ Hpne].
      destruct (forks_from_shaped d s f Hsh Hf) as [Hfs _].
      destruct (Hfk s f Hf) as ((t1 & E1 & L1) & (t2 & E2 & L2) & Hg). destruct Hf as [Hs _].
      split_and!.
      * exists t1. by rewrite fork_tail_other.
      * exists t2. by rewrite fork_tail_other.
      * rewrite render_pin in *. rewrite fork_get_other; [done..|congruence|done|done].
  - intros s c' b Hs Hc' Hg. rewrite render_pin in Hg. destruct (decide (c' = c)) as [-> |Hne].
    + rewrite fork_get in Hg by done. destruct (decide (KPin p c = KPin s c)) as [[= <-]|Hn].
      * injection Hg as <-. split; [done|]. rewrite fork_ref_child, from_to_be_bytes; [done|].
        destruct fork_tail_ok as [Htv _]. unfold key_num in Htv. u64_facts. lia.
      * rewrite !decide_False in Hg by done.
        by destruct (fork_fresh c _ (Hpn s c b Hs Hc Hg)) as [? _].
    + rewrite fork_get_other in Hg; [|done|congruence|done|done].
      destruct (Hpn s c' b Hs Hc' Hg) as [_ Hf]. split; [done|]. by rewrite fork_ref_other.
  - exists (λ s, if decide (s = c) then S (rank p) else rank s). intros s f Hf.
    destruct (decide (s = c)) as [-> |Hne].
    + destruct Hf as [_ Hf]. rewrite fork_ref_child in Hf. injection Hf as <-. simpl.
      rewrite decide_False by done. lia.
    + apply Hback in Hf; [|done]. destruct (fork_fresh s f Hf) as [_ Hpne].
      rewrite decide_False by done. by apply Hrk.
Qed.
End forked.

Lemma wf_fork interf p v c d r d' :
  wf d → slash_free p → slash_free c → 0 ≤ v → wf (interf d) → fork interf p v c d = (r, d') → wf d'.
Proof.
  intros Hwf Hp Hc Hv Hr E. destruct r as [[]|e].
  - apply fork_Ok in E as (ws & Hplan & ->). apply fork_plan_inv in Hplan as (pt & Hpt & Hle & Hct & ->).
    by apply fork_wf; [apply Hr|..].
  - apply fork_Err in E as ->. exact Hr.
Qed.

(** ** Purges *)

Lemma wf_without d d' ks :
  wf d → without d d' ks → (∀ k, k ∈ ks → ∃ s v, slash_free s ∧ key_num v ∧ k = r_key s v) → wf d'.
Proof.
  intros Hwf Hw Hks.
  assert (∀ k, key_ok k → (∀ s v, k ≠ KRec s v) → db_get d' (render k) = db_get d (render k)) as Hget.
  { intros k Hk Hn. rewrite (Hw _). case_decide as Hin; [|done].
    destruct (Hks _ Hin) as (s & v & Hs & Hv & E). rewrite render_rec in E.
    apply render_inj in E; [|done|by split]. by destruct (Hn s v). }
  apply (wf_preserve d); [done|by eapply without_shaped; [apply Hwf|]|..].
  - intros s v Hs (t & Ht & Hle). exists t. split; [|done].
    unfold tail, get_json in *. rewrite render_tail in *. by rewrite Hget.
  - intros s v e Hs Hv He. left. unfold stored in *. rewrite (Hw _) in He. by case_decide.
  - intros s Hs. rewrite render_fork. by apply Hget.
  - intros s c Hs Hc. rewrite render_pin. by apply Hget.
Qed.

(** The first version a purge may delete. *)
Definition pin_floor (d : db) (s : string) : Version := map_or 0 (λ c, c + 1) (ceiling d s).

Lemma ceiling_num d s : shaped d → slash_free s → from_option key_num True (ceiling d s).
Proof.
  intros Hsh Hs. unfold ceiling.
  assert (∀ l acc, (∀ kv, kv ∈ l → kv ∈ db_scan d (m_key s "forks/") None None) →
    from_option key_num True acc → from_option key_num True (fold_left (ceiling_step d) l acc)) as Hgen.
  { induction l as [|[k b] l IH]; intros acc Hl Hacc; [done|]. simpl. apply IH.
    - intros kv Hkv. apply Hl. by right.
    - unfold ceiling_step. destruct (is_deleted d _); [done|]. simpl.
      destruct (pin_scan d s k b Hsh Hs) as (ch & _ & _ & _ & _ & Hb); [apply Hl; by left|].
      destruct acc; simpl in *; unfold key_num in *; lia. }
  by apply Hgen.
Qed.

Lemma pin_floor_lim d s : shaped d → slash_free s → key_lim (pin_floor d s).
Proof.
  intros Hsh Hs. pose proof (ceiling_num d s Hsh Hs) as Hc. pose proof KEY_MAX_pos. unfold pin_floor.
  destruct (ceiling d s); simpl in *; unfold key_num, key_lim in *; lia.
Qed.

Lemma purge_below_spec d s floor :
  shaped d → slash_free s → key_lim floor →
  ∃ d', purge_below s floor d = (Ok (Z.of_nat (length (range_keys d s (pin_floor d s) floor))), d')
    ∧ without d d' (range_keys d s (pin_floor d s) floor).
Proof.
  intros Hsh Hs Hfl. unfold purge_below. pose proof (pin_floor_lim d s Hsh Hs) as Hpf.
  pose proof (ceiling_num d s Hsh Hs) as Hc.
  assert (map_or 0 (λ c, u64_add c 1) (ceiling d s) = pin_floor d s) as ->.
  { unfold pin_floor. destruct (ceiling d s) as [c|]; simpl in *; [|done].
    unfold key_num in Hc. u64_norm. done. }
  destruct (purge_loop_spec (S (length (db_scan d (r_prefix s) None None))) s floor (pin_floor d s) 0 d)
    as (d' & -> & Hw); [done..|u64_facts; lia| |].
  { unfold range_keys. rewrite length_fmap, db_scan_filter. apply Nat.lt_succ_r, length_filter. }
  exists d'. split; [|done]. rewrite u64_add_small; [done|].
  pose proof (range_keys_count d s (pin_floor d s) floor Hsh Hs Hpf Hfl). u64_facts. lia.
Qed.

Lemma wf_purge s floor d r d' :
  wf d → slash_free s → key_lim floor → purge_below s floor d = (r, d') → wf d'.
Proof.
  intros Hwf Hs Hf E. destruct (purge_below_spec d s floor (wf_shaped _ Hwf) Hs Hf) as (d0 & E' & Hw).
  rewrite E' in E. injection E as _ <-. apply (wf_without _ _ _ Hwf Hw). intros k Hk.
  destruct (range_key_version _ _ _ _ _ (wf_shaped _ Hwf) Hs (pin_floor_lim d s (wf_shaped _ Hwf) Hs) Hf Hk)
    as (v & -> & Hv & _). eauto.
Qed.

Lemma wf_purge_chunk interf s floor next scanned d r d' :
  slash_free s → key_lim floor → key_lim next → wf scanned → wf (interf d) →
  run_txn interf (delete_keys (firstn PURGE_CHUNK (range_keys scanned s next floor))) d = (r, d') → wf d'.
Proof.
  intros Hs Hf Hn Hsc Hwf E. destruct (deletes_outcome _ _ _ _ _ E) as [-> |Hw]; [done|].
  apply (wf_without _ _ _ Hwf Hw). intros k Hk.
  destruct (range_key_version scanned s next floor k (wf_shaped _ Hsc) Hs Hn Hf) as (v & -> & Hv & _); [|by eauto].
  rewrite <-(firstn_skipn PURGE_CHUNK (range_keys scanned s next floor)). apply elem_of_app. by left.
Qed.

(** ** Snapshots and jobs *)

Definition publish_kws (o : Oracle) (s : string) (record : CompactionRecord) (state : bytes) (seq : Z) :
    list kwrite :=
  [(KSnap s seq, Some (to_vec {| sn_through_version := cr_through_version record;
                                 sn_ts_ms := cr_ts_ms record; sn_state := state |}));
   (KCompaction (o_ulid o 0), Some (to_vec record));
   seq_write seq].

Lemma publish_body_eq o s record state d :
  publish_body o s record state (begin d) =
    Ok (u64_add (durable_sequence d) 1,
        mkTxn d (render_ws (take 2 (publish_kws o s record state (u64_add (durable_sequence d) 1))))
          [] [SEQ_KEY] []).
Proof.
  unfold publish_body, txn_get_be. unfold tbind at 1. unfold tbind at 1. unfold tget, tret.
  rewrite get_be_begin. unfold tbind, tput. do 3 f_equal. simpl. by rewrite render_snap.
Qed.

Lemma publish_outcome o interf watch s record state d r d' :
  publish_snapshot o interf watch s record state d = (r, d') →
  d' = interf d ∨
  d' = db_apply (interf d) (render_ws (publish_kws o s record state (u64_add (durable_sequence d) 1))).
Proof.
  unfold publish_snapshot. rewrite publish_body_eq.
  unfold commit_seq, txn_commit. destruct (db_conflict _ (interf d)); [by intros [= _ <-]; left|].
  simpl. intros [= _ <-]. by right.
Qed.

(** A publication that succeeds committed its batch. *)
Lemma publish_Ok o interf watch s record state d d' :
  publish_snapshot o interf watch s record state d = (Ok tt, d') →
  d' = db_apply (interf d) (render_ws (publish_kws o s record state (u64_add (durable_sequence d) 1))).
Proof.
  unfold publish_snapshot. rewrite publish_body_eq.
  unfold commit_seq, txn_commit. destruct (db_conflict _ (interf d)); [done|]. simpl. by intros [= _ <-].
Qed.

Lemma publish_batch_ok o s record state seq :
  slash_free s → oracle_ok o → key_num (cr_through_version record) → key_num seq →
  batch_ok (publish_kws o s record state seq).
Proof.
  intros Hs Ho Hth Hseq. pose proof (key_lim_u64 _ (key_num_lim _ Hseq)).
  pose proof (oracle_ulid o Ho 0) as [_ Hu].
  unfold batch_ok, publish_kws, seq_write. rewrite !Forall_cons, Forall_nil. simpl.
  rewrite !from_to_vec, from_to_be_bytes by done. split_and!; try lia; eauto.
Qed.

Lemma wf_publish o interf watch s record state d r d' :
  wf d → slash_free s → oracle_ok o → key_num (cr_through_version record) →
  key_num (durable_sequence d + 1) → wf (interf d) →
  publish_snapshot o interf watch s record state d = (r, d') → wf d'.
Proof.
  intros Hwf Hs Ho Hth Hseq Hr [-> | ->]%publish_outcome; [exact Hr|].
  assert (u64_add (durable_sequence d) 1 = durable_sequence d + 1) as ->.
  { unfold key_num in Hseq. u64_norm. done. }
  apply wf_side; [exact Hr|by apply publish_batch_ok|by repeat constructor].
Qed.

Lemma hist_num d s l e : shaped d → slash_free s → hist d s l → e ∈ l → key_num (env_version e).
Proof.
  intros Hsh Hs Hl. revert Hs. induction Hl as [s Hf|s f l Hf Hl IH]; intros Hs He.
  - by apply list_elem_of_filter in He as [_ [? _]%log_elem].
  - apply elem_of_app in He as [[_ He]%list_elem_of_filter | [_ [? _]%log_elem]%list_elem_of_filter]; try done.
    apply IH; [|done]. by apply (forks_from_shaped d s f Hsh (conj Hs Hf)).
Qed.

(** The history a snapshot is built from: the whole of it. *)
Lemma full_history d s l :
  wf d → slash_free s → hist d s l → read_history d s (Included 0, Unbounded) = Ok (from_parts <$> l).
Proof.
  intros Hwf Hs Hl. unfold read_history. cbn [bounds fst snd].
  pose proof KEY_MAX_pos. rewrite (resolve_history_hist d s l); [|done..|split; [unfold key_lim; lia|done]].
  do 2 f_equal. apply filter_all. intros e He.
  pose proof (hist_num d s l e (wf_shaped _ Hwf) Hs Hl He) as [Hv _].
  unfold in_window. simpl. rewrite andb_true_r. by apply Z.leb_le.
Qed.

Lemma wf_compact o interf watch s job build d r d' :
  wf d → slash_free s → oracle_ok o → key_num (durable_sequence d + 1) → wf (interf d) →
  compact_inner o interf watch s job build d = (r, d') → wf d'.
Proof.
  intros Hwf Hs Ho Hseq Hr. unfold compact_inner.
  destruct (hist_exists d s Hwf Hs) as [l Hl]. rewrite (full_history d s l) by done. cbn [rbind].
  destruct (build (from_parts <$> l)) as [state|e]; [|by intros [= _ <-]]. cbn [rbind].
  destruct (last (from_parts <$> l)) as [le|] eqn:El; [|by intros [= _ <-]].
  destruct (publish_snapshot _ _ _ _ _ _ _) as [r0 d0] eqn:Ep. intros [= _ <-].
  eapply (wf_publish _ _ _ _ _ _ _ _ _ Hwf); [done..| |done|done|exact Ep]. simpl.
  apply last_Some_elem_of, list_elem_of_fmap in El as (e & -> & He). simpl.
  by apply (hist_num d s l e (wf_shaped _ Hwf)).
Qed.

(** A compaction that succeeds snapshotted the whole history. *)
Lemma compact_Ok o interf watch s job build d record d' :
  wf d → slash_free s → key_num (durable_sequence d + 1) →
  compact_inner o interf watch s job build d = (Ok record, d') →
  ∃ l e state, hist d s l ∧ build (from_parts <$> l) = Ok state ∧ last l = Some e
    ∧ cr_through_version record = env_version e ∧ key_num (env_version e)
    ∧ cr_job_id record = job ∧ cr_events_compacted record = Z.of_nat (length l)
    ∧ d' = db_apply (interf d) (render_ws (publish_kws o s record state (durable_sequence d + 1))).
Proof.
  intros Hwf Hs Hseq E. unfold compact_inner in E.
  destruct (hist_exists d s Hwf Hs) as [l Hl]. rewrite (full_history d s l) in E by done. cbn [rbind] in E.
  destruct (build (from_parts <$> l)) as [state|e] eqn:Eb; [|done]. cbn [rbind] in E.
  destruct (last (from_parts <$> l)) as [le|] eqn:El; [|done]. rewrite fmap_last in El.
  destruct (last l) as [e|] eqn:Ele; [|done]. injection El as <-.
  set (rec := mkCompaction _ _ _ _ _) in E.
  destruct (publish_snapshot o interf watch s rec state d) as [[[]|] d0] eqn:Ep; [|done].
  injection E as <- <-. exists l, e, state.
  assert (u64_add (durable_sequence d) 1 = durable_sequence d + 1) as Hq.
  { unfold key_num in Hseq. u64_norm. done. }
  split_and!; try done.
  - apply (hist_num d s l e (wf_shaped _ Hwf) Hs Hl). by apply last_Some_elem_of.
  - unfold rec. simpl. by rewrite length_fmap.
  - rewrite <-Hq. by apply (publish_Ok o interf watch s rec state d).
Qed.

Definition job_kws (o : Oracle) (i : nat) (e : JobEvent) : list kwrite := [(KJob (o_ulid o i), Some (to_vec e))].

Lemma wf_job o i e d : wf d → oracle_ok o → wf (db_apply d (render_ws (job_kws o i e))).
Proof.
  intros Hwf Ho. apply wf_side; [done| |by repeat constructor].
  apply batch_ok_one; [by apply oracle_ulid|]. simpl. rewrite from_to_vec. eauto.
Qed.

Lemma write_job_eq o i e d : write_job o i e d = db_apply d (render_ws (job_kws o i e)).
Proof. done. Qed.

(** The transaction of a claim on its snapshot. *)
Definition claim_plan (o : Oracle) (job worker : string) (d : db) : R (list kwrite) :=
  let? events := job_events_of job (db_scan d JOBS_PREFIX None None) in
  match job_fold events with
  | Some StPending => Ok (job_kws o 0 (Claimed job worker (now_ms (o_clock o 0))))
  | other => Err (InvalidInput (NotClaimable job other))
  end.

Lemma claim_body_eq o job worker d :
  claim_body o job worker (begin d) =
    let? ws := claim_plan o job worker d in Ok (tt, mkTxn d (render_ws ws) [] [] [JOBS_PREFIX]).
Proof.
  unfold claim_body, claim_plan. unfold tbind at 1. unfold tscan. rewrite view_begin.
  destruct (job_events_of job (db_scan d JOBS_PREFIX None None)) as [evs|e]; [|done].
  unfold tbind, tlift. cbn [rbind]. by destruct (job_fold evs) as [[]|].
Qed.

(** A claim that commits saw the journal that is current at its commit. *)
Lemma claim_outcome o interf job worker d r d' :
  claim_compaction o interf job worker d = (r, d') →
  match r with
  | Err e => d' = interf d ∧ (claim_plan o job worker d = Err e ∨ e = Backend TransactionConflict)
  | Ok _ => ∃ ws, claim_plan o job worker (interf d) = Ok ws ∧ d' ≡ db_apply (interf d) (render_ws ws)
  end.
Proof.
  unfold claim_compaction. destruct (run_txn interf (claim_body o job worker) d) as [r0 d0] eqn:Er.
  intros [= <- <-]. destruct r0 as [[[] h]|e]; simpl.
  - apply run_txn_Ok in Er as (t & Hb & Hd & Htr). rewrite claim_body_eq in Hb.
    destruct (claim_plan o job worker d) as [ws|] eqn:Ep; [|done]. injection Hb as <-.
    exists ws. split; [|done]. rewrite <-Ep. unfold claim_plan. do 2 f_equal.
    apply db_scan_unique; [apply db_scan_sorted|]. intros k v. rewrite db_scan_elem.
    assert (∀ s, db_get (interf d) (JOBS_PREFIX +:+ s) = db_get d (JOBS_PREFIX +:+ s)) as Hj.
    { intros s. apply Htr. split; [apply not_elem_of_nil|]. right. right. exists JOBS_PREFIX, s.
      split; [by left|done]. }
    split; intros (Hg & s & -> & Hb); (split; [|by exists s]).
    + by rewrite Hj.
    + by rewrite <-Hj.
  - split; [by eapply run_txn_Err|]. unfold run_txn in Er. rewrite claim_body_eq in Er.
    destruct (claim_plan o job worker d) as [ws|e']; simpl in Er; [|left; congruence].
    destruct (txn_commit _ _) as [[? ?]|]; [done|]. right. congruence.
Qed.

Lemma claim_plan_kws o job worker d ws :
  claim_plan o job worker d = Ok ws → ws = job_kws o 0 (Claimed job worker (now_ms (o_clock o 0))).
Proof.
  unfold claim_plan. intros E. apply rbind_Ok in E as (evs & _ & E).
  destruct (job_fold evs) as [[]|]; by inv_ok.
Qed.

Lemma wf_claim o interf job worker d r d' :
  wf d → oracle_ok o → wf (interf d) → claim_compaction o interf job worker d = (r, d') → wf d'.
Proof.
  intros Hwf Ho Hr E. apply claim_outcome in E. destruct r as [[]|e].
  - destruct E as (ws & ->%claim_plan_kws & ->). apply wf_job; [exact Hr|done].
  - destruct E as [-> _]. exact Hr.
Qed.

(** ** Transactions *)

Lemma wf_but_seq d1 d2 : wf d1 → but_seq d1 d2 → shaped d2 → wf d2.
Proof.
  intros Hwf Hb Hsh. apply (wf_preserve d1); [done|done|..].
  - intros s v Hs (t & Ht & Hle). exists t. split; [|done].
    unfold tail, get_json in *. by rewrite <-(Hb (m_key s "tail")).
  - intros s v e Hs Hv He. left. unfold stored in *. by rewrite (Hb (r_key s v)).
  - intros s Hs. symmetry. by apply Hb.
  - intros s c Hs Hc. symmetry. by apply Hb.
Qed.

Lemma wf_append_step d o seq s expd evs info seq' ws :
  wf d → slash_free s → oracle_ok o → check_batch evs = Ok tt →
  append_plan d o seq s expd None None evs true = Ok (info, seq', ws) → fits info →
  wf (db_apply d (render_ws ws)).
Proof.
  intros Hwf Hs Ho Hb Hp [Hf Hl].
  set (d1 := db_apply d (render_ws (ws ++ [seq_write seq']))).
  assert (takes_effect d d1 o seq s expd None None evs true info) as Heff by (by exists seq', ws).
  pose proof (effect_wf d d1 o seq s expd None None evs true info Hwf Hs Ho Hb Heff Hf Hl) as Hwf1.
  assert (but_seq (db_apply d (render_ws ws)) d1) as Hbs by by apply but_seq_snoc.
  apply (wf_but_seq d1); [done|by intros k Hk; rewrite Hbs|].
  intros k b Hg. destruct (decide (k = SEQ_KEY)) as [-> |Hk].
  - rewrite db_get_apply in Hg. destruct (last_write (render_ws ws) SEQ_KEY) eqn:El.
    2: by apply (wf_shaped _ Hwf).
    exfalso. apply last_write_elem in El. unfold append_plan in Hp.
    apply rbind_Ok in Hp as (tl & _ & Hp). apply rbind_Ok in Hp as (? & _ & Hp).
    destruct (negb _); [done|]. destruct evs as [|ne evs]; [done|]. injection Hp as _ _ <-.
    unfold render_ws in El. apply list_elem_of_fmap in El as (w & [= Ek _] & Hw).
    unfold append_kws in Hw. rewrite elem_of_app, event_kws_elem, list_elem_of_singleton in Hw.
    destruct Hw as [(e & _ & [-> | [_ ->]]) | ->]; done.
  - apply (wf_shaped _ Hwf1). by rewrite <-Hbs.
Qed.

Lemma wf_plan_ops o ops i d seq infos seq' ws :
  wf d → Forall (λ op, slash_free (op_stream op)) ops → (∀ n, oracle_ok (o n)) →
  check_ops ops = Ok tt → Forall fits infos →
  plan_ops d o i seq ops = Ok (infos, seq', ws) → wf (db_apply d (render_ws ws)).
Proof.
  revert i d seq infos seq' ws. induction ops as [|[s expd evs|s token] ops IH];
    intros i d seq infos seq' ws Hwf Hss Ho Hck Hfits Hp; cbn [plan_ops] in Hp.
  - injection Hp as _ _ <-. assert (db_apply d (render_ws []) ≡ d) as ->; [|done].
    intros k. by rewrite db_get_apply.
  - apply Forall_cons in Hss as [Hs Hss]. simpl in Hck.
    destruct (check_batch evs) as [[]|] eqn:Eb; [|done]. simpl in Hck.
    destruct (append_plan d _ _ _ _ _ _ _ _) as [[[info sq] ws1]|] eqn:Ep; [|done]. simpl in Hp.
    destruct (plan_ops _ _ _ _ _) as [[[infos' sq'] ws2]|] eqn:Ep2; [|done]. simpl in Hp.
    injection Hp as <- <- <-. apply Forall_cons in Hfits as [Hf1 Hf2].
    rewrite render_ws_app, <-apply_app. eapply IH; [|done..].
    by eapply (wf_append_step d (o i)).
  - apply Forall_cons in Hss as [Hs Hss]. simpl in Hck.
    destruct (plan_ops _ _ _ _ _) as [[[infos' sq'] ws2]|] eqn:Ep2; [|done]. simpl in Hp.
    injection Hp as <- <- <-.
    change (render_ws (_ :: ws2)) with (render_ws [(KFence s, fence_value token)] ++ render_ws ws2).
    rewrite <-apply_app. eapply IH; [|done..]. apply wf_side; [done| |by repeat constructor].
    apply batch_ok_one; [done|]. by destruct (fence_value token).
Qed.

Lemma plan_ops_seq d o i seq ops infos seq' ws :
  0 ≤ seq < U64 → plan_ops d o i seq ops = Ok (infos, seq', ws) → 0 ≤ seq' < U64.
Proof.
  revert d i seq infos seq' ws. induction ops as [|[s expd evs|s token] ops IH];
    intros d i seq infos seq' ws Hq Hp; cbn [plan_ops] in Hp; [by injection Hp as _ <- _|..].
  - destruct (append_plan d _ _ _ _ _ _ _ _) as [[[info sq] ws1]|] eqn:Ep; [|done]. simpl in Hp.
    destruct (plan_ops _ _ _ _ _) as [[[infos' sq'] ws2]|] eqn:Ep2; [|done]. injection Hp as _ <- _.
    eapply IH; [|exact Ep2]. by eapply append_plan_seq.
  - destruct (plan_ops _ _ _ _ _) as [[[infos' sq'] ws2]|] eqn:Ep2; [|done]. injection Hp as _ <- _.
    by eapply IH.
Qed.

Lemma durable_range d : shaped d → 0 ≤ durable_sequence d < U64.
Proof.
  intros Hsh. unfold durable_sequence, get_be. rewrite render_seq.
  destruct (db_get d (render KSeq)) as [b|] eqn:E; simpl; [by apply (shaped_value d KSeq b Hsh)|].
  u64_facts. lia.
Qed.

Lemma wf_commit o interf ops d r d' :
  wf d → Forall (λ op, slash_free (op_stream op)) ops → (∀ n, oracle_ok (o n)) → wf (interf d) →
  commit o interf ops d = (r, d') → (∀ infos, r = Ok infos → Forall fits infos) → wf d'.
Proof.
  intros Hwf Hss Ho Hr E Hfits. apply commit_spec in E. destruct r as [infos|e].
  - destruct E as (Hck & seq' & ws & Hp & ->).
    assert (wf (db_apply (interf d) (render_ws ws))) as Hw1
      by (eapply wf_plan_ops; [exact Hr|done..|by apply Hfits|exact Hp]).
    rewrite render_ws_app, <-apply_app. apply wf_side; [done| |by repeat constructor].
    apply batch_ok_one; [done|]. simpl.
    pose proof (plan_ops_seq _ _ _ _ _ _ _ _ (durable_range d (wf_shaped _ Hwf)) Hp).
    by rewrite from_to_be_bytes.
  - destruct E as [[_ ->] | (_ & -> & _)]; [done|exact Hr].
Qed.

(** C2: in every state the operations of the store can reach, from any
    interleaving of their transactions, those of one purge included, all keys and values are well formed,
    no record lies past its stream's tail, every fork is pinned by its parent
    within both tails, and the fork references form no cycle. *)
Theorem reachable_wf d : reachable d → wf d.
Proof.
  induction 1 as [|o interf s expd fv tok evs idx d r d' Hs Ho _ IH E Hfits|
    interf watch s token d|interf p v c d|interf s from txn d|interf s floor d|s floor d|
    interf s floor next scanned d|interf s d|o interf watch s record state d|o interf watch s job build d|
    o s d r d' Ho _ IH E|o interf job worker d|o job error d r d' Ho _ IH E|o interf ops d].
  - by apply wf_empty.
  - by eapply (wf_append o interf s expd fv tok evs idx d).
  - by eapply (wf_fence interf watch s token d).
  - by eapply (wf_fork interf p v c d).
  - by eapply (wf_trim interf s from txn d).
  - by eapply (wf_trim_below interf s floor d).
  - by eapply (wf_purge s floor d).
  - by eapply (wf_purge_chunk interf s floor next scanned d).
  - by eapply (wf_delete interf s d).
  - by eapply (wf_publish o interf watch s record state d).
  - by eapply (wf_compact o interf watch s job build d).
  - injection E as _ <-. by apply wf_job.
  - by eapply (wf_claim o interf job worker d).
  - injection E as _ <-. by apply wf_job.
  - by eapply (wf_commit o interf ops d).
Qed.
End laws.
