(* ===== verification/Samples.v ===== *)
(** * Concrete stores

    Small stores built by the operations themselves on the in-memory
    SlateDB, at which the theorems are instantiated. *)

From S2P Require Import Prelude Text Slate Types Keys Kv Fork Store Batch Append Wf Commit.
From S2P Require Import Appended Ops Purge History Txn Invariant.
Local Open Scope Z_scope.

Module Samples.
Export MemSlate SampleCodec.

Definition orc (n : nat) : nat → Oracle := λ _, sample_oracle n.
Definition ev1 : NewEvent := NewEvent_new "opened" [x01].
Definition ev2 : NewEvent := NewEvent_new "credited" [x02; x03].

Lemma orc_ok n k : oracle_ok (orc n k).
Proof. apply sample_oracle_ok. Qed.

(** Bounds of concrete numbers. *)
Ltac small := rewrite ?KEY_MAX_eq, ?U64_eq; vm_compute; repeat split; congruence.

(** Evaluation of closed terms. *)
Ltac run := vm_compute; reflexivity.

(** A result is its components. *)
Lemma result3 {A B C : Type} (x : A * B * C) a : x.1.1 = a → x = (a, x.1.2, x.2).
Proof. destruct x as [[? ?] ?]. by intros <-. Qed.

Lemma result4 {A B C D : Type} (x : A * B * C * D) a : x.1.1.1 = a → x = (a, x.1.1.2, x.1.2, x.2).
Proof. destruct x as [[[? ?] ?] ?]. by intros <-. Qed.

Lemma wf_mem_empty : wf mem_empty.
Proof. apply wf_empty. intros k. reflexivity. Qed.

(** Stream [a] with two events. *)
Definition append_a : R CommitTicket * db := append_lazy (orc 0) quiet "a" NoStream [ev1; ev2] mem_empty.
Definition d1 : db := append_a.2.

Lemma d1_wf : wf d1.
Proof.
  eapply (wf_append (orc 0) quiet "a" NoStream None None [ev1; ev2] true mem_empty append_a.1);
    [reflexivity|apply orc_ok|intros k; rewrite drift_quiet; apply wf_mem_empty
    |apply surjective_pairing|].
  intros tk Htk. assert (tk = mkTicket (mkInfo 0 1 1) 1) as ->.
  { apply (f_equal (λ r, match r with Ok t => t | Err _ => tk end)) in Htk.
    rewrite <-Htk. vm_compute. reflexivity. }
  split; small.
Qed.

(** Stream [b], forked from [a] after its first event. *)
Definition d2 : db := (fork (λ d, d) "a" 0 "b" d1).2.

Lemma d2_wf : wf d2.
Proof.
  eapply (wf_fork (λ d, d) "a" 0 "b" d1); [apply d1_wf|reflexivity|reflexivity|lia|apply d1_wf|].
  apply surjective_pairing.
Qed.

(** Evaluated by [vm_compute] only. *)
#[global] Opaque d1 d2.

Lemma quiet_wf (d : db) : wf d → ∀ k, wf (drift quiet 0 k d).
Proof. intros Hd k. by rewrite drift_quiet. Qed.

Lemma no_slash_a : slash_free "a".
Proof. reflexivity. Qed.
End Samples.
