(* ===== verification/AppendThms.v ===== *)
(** * Theorems about appends

    Linearization of a committed append, its acceptance condition, safety of
    retries and of the bounded retry loop, races on one stream, fencing. *)

From S2P Require Import Prelude Text Slate Types Keys Kv Fork Store Batch Append Wf Commit.
From S2P Require Import Appended Ops Purge History Txn Invariant Samples.
Local Open Scope Z_scope.

Lemma check_batch_iff evs :
  check_batch evs = Ok tt ↔
  Z.of_nat (length evs) ≤ MAX_BATCH_RECORDS
  ∧ Forall (λ e, Z.of_nat (length (ne_data e)) ≤ MAX_RECORD_BYTES) evs.
Proof.
  unfold check_batch. destruct (Z.ltb_spec MAX_BATCH_RECORDS (Z.of_nat (length evs))) as [|Hle].
  { split; [done|]. lia. }
  destruct (List.find _ evs) as [e|] eqn:Ef.
  - split; [done|]. intros [_ Hall]. apply List.find_some in Ef as [Hin Hgt].
    rewrite Forall_forall in Hall. apply list_elem_of_In, Hall in Hin. apply Z.ltb_lt in Hgt. lia.
  - split; [|done]. intros _. split; [done|]. apply Forall_forall. intros e He%list_elem_of_In.
    by apply (List.find_none _ _ Ef), Z.ltb_ge in He.
Qed.

Section append_laws.
Context `{SlateDbLaws} `{CodecLaws}.

(** The abstract append: [evs] go to the end of the log of [s] in [cur] as
    [envs], the tail moves to the last of them, and no other stream changes. *)
Record extends (cur d' : db) (s : string) (expd : ExpectedVersion) (evs : list NewEvent)
    (info : CommitInfo) (tl : option TailRecord) (envs : list Envelope) : Prop := {
  ex_tail_before : tail cur s = Ok tl;
  ex_expected : expected_matches expd (tail_version <$> tl) = true;
  ex_first : first_version info = map_or 0 (λ t, tail_version t + 1) tl;
  ex_last : last_version info = first_version info + Z.of_nat (length evs) - 1;
  ex_batch : batch_of envs evs (first_version info) (map_or 0 tail_ts_ms tl);
  ex_log : log d' s = log cur s ++ envs;
  ex_tail_after : ∃ t, tail d' s = Ok (Some t) ∧ tail_version t = last_version info;
  ex_untouched k : key_ok k → untouched s k → db_get d' (render k) = db_get cur (render k);
  ex_others s' : slash_free s' → s' ≠ s → log d' s' = log cur s' ∧ tail d' s' = tail cur s';
}.

Lemma effect_extends cur d' o sq s expd tok evs idx info :
  wf cur → slash_free s → oracle_ok o → check_batch evs = Ok tt →
  takes_effect cur d' o sq s expd None tok evs idx info → fits info →
  ∃ tl envs, extends cur d' s expd evs info tl envs ∧ fence_ok cur s tok = Ok tt ∧ evs ≠ [].
Proof.
  intros Hwf Hs Ho Hb Heff [Hf Hl].
  destruct (effect_batch cur d' o sq s expd None tok evs idx info Hwf Hs Ho Hb Heff Hf Hl)
    as (tl & envs & Htl & Htok & Hexp & Hfo & Hne & Hfst & Hlst & Hbo & _ & _ & _ & Ht' & Hlog & _ & Hap).
  assert (first_version info = map_or 0 (λ t, tail_version t + 1) tl) as Hfst'.
  { rewrite Hfst. unfold first_of. destruct tl as [t|]; simpl; [|done].
    destruct Htok as [Hv _]. unfold key_num in Hv. u64_norm. done. }
  exists tl, envs. split; [|done]. split; try done.
  - by apply Hlog.
  - eexists. split; [exact Ht'|]. simpl. destruct tl as [t|]; simpl in *; [|done].
    assert (1 ≤ Z.of_nat (length evs)) by (destruct evs; simpl; [done|lia]). lia.
  - intros k Hk Hu. by apply (ap_untouched _ _ _ _ Hap).
  - intros s' Hs' Hn. split; [by apply (ap_log_other _ _ _ _ Hap)|by apply (ap_tail_other _ _ _ _ Hap)].
Qed.

(** C1: a successful append, under any interference of other writers, takes
    effect at one point: on the state current at its commit it satisfied its
    expected version and fence, the events were added at the end of the
    stream's log with consecutive versions from the tail and timestamps that
    never move backwards, the tail moved to the last of them, and no other
    stream changed. *)
Theorem append_linearizes o interf s expd tok evs idx d tk d' :
  slash_free s → (∀ n, oracle_ok (o n)) → (∀ k, wf (drift interf 0 k d)) →
  commit_appends o interf s expd None tok evs idx d = (Ok tk, d') → fits (ticket_info tk) →
  ∃ k tl envs, (k ≤ COMMIT_RETRIES)%nat
    ∧ extends (drift interf 0 (S k) d) d' s expd evs (ticket_info tk) tl envs
    ∧ fence_ok (drift interf 0 (S k) d) s tok = Ok tt ∧ ticket_seq tk = db_last_seq d'.
Proof.
  intros Hs Ho Hwf E Hfits. destruct (check_batch evs) as [[]|e] eqn:Eb.
  2: { unfold commit_appends in E. by rewrite Eb in E. }
  destruct (commit_appends_spec o interf s expd None tok evs idx d Eb) as (k & Hk & Hout).
  rewrite E in Hout. destruct Hout as (Heff & Hseq & _). exists k.
  destruct (effect_extends _ _ _ _ _ _ _ _ _ _ (Hwf (S k)) Hs
    (Ho _) Eb Heff Hfits) as (tl & envs & Hex & Hfo & _).
  by exists tl, envs.
Qed.

(** The tokens the check lets through. *)
Lemma fence_ok_iff d s tok :
  fence_ok d s tok = Ok tt ↔ ∀ token b, tok = Some token → db_get d (m_key s "fence") = Some b → from_utf8 b = token.
Proof.
  unfold fence_ok. destruct tok as [token|]; [|by split]. destruct (db_get d (m_key s "fence")) as [b|]; [|by split].
  destruct (String.eqb_spec (from_utf8 b) token) as [E|Hne]; split; try done.
  - by intros _ ? ? [= <-] [= <-].
  - intros Hall. by destruct Hne, (Hall token b).
Qed.

(** C3: without interference an append is accepted exactly when the batch is
    within its limits and not empty, the expected version holds, and no token
    was given that differs from the one the stream is fenced with: an append
    without a token is never refused for a fence, nor is any on a stream that
    has none.  A rejected append changes nothing. *)
Theorem append_accepts_iff o s expd fv tok evs idx d :
  wf d → slash_free s →
  ((∃ tk, (commit_appends o quiet s expd fv tok evs idx d).1 = Ok tk) ↔
   (Z.of_nat (length evs) ≤ MAX_BATCH_RECORDS
    ∧ Forall (λ e, Z.of_nat (length (ne_data e)) ≤ MAX_RECORD_BYTES) evs ∧ evs ≠ []
    ∧ (∀ token b, tok = Some token → db_get d (m_key s "fence") = Some b → from_utf8 b = token)
    ∧ ∃ tl, tail d s = Ok tl ∧ expected_matches expd (tail_version <$> tl) = true))
  ∧ ∀ e, (commit_appends o quiet s expd fv tok evs idx d).1 = Err e →
      (commit_appends o quiet s expd fv tok evs idx d).2 = d.
Proof.
  intros Hwf Hs. rewrite <-fence_ok_iff, commit_appends_quiet. unfold append_plan.
  destruct (tail_shaped d s (wf_shaped _ Hwf) Hs) as (tl & Htl & _). rewrite Htl. cbn [rbind].
  pose proof (check_batch_iff evs) as Hcb.
  destruct (check_batch evs) as [[]|e]; simpl.
  2: { split; [|done]. split; [by intros [? ?]|]. intros (HA & HB & _). by discriminate (proj2 Hcb (conj HA HB)). }
  destruct (fence_ok d s tok) as [[]|e]; simpl.
  2: { split; [|done]. split; [by intros [? ?]|]. by intros (_ & _ & _ & ? & _). }
  destruct (expected_matches expd (tail_version <$> tl)) eqn:Em; simpl.
  2: { split; [|done]. split; [by intros [? ?]|]. intros (_ & _ & _ & _ & tl' & [= <-] & ?). congruence. }
  destruct evs as [|ne evs]; simpl; [|split; [|done]; split; [|by eauto]].
  - split; [|done]. split; [by intros [? ?]|]. by intros (_ & _ & ? & _).
  - intros _. destruct (proj1 Hcb eq_refl). split_and!; eauto.
Qed.

Lemma fence_ok_ext d1 d2 s tok :
  db_get d1 (m_key s "fence") = db_get d2 (m_key s "fence") → fence_ok d1 s tok = fence_ok d2 s tok.
Proof. intros E. unfold fence_ok. by rewrite E. Qed.

Lemma quiet_effect o s expd fv tok evs idx d tk d' :
  commit_appends o quiet s expd fv tok evs idx d = (Ok tk, d') →
  check_batch evs = Ok tt
  ∧ takes_effect d d' (o 0%nat) (durable_sequence d) s expd fv tok evs idx (ticket_info tk).
Proof.
  rewrite commit_appends_quiet. destruct (check_batch evs) as [[]|]; [|done].
  destruct (append_plan _ _ _ _ _ _ _ _ _) as [[[info sq] ws]|] eqn:Ep; [|done].
  intros [= <- <-]. split; [done|]. by exists sq, ws.
Qed.

(** An unconditional append to an unfenced stream. *)
Lemma any_effect o s evs d tl :
  check_batch evs = Ok tt → evs ≠ [] → tail d s = Ok tl →
  takes_effect d (append_lazy o quiet s Any evs d).2 (o 0%nat) (durable_sequence d) s Any None None
    evs true (mkInfo (first_of tl None) (u64_add (first_of tl None) (Z.of_nat (length evs) - 1))
                (u64_add (durable_sequence d) 1)).
Proof.
  intros Hb Hne Ht. unfold append_lazy. rewrite commit_appends_quiet, Hb.
  destruct (append_plan d (o 0%nat) (durable_sequence d) s Any None None evs true)
    as [[[info sq] ws]|e] eqn:Ep; pose proof Ep as Ep'; unfold append_plan in Ep'; rewrite Ht in Ep';
    cbn [rbind fence_ok expected_matches negb] in Ep'; (destruct evs; [done|]); [|done].
  exists sq, ws. split; [|done]. rewrite Ep. by injection Ep' as <- _ _.
Qed.

(** A caller that repeats a conditional append after it succeeded (a lost
    acknowledgement) gets a version conflict naming the version its first
    attempt wrote, and writes nothing: no duplicate. *)
Theorem append_retry_rejected o o' s expd tok evs idx d tk d' :
  wf d → slash_free s → (∀ n, oracle_ok (o n)) → expd ≠ Any →
  commit_appends o quiet s expd None tok evs idx d = (Ok tk, d') → fits (ticket_info tk) →
  commit_appends o' quiet s expd None tok evs idx d' =
    (Err (VersionConflict s expd (Some (last_version (ticket_info tk)))), d').
Proof.
  intros Hwf Hs Ho Hany E Hfits. destruct (quiet_effect _ _ _ _ _ _ _ _ _ _ E) as [Hb Heff].
  destruct (effect_extends _ _ _ _ _ _ _ _ _ _ Hwf Hs (Ho _) Hb Heff Hfits) as (tl & envs & Hex & Hfo & Hne).
  destruct (ex_tail_after _ _ _ _ _ _ _ _ Hex) as (t & Ht & Hv).
  rewrite commit_appends_quiet, Hb. unfold append_plan. rewrite Ht. cbn [rbind].
  rewrite (fence_ok_ext d' d), Hfo by (rewrite render_fence; by apply (ex_untouched _ _ _ _ _ _ _ _ Hex)).
  cbn [rbind fmap option_fmap option_map]. rewrite Hv.
  assert (expected_matches expd (Some (last_version (ticket_info tk))) = false) as ->; [|done].
  pose proof (ex_expected _ _ _ _ _ _ _ _ Hex) as Hm.
  pose proof (ex_first _ _ _ _ _ _ _ _ Hex). pose proof (ex_last _ _ _ _ _ _ _ _ Hex).
  assert (1 ≤ Z.of_nat (length evs)) by (destruct evs; simpl; [done|lia]).
  destruct expd as [| |v]; [done|done|]. simpl in *. apply bool_decide_eq_true_1 in Hm.
  apply bool_decide_eq_false_2. intros [= Heq]. destruct tl as [t0|]; [|done].
  injection Hm as Hm. simpl in *. lia.
Qed.

(** When other writers move the stream's tail during every attempt, the
    call gives up after its first attempt and [COMMIT_RETRIES] retries without
    having written: it fails a check on one of the states it saw, or reports
    a version conflict with the tail current at the end. *)
Theorem append_contention o interf s expd fv tok evs idx d r d' :
  slash_free s → wf (drift interf 0 (S COMMIT_RETRIES) d) →
  (∀ k, (k ≤ COMMIT_RETRIES)%nat →
     db_get (drift interf 0 (S k) d) (m_key s "tail") ≠ db_get (drift interf 0 k d) (m_key s "tail")) →
  commit_appends o interf s expd fv tok evs idx d = (r, d') →
  ∃ e j, r = Err e ∧ (j ≤ S COMMIT_RETRIES)%nat ∧ d' = drift interf 0 j d
    ∧ (check_batch evs = Err e
       ∨ append_plan d' (o j) (durable_sequence d') s expd fv tok evs idx = Err e
       ∨ j = S COMMIT_RETRIES
         ∧ ∃ tl, tail d' s = Ok tl ∧ e = VersionConflict s expd (tail_version <$> tl)).
Proof.
  intros Hs Hwf Hmove E. destruct (check_batch evs) as [[]|e] eqn:Eb.
  2: { unfold commit_appends in E. rewrite Eb in E. injection E as <- <-. exists e, 0%nat.
       split_and!; [done|lia|done|by left]. }
  destruct (commit_appends_spec o interf s expd fv tok evs idx d Eb) as (k & Hk & Hout).
  rewrite E in Hout. simpl in Hout. destruct r as [tk|e].
  { destruct Hout as (_ & _ & Hsame). by destruct (Hmove k Hk). }
  destruct Hout as [[Hp ->] | (-> & -> & Hc)].
  - exists e, k. split_and!; [done|lia|done|]. right. by left.
  - exists e, (S COMMIT_RETRIES). split_and!; [done..|]. right. right. split; [done|].
    destruct (tail_shaped _ s (wf_shaped _ Hwf) Hs) as (tl & Htl & _).
    destruct Hc as [Hc|Hc]; [|done]. change (tail (drift interf 0 (S COMMIT_RETRIES) d) s = Err e) in Hc.
    by rewrite Htl in Hc.
Qed.

(** C4: two writers race on one stream: [B] commits between the snapshot and
    the commit of [A].  If both succeed, [A]'s versions start right after
    [B]'s, the log holds both batches in commit order, and [A]'s expected
    version held of the tail [B] left; so an [A] that expected the tail it
    first saw does not succeed. *)
Theorem racing_appends oa ob s ea eb evsa evsb d da db_ tka tkb :
  wf d → slash_free s → (∀ n, oracle_ok (oa n)) → (∀ n, oracle_ok (ob n)) →
  append_lazy ob quiet s eb evsb d = (Ok tkb, db_) → fits (ticket_info tkb) →
  append_lazy oa (λ n d, if (n =? 0)%nat then (append_lazy ob quiet s eb evsb d).2 else d) s ea evsa d
    = (Ok tka, da) → fits (ticket_info tka) →
  first_version (ticket_info tka) = last_version (ticket_info tkb) + 1
  ∧ expected_matches ea (Some (last_version (ticket_info tkb))) = true
  ∧ ∃ la lb tsa tsb, log da s = log d s ++ lb ++ la
      ∧ batch_of la evsa (first_version (ticket_info tka)) tsa
      ∧ batch_of lb evsb (first_version (ticket_info tkb)) tsb.
Proof.
  intros Hwf Hs Hoa Hob Eb Hfb Ea Hfa. set (interf := λ n d, if (n =? 0)%nat then _ else _) in Ea.
  destruct (quiet_effect _ _ _ _ _ _ _ _ _ _ Eb) as [Hcb Heb].
  pose proof (effect_wf _ _ _ _ _ _ _ _ _ _ _ Hwf Hs (Hob _) Hcb Heb (proj1 Hfb) (proj2 Hfb)) as Hwfb.
  destruct (effect_extends _ _ _ _ _ _ _ _ _ _ Hwf Hs (Hob _) Hcb Heb Hfb) as (tlb & lb & Hxb & _).
  assert (∀ k, drift interf 0 (S k) d = db_) as Hdr.
  { intros k. cbn [drift]. unfold interf at 2. simpl. rewrite Eb. simpl.
    assert (∀ j i, drift interf (S i) j db_ = db_) as Hid; [|apply Hid].
    induction j as [|j IH]; intros i; [done|]. cbn [drift]. unfold interf at 2. simpl. apply IH. }
  unfold append_lazy, commit_appends in Ea. destruct (check_batch evsa) as [[]|] eqn:Hca; [|done].
  destruct (commit_loop_spec oa interf s ea None None evsa true COMMIT_RETRIES 0 d) as (k & _ & Hout).
  rewrite Ea in Hout. cbn [fst snd] in Hout. destruct Hout as (Hea & _). rewrite Hdr in Hea.
  destruct (effect_extends _ _ _ _ _ _ _ _ _ _ Hwfb Hs (Hoa _) Hca Hea Hfa) as (tla & la & Hxa & _).
  destruct (ex_tail_after _ _ _ _ _ _ _ _ Hxb) as (t & Ht & Hv).
  pose proof (ex_tail_before _ _ _ _ _ _ _ _ Hxa) as Hta. rewrite Ht in Hta. injection Hta as <-.
  split_and!.
  - rewrite (ex_first _ _ _ _ _ _ _ _ Hxa). simpl. by rewrite Hv.
  - rewrite <-Hv. exact (ex_expected _ _ _ _ _ _ _ _ Hxa).
  - exists la, lb, (map_or 0 tail_ts_ms (Some t)), (map_or 0 tail_ts_ms tlb). split_and!.
    + by rewrite (ex_log _ _ _ _ _ _ _ _ Hxa), (ex_log _ _ _ _ _ _ _ _ Hxb), app_assoc.
    + exact (ex_batch _ _ _ _ _ _ _ _ Hxa).
    + exact (ex_batch _ _ _ _ _ _ _ _ Hxb).
Qed.

(** C34: once a stream is fenced with a token, an append carrying another
    token never commits, even one whose first attempt began before the fence
    was set: it ends in an error and the store holds only what the other
    writers did. *)
Theorem fenced_writer_never_commits o interf s expd fv token mine evs idx d r d' :
  mine ≠ token →
  (∀ k, db_get (drift interf 0 (S k) d) (m_key s "fence") = Some (as_bytes token)) →
  commit_appends o interf s expd fv (Some mine) evs idx d = (r, d') →
  ∃ e j, r = Err e ∧ (j ≤ S COMMIT_RETRIES)%nat ∧ d' = drift interf 0 j d.
Proof.
  intros Hne Hfence E. destruct (check_batch evs) as [[]|e] eqn:Eb.
  2: { unfold commit_appends in E. rewrite Eb in E. injection E as <- <-. exists e, 0%nat.
       split_and!; [done|lia|done]. }
  destruct (commit_appends_spec o interf s expd fv (Some mine) evs idx d Eb) as (k & Hk & Hout).
  rewrite E in Hout. simpl in Hout. destruct r as [tk|e].
  - exfalso. destruct Hout as ((seq' & ws & Hp & _) & _). unfold append_plan in Hp.
    apply rbind_Ok in Hp as (tl & _ & Hp). apply rbind_Ok in Hp as ([] & Hfo & _).
    unfold fence_ok in Hfo. specialize (Hfence k). cbn [drift] in Hfence. rewrite Hfence, from_as_bytes in Hfo.
    destruct (String.eqb_spec token mine); congruence.
  - destruct Hout as [[_ ->] | (-> & -> & _)]; [exists e, k|exists e, (S COMMIT_RETRIES)];
      (split_and!; [done|lia|done]).
Qed.

Lemma run_plain_quiet {A} (body : TM A) d a ws reads :
  body (begin d) = Ok (a, plain_txn d ws reads) → ws ≠ [] →
  run_txn (λ d, d) body d =
    (Ok (a, Some (db_last_seq (db_apply d (render_ws ws)))), db_apply d (render_ws ws)).
Proof.
  intros Hb Hne. unfold run_txn, txn_commit. rewrite Hb. set (t := plain_txn d ws reads).
  change d with (t_snap t) at 1. rewrite db_conflict_clean. simpl. by destruct ws.
Qed.

(** A fence set without interference takes effect at once: an append with
    any other token fails with [FenceMismatch] naming the new token and
    writes nothing, and the holder's appends behave as on an unfenced
    stream. *)
Theorem fence_admits_holder o watch s token expd fv evs idx d d' :
  wf d → slash_free s → token ≠ "" → (fence (λ d, d) watch s (Some token) d).2 = d' →
  check_batch evs = Ok tt →
  (∀ mine, mine ≠ token →
     commit_appends o quiet s expd fv (Some mine) evs idx d' = (Err (FenceMismatch s token), d'))
  ∧ commit_appends o quiet s expd fv (Some token) evs idx d'
    = commit_appends o quiet s expd fv None evs idx d'.
Proof.
  intros Hwf Hs Htok <- Hb. destruct (tail_shaped d s (wf_shaped _ Hwf) Hs) as (tl & Htl & _).
  unfold fence. rewrite (run_plain_quiet _ d tl [(KFence s, fence_value (Some token))] [m_key s "tail"])
    by (done || by apply fence_body_eq). cbn [snd].
  assert (fence_value (Some token) = Some (as_bytes token)) as -> by by destruct token.
  set (d' := db_apply d _).
  assert (batch_ok [(KFence s, Some (as_bytes token))]) as Hok by by apply batch_ok_one.
  assert (db_get d' (m_key s "fence") = Some (as_bytes token)) as Hf.
  { unfold d'. rewrite render_fence, get_batch by done. cbn [klast]. by rewrite decide_True. }
  assert (tail d' s = Ok tl) as Htl'.
  { rewrite <-Htl. unfold tail, get_json, d'. rewrite render_tail, get_batch_other; [done..|].
    by intros w ->%list_elem_of_singleton. }
  assert (∀ mine, fence_ok d' s (Some mine) =
    if String.eqb token mine then Ok tt else Err (FenceMismatch s token)) as Hfo.
  { intros mine. unfold fence_ok. by rewrite Hf, from_as_bytes. }
  split.
  - intros mine Hne. rewrite commit_appends_quiet, Hb. unfold append_plan. rewrite Htl', Hfo. cbn [rbind].
    destruct (String.eqb_spec token mine); [congruence|done].
  - rewrite !commit_appends_quiet, Hb. unfold append_plan. rewrite Htl', Hfo, String.eqb_refl. done.
Qed.
End append_laws.

(** ** Instances *)

Import Samples.

Lemma append_linearizes_witness : ∃ k tl envs, (k ≤ COMMIT_RETRIES)%nat
  ∧ extends (drift quiet 0 (S k) mem_empty) d1 "a" NoStream [ev1; ev2] (mkInfo 0 1 1) tl envs
  ∧ fence_ok (drift quiet 0 (S k) mem_empty) "a" None = Ok tt ∧ 1 = db_last_seq d1.
Proof.
  apply (append_linearizes (orc 0) quiet "a" NoStream None [ev1; ev2] true mem_empty
    (mkTicket (mkInfo 0 1 1) 1) d1);
    [reflexivity|apply orc_ok|apply quiet_wf, wf_mem_empty|run|split; small].
Defined.

Lemma append_accepts_iff_witness :
  ∃ tk, (commit_appends (orc 0) quiet "a" NoStream None None [ev1; ev2] true mem_empty).1 = Ok tk.
Proof.
  apply (append_accepts_iff (orc 0) "a" NoStream None None [ev1; ev2] true mem_empty);
    [apply wf_mem_empty|reflexivity|].
  split_and!; [vm_compute; congruence|repeat constructor; vm_compute; congruence|done|intros token b E; discriminate E|].
  exists None. split; reflexivity.
Defined.

Lemma append_retry_rejected_witness :
  commit_appends (orc 9) quiet "a" NoStream None None [ev1; ev2] true d1 =
    (Err (VersionConflict "a" NoStream (Some 1)), d1).
Proof.
  apply (append_retry_rejected (orc 0) (orc 9) "a" NoStream None [ev1; ev2] true mem_empty
    (mkTicket (mkInfo 0 1 1) 1) d1);
    [apply wf_mem_empty|reflexivity|apply orc_ok|done|run|split; small].
Defined.

(** A competitor that appends one event before each commit. *)
Definition busy (n : nat) (d : db) : db := (append_lazy (orc (10 * n)) quiet "a" Any [ev1] d).2.

Lemma busy_step n d t :
  wf d → tail d "a" = Ok (Some t) → 0 ≤ tail_version t < 1000 →
  wf (busy n d) ∧ ∃ t', tail (busy n d) "a" = Ok (Some t') ∧ tail_version t' = tail_version t + 1.
Proof.
  intros Hwf Ht Hv. assert (check_batch [ev1] = Ok tt) as Hb by reflexivity.
  pose proof (any_effect (orc (10 * n)) "a" [ev1] d (Some t) Hb ltac:(done) Ht) as Heff.
  change (append_lazy _ quiet "a" Any [ev1] d).2 with (busy n d) in Heff.
  set (info := mkInfo _ _ _) in Heff.
  assert (first_version info = tail_version t + 1) as E1.
  { unfold info, first_of. simpl. apply u64_add_small. rewrite U64_eq. lia. }
  assert (last_version info = tail_version t + 1) as E2.
  { change (last_version info) with (u64_add (first_version info) 0). rewrite E1.
    rewrite u64_add_small; [lia|]. rewrite U64_eq. lia. }
  assert (fits info) as Hf.
  { split; rewrite ?E1, ?E2; unfold key_num; rewrite KEY_MAX_eq; lia. }
  destruct (effect_extends _ _ _ _ _ _ _ _ _ _ Hwf no_slash_a (orc_ok _ 0) Hb Heff Hf)
    as (tl & envs & Hex & _).
  split; [exact (effect_wf _ _ _ _ _ _ _ _ _ _ _ Hwf no_slash_a (orc_ok _ 0) Hb Heff (proj1 Hf) (proj2 Hf))|].
  destruct (ex_tail_after _ _ _ _ _ _ _ _ Hex) as (t' & Ht' & Hv'). exists t'. by rewrite Hv', E2.
Qed.

Lemma busy_drift k i d t :
  wf d → tail d "a" = Ok (Some t) → 0 ≤ tail_version t → tail_version t + Z.of_nat k < 1000 →
  wf (drift busy i k d)
  ∧ ∃ t', tail (drift busy i k d) "a" = Ok (Some t') ∧ tail_version t' = tail_version t + Z.of_nat k.
Proof.
  revert i d t. induction k as [|k IH]; intros i d t Hwf Ht Hv Hlt; simpl.
  - split; [done|]. exists t. split; [done|]. lia.
  - destruct (busy_step i d t Hwf Ht) as (Hwf' & t' & Ht' & Hv'); [lia|].
    destruct (IH (S i) (busy i d) t' Hwf' Ht') as (Hw & t2 & Ht2 & Hv2); [lia..|].
    split; [done|]. exists t2. split; [done|]. lia.
Qed.

Definition d1_tail : TailRecord := mkTail 1 1001.

Lemma d1_tail_eq : tail d1 "a" = Ok (Some d1_tail).
Proof. run. Qed.

Lemma append_contention_witness : ∃ e j,
  (append_lazy (orc 500) busy "a" Any [ev2] d1).1 = Err e ∧ (j ≤ S COMMIT_RETRIES)%nat
  ∧ (append_lazy (orc 500) busy "a" Any [ev2] d1).2 = drift busy 0 j d1
  ∧ (check_batch [ev2] = Err e
     ∨ append_plan (append_lazy (orc 500) busy "a" Any [ev2] d1).2 (orc 500 j)
         (durable_sequence (append_lazy (orc 500) busy "a" Any [ev2] d1).2) "a" Any None None [ev2] true
       = Err e
     ∨ j = S COMMIT_RETRIES
       ∧ ∃ tl, tail (append_lazy (orc 500) busy "a" Any [ev2] d1).2 "a" = Ok tl
         ∧ e = VersionConflict "a" Any (tail_version <$> tl)).
Proof.
  apply (append_contention (orc 500) busy "a" Any None None [ev2] true d1);
    [reflexivity|..|apply surjective_pairing].
  - apply (busy_drift (S COMMIT_RETRIES) 0 d1 d1_tail d1_wf d1_tail_eq); vm_compute; congruence.
  - intros k Hk Heq. unfold COMMIT_RETRIES in Hk.
    destruct (busy_drift (S k) 0 d1 d1_tail d1_wf d1_tail_eq) as (_ & t1 & Ht1 & Hv1);
      [vm_compute; congruence|simpl tail_version; lia|].
    destruct (busy_drift k 0 d1 d1_tail d1_wf d1_tail_eq) as (_ & t2 & Ht2 & Hv2);
      [vm_compute; congruence|simpl tail_version; lia|].
    unfold tail, get_json in Ht1, Ht2. rewrite Heq, Ht2 in Ht1. injection Ht1 as ->. lia.
Defined.

Lemma racing_appends_witness :
  2 = 1 + 1 ∧ expected_matches Any (Some 1) = true
  ∧ ∃ la lb tsa tsb,
      log (append_lazy (orc 500)
             (λ n d, if (n =? 0)%nat then (append_lazy (orc 0) quiet "a" NoStream [ev1; ev2] d).2 else d)
             "a" Any [ev2] mem_empty).2 "a" = log mem_empty "a" ++ lb ++ la
      ∧ batch_of la [ev2] 2 tsa ∧ batch_of lb [ev1; ev2] 0 tsb.
Proof.
  apply (racing_appends (orc 500) (orc 0) "a" Any NoStream [ev2] [ev1; ev2] mem_empty
    _ d1 (mkTicket (mkInfo 2 2 3) 2) (mkTicket (mkInfo 0 1 1) 1));
    [apply wf_mem_empty|reflexivity|apply orc_ok|apply orc_ok|run|split; small|run|split; small].
Defined.

(** A writer that began before another one fenced the stream. *)
Definition take_over (n : nat) (d : db) : db :=
  if (n =? 0)%nat then (fence (λ d, d) [] "a" (Some "new") d).2 else d.

Lemma fenced_writer_never_commits_witness : ∃ e j,
  (append_with_token_lazy (orc 500) take_over "a" "old" Any [ev2] true d1).1 = Err e
  ∧ (j ≤ S COMMIT_RETRIES)%nat
  ∧ (append_with_token_lazy (orc 500) take_over "a" "old" Any [ev2] true d1).2 = drift take_over 0 j d1.
Proof.
  apply (fenced_writer_never_commits (orc 500) take_over "a" Any None "new" "old" [ev2] true d1);
    [done| |apply surjective_pairing].
  intros k. cbn [drift]. change (take_over 0 d1) with (fence (λ d, d) [] "a" (Some "new") d1).2.
  assert (∀ j i d, drift take_over (S i) j d = d) as ->; [|run].
  induction j as [|j IH]; intros i d; [done|]. exact (IH (S i) d).
Defined.

Lemma fence_admits_holder_witness :
  (∀ mine, mine ≠ "new" →
     commit_appends (orc 500) quiet "a" Any None (Some mine) [ev2] true
       (fence (λ d, d) [] "a" (Some "new") d1).2
     = (Err (FenceMismatch "a" "new"), (fence (λ d, d) [] "a" (Some "new") d1).2))
  ∧ commit_appends (orc 500) quiet "a" Any None (Some "new") [ev2] true
      (fence (λ d, d) [] "a" (Some "new") d1).2
    = commit_appends (orc 500) quiet "a" Any None None [ev2] true
        (fence (λ d, d) [] "a" (Some "new") d1).2.
Proof.
  apply (fence_admits_holder (orc 500) [] "a" "new" Any None [ev2] true d1);
    [apply d1_wf|reflexivity|done|reflexivity|reflexivity].
Defined.
