(* ===== verification/ReadThms.v ===== *)
(** * Theorems about reads

    Range pushdown, histories across forks, paging, the tail of a stream. *)

From S2P Require Import Prelude Text Slate Types Keys Kv Fork Store Batch Append Wf Commit.
From S2P Require Import Appended Ops Purge History Txn Invariant Samples.
Local Open Scope Z_scope.

(** The range arguments a read accepts. *)
Definition range_ok (range : Bound * Bound) : Prop := lim_window (bounds range).1 (bounds range).2.

(** Payload bytes of a page. *)
Definition page_bytes (l : list Event) : Z :=
  fold_right (λ e n, Z.of_nat (length (ev_data e)) + n) 0 l.

Section paging.
Context `{SlateDb} `{Codecs}.

(** A caller that follows the cursors of [read_page] to the end. *)
Fixpoint read_pages (fuel : nat) (d : db) (s : string) (from : Version) (limit : PageLimit) :
    option (R (list Event)) :=
  match fuel with
  | O => None
  | S fuel =>
      match read_page d s from limit with
      | Err e => Some (Err e)
      | Ok (out, None) => Some (Ok out)
      | Ok (out, Some next) =>
          rest ← read_pages fuel d s next limit; Some (rmap (app out) rest)
      end
  end.
End paging.

Lemma page_bytes_app l1 l2 : page_bytes (l1 ++ l2) = page_bytes l1 + page_bytes l2.
Proof. induction l1 as [|e l1 IH]; simpl; [done|]. rewrite IH. lia. Qed.

(** The page is a prefix of the events, non-empty when there are any, and the
    flag says whether it is all of them. *)
Lemma page_loop_split limit out nb evs :
  ∃ taken rest, evs = taken ++ rest
    ∧ page_loop limit out nb evs = (out ++ taken, bool_decide (rest = []))
    ∧ (out = [] → evs ≠ [] → taken ≠ []).
Proof.
  revert out nb. induction evs as [|e evs IH]; intros out nb; cbn [page_loop].
  { exists [], []. rewrite bool_decide_eq_true_2 by done. by rewrite (app_nil_r out). }
  destruct (_ && _) eqn:Ec.
  - exists [], (e :: evs). rewrite app_nil_r. split_and!; [done..|].
    intros ->. by rewrite bool_decide_eq_true_2 in Ec.
  - destruct (IH (out ++ [e]) (nb + Z.of_nat (length (ev_data e)))) as (taken & rest & -> & -> & _).
    exists (e :: taken), rest. by rewrite <-app_assoc.
Qed.

Lemma page_loop_limits limit out nb evs page b :
  nb = page_bytes out → page_loop limit out nb evs = (page, b) →
  (Z.of_nat (length out) ≤ Z.max 1 (max_count limit)) →
  (page_bytes out ≤ max_bytes limit ∨ (length out ≤ 1)%nat) →
  Z.of_nat (length page) ≤ Z.max 1 (max_count limit)
  ∧ (page_bytes page ≤ max_bytes limit ∨ (length page ≤ 1)%nat).
Proof.
  revert out nb. induction evs as [|e evs IH]; intros out nb -> E Hc Hb; cbn [page_loop] in E.
  { by injection E as <- _. }
  destruct (negb _ && _) eqn:Ec; [by injection E as <- _|].
  eapply IH; [|exact E|..].
  - rewrite page_bytes_app. simpl. lia.
  - rewrite length_app. simpl. destruct out as [|x out]; [simpl; lia|].
    rewrite bool_decide_eq_false_2 in Ec by done. simpl in Ec. apply orb_false_iff in Ec as [Ec _].
    apply Z.leb_gt in Ec. simpl in *. lia.
  - rewrite page_bytes_app, length_app. simpl. destruct out as [|x out]; [right; simpl; lia|].
    rewrite bool_decide_eq_false_2 in Ec by done. simpl in Ec. apply orb_false_iff in Ec as [_ Ec].
    apply Z.ltb_ge in Ec. left. simpl in *. lia.
Qed.

Section reads.
Context `{SlateDbLaws} `{CodecLaws}.

(** A guarded read with its range pushed down into the key scan returns
    exactly the stream's log restricted to the range and to the visible
    records (at or above the trim floor, not hidden by deletion, not in a
    rollback window), in version order. *)
Theorem read_stream_filters d s range :
  wf d → slash_free s → range_ok range →
  read_stream d s range =
    Ok (from_parts <$> filter (λ e, in_window (bounds range).1 (bounds range).2 e = true
                                    ∧ visible d s e = true) (log d s)).
Proof.
  intros Hwf Hs [Hlo Hhi]. unfold read_stream.
  by apply read_events_log; [apply Hwf|done|apply surjective_pairing|done|done|apply floor_shaped; [apply Hwf|]].
Qed.

(** C5: on a well-formed store every stream has exactly one history, the
    parent's up to the fork point followed by its own visible records, and
    [read_history] of any range returns its restriction to the range; the
    fork-cycle error cannot occur. *)
Theorem read_history_filters d s :
  wf d → slash_free s →
  ∃ l, hist d s l ∧ (∀ l', hist d s l' → l' = l)
    ∧ ∀ range, range_ok range →
        read_history d s range = Ok (from_parts <$> within (bounds range).1 (bounds range).2 l).
Proof.
  intros Hwf Hs. destruct (hist_exists d s Hwf Hs) as [l Hl]. exists l. split_and!; [done|..].
  - intros l' Hl'. by eapply hist_unique.
  - intros range Hr. unfold read_history. destruct (bounds range) as [lo hi] eqn:Eb.
    apply resolve_history_hist; [done..|]. unfold range_ok in Hr. by rewrite Eb in Hr.
Qed.

(** C35: the walk of [resolve_history] over fork references ends on any store
    whatsoever, cyclic or damaged metadata included, within one more step than
    there are metadata keys: it returns the history or an error, never runs
    out. *)
Theorem resolve_history_terminates d s lo hi :
  ∃ r, resolve_fuel (S (length (db_scan d "m/" None None))) d s ∅ lo hi = Some r
    ∧ resolve_history d s lo hi = r
    ∧ ∀ fuel r', resolve_fuel fuel d s ∅ lo hi = Some r' → r' = r.
Proof.
  destruct (resolve_total d s ∅ lo hi) as [r Hr]. exists r. split_and!; [done|..].
  - unfold resolve_history. by rewrite Hr.
  - intros fuel r' Hr'. rewrite <-(resolve_history_fuel d fuel s lo hi r' Hr').
    by apply (resolve_history_fuel d _ s lo hi r Hr).
Qed.

(** ** Pages *)

Lemma read_from d s from :
  wf d → slash_free s → key_lim from →
  read_events d s (Included from, Unbounded) = Ok (from_parts <$> within from None (vis d s)).
Proof. intros Hwf Hs Hf. apply (own_read d s from None); [apply Hwf|done..]. Qed.

Lemma vis_sorted d s : shaped d → slash_free s → StronglySorted version_lt (vis d s).
Proof. intros Hsh Hs. by apply StronglySorted_filter, log_sorted. Qed.

Lemma vis_num d s e : shaped d → slash_free s → e ∈ vis d s → key_num (env_version e).
Proof. intros Hsh Hs [_ He]%list_elem_of_filter. by apply log_elem in He as [? _]. Qed.

(** What is left after a page starts at its cursor. *)
Lemma within_after from l t e rest :
  StronglySorted version_lt l → within from None l = t ++ [e] ++ rest →
  within (env_version e + 1) None l = rest.
Proof.
  intros Hs E.
  assert (StronglySorted version_lt (t ++ [e] ++ rest)) as Hs'.
  { rewrite <-E. by apply StronglySorted_filter. }
  assert (within (env_version e + 1) None l = within (env_version e + 1) None (within from None l)) as ->.
  { unfold within. rewrite list_filter_filter. apply filter_ext_in. intros x _.
    unfold in_window. simpl. rewrite !andb_true_r, !Z.leb_le.
    assert (e ∈ within from None l) as [He _]%list_elem_of_filter by (rewrite E; set_solver).
    unfold in_window in He. simpl in He. rewrite andb_true_r, Z.leb_le in He. lia. }
  rewrite E. unfold within. rewrite filter_app, filter_none, filter_app, (filter_none _ [e]).
  - simpl. apply filter_all. intros x Hx.
    assert (version_lt e x) as Hlt.
    { apply (StronglySorted_app_1_elem_of version_lt (t ++ [e]) rest); [by rewrite <-app_assoc| |done].
      set_solver. }
    unfold version_lt in Hlt. unfold in_window. simpl. rewrite andb_true_r. apply Z.leb_le. lia.
  - intros x ->%list_elem_of_singleton. unfold in_window. simpl. rewrite andb_true_r, Z.leb_le. lia.
  - intros x Hx. assert (version_lt x e) as Hlt.
    { apply (StronglySorted_app_1_elem_of version_lt t ([e] ++ rest)); [done..|]. set_solver. }
    unfold version_lt in Hlt. unfold in_window. simpl. rewrite andb_true_r, Z.leb_le. lia.
Qed.

Lemma fmap_split {A B} (f : A → B) l t r :
  f <$> l = t ++ r → ∃ t' r', l = t' ++ r' ∧ t = f <$> t' ∧ r = f <$> r'.
Proof. intros E. apply fmap_app_inv in E as (t' & r' & -> & -> & ->). eauto. Qed.

Lemma read_pages_all fuel d s from limit :
  wf d → slash_free s → key_lim from → (length (within from None (vis d s)) < fuel)%nat →
  read_pages fuel d s from limit = Some (Ok (from_parts <$> within from None (vis d s))).
Proof.
  intros Hwf Hs. revert from. induction fuel as [|fuel IH]; intros from Hf Hfuel; [lia|].
  cbn [read_pages]. unfold read_page. rewrite read_from by done. cbn [rbind].
  set (l := within from None (vis d s)) in *.
  destruct (page_loop_split limit [] 0 (from_parts <$> l)) as (taken & rest & Hsplit & -> & Hne).
  cbn [app]. destruct (decide (rest = [])) as [-> |Hrest].
  { rewrite bool_decide_eq_true_2 by done. by rewrite Hsplit, app_nil_r. }
  rewrite bool_decide_eq_false_2 by done.
  destruct taken as [|x taken' _] using rev_ind.
  { exfalso. apply (Hne eq_refl); [|done]. rewrite Hsplit. simpl. by destruct rest. }
  rewrite last_snoc. simpl. rewrite <-app_assoc in Hsplit.
  apply fmap_split in Hsplit as (t & r & Hl & -> & Hr).
  destruct r as [|e r]; [by simpl in Hr|]. injection Hr as -> ->. simpl.
  assert (e ∈ vis d s) as Hev.
  { assert (e ∈ l) as He by (rewrite Hl; set_solver). by apply list_elem_of_filter in He as [_ ?]. }
  pose proof (vis_num d s e (wf_shaped _ Hwf) Hs Hev) as Hnum.
  assert (u64_add (env_version e) 1 = env_version e + 1) as -> by (unfold key_num in Hnum; u64_norm; done).
  assert (within (env_version e + 1) None (vis d s) = r) as Hwr.
  { eapply within_after; [apply vis_sorted; [apply Hwf|done]|exact Hl]. }
  rewrite IH; [|unfold key_num, key_lim in *; lia|].
  - simpl. rewrite Hwr. do 2 f_equal. rewrite Hl. by rewrite <-app_assoc, fmap_app.
  - rewrite Hwr. rewrite Hl, length_app in Hfuel. simpl in Hfuel. lia.
Qed.

(** A reader that follows [read_page]'s cursors until there is none gets
    every visible event from its starting version exactly once and in order,
    whatever the limits: no page is empty before the end, so one page per
    event is always enough. *)
Theorem paging_complete fuel d s from limit :
  wf d → slash_free s → key_lim from → (length (within from None (vis d s)) < fuel)%nat →
  read_pages fuel d s from limit = Some (read_stream d s (Included from, Unbounded)).
Proof.
  intros Hwf Hs Hf Hfuel. unfold read_stream. rewrite read_from by done. by apply read_pages_all.
Qed.

(** C40: a page respects its limits: at most [max_count] events and
    [max_bytes] payload bytes, except that a page always carries its first
    event; and it is a prefix of what a plain read returns. *)
Theorem read_page_limits d s from limit page cursor :
  read_page d s from limit = Ok (page, cursor) →
  Z.of_nat (length page) ≤ Z.max 1 (max_count limit)
  ∧ (page_bytes page ≤ max_bytes limit ∨ (length page ≤ 1)%nat)
  ∧ ∃ rest, read_stream d s (Included from, Unbounded) = Ok (page ++ rest)
    ∧ (cursor = None ↔ rest = []).
Proof.
  unfold read_page, read_stream. destruct (read_events d s _) as [evs|]; [|done]. cbn [rbind].
  destruct (page_loop limit [] 0 evs) as [out drained] eqn:El. intros [= <- <-].
  destruct (page_loop_limits limit [] 0 evs out drained) as [Hc Hb]; [done|done|simpl; lia|right; simpl; lia|].
  destruct (page_loop_split limit [] 0 evs) as (taken & rest & -> & El' & Hne).
  rewrite El' in El. injection El as <- <-. cbn [app] in *. split_and!; [done..|].
  exists rest. split; [done|]. destruct (decide (rest = [])) as [-> |Hr].
  - by rewrite bool_decide_eq_true_2.
  - rewrite bool_decide_eq_false_2 by done. split; [|done].
    destruct taken as [|x t _] using rev_ind.
    + exfalso. apply Hne; [done| |done]. simpl. by destruct rest.
    + by rewrite last_snoc.
Qed.

(** [read_tail] with [n] returns the visible events among the last [n]
    versions of the stream. *)
Theorem read_tail_last d s n :
  wf d → slash_free s → 0 ≤ n →
  ∃ tl, tail d s = Ok tl ∧ read_tail d s n =
    Ok (from_parts <$> filter (λ e, map_or 0 (λ t, tail_version t) tl < env_version e + n) (vis d s)).
Proof.
  intros Hwf Hs Hn. destruct (tail_shaped d s (wf_shaped _ Hwf) Hs) as (tl & Htl & Hok).
  exists tl. split; [done|]. unfold read_tail. rewrite Htl. cbn [rbind].
  destruct tl as [t|].
  - destruct Hok as [Hv _]. unfold saturating_sub. unfold key_num in Hv. u64_norm.
    rewrite read_from; [|done|done|unfold key_lim; lia]. do 2 f_equal. apply filter_ext_in.
    intros e He. apply (vis_num d s e (wf_shaped _ Hwf) Hs) in He as [He _].
    unfold in_window. simpl. rewrite andb_true_r, Z.leb_le. lia.
  - assert (vis d s = []) as ->; [|done]. apply filter_none. intros e He. exfalso.
    apply log_elem in He as [Hv Hst]; [|apply Hwf|done].
    destruct (wf_records _ Hwf s _ _ Hs Hv Hst) as (t & Ht & _). congruence.
Qed.
End reads.

(** ** Instances *)

Import Samples.

Lemma reachable_d1 : reachable d1.
Proof.
  eapply (reach_append (orc 0) quiet "a" NoStream None None [ev1; ev2] true mem_empty);
    [reflexivity|apply orc_ok| |reflexivity|].
  - intros k. rewrite drift_quiet. apply reach_empty. reflexivity.
  - intros tk Htk. assert (tk = mkTicket (mkInfo 0 1 1) 1) as ->.
    { apply (f_equal (λ r, match r with Ok t => t | Err _ => tk end)) in Htk.
      rewrite <-Htk. vm_compute. reflexivity. }
    split; small.
Qed.

Lemma reachable_wf_witness : wf d2.
Proof.
  apply reachable_wf. eapply (reach_fork (λ d, d) "a" 0 "b" d1);
    [reflexivity|reflexivity|lia|apply reachable_d1|apply reachable_d1|apply surjective_pairing].
Defined.

(** The bounds of a concrete range. *)
Ltac range_small := split; [small|first [exact I|small]].

Lemma read_stream_filters_witness :
  read_stream d1 "a" (Included 1, Unbounded) =
    Ok (from_parts <$> filter (λ e, in_window 1 None e = true ∧ visible d1 "a" e = true) (log d1 "a"))
  ∧ length (log d1 "a") = 2%nat.
Proof.
  split; [|run]. apply (read_stream_filters d1 "a" (Included 1, Unbounded));
    [apply d1_wf|reflexivity|range_small].
Defined.

Lemma read_history_filters_witness :
  ∃ l, hist d2 "b" l ∧ (∀ l', hist d2 "b" l' → l' = l)
    ∧ ∀ range, range_ok range →
        read_history d2 "b" range = Ok (from_parts <$> within (bounds range).1 (bounds range).2 l).
Proof. apply (read_history_filters d2 "b"); [apply d2_wf|reflexivity]. Defined.

Lemma resolve_history_terminates_witness :
  ∃ r, resolve_fuel (S (length (db_scan d2 "m/" None None))) d2 "b" ∅ 0 None = Some r
    ∧ resolve_history d2 "b" 0 None = r
    ∧ ∀ fuel r', resolve_fuel fuel d2 "b" ∅ 0 None = Some r' → r' = r.
Proof. apply (resolve_history_terminates d2 "b" 0 None). Defined.

Lemma paging_complete_witness :
  read_pages 3 d1 "a" 0 (mkLimit 1 0) = Some (read_stream d1 "a" (Included 0, Unbounded)).
Proof.
  apply (paging_complete 3 d1 "a" 0 (mkLimit 1 0)); [apply d1_wf|reflexivity|small|].
  vm_compute. lia.
Defined.

Definition page0 : list Event * option Version :=
  match read_page d1 "a" 0 (mkLimit 1 0) with Ok p => p | Err _ => ([], None) end.

Lemma read_page_limits_witness :
  Z.of_nat (length page0.1) ≤ Z.max 1 1
  ∧ (page_bytes page0.1 ≤ 0 ∨ (length page0.1 ≤ 1)%nat)
  ∧ ∃ rest, read_stream d1 "a" (Included 0, Unbounded) = Ok (page0.1 ++ rest)
    ∧ (page0.2 = None ↔ rest = []).
Proof. apply (read_page_limits d1 "a" 0 (mkLimit 1 0)). run. Defined.

Lemma read_tail_last_witness :
  ∃ tl, tail d1 "a" = Ok tl ∧ read_tail d1 "a" 1 =
    Ok (from_parts <$> filter (λ e, map_or 0 (λ t, tail_version t) tl < env_version e + 1) (vis d1 "a")).
Proof. apply (read_tail_last d1 "a" 1); [apply d1_wf|reflexivity|lia]. Defined.
