(* ===== verification/ForkThms.v ===== *)
(** * Theorems about forks and retention

    What a fork sees, and what appends, trims, purges and deletions do to the
    histories of other streams. *)

From S2P Require Import Prelude Text Slate Types Keys Kv Fork Store Batch Append Wf Commit.
From S2P Require Import Appended Ops Purge History Txn Invariant Samples.
Local Open Scope Z_scope.

Section ancestors.
Context `{SlateDb} `{Codecs}.

(** [ancestor d s a]: [a] is [s] or a stream its history goes through. *)
Inductive ancestor (d : db) : string → string → Prop :=
| anc_self s : ancestor d s s
| anc_parent s f a :
    fork_ref d s = Ok (Some f) → ancestor d (fr_stream f) a → ancestor d s a.
End ancestors.

(** A history up to a version, or all of it. *)
Definition cut (v : option Version) (l : list Envelope) : list Envelope := map_or l (λ v, upto v l) v.

Lemma cut_app v l1 l2 : cut v (l1 ++ l2) = cut v l1 ++ cut v l2.
Proof. destruct v; simpl; [|done]. apply filter_app. Qed.

Lemma upto_app v l1 l2 : upto v (l1 ++ l2) = upto v l1 ++ upto v l2.
Proof. apply filter_app. Qed.

Lemma upto_none v l : (∀ e, e ∈ l → v < env_version e) → upto v l = [].
Proof. intros Hl. apply filter_none. intros e He. specialize (Hl e He). lia. Qed.

Section transfer.
Context `{SlateDbLaws} `{CodecLaws}.

(** Two stores whose fork references agree along a chain and whose visible
    records agree up to each fork point have the same history. *)
Lemma hist_cut d d' s l l' v :
  hist d s l → hist d' s l' →
  (∀ a, ancestor d s a → fork_ref d' a = fork_ref d a) →
  (∀ x f, ancestor d s x → fork_ref d x = Ok (Some f) →
     upto (fr_at_version f) (vis d' (fr_stream f)) = upto (fr_at_version f) (vis d (fr_stream f))) →
  cut v (vis d' s) = cut v (vis d s) → cut v l' = cut v l.
Proof.
  intros Hl. revert l' v. induction Hl as [s Hf|s f l Hf Hl IH]; intros l' v Hl' Hrefs Hedges Hown;
    pose proof (Hrefs s (anc_self _ s)) as Hrs; rewrite Hf in Hrs;
    inversion Hl' as [? Hf'|? f' l0 Hf' Hl0]; subst; rewrite Hrs in Hf'; try done.
  injection Hf' as <-.
  rewrite !cut_app, Hown. f_equal. f_equal.
  apply (IH l0 (Some (fr_at_version f)) Hl0).
  - intros a Ha. apply Hrefs. by eapply anc_parent.
  - intros x g Hx. apply Hedges. by eapply anc_parent.
  - apply (Hedges s f); [apply anc_self|done].
Qed.

Lemma hist_same d d' s l :
  wf d' → slash_free s → hist d s l →
  (∀ a, ancestor d s a → fork_ref d' a = fork_ref d a) →
  (∀ x f, ancestor d s x → fork_ref d x = Ok (Some f) →
     upto (fr_at_version f) (vis d' (fr_stream f)) = upto (fr_at_version f) (vis d (fr_stream f))) →
  vis d' s = vis d s → hist d' s l.
Proof.
  intros Hwf Hs Hl Hr He Ho. destruct (hist_exists d' s Hwf Hs) as [l' Hl'].
  pose proof (hist_cut d d' s l l' None Hl Hl' Hr He Ho) as E. simpl in E. by rewrite <-E.
Qed.

Lemma ancestor_slash_free d s a : shaped d → slash_free s → ancestor d s a → slash_free a.
Proof.
  intros Hsh Hs Ha. induction Ha as [s|s f a Hf Ha IH]; [done|]. apply IH.
  by apply (forks_from_shaped d s f Hsh (conj Hs Hf)).
Qed.

Lemma ancestor_edge d s x f :
  shaped d → slash_free s → ancestor d s x → fork_ref d x = Ok (Some f) → forks_from d x f.
Proof. intros Hsh Hs Hx Hf. split; [by eapply ancestor_slash_free|done]. Qed.

(** ** Visibility *)

(** A stream that is not deleted does not depend on its pins. *)
Lemma visible_live d1 d2 s e :
  shaped d1 → shaped d2 → slash_free s → is_deleted d1 s = false → is_deleted d2 s = false →
  db_get d1 (m_key s "trim") = db_get d2 (m_key s "trim") →
  (∀ v, key_num v → db_get d1 (render (KRollback s v)) = db_get d2 (render (KRollback s v))) →
  visible d1 s e = visible d2 s e.
Proof.
  intros Hsh1 Hsh2 Hs D1 D2 Ht Hr. unfold visible, floor_of, get_be. rewrite D1, D2, Ht. simpl.
  assert (windows d1 s = windows d2 s) as ->; [|done].
  unfold windows. rewrite (scan_ext d1 d2); [done..|].
  intros K suf HK E. destruct (rollback_family K s suf HK Hs E) as (v & -> & _). apply Hr, HK.
Qed.

Lemma same_guards_keys d1 d2 s :
  slash_free s →
  (∀ k, key_ok k → (∀ x, k ≠ KTrim x) → side_key k ∨ (∃ c, k = KPin s c) →
     db_get d1 (render k) = db_get d2 (render k)) →
  same_guards d1 d2 s.
Proof.
  intros Hs Heq. split.
  - intros c Hc. rewrite render_deleted. apply Heq; [done..|by left].
  - intros c Hc. apply Heq; [done..|right; eauto].
  - intros v Hv. apply Heq; [done..|by left].
Qed.

(** ** Appends *)

Section append.
Context (cur d' : db) (o : Oracle) (sq : Z) (s : string) (expd : ExpectedVersion)
  (tok : option string) (evs : list NewEvent) (idx : bool) (info : CommitInfo).
Context (Hwf : wf cur) (Hs : slash_free s) (Ho : oracle_ok o) (Hb : check_batch evs = Ok tt)
  (Heff : takes_effect cur d' o sq s expd None tok evs idx info) (Hfits : fits info).

Lemma append_facts : ∃ tl envs,
  wf d' ∧ tail cur s = Ok tl ∧ log d' s = log cur s ++ envs ∧ appended cur d' s envs
  ∧ (∀ e, e ∈ envs → map_or (-1) tail_version tl < env_version e).
Proof.
  destruct Hfits as [Hf Hl].
  destruct (effect_batch cur d' o sq s expd None tok evs idx info Hwf Hs Ho Hb Heff Hf Hl)
    as (tl & envs & Htl & Htok & _ & _ & Hne & Hfst & Hlst & Hbo & _ & _ & _ & _ & Hlog & _ & Hap).
  exists tl, envs. split_and!; [|done|by apply Hlog|done|].
  - by eapply (effect_wf cur d' o sq s).
  - intros e He. pose proof (batch_of_range _ _ _ _ _ Hbo He) as Hr. rewrite Hfst in Hr.
    unfold first_of in Hr. destruct tl as [t|]; simpl in *; [|lia].
    destruct Htok as [Hv _]. unfold key_num in Hv. u64_norm. lia.
Qed.

Lemma append_guards envs x : appended cur d' s envs → slash_free x → same_guards cur d' x.
Proof.
  intros Hap Hx. split; intros; rewrite ?render_deleted; symmetry; by apply (ap_untouched _ _ _ _ Hap).
Qed.

Lemma append_trim envs x : appended cur d' s envs → slash_free x →
  db_get cur (m_key x "trim") = db_get d' (m_key x "trim").
Proof. intros Hap Hx. rewrite render_trim. symmetry. by apply (ap_untouched _ _ _ _ Hap). Qed.

Lemma append_hist_other x l :
  slash_free x → x ≠ s → hist cur x l → hist d' x l.
Proof.
  intros Hx Hne Hl. destruct append_facts as (tl & envs & Hwf' & Htl & Hlog & Hap & Hpast).
  pose proof (wf_shaped _ Hwf) as Hsh. pose proof (wf_shaped _ Hwf') as Hsh'.
  assert (∀ a, slash_free a → a ≠ s → vis d' a = vis cur a) as Hvis.
  { intros a Ha Hn. symmetry. apply vis_ext; [done..|by eapply append_guards|by eapply append_trim|].
    symmetry. by apply (ap_log_other _ _ _ _ Hap). }
  apply (hist_same cur); [done..| | |by apply Hvis].
  - intros a Ha%(ancestor_slash_free _ _ _ Hsh Hx). unfold fork_ref, get_json. rewrite render_fork.
    by rewrite (ap_untouched _ _ _ _ Hap).
  - intros y f Hy Hf. pose proof (ancestor_edge _ _ _ _ Hsh Hx Hy Hf) as Hff.
    destruct (forks_from_shaped _ _ _ Hsh Hff) as [Hps _].
    destruct (decide (fr_stream f = s)) as [Heq|Hn]; [|by rewrite Hvis].
    destruct (wf_forks _ Hwf y f Hff) as (_ & (t & Ht & Hle) & _). rewrite Heq in *.
    rewrite Htl in Ht. injection Ht as ->. simpl in Hpast.
    assert (vis d' s = vis cur s ++ filter (λ e, visible d' s e = true) envs) as ->.
    { unfold vis. rewrite Hlog, filter_app. f_equal. apply filter_ext_in. intros e _.
      by rewrite <-(visible_ext cur d') by (done || by eapply append_guards || by eapply append_trim). }
    rewrite upto_app, (upto_none _ (filter _ _)), app_nil_r; [done|].
    intros e [_ He]%list_elem_of_filter. specialize (Hpast e He). lia.
Qed.
End append.

(** C7: an append to a stream changes no other stream's history: not those of
    its forks, which stop at their fork points, and not its parent's. *)
Theorem append_isolated o interf s expd tok evs idx d tk d' :
  slash_free s → (∀ n, oracle_ok (o n)) → (∀ k, wf (drift interf 0 k d)) →
  commit_appends o interf s expd None tok evs idx d = (Ok tk, d') → fits (ticket_info tk) →
  ∃ k, (k ≤ COMMIT_RETRIES)%nat ∧ ∀ x l, slash_free x → x ≠ s →
    (hist (drift interf 0 (S k) d) x l ↔ hist d' x l).
Proof.
  intros Hs Ho Hwf E Hfits. destruct (check_batch evs) as [[]|e] eqn:Eb.
  2: { unfold commit_appends in E. by rewrite Eb in E. }
  destruct (commit_appends_spec o interf s expd None tok evs idx d Eb) as (k & Hk & Hout).
  rewrite E in Hout. cbn [fst snd] in Hout. destruct Hout as (Heff & _). exists k. split; [done|].
  intros x l Hx Hne.
  assert (∀ l, hist (drift interf 0 (S k) d) x l → hist d' x l) as Hfwd.
  { intros l0. by eapply (append_hist_other _ d' _ _ s); [apply (Hwf (S k))|..]. }
  split; [apply Hfwd|]. intros Hl. destruct (hist_exists _ x (Hwf (S k)) Hx) as [l0 Hl0].
  by rewrite (hist_unique _ _ _ _ Hl (Hfwd _ Hl0)).
Qed.

(** ** Forks *)

Section fork.
Context (d : db) (p c : string) (v : Version) (pt : TailRecord).
Context (Hwf : wf d) (Hp : slash_free p) (Hc : slash_free c) (Hv : 0 ≤ v ≤ tail_version pt)
  (Hpt : tail d p = Ok (Some pt)) (Hct : tail d c = Ok None).

Let d' := db_apply d (render_ws (fork_kws p v c (tail_ts_ms pt))).

Lemma fork_shaped' : shaped d'.
Proof. apply shaped_batch; [apply Hwf|by apply (fork_batch_ok d)]. Qed.

Lemma fork_log s : slash_free s → log d' s = log d s.
Proof.
  intros Hs. apply log_ext; [apply fork_shaped'|apply Hwf|done|].
  intros w Hw. by apply (fork_stored d p c v pt).
Qed.

Lemma fork_vis s : slash_free s → s ≠ p ∨ is_deleted d p = false → vis d' s = vis d s.
Proof.
  intros Hs Hor. pose proof (wf_shaped _ Hwf) as Hsh. pose proof fork_shaped' as Hsh'.
  assert (∀ k, key_ok k → side_key k → db_get d' (render k) = db_get d (render k)) as Hside.
  { intros k Hk Hsk. by apply (fork_get_other d p c v pt); [done..|intros <-|intros <-|intros <-]. }
  destruct (decide (s = p)) as [-> |Hne].
  - unfold vis. rewrite fork_log by done. apply filter_ext_in. intros e _.
    destruct Hor as [?|Hdel]; [done|].
    rewrite (visible_live d' d); [done|done|done|done| |done|..].
    + unfold is_deleted in *. by rewrite render_deleted, Hside in *.
    + rewrite render_trim. by apply Hside.
    + intros w Hw. by apply Hside.
  - apply vis_ext; [done..| |rewrite render_trim; by apply Hside|by apply fork_log].
    apply same_guards_keys; [done|]. intros k Hk _ [Hsk | (c' & ->)]; [by apply Hside|].
    apply (fork_get_other d p c v pt); [done..|congruence|done|done].
Qed.

Lemma fork_child_log : log d' c = [].
Proof.
  rewrite fork_log by done. destruct (log d c) as [|e l] eqn:E; [done|]. exfalso.
  assert (e ∈ log d c) as He by (rewrite E; by left).
  apply log_elem in He as [Hvn Hst]; [|apply Hwf|done].
  destruct (wf_records _ Hwf c _ _ Hc Hvn Hst) as (t & Ht & _). congruence.
Qed.

Lemma fork_no_ancestor s a : slash_free s → s ≠ c → ancestor d s a → a ≠ c.
Proof.
  intros Hs Hne Ha. revert Hs Hne. induction Ha as [s|s f a Hf Ha IH]; intros Hs Hne; [done|].
  pose proof (conj Hs Hf : forks_from d s f) as Hff. apply IH.
  - by apply (forks_from_shaped d s f (wf_shaped _ Hwf)).
  - by destruct (fork_fresh d c Hwf Hct s f Hff).
Qed.

Lemma fork_hist_other s l :
  is_deleted d p = false → slash_free s → s ≠ c → hist d s l → hist d' s l.
Proof.
  intros Hdel Hs Hne Hl. pose proof (fork_wf d p c v pt Hwf Hp Hc Hv Hpt Hct) as Hwf'.
  pose proof (wf_shaped _ Hwf) as Hsh.
  apply (hist_same d); [done..| | |by apply fork_vis; [|right]].
  - intros a Ha. apply (fork_ref_other d p c v pt); [done..|by eapply ancestor_slash_free|].
    by eapply fork_no_ancestor.
  - intros x f Hx Hf. rewrite fork_vis; [done| |by right].
    by apply (forks_from_shaped d x f Hsh), (ancestor_edge d s x f).
Qed.

Lemma fork_hist_child l : hist d' p l → hist d' c (upto v l).
Proof.
  intros Hl. rewrite <-(app_nil_r (upto v l)).
  replace (@nil Envelope) with (vis d' c) by (unfold vis; by rewrite fork_child_log).
  apply (hist_fork d' c {| fr_stream := p; fr_at_version := v |} l); [|done].
  by apply (fork_ref_child d p c v pt).
Qed.
End fork.

(** C6: a fork is exact and copies nothing: the child's history is the
    parent's up to the fork point, its tail is the fork point, no other
    stream's history changes (the parent not being deleted), and however long
    the history, the store differs at most at three keys: the parent's pin for
    the child, the child's tail and the child's reference to the parent. *)
Theorem fork_shares_history interf p v c d d' l :
  slash_free p → slash_free c → 0 ≤ v → wf (interf d) → is_deleted (interf d) p = false →
  fork interf p v c d = (Ok tt, d') → hist (interf d) p l →
  hist d' c (upto v l) ∧ stream_version d' c = Ok (Some v)
  ∧ (∀ x lx, slash_free x → x ≠ c → hist (interf d) x lx → hist d' x lx)
  ∧ ∀ k, k ∉ render <$> [KFork c; KTail c; KPin p c] → db_get d' k = db_get (interf d) k.
Proof.
  intros Hp Hc Hv Hwf Hdel E Hl. apply fork_Ok in E as (ws & Hplan & Hd').
  apply fork_plan_inv in Hplan as (pt & Hpt & Hle & Hct & ->).
  assert (p ≠ c) as Hpc by (intros ->; congruence).
  split_and!.
  - rewrite Hd'. apply (fork_hist_child (interf d) p c v pt); try done. by apply fork_hist_other.
  - unfold stream_version. rewrite (tail_proper _ _ Hd' c c eq_refl). by rewrite (fork_tail_child (interf d) p c v pt).
  - intros x lx Hx Hne Hlx. rewrite Hd'. by apply fork_hist_other.
  - intros k Hk. rewrite (Hd' k), db_get_apply. by rewrite (proj2 (last_write_None (render_ws (fork_kws p v c (tail_ts_ms pt))) k)).
Qed.
End transfer.
