(* ===== verification/RetentionThms.v ===== *)
(** * Theorems about retention

    Logical trims, physical purges, deletions, and what they leave to live
    forks. *)

From S2P Require Import Prelude Text Slate Types Keys Kv Fork Store Batch Append Wf Commit.
From S2P Require Import Appended Ops Purge History Txn Invariant Samples ForkThms.
Local Open Scope Z_scope.

(** A version inside the range a purge deletes. *)
Definition purged (lo hi : Version) (e : Envelope) : bool := in_window lo (Some hi) e.
#[global] Typeclasses Opaque purged.

Section retention.
Context `{SlateDbLaws} `{CodecLaws}.

(** ** Ceilings *)

(** At or below the highest pin of a live fork. *)
Definition pinned (d : db) (s : string) (e : Envelope) : bool :=
  map_or false (λ c, env_version e <=? c) (ceiling d s).
#[global] Typeclasses Opaque pinned.

Lemma ceiling_fold_ge d l acc k b :
  (k, b) ∈ l ∧ is_deleted d (pin_child k) = false ∨ is_Some acc →
  ∃ m, fold_left (ceiling_step d) l acc = Some m
    ∧ ((k, b) ∈ l → is_deleted d (pin_child k) = false → from_be_bytes b ≤ m)
    ∧ (∀ a, acc = Some a → a ≤ m).
Proof.
  revert acc. induction l as [|[k' b'] l IH]; intros acc Hor; simpl.
  { destruct Hor as [[Hin _] | [a ->]]; [by apply not_elem_of_nil in Hin|].
    exists a. split_and!; [done| |by intros ? [= <-]]. intros Hin. by apply not_elem_of_nil in Hin. }
  destruct (IH (ceiling_step d acc (k', b'))) as (m & -> & Hm1 & Hm2).
  { unfold ceiling_step. cbn [fst snd]. destruct Hor as [[[[= -> ->] | Hin]%elem_of_cons Hd] | [a ->]].
    - right. rewrite Hd. eauto.
    - left. eauto.
    - right. destruct (is_deleted d (pin_child k')); eauto. }
  exists m. split_and!; [done|..].
  - intros [[= -> ->] | Hin]%elem_of_cons Hd; [|by apply Hm1].
    unfold ceiling_step in Hm2. cbn [fst snd] in Hm2. rewrite Hd in Hm2.
    specialize (Hm2 _ eq_refl). destruct acc; simpl in Hm2; lia.
  - intros a ->. unfold ceiling_step in Hm2. cbn [fst snd] in Hm2.
    destruct (is_deleted d (pin_child k')); specialize (Hm2 _ eq_refl); simpl in *; lia.
Qed.

(** The pin of a live fork is below the ceiling of its parent. *)
Lemma ceiling_live d c f :
  wf d → forks_from d c f → is_deleted d c = false →
  ∃ m, ceiling d (fr_stream f) = Some m ∧ fr_at_version f ≤ m.
Proof.
  intros Hwf Hff Hd. pose proof (forks_from_shaped d c f (wf_shaped _ Hwf) Hff) as [Hp Hat].
  destruct (wf_forks _ Hwf c f Hff) as (_ & _ & Hg). destruct Hff as [Hc _].
  set (k := m_key (fr_stream f) ("forks/" +:+ c)) in Hg.
  assert (k = m_key (fr_stream f) "forks/" +:+ c) as Hk.
  { unfold k, m_key. by rewrite !str_app_assoc. }
  assert ((k, to_be_bytes (fr_at_version f)) ∈ db_scan d (m_key (fr_stream f) "forks/") None None) as Hin.
  { apply db_scan_elem. split; [done|]. exists c. done. }
  assert (is_deleted d (pin_child k) = false) as Hd' by by rewrite Hk, pin_child_render.
  destruct (ceiling_fold_ge d _ None k (to_be_bytes (fr_at_version f)) ltac:(left; eauto)) as (m & Em & Hm & _).
  exists m. split; [exact Em|]. specialize (Hm Hin Hd').
  rewrite from_to_be_bytes in Hm; [done|]. by apply key_lim_u64, key_num_lim.
Qed.

(** ** Purges *)

Section purge.
Context (d : db) (s : string) (floor : Version).
Context (Hwf : wf d) (Hs : slash_free s) (Hfl : key_lim floor).
Let lo := pin_floor d s.
Context (d' : db) (Hw : without d d' (range_keys d s lo floor)).

Lemma purge_lo_lim : key_lim lo.
Proof. apply pin_floor_lim; [apply Hwf|done]. Qed.

Lemma purge_wf : wf d'.
Proof.
  apply (wf_without d d' _ Hwf Hw). intros k Hk.
  destruct (range_key_version _ _ _ _ _ (wf_shaped _ Hwf) Hs purge_lo_lim Hfl Hk) as (v & -> & Hv & _). eauto.
Qed.

Lemma purge_get k : key_ok k → (∀ v, k ≠ KRec s v) → db_get d' (render k) = db_get d (render k).
Proof.
  intros Hk Hn. rewrite (Hw _). case_decide as Hin; [|done].
  destruct (range_key_version _ _ _ _ _ (wf_shaped _ Hwf) Hs purge_lo_lim Hfl Hin) as (v & E & Hv & _).
  rewrite render_rec in E. apply render_inj in E; [|done|by split]. by destruct (Hn v).
Qed.

Lemma purge_stored v : key_num v →
  stored d' s v = if bool_decide (lo ≤ v < floor) then None else stored d s v.
Proof.
  intros Hv. pose proof (wf_shaped _ Hwf) as Hsh. pose proof purge_lo_lim as Hlo.
  unfold stored. rewrite (Hw _). case_decide as Hin.
  - destruct (range_key_version _ _ _ _ _ Hsh Hs Hlo Hfl Hin) as (w & E & Hwn & Hr).
    rewrite !render_rec in E. apply render_inj in E as [= <-]; [|by split..].
    by rewrite bool_decide_eq_true_2.
  - case_bool_decide as Hr; [|done].
    destruct (db_get d (r_key s v)) as [b|] eqn:Hg; [|done]. exfalso. apply Hin.
    apply list_elem_of_fmap. exists (r_key s v, b). split; [done|]. apply db_scan_elem.
    split; [done|]. exists (fmt016 v). split; [unfold r_key, r_prefix; by rewrite !str_app_assoc|].
    pose proof (key_num_lim v Hv).
    split; [rewrite fmt016_leb by done; apply Z.leb_le|rewrite fmt016_ltb by done; apply Z.ltb_lt]; lia.
Qed.

Lemma purge_log : log d' s = filter (λ e, purged lo floor e = false) (log d s).
Proof.
  pose proof (wf_shaped _ Hwf) as Hsh. pose proof (wf_shaped _ purge_wf) as Hsh'.
  apply log_unique; [done..|by apply StronglySorted_filter, log_sorted|].
  intros e. rewrite list_elem_of_filter, log_elem by done.
  assert (purged lo floor e = false ↔ ¬ (lo ≤ env_version e < floor)) as Hp.
  { unfold purged, in_window. simpl. rewrite andb_false_iff, Z.leb_gt, Z.ltb_ge. lia. }
  split.
  - intros (Hr%Hp & Hv & Hst). split; [done|]. rewrite purge_stored by done.
    by rewrite bool_decide_eq_false_2.
  - intros [Hv Hst]. rewrite purge_stored in Hst by done. case_bool_decide as Hr; [done|].
    split; [by apply Hp|done].
Qed.

Lemma purge_guards x : slash_free x → same_guards d d' x.
Proof.
  intros Hx. apply same_guards_keys; [done|]. intros k Hk _ Hor. symmetry. apply purge_get; [done|].
  intros v ->. by destruct Hor as [?|(c & ?)].
Qed.

Lemma purge_trim x : slash_free x → db_get d (m_key x "trim") = db_get d' (m_key x "trim").
Proof. intros Hx. rewrite render_trim. symmetry. by apply purge_get. Qed.

Lemma purge_vis_other x : slash_free x → x ≠ s → vis d' x = vis d x.
Proof.
  intros Hx Hne. symmetry. apply vis_ext; [apply Hwf|apply purge_wf|done|by apply purge_guards|by apply purge_trim|].
  apply log_ext; [apply Hwf|apply purge_wf|done|]. intros v Hv. unfold stored. rewrite render_rec.
  rewrite purge_get; [done|done|]. intros w [= ? _]. done.
Qed.

Lemma purge_vis : vis d' s = filter (λ e, purged lo floor e = false) (vis d s).
Proof.
  unfold vis. rewrite purge_log, !list_filter_filter. apply filter_ext_in. intros e _.
  rewrite (visible_ext d d'); [tauto|apply Hwf|apply purge_wf|done|by apply purge_guards|by apply purge_trim].
Qed.

(** Records at or below the pin of a live fork survive. *)
Lemma purge_vis_pinned c f :
  forks_from d c f → fr_stream f = s → is_deleted d c = false →
  upto (fr_at_version f) (vis d' s) = upto (fr_at_version f) (vis d s).
Proof.
  intros Hff Hp Hd. destruct (ceiling_live d c f Hwf Hff Hd) as (m & Em & Hm).
  rewrite Hp in Em. rewrite purge_vis. unfold upto. rewrite list_filter_filter.
  apply filter_ext_in. intros e _. split; [tauto|]. intros Hle. split; [done|].
  unfold purged, in_window. simpl. rewrite andb_false_iff, Z.leb_gt. left.
  unfold lo, pin_floor. rewrite Em. simpl. lia.
Qed.
End purge.

(** C8: [purge_below] ends, deletes exactly the stream's records from one past
    the highest pin of its live forks up to the floor, reports how many they
    were, and touches no other key. *)
Theorem purge_exact d s floor :
  wf d → slash_free s → key_lim floor →
  ∃ d', purge_below s floor d =
      (Ok (Z.of_nat (length (filter (λ e, purged (pin_floor d s) floor e = true) (log d s)))), d')
    ∧ log d' s = filter (λ e, purged (pin_floor d s) floor e = false) (log d s)
    ∧ ∀ k, key_ok k → (∀ v, k ≠ KRec s v) → db_get d' (render k) = db_get d (render k).
Proof.
  intros Hwf Hs Hf. pose proof (wf_shaped _ Hwf) as Hsh. pose proof (pin_floor_lim d s Hsh Hs) as Hlo.
  destruct (purge_below_spec d s floor Hsh Hs Hf) as (d' & -> & Hw). exists d'. split_and!.
  - do 3 f_equal. rewrite range_keys_log by done. by rewrite length_fmap.
  - by apply purge_log.
  - intros k Hk Hn. by apply (purge_get d s floor).
Qed.

(** C9: when no fork of the stream has been deleted, a purge changes no other
    stream's history: what the forks read through their fork points is
    pinned. *)
Theorem purge_keeps_forks d s floor n d' x l :
  wf d → slash_free s → key_lim floor → purge_below s floor d = (Ok n, d') →
  (∀ c f, forks_from d c f → fr_stream f = s → is_deleted d c = false) →
  slash_free x → x ≠ s → hist d x l → hist d' x l.
Proof.
  intros Hwf Hs Hf E Hlive Hx Hne Hl. pose proof (wf_shaped _ Hwf) as Hsh.
  destruct (purge_below_spec d s floor Hsh Hs Hf) as (d0 & E0 & Hw). rewrite E0 in E.
  injection E as _ <-. apply (hist_same d); [by apply (purge_wf d s floor)|done|done|..].
  - intros a Ha%(ancestor_slash_free _ _ _ Hsh Hx). unfold fork_ref, get_json. rewrite render_fork.
    by rewrite (purge_get d s floor).
  - intros y f Hy Hfr. pose proof (ancestor_edge _ _ _ _ Hsh Hx Hy Hfr) as Hff.
    destruct (forks_from_shaped _ _ _ Hsh Hff) as [Hps _].
    destruct (decide (fr_stream f = s)) as [Heq|Hn].
    + rewrite Heq. apply (purge_vis_pinned d s floor Hwf Hs Hf d0 Hw y f Hff Heq). by eapply Hlive.
    + by rewrite (purge_vis_other d s floor Hwf Hs Hf d0 Hw).
  - by apply (purge_vis_other d s floor).
Qed.

(** ** Trims *)

Section trim.
Context (cur : db) (s : string) (fl : Version).
Context (Hwf : wf cur) (Hs : slash_free s) (Hfl : key_lim fl).
Let d1 := db_apply cur (render_ws (trim_below_kws s fl)).

Lemma trim_batch_ok : batch_ok (trim_below_kws s fl).
Proof. apply batch_ok_one; [done|]. simpl. rewrite from_to_be_bytes by by apply key_lim_u64. done. Qed.

Lemma trim_wf : wf d1.
Proof. apply wf_side; [done|apply trim_batch_ok|by repeat constructor]. Qed.

Lemma trim_get k : key_ok k → k ≠ KTrim s → db_get d1 (render k) = db_get cur (render k).
Proof.
  intros Hk Hn. apply get_batch_other; [apply trim_batch_ok|done|].
  intros w ->%list_elem_of_singleton E. by apply Hn.
Qed.

Lemma trim_floor : floor_of d1 s = fl.
Proof.
  unfold floor_of, get_be, d1. rewrite render_trim, get_batch by (done || apply trim_batch_ok).
  unfold trim_below_kws. cbn [klast]. rewrite decide_True by done. simpl.
  apply from_to_be_bytes. by apply key_lim_u64.
Qed.

Lemma trim_log : log d1 s = log cur s.
Proof.
  apply log_ext; [apply trim_wf|apply Hwf|done|]. intros v Hv. unfold stored. rewrite render_rec.
  by rewrite trim_get.
Qed.

Lemma trim_vis : floor_of cur s ≤ fl → vis d1 s = filter (λ e, fl ≤ env_version e) (vis cur s).
Proof.
  intros Hle. unfold vis. rewrite trim_log, list_filter_filter. apply filter_ext_in. intros e _.
  assert (same_guards d1 cur s) as Hg.
  { apply same_guards_keys; [done|]. intros k Hk Hn _. by apply trim_get. }
  rewrite !visible_admitted, (admitted_ext d1 cur), trim_floor by (done || apply trim_wf || apply Hwf).
  rewrite !andb_true_iff, !Z.leb_le. split; [|tauto]. intros [? ?]. split_and!; [done|lia|done].
Qed.
End trim.

(** [trim_below] is logical and monotone: the floor never moves down and
    never past the tail's successor, no record is removed, and readers see
    the records they saw before that lie at or above the new floor. *)
Theorem trim_below_monotone interf s floor d info d' :
  wf d → wf (interf d) → slash_free s → key_lim floor →
  trim_below interf s floor d = (Ok info, d') →
  ∃ tl, tail (interf d) s = Ok tl
    ∧ floor_of d' s = Z.max (floor_of (interf d) s)
                        (Z.min floor (map_or u64_max (λ t, tail_version t + 1) tl))
    ∧ log d' s = log (interf d) s
    ∧ vis d' s = filter (λ e, floor_of d' s ≤ env_version e) (vis (interf d) s).
Proof.
  intros Hwf0 Hwf Hs Hf E. unfold trim_below in E.
  destruct (tail_shaped d s (wf_shaped _ Hwf0) Hs) as (tl & Htl & Hok).
  destruct (run_txn interf (trim_below_body s floor) d) as [r0 d0] eqn:Er.
  injection E as Er0 <-. apply rmap_Ok in Er0 as (a & -> & _).
  destruct (meta_outcome _ _ _ _ _ _ _ _ Er (trim_below_body_eq d s floor tl Htl)) as [[? _] | (h & _ & Hd & Hr)];
    [done|].
  assert (key_lim (new_floor d s tl floor)) as Hfl by by apply new_floor_lim; [apply Hwf0|..].
  assert (floor_of (interf d) s = floor_of d s) as Hfo.
  { unfold floor_of, get_be. rewrite Hr by set_solver. done. }
  assert (floor_of d0 s = new_floor d s tl floor) as Hfl0.
  { rewrite <-(trim_floor (interf d) s _ Hs Hfl). unfold floor_of, get_be. by rewrite (Hd _). }
  exists tl. split_and!.
  - rewrite <-Htl. apply tail_cong, Hr. set_solver.
  - rewrite Hfl0. unfold new_floor. rewrite Hfo. destruct tl as [t|]; simpl; [|lia].
    destruct Hok as [Hv _]. unfold key_num in Hv. u64_norm. lia.
  - rewrite (log_proper _ _ Hd s s eq_refl). by apply trim_log.
  - rewrite (vis_proper _ _ Hd s s eq_refl), Hfl0. apply trim_vis; [done..|].
    unfold new_floor. lia.
Qed.

(** ** Deletion *)

Lemma ancestor_rank d (rank : string → nat) s a :
  shaped d → slash_free s → (∀ s f, forks_from d s f → (rank (fr_stream f) < rank s)%nat) →
  ancestor d s a → (rank a ≤ rank s)%nat.
Proof.
  intros Hsh Hs Hrk Ha. revert Hs. induction Ha as [s|s f a Hf Ha IH]; intros Hs; [done|].
  pose proof (Hrk s f (conj Hs Hf)). destruct (forks_from_shaped d s f Hsh (conj Hs Hf)) as [Hp _].
  specialize (IH Hp). lia.
Qed.

Lemma ancestor_step d s x f :
  ancestor d s x → fork_ref d x = Ok (Some f) → ancestor d s (fr_stream f).
Proof.
  intros Ha. induction Ha as [s|s g a Hg Ha IH]; intros Hf.
  - eapply anc_parent; [done|apply anc_self].
  - eapply anc_parent; [done|]. by apply IH.
Qed.

Section delete.
Context (cur : db) (s : string).
Context (Hwf : wf cur) (Hs : slash_free s).
Let d1 := db_apply cur (render_ws [(KDeleted s, Some [])]).

Lemma delete_wf : wf d1.
Proof. apply wf_side; [done|by apply batch_ok_one|by repeat constructor]. Qed.

Lemma delete_get k : key_ok k → k ≠ KDeleted s → db_get d1 (render k) = db_get cur (render k).
Proof.
  intros Hk Hn. apply get_batch_other; [by apply batch_ok_one|done|].
  intros w ->%list_elem_of_singleton E. by apply Hn.
Qed.

Lemma delete_mark x : slash_free x → is_deleted d1 x = bool_decide (x = s) || is_deleted cur x.
Proof.
  intros Hx. unfold is_deleted. rewrite render_deleted. case_bool_decide as E.
  - subst. unfold d1. rewrite get_batch by (done || by apply batch_ok_one). cbn [klast].
    by rewrite decide_True.
  - rewrite delete_get; [done..|congruence].
Qed.

Lemma delete_log x : slash_free x → log d1 x = log cur x.
Proof.
  intros Hx. apply log_ext; [apply delete_wf|apply Hwf|done|]. intros v Hv. unfold stored.
  by rewrite render_rec, delete_get.
Qed.

(** A stream is not its own fork. *)
Lemma no_self_pin b : db_get cur (render (KPin s s)) ≠ Some b.
Proof.
  intros Hg. rewrite <-render_pin in Hg. destruct (wf_acyclic _ Hwf) as [rank Hrk].
  pose proof (Hrk _ _ (wf_pins _ Hwf s s b Hs Hs Hg)) as Hlt. simpl in Hlt. lia.
Qed.

Lemma delete_ceiling : ceiling d1 s = ceiling cur s.
Proof.
  unfold ceiling. rewrite (scan_ext d1 cur); [|apply delete_wf|apply Hwf|].
  - apply fold_left_ext_in. intros a [k b] Hin.
    destruct (pin_scan cur s k b (wf_shaped _ Hwf) Hs Hin) as (c & Hc & -> & Hpc & Hg & _).
    unfold ceiling_step. cbn [fst snd]. rewrite Hpc, delete_mark by done.
    rewrite bool_decide_eq_false_2; [done|]. intros ->. by apply (no_self_pin b).
  - intros K suf HK E. destruct (pin_family K s suf HK Hs E) as (c & -> & _). by apply delete_get.
Qed.

Lemma delete_windows x : slash_free x → windows d1 x = windows cur x.
Proof.
  intros Hx. unfold windows. rewrite (scan_ext d1 cur); [done|apply delete_wf|apply Hwf|].
  intros K suf HK E. destruct (rollback_family K x suf HK Hx E) as (v & -> & _). by apply delete_get.
Qed.

Lemma delete_floor x : slash_free x → floor_of d1 x = floor_of cur x.
Proof. intros Hx. unfold floor_of, get_be. by rewrite render_trim, delete_get. Qed.

Lemma delete_vis :
  vis d1 s = filter (λ e, pinned cur s e = true) (vis cur s).
Proof.
  unfold vis. rewrite delete_log, list_filter_filter by done. apply filter_ext_in. intros e _.
  rewrite !visible_admitted. unfold admitted, pinned.
  rewrite delete_ceiling, delete_windows, delete_floor, delete_mark, bool_decide_eq_true_2 by done.
  destruct (is_deleted cur s), (ceiling cur s) as [c|]; simpl;
    rewrite ?andb_true_iff, ?Z.leb_le, ?andb_false_r; simpl; intuition congruence.
Qed.

Lemma delete_vis_other x :
  slash_free x → x ≠ s → is_deleted cur x = false → vis d1 x = vis cur x.
Proof.
  intros Hx Hne Hd. unfold vis. rewrite delete_log by done. apply filter_ext_in. intros e _.
  rewrite !visible_admitted. unfold admitted.
  rewrite delete_windows, delete_floor, delete_mark, bool_decide_eq_false_2 by done.
  by rewrite Hd.
Qed.

Lemma delete_hist c f l :
  forks_from cur c f → fr_stream f = s → is_deleted cur c = false →
  (∀ a, ancestor cur s a → a ≠ s → is_deleted cur a = false) →
  hist cur c l → hist d1 c l.
Proof.
  intros Hff Hfs Hdc Hanc Hl. pose proof (wf_shaped _ Hwf) as Hsh.
  destruct (wf_acyclic _ Hwf) as [rank Hrk]. pose proof (Hrk c f Hff) as Hrank. rewrite Hfs in Hrank.
  destruct (ceiling_live cur c f Hwf Hff Hdc) as (m & Em & Hm). rewrite Hfs in Em.
  destruct Hff as [Hc Hfr].
  apply (hist_same cur); [apply delete_wf|done|done|..].
  - intros a Ha%(ancestor_slash_free _ _ _ Hsh Hc). unfold fork_ref, get_json.
    by rewrite render_fork, delete_get.
  - intros x g Hx Hg. assert (x = c ∨ ancestor cur s x) as [-> |Hx'].
    { rewrite <-Hfs. inversion Hx as [|? f' ? Hf' Hx']; [by left|]. right. congruence. }
    + rewrite Hfr in Hg. injection Hg as <-. rewrite Hfs, delete_vis. unfold upto, pinned.
      rewrite Em, list_filter_filter. apply filter_ext_in. intros e _. simpl. rewrite Z.leb_le. lia.
    + pose proof (ancestor_step _ _ _ _ Hx' Hg) as Hg'.
      pose proof (ancestor_slash_free _ _ _ Hsh Hs Hx') as Hxs.
      pose proof (ancestor_rank _ rank _ _ Hsh Hs Hrk Hx') as Hr1.
      pose proof (Hrk x g (conj Hxs Hg)) as Hr2.
      assert (fr_stream g ≠ s) as Hne by (intros E; rewrite E in Hr2; lia).
      rewrite delete_vis_other; [done| |done|by apply Hanc].
      by apply (ancestor_slash_free _ _ _ Hsh Hs Hg').
  - apply delete_vis_other; [done| |done]. intros ->. lia.
Qed.
End delete.

(** Deleting a stream hides its records except those at or below the
    highest pin of a live fork; the records themselves stay. *)
Theorem delete_hides interf s d d' t :
  wf d → wf (interf d) → slash_free s → tail d s = Ok (Some t) →
  delete_stream interf s d = (Ok tt, d') →
  log d' s = log (interf d) s
  ∧ vis d' s = filter (λ e, pinned (interf d) s e = true)
                 (vis (interf d) s).
Proof.
  intros Hwf0 Hwf Hs Ht E.
  destruct (delete_outcome _ _ _ _ _ _ Ht E) as [[_ [[? _]|?]] | (_ & _ & Hd & _)]; [done..|].
  rewrite (log_proper _ _ Hd s s eq_refl), (vis_proper _ _ Hd s s eq_refl).
  split; [by apply delete_log|by apply delete_vis].
Qed.

(** Deleting a stream leaves the history of each of its live forks as it
    was, provided no ancestor of the deleted stream is itself deleted. *)
Theorem delete_keeps_forks interf s d d' c f l :
  wf d → wf (interf d) → slash_free s → delete_stream interf s d = (Ok tt, d') →
  forks_from (interf d) c f → fr_stream f = s → is_deleted (interf d) c = false →
  (∀ a, ancestor (interf d) s a → a ≠ s → is_deleted (interf d) a = false) →
  hist (interf d) c l → hist d' c l.
Proof.
  intros Hwf0 Hwf Hs E Hff Hfs Hdc Hanc Hl.
  destruct (tail_shaped d s (wf_shaped _ Hwf0) Hs) as (tl & Htl & _).
  destruct (delete_outcome _ _ _ _ _ _ Htl E) as [[-> _] | (_ & _ & Hd & _)]; [done|].
  rewrite Hd. exact (delete_hist (interf d) s Hwf Hs c f l Hff Hfs Hdc Hanc Hl).
Qed.
End retention.

(** ** Instances *)

Import Samples.

Lemma d2_hist_a : hist d2 "a" (vis d2 "a").
Proof. apply hist_root. run. Qed.

Lemma d2_hist_b : hist d2 "b" (upto 0 (vis d2 "a") ++ vis d2 "b").
Proof. apply (hist_fork d2 "b" (mkForkRef "a" 0)); [run|apply d2_hist_a]. Qed.

Lemma d2_forks c f : forks_from d2 c f → fr_stream f = "a" → is_deleted d2 c = false.
Proof.
  intros Hff Hp. pose proof (wf_forks _ d2_wf c f Hff) as (_ & _ & Hg). rewrite Hp in Hg.
  destruct Hff as [Hc _]. assert (c = "b") as ->; [|run].
  assert ((m_key "a" ("forks/" +:+ c), to_be_bytes (fr_at_version f))
    ∈ db_scan d2 (m_key "a" "forks/") None None) as Hin.
  { apply db_scan_elem. split; [exact Hg|]. exists c. split; [reflexivity|split; exact I]. }
  assert (db_scan d2 (m_key "a" "forks/") None None = [(m_key "a" "forks/b", to_be_bytes 0)]) as E by run.
  rewrite E in Hin. apply list_elem_of_singleton in Hin as [= Hk _]. exact Hk.
Qed.

Lemma append_isolated_witness : ∃ k, (k ≤ COMMIT_RETRIES)%nat ∧ ∀ x l, slash_free x → x ≠ "a" →
  (hist (drift quiet 0 (S k) d2) x l ↔ hist (append_lazy (orc 50) quiet "a" Any [ev1] d2).2 x l).
Proof.
  apply (append_isolated (orc 50) quiet "a" Any None [ev1] true d2 (mkTicket (mkInfo 2 2 3) 3));
    [reflexivity|apply orc_ok|apply quiet_wf, d2_wf|run|split; small].
Defined.

Lemma fork_shares_history_witness :
  hist d2 "b" (upto 0 (vis d1 "a")) ∧ stream_version d2 "b" = Ok (Some 0)
  ∧ (∀ x lx, slash_free x → x ≠ "b" → hist d1 x lx → hist d2 x lx)
  ∧ ∀ k, k ∉ render <$> [KFork "b"; KTail "b"; KPin "a" "b"] → db_get d2 k = db_get d1 k.
Proof.
  apply (fork_shares_history (λ d, d) "a" 0 "b" d1 d2);
    [reflexivity|reflexivity|lia|apply d1_wf|run|run|apply hist_root; run].
Defined.

Lemma purge_exact_witness :
  ∃ d', purge_below "a" 2 d2 =
      (Ok (Z.of_nat (length (filter (λ e, purged (pin_floor d2 "a") 2 e = true) (log d2 "a")))), d')
    ∧ log d' "a" = filter (λ e, purged (pin_floor d2 "a") 2 e = false) (log d2 "a")
    ∧ ∀ k, key_ok k → (∀ v, k ≠ KRec "a" v) → db_get d' (render k) = db_get d2 (render k).
Proof. apply (purge_exact d2 "a" 2); [apply d2_wf|reflexivity|small]. Defined.

(** One record goes, the pinned one stays. *)
Example purge_exact_d2 : (purge_below "a" 2 d2).1 = Ok 1 ∧ pin_floor d2 "a" = 1.
Proof. split; run. Qed.

Lemma purge_keeps_forks_witness :
  hist (purge_below "a" 2 d2).2 "b" (upto 0 (vis d2 "a") ++ vis d2 "b").
Proof.
  apply (purge_keeps_forks d2 "a" 2 1 _ "b" _ d2_wf); [reflexivity|small|run|apply d2_forks
    |reflexivity|done|apply d2_hist_b].
Defined.

Lemma trim_below_monotone_witness :
  ∃ tl, tail d1 "a" = Ok tl
    ∧ floor_of (trim_below (λ d, d) "a" 1 d1).2 "a"
      = Z.max (floor_of d1 "a") (Z.min 1 (map_or u64_max (λ t, tail_version t + 1) tl))
    ∧ log (trim_below (λ d, d) "a" 1 d1).2 "a" = log d1 "a"
    ∧ vis (trim_below (λ d, d) "a" 1 d1).2 "a"
      = filter (λ e, floor_of (trim_below (λ d, d) "a" 1 d1).2 "a" ≤ env_version e) (vis d1 "a").
Proof.
  apply (trim_below_monotone (λ d, d) "a" 1 d1 (mkInfo 1 1 0));
    [apply d1_wf|apply d1_wf|reflexivity|small|run].
Defined.

Lemma delete_hides_witness :
  log (delete_stream (λ d, d) "a" d2).2 "a" = log d2 "a"
  ∧ vis (delete_stream (λ d, d) "a" d2).2 "a"
    = filter (λ e, pinned d2 "a" e = true) (vis d2 "a").
Proof.
  apply (delete_hides (λ d, d) "a" d2 _ (mkTail 1 1001));
    [apply d2_wf|apply d2_wf|reflexivity|run|run].
Defined.

Lemma delete_keeps_forks_witness :
  hist (delete_stream (λ d, d) "a" d2).2 "b" (upto 0 (vis d2 "a") ++ vis d2 "b").
Proof.
  apply (delete_keeps_forks (λ d, d) "a" d2 _ "b" (mkForkRef "a" 0));
    [apply d2_wf|apply d2_wf|reflexivity|run|split; run|reflexivity|run| |apply d2_hist_b].
  intros a Ha Hne. exfalso. apply Hne. inversion Ha as [|? f ? Hf]; [done|].
  vm_compute in Hf. discriminate Hf.
Defined.

(** ** Deleted intermediate forks

    The provisos above are needed: pins look one level down only. *)

(** [c] is forked from [b], itself forked from [a], both at version 1. *)
Definition d_chain : db := (fork (λ d, d) "b" 1 "c" (fork (λ d, d) "a" 1 "b" d1).2).2.

(** [b] is deleted, then [a] purged. *)
Definition d_purged : db := (purge_below "a" 2 (delete_stream (λ d, d) "b" d_chain).2).2.

(** The live stream [c] loses the events it shared with [a]. *)
Theorem grandchild_loses_history :
  (length <$> match read_history d_chain "c" (Unbounded, Unbounded) with Ok l => Some l | Err _ => None end)
    = Some 2%nat
  ∧ is_deleted d_purged "c" = false
  ∧ read_history d_purged "c" (Unbounded, Unbounded) = Ok [].
Proof. split_and!; run. Qed.

(** ** A fork racing a purge

    The pins are read once, before the loop, and its transactions do not
    track them: a fork committed in between is not protected. *)

(** [a] is forked at version 1 after a purge to 2 read its pins. *)
Definition d_raced : db := (fork (λ d, d) "a" 1 "b" d1).2.

Theorem purge_races_fork :
  ceiling d1 "a" = None
  ∧ (length <$> match read_history d_raced "b" (Unbounded, Unbounded) with Ok l => Some l | Err _ => None end)
    = Some 2%nat
  ∧ match purge_loop 3 "a" 2 0 0 d_raced with
    | Some (r, d) => (r, read_history d "b" (Unbounded, Unbounded)) = (Ok 2, Ok [])
    | None => False
    end.
Proof. split_and!; run. Qed.
