(* ===== verification/TxnThms.v ===== *)
(** * Theorems about transactions and durability *)

From S2P Require Import Prelude Text Slate Types Keys Kv Fork Store Batch Append Wf Commit.
From S2P Require Import Appended Ops Purge History Txn Invariant Samples.
Local Open Scope Z_scope.

Section txn_laws.
Context `{SlateDbLaws} `{CodecLaws}.

Lemma commit_quiet o ops d :
  check_ops ops = Ok tt →
  commit o (λ d, d) ops d =
    match plan_ops d o 0 (durable_sequence d) ops with
    | Err e => (Err e, d)
    | Ok (infos, seq', ws) => (Ok infos, db_apply d (render_ws (ws ++ [seq_write seq'])))
    end.
Proof.
  intros Hck. unfold commit. rewrite Hck, commit_body_eq.
  destruct (plan_ops d o 0 (durable_sequence d) ops) as [[[infos seq'] ws]|e]; [|done]. cbn [rbind].
  unfold commit_seq, txn_commit. set (t := txn_unmark_write _ _).
  change d with (t_snap t) at 1. rewrite db_conflict_clean.
  assert (t_writes t = render_ws (ws ++ [seq_write seq'])) as -> by (by rewrite render_ws_app).
  destruct (render_ws (ws ++ [seq_write seq'])) as [|w l] eqn:El; [|done].
  rewrite render_ws_app in El. by destruct (render_ws ws).
Qed.

(** C10: committing a transaction is the same as running its operations one by
    one -- same infos, same contents, same sequence counter -- except that it
    is all or nothing: when an operation fails, its error is the
    transaction's and nothing is written.  The checks [commit] makes before it
    opens a transaction (names and sizes of every operation) are taken to pass;
    they come first, so with an operation that fails them the error may be
    another one than the sequence's. *)
Theorem commit_sequential o ops d :
  wf d → check_ops ops = Ok tt →
  match commit o (λ d, d) ops d with
  | (Ok infos, d') => ∃ d2, run_each o 0 ops d = (Ok infos, d2)
      ∧ but_seq d' d2 ∧ durable_sequence d' = durable_sequence d2
  | (Err e, d') => d' = d ∧ ∃ d2, run_each o 0 ops d = (Err e, d2)
  end.
Proof.
  intros Hwf Hck. rewrite commit_quiet by done.
  pose proof (plan_ops_sequential o 0 ops d d (durable_sequence d) Hck ltac:(done) eq_refl) as Hseq.
  destruct (plan_ops d o 0 (durable_sequence d) ops) as [[[infos seq'] ws]|e] eqn:Ep; [|by split].
  destruct Hseq as (d2 & Hrun & Hbs & Hd2). exists d2. split_and!; [done|..].
  - intros k Hk. rewrite <-Hbs by done. symmetry. by apply but_seq_snoc.
  - rewrite durable_after; [done|]. eapply plan_ops_seq; [|exact Ep]. apply durable_range, Hwf.
Qed.

(** C11: under interference a transaction either writes nothing, or takes
    effect as one batch on the state current at its commit, where every one
    of its version checks holds. *)
Theorem commit_atomic o interf ops d r d' :
  commit o interf ops d = (r, d') →
  match r with
  | Err _ => d' = d ∨ d' = interf d
  | Ok infos => ∃ seq' ws, plan_ops (interf d) o 0 (durable_sequence d) ops = Ok (infos, seq', ws)
      ∧ d' = db_apply (interf d) (render_ws (ws ++ [seq_write seq']))
  end.
Proof.
  intros E. apply commit_spec in E. destruct r as [infos|e]; [by destruct E|].
  destruct E as [[_ ->] | (_ & -> & _)]; auto.
Qed.

(** ** Durability *)

Lemma await_seq_mono watch n m : m ≤ n → await_seq watch n = Ok tt → await_seq watch m = Ok tt.
Proof.
  unfold await_seq. intros Hle. induction watch as [|a watch IH]; simpl; [done|].
  destruct (Z.leb_spec n (durable_seq a)), (closed a), (Z.leb_spec m (durable_seq a));
    simpl; try lia; try done; intros E;
    destruct (Z.ltb_spec (durable_seq a) n), (Z.ltb_spec (durable_seq a) m); try lia; try done; by apply IH.
Qed.

Lemma quiet_ticket o s expd fv tok evs idx d tk d' :
  commit_appends o quiet s expd fv tok evs idx d = (Ok tk, d') →
  ticket_seq tk = db_last_seq d' ∧ db_last_seq d < db_last_seq d'.
Proof.
  rewrite commit_appends_quiet. destruct (check_batch evs) as [[]|]; [|done].
  destruct (append_plan _ _ _ _ _ _ _ _ _) as [[[info sq] ws]|]; [|done].
  intros [= <- <-]. split; [done|]. apply db_apply_seq. rewrite render_ws_app. by destruct (render_ws ws).
Qed.

(** Tickets of successive lazy appends grow, so waiting for the last one
    is enough: when the barrier admits it, it admits every earlier ticket. *)
Theorem last_ticket_covers o1 o2 s1 s2 e1 e2 evs1 evs2 watch d tk1 d1 tk2 d2 :
  append_lazy o1 quiet s1 e1 evs1 d = (Ok tk1, d1) →
  append_lazy o2 quiet s2 e2 evs2 d1 = (Ok tk2, d2) →
  await_durable watch tk2 = Ok tt →
  ticket_seq tk1 < ticket_seq tk2 ∧ await_durable watch tk1 = Ok tt.
Proof.
  intros E1 E2 Hw. destruct (quiet_ticket _ _ _ _ _ _ _ _ _ _ E1) as [T1 _].
  destruct (quiet_ticket _ _ _ _ _ _ _ _ _ _ E2) as [T2 L2].
  assert (ticket_seq tk1 < ticket_seq tk2) as Hlt by (rewrite T1, T2; lia). split; [done|].
  unfold await_durable in *. eapply await_seq_mono; [|exact Hw]. lia.
Qed.

(** The barrier answers [Ok] only when a status showed the batch durable,
    and reports a closed database otherwise: it never acknowledges a write
    that a shutdown overtook. *)
Theorem await_durable_sound watch tk :
  match await_durable watch tk with
  | Ok _ => ∃ st, st ∈ watch ∧ ticket_seq tk ≤ durable_seq st
  | Err e => e = Backend BackendClosed
      ∧ ∀ pre st post, watch = pre ++ st :: post → ticket_seq tk ≤ durable_seq st →
          ∃ c, c ∈ pre ∧ closed c = true
  end.
Proof.
  unfold await_durable, await_seq. set (n := ticket_seq tk).
  induction watch as [|a watch IH]; simpl.
  { split; [done|]. by intros [|? ?] ? ?. }
  destruct (Z.leb_spec n (durable_seq a)) as [Hle|Hgt]; simpl.
  { destruct (Z.ltb_spec (durable_seq a) n); [lia|]. exists a. split; [by left|done]. }
  destruct (closed a) eqn:Ec; simpl.
  { destruct (Z.ltb_spec (durable_seq a) n); [|lia]. split; [done|].
    intros [|b pre] st post [= <- ->] Hst; [lia|]. exists a. split; [by left|done]. }
  destruct (List.find _ watch) as [st|]; [destruct (durable_seq st <? n)|].
  2: { destruct IH as (st' & Hin & ?). exists st'. split; [by right|done]. }
  all: destruct IH as [_ IH]; split; [done|]; intros [|b pre] st' post [= <- Heq] Hst; [lia|];
    destruct (IH pre st' post Heq Hst) as (c & Hc & ?); exists c; split; [by right|done].
Qed.
End txn_laws.

(** ** Instances *)

Import Samples.

Definition ops : Transaction :=
  tx_append (tx_fence (tx_append transaction "a" (Exact 1) [ev1]) "b" (Some "t")) "b" NoStream [ev2].

Lemma commit_sequential_witness :
  match commit (orc 60) (λ d, d) ops d1 with
  | (Ok infos, d') => ∃ d2, run_each (orc 60) 0 ops d1 = (Ok infos, d2)
      ∧ but_seq d' d2 ∧ durable_sequence d' = durable_sequence d2
  | (Err e, d') => d' = d1 ∧ ∃ d2, run_each (orc 60) 0 ops d1 = (Err e, d2)
  end.
Proof. apply (commit_sequential (orc 60) ops d1); [apply d1_wf|reflexivity]. Defined.

Example ops_commit : (commit (orc 60) (λ d, d) ops d1).1 = Ok [mkInfo 2 2 3; mkInfo 0 0 4].
Proof. run. Qed.

Definition ops_outcome : R (list CommitInfo) * db := commit (orc 60) (λ d, d) ops d1.

Lemma commit_atomic_witness :
  match ops_outcome.1 with
  | Err _ => ops_outcome.2 = d1 ∨ ops_outcome.2 = d1
  | Ok infos => ∃ seq' ws, plan_ops d1 (orc 60) 0 (durable_sequence d1) ops = Ok (infos, seq', ws)
      ∧ ops_outcome.2 = db_apply d1 (render_ws (ws ++ [seq_write seq']))
  end.
Proof. apply (commit_atomic (orc 60) (λ d, d) ops d1). apply surjective_pairing. Defined.

Lemma last_ticket_covers_witness :
  1 < 2 ∧ await_durable [mkStatus 0 false; mkStatus 2 false] (mkTicket (mkInfo 0 1 1) 1) = Ok tt.
Proof.
  apply (last_ticket_covers (orc 0) (orc 60) "a" "b" NoStream NoStream [ev1; ev2] [ev1]
    [mkStatus 0 false; mkStatus 2 false] mem_empty (mkTicket (mkInfo 0 1 1) 1) d1
    (mkTicket (mkInfo 0 0 3) 2) (append_lazy (orc 60) quiet "b" NoStream [ev1] d1).2); run.
Defined.
