(* ===== verification/JobThms.v ===== *)
(** * Theorems about compaction jobs

    The claim of a job is exclusive when the journal's keys are in commit
    order; a published compaction completes its job. *)

From S2P Require Import Prelude Text Slate Types Keys Kv Fork Store Batch Append Wf Commit.
From S2P Require Import Appended Ops Purge History Txn Invariant Samples.
Local Open Scope Z_scope.

Section job_laws.
Context `{SlateDbLaws} `{CodecLaws}.

Lemma render_job u : JOBS_PREFIX +:+ u = render (KJob u).
Proof. done. Qed.

Lemma render_compaction u : COMPACTIONS_PREFIX +:+ u = render (KCompaction u).
Proof. done. Qed.

(** [u] sorts after every entry of the journal. *)
Definition newest (d : db) (u : string) : Prop :=
  ∀ u' b, db_get d (JOBS_PREFIX +:+ u') = Some b → str_lt u' u.

Lemma job_events_app job l1 l2 :
  job_events_of job (l1 ++ l2) =
    let? a := job_events_of job l1 in let? b := job_events_of job l2 in Ok (a ++ b).
Proof.
  induction l1 as [|[k v] l1 IH]; simpl; [by destruct (job_events_of job l2)|].
  destruct (from_slice v) as [e|]; [|done]. rewrite IH.
  destruct (job_events_of job l1) as [a|]; simpl; [|done].
  destruct (job_events_of job l2) as [b|]; simpl; [|done]. by destruct (String.eqb _ _).
Qed.

Lemma job_fold_snoc l e : job_fold (l ++ [e]) = Some (job_status_of e).
Proof. unfold job_fold. by rewrite fold_left_app. Qed.

(** Writing an entry with the newest key appends to the journal. *)
Lemma journal_append d u (e : JobEvent) :
  newest d u → db_scan (db_apply d (render_ws [(KJob u, Some (to_vec e))])) JOBS_PREFIX None None
    = db_scan d JOBS_PREFIX None None ++ [(JOBS_PREFIX +:+ u, to_vec e)].
Proof.
  intros Hnew. apply db_scan_unique.
  - rewrite fmap_app. apply StronglySorted_app_2; [|apply db_scan_sorted|by repeat constructor].
    intros k1 k2 ([k b] & -> & (Hg & u' & -> & _)%db_scan_elem)%list_elem_of_fmap ->%list_elem_of_singleton.
    simpl. unfold str_lt. rewrite str_ltb_app_cancel. by eapply Hnew.
  - intros k v. rewrite elem_of_app, list_elem_of_singleton, db_scan_elem, db_get_apply.
    change (last_write (render_ws [(KJob u, Some (to_vec e))]) k)
      with (if String.eqb (JOBS_PREFIX +:+ u) k then Some (Some (to_vec e)) else None).
    destruct (String.eqb_spec (JOBS_PREFIX +:+ u) k) as [<- |Hne].
    + split.
      * intros [[Hg _] | [= <-]]; [|split; [done|by exists u]].
        exfalso. apply (irreflexivity str_lt u). by eapply Hnew.
      * intros [[= <-] _]. by right.
    + split.
      * intros [? | [= -> _]]; [done|by destruct Hne].
      * intros ?. by left.
Qed.

Lemma claim_after_claim o1 o2 job w1 w2 d ws :
  newest d (o_ulid o1 0) → claim_plan o1 job w1 d = Ok ws →
  claim_plan o2 job w2 (db_apply d (render_ws ws))
    = Err (InvalidInput (NotClaimable job (Some (StClaimed w1)))).
Proof.
  intros Hnew Hp. pose proof (claim_plan_kws _ _ _ _ _ Hp) as ->. unfold claim_plan in Hp |- *.
  unfold job_kws. rewrite journal_append by done.
  rewrite job_events_app. apply rbind_Ok in Hp as (evs & -> & _). simpl.
  rewrite from_to_vec. simpl. rewrite String.eqb_refl. simpl. by rewrite job_fold_snoc.
Qed.

(** C38: when journal keys grow in commit order, a compaction job is claimed at
    most once: after a successful claim a second worker is told who holds it,
    and a second worker whose claim was in flight when the first one committed
    does not succeed either. *)
Theorem claim_exclusive o1 o2 job w1 w2 d d1 :
  newest d (o_ulid o1 0) → claim_compaction o1 (λ d, d) job w1 d = (Ok tt, d1) →
  claim_compaction o2 (λ d, d) job w2 d1
    = (Err (InvalidInput (NotClaimable job (Some (StClaimed w1)))), d1)
  ∧ ∃ e, claim_compaction o2 (λ d, (claim_compaction o1 (λ d, d) job w1 d).2) job w2 d = (Err e, d1).
Proof.
  intros Hnew E. pose proof (claim_outcome _ _ _ _ _ _ _ E) as (ws & Hp & Hd1).
  pose proof (claim_after_claim o1 o2 job w1 w2 d ws Hnew Hp) as Hp2.
  assert (claim_plan o2 job w2 d1 = Err (InvalidInput (NotClaimable job (Some (StClaimed w1))))) as Hp1.
  { rewrite <-Hp2. unfold claim_plan. by rewrite (scan_equiv _ _ _ _ _ Hd1). }
  split.
  - destruct (claim_compaction o2 (λ d, d) job w2 d1) as [r d2] eqn:E2.
    pose proof (claim_outcome _ _ _ _ _ _ _ E2) as Ho. simpl in Ho. destruct r as [[]|e].
    + destruct Ho as (ws' & Hws & _). congruence.
    + destruct Ho as [-> _]. f_equal. f_equal.
      unfold claim_compaction, run_txn in E2. rewrite claim_body_eq, Hp1 in E2. simpl in E2. congruence.
  - destruct (claim_compaction o2 _ job w2 d) as [r d2] eqn:E2.
    pose proof (claim_outcome _ _ _ _ _ _ _ E2) as Ho. simpl in Ho. rewrite E in Ho. simpl in Ho.
    destruct r as [[]|e].
    + destruct Ho as (ws' & Hws & _). congruence.
    + destruct Ho as [-> _]. by exists e.
Qed.

(** ** Completion *)

Lemma compaction_records_Ok d : shaped d → ∃ l, compaction_records d = Ok l.
Proof.
  intros Hsh. unfold compaction_records.
  set (f := λ kv : string * bytes, match from_slice kv.2 with Some r => r | None => mkCompaction "" 0 0 None 0 end).
  exists (f <$> db_scan d COMPACTIONS_PREFIX None None). apply collect_Ok_map.
  intros [k b] (Hg & suf & -> & _)%db_scan_elem. destruct (Hsh _ _ Hg) as (K & HK & Hok & Hv).
  destruct (compaction_family K suf Hok (eq_sym HK)) as (u & -> & _). destruct Hv as (r & Hr).
  unfold f. cbn [snd] in *. by rewrite Hr.
Qed.

Lemma collect_elem {E A B} (f : A → result E B) l rs x y :
  collect (f <$> l) = Ok rs → x ∈ l → f x = Ok y → y ∈ rs.
Proof.
  revert rs. induction l as [|a l IH]; intros rs Hc Hx Hf; [by apply not_elem_of_nil in Hx|].
  rewrite fmap_cons in Hc. cbn [collect] in Hc. apply rbind_Ok in Hc as (b & Hb & Hc).
  apply rbind_Ok in Hc as (rest & Hr & [= <-]). apply elem_of_cons in Hx as [-> | Hx].
  - rewrite Hb in Hf. injection Hf as ->. by left.
  - right. by eapply IH.
Qed.

Lemma completed_if_recorded d u (record : CompactionRecord) job :
  shaped d → db_get d (render (KCompaction u)) = Some (to_vec record) → cr_job_id record = Some job →
  job_status d job = Ok (Some StCompleted).
Proof.
  intros Hsh Hg Hj. unfold job_status. destruct (compaction_records_Ok d Hsh) as (l & El). rewrite El.
  cbn [rbind]. assert (existsb (λ r, bool_decide (cr_job_id r = Some job)) l = true) as ->; [|done].
  apply elem_of_existsb. exists record. split; [|by apply bool_decide_eq_true_2].
  unfold compaction_records in El.
  apply (collect_elem _ _ _ (COMPACTIONS_PREFIX +:+ u, to_vec record) record El).
  - apply db_scan_elem. split; [done|]. by exists u.
  - cbn [snd]. by rewrite from_to_vec.
Qed.

(** A compaction run for a job completes it: when [compact_job] returns a
    record, the job's status is [Completed], whatever its journal says. *)
Theorem compact_job_completes o interf watch s job build d record d' :
  wf d → wf (interf d) → slash_free s → oracle_ok o → key_num (durable_sequence d + 1) →
  compact_job o interf watch s job build d = (Ok record, d') →
  job_status d' job = Ok (Some StCompleted).
Proof.
  intros Hwf Hwfi Hs Ho Hseq E.
  destruct (compact_Ok _ _ _ _ _ _ _ _ _ Hwf Hs Hseq E) as (l & e & state & _ & _ & _ & Hth & Hn & Hj & _ & Hd).
  assert (batch_ok (publish_kws o s record state (durable_sequence d + 1))) as Hb.
  { apply publish_batch_ok; [done..| |done]. by rewrite Hth. }
  apply (completed_if_recorded d' (o_ulid o 0) record); [|..|done].
  - rewrite Hd. apply shaped_batch; [apply Hwfi|done].
  - rewrite Hd, get_batch; [|done|by apply oracle_ulid]. unfold publish_kws, seq_write.
    change [?a; ?b; ?c] with ([a; b] ++ [c]). rewrite klast_snoc_ne by done.
    change [?a; ?b] with ([a] ++ [b]). by rewrite klast_snoc_eq.
Qed.
End job_laws.

(** ** Instances *)

Import Samples.

(** A requested job on stream [a]. *)
Definition job1 : string := sample_ulid 100.
Definition d_job : db := (request_compaction (sample_oracle 100) "a" d1).2.
Definition d_claimed : db := (claim_compaction (sample_oracle 200) (λ d, d) job1 "w1" d_job).2.

Lemma newest_scan (d : db) u :
  Forall (λ kv, str_ltb (drop_chars 7 kv.1) u = true) (db_scan d JOBS_PREFIX None None) → newest d u.
Proof.
  intros Hall u' b Hg. rewrite Forall_forall in Hall.
  assert ((JOBS_PREFIX +:+ u', b) ∈ db_scan d JOBS_PREFIX None None) as Hin.
  { apply db_scan_elem. split; [done|]. exists u'. split; [reflexivity|split; exact I]. }
  exact (Hall _ Hin).
Qed.

Lemma claim_exclusive_witness :
  claim_compaction (sample_oracle 300) (λ d, d) job1 "w2" d_claimed
    = (Err (InvalidInput (NotClaimable job1 (Some (StClaimed "w1")))), d_claimed)
  ∧ ∃ e, claim_compaction (sample_oracle 300)
           (λ d, (claim_compaction (sample_oracle 200) (λ d, d) job1 "w1" d).2) job1 "w2" d_job
         = (Err e, d_claimed).
Proof.
  apply (claim_exclusive (sample_oracle 200) (sample_oracle 300) job1 "w1" "w2" d_job d_claimed); [|run].
  apply newest_scan. vm_compute. repeat constructor.
Defined.

Definition build1 (_ : list Event) : R bytes := Ok [x07].
Definition compacted : R CompactionRecord * db :=
  compact_job (sample_oracle 400) (λ d, d) [mkStatus 9 false] "a" job1 build1 d_claimed.

Lemma d_claimed_wf : wf d_claimed.
Proof.
  eapply (wf_claim (sample_oracle 200) (λ d, d) job1 "w1" d_job);
    [|apply sample_oracle_ok| |apply surjective_pairing];
    (apply wf_job; [apply d1_wf|apply sample_oracle_ok]).
Qed.

Lemma compact_job_completes_witness : job_status compacted.2 job1 = Ok (Some StCompleted).
Proof.
  apply (compact_job_completes (sample_oracle 400) (λ d, d) [mkStatus 9 false] "a" job1 build1 d_claimed
    (mkCompaction "a" 1 2 (Some job1) 1400));
    [apply d_claimed_wf|apply d_claimed_wf|reflexivity|apply sample_oracle_ok|small|run].
Defined.

(** ** Journal order

    The proviso of [claim_exclusive] matters: two ULIDs drawn within one
    millisecond may sort either way, and a claim whose key sorts before the
    request is not seen by the fold. *)

Definition d_twice : db := (claim_compaction (sample_oracle 50) (λ d, d) job1 "w1" d_job).2.

Theorem claim_twice :
  (claim_compaction (sample_oracle 50) (λ d, d) job1 "w1" d_job).1 = Ok tt
  ∧ (claim_compaction (sample_oracle 60) (λ d, d) job1 "w2" d_twice).1 = Ok tt
  ∧ job_status d_twice job1 = Ok (Some StPending).
Proof. split_and!; run. Qed.
