(* ===== verification/SnapshotThms.v ===== *)
(** * Theorems about snapshots and rehydration

    A snapshot is honest when restoring it gives the fold of the history it
    covers.  Compaction publishes honest snapshots, and rehydrating through an
    honest snapshot is replaying the whole history. *)

From S2P Require Import Prelude Text Slate Types Keys Kv Fork Store Batch Append Wf Commit.
From S2P Require Import Appended Ops Purge History Txn Invariant Samples ForkThms.
Local Open Scope Z_scope.

(** The round trip an aggregate owes: restoring a snapshot gives the state. *)
Definition lawful (A : Type) `{Aggregate A} : Prop :=
  ∀ (a : A) b, agg_snapshot a = Ok b → agg_restore b = Ok a.

(** The state after a list of events. *)
Definition replay (A : Type) `{Aggregate A} (l : list Envelope) : A :=
  fold_left agg_apply (from_parts <$> l) agg_default.

(** ** Sorted histories *)

Lemma last_max {A} (R : relation A) l x :
  StronglySorted R l → (∀ y, R y y → False) → (∀ y z, R y z → R z y → False) →
  x ∈ l → (∀ y, y ∈ l → y = x ∨ R y x) → last l = Some x.
Proof.
  intros Hs Hirr Hasym Hin Hmax. destruct l as [|z l _] using rev_ind; [by apply not_elem_of_nil in Hin|].
  rewrite last_snoc. f_equal. apply elem_of_app in Hin as [Hin | ->%list_elem_of_singleton]; [|done].
  assert (R x z) as Hxz.
  { apply (StronglySorted_app_1_elem_of R l [z]); [done|done|by left]. }
  destruct (Hmax z) as [-> |Hzx]; [apply elem_of_app; right; by left|done|].
  by destruct (Hasym _ _ Hxz Hzx).
Qed.

Lemma history_split l v : StronglySorted version_lt l → l = upto v l ++ within (v + 1) None l.
Proof.
  intros Hs. assert (∀ e : Envelope, in_window (v + 1) None e = true ↔ v < env_version e) as Hw.
  { intros e. unfold in_window. simpl. rewrite andb_true_r, Z.leb_le. lia. }
  induction Hs as [|e l Hs IH Hall]; [done|]. unfold upto, within in *. rewrite !filter_cons.
  destruct (decide (env_version e ≤ v)) as [Hle|Hgt].
  - rewrite decide_False by (rewrite Hw; lia). simpl. by f_equal.
  - rewrite decide_True by (rewrite Hw; lia). rewrite Forall_forall in Hall.
    rewrite filter_none, filter_all; [done|..]; intros x Hx; specialize (Hall x Hx); unfold version_lt in Hall;
      rewrite ?Hw; lia.
Qed.

Lemma sorted_version_inj l e f :
  StronglySorted version_lt l → e ∈ l → f ∈ l → env_version e = env_version f → e = f.
Proof.
  intros Hs He Hf Heq. induction Hs as [|x l Hs IH Hall]; [by apply not_elem_of_nil in He|].
  rewrite Forall_forall in Hall. unfold version_lt in Hall.
  apply elem_of_cons in He as [-> | He], Hf as [-> | Hf]; [done|..|by apply IH].
  - specialize (Hall f Hf). lia.
  - specialize (Hall e He). lia.
Qed.

Lemma fold_events_eq {T} (f : T → Event → T) init evs :
  fold_events f init evs = (fold_left f evs init, ev_version <$> last evs).
Proof.
  unfold fold_events. assert (∀ acc v, fold_left (λ acc e, (f acc.1 e, Some (ev_version e))) evs (acc, v)
    = (fold_left f evs acc, match last evs with Some e => Some (ev_version e) | None => v end)) as Hgen.
  { induction evs as [|e evs IH]; intros acc v; [done|]. cbn [fold_left fst]. rewrite IH.
    f_equal. destruct evs as [|x evs]; [done|]. rewrite last_cons_cons.
    destruct (last (x :: evs)) eqn:E; [done|]. by apply last_None in E. }
  rewrite Hgen. by destruct (last evs).
Qed.

Section snapshot_laws.
Context `{SlateDbLaws} `{CodecLaws}.

(** The latest snapshot of [s], if any, covers a version of its history and
    restores to the fold up to it. *)
Definition honest (A : Type) `{Aggregate A} (d : db) (s : string) (l : list Envelope) : Prop :=
  ∀ r, latest_snapshot d s = Ok (Some r) →
    (∃ e, e ∈ l ∧ env_version e = sn_through_version r)
    ∧ agg_restore (sn_state r) = Ok (replay A (upto (sn_through_version r) l)).

Lemma snapshot_shaped d s : shaped d → slash_free s →
  ∃ r, latest_snapshot d s = Ok r ∧ from_option (λ r, key_num (sn_through_version r)) True r.
Proof.
  intros Hsh Hs. unfold latest_snapshot.
  destruct (last (db_scan d (snap_prefix s) None None)) as [[k b]|] eqn:El; [|by exists None].
  apply last_Some_elem_of, db_scan_elem in El as (Hg & suf & -> & _).
  destruct (Hsh _ _ Hg) as (K & HK & Hok & Hv). destruct (snap_family K s suf Hok Hs (eq_sym HK)) as (q & -> & _).
  destruct Hv as (r & Hr & Hn). rewrite Hr. by exists (Some r).
Qed.

Lemma rehydrate_honest (A : Type) `{Aggregate A} d s l :
  wf d → slash_free s → hist d s l → StronglySorted version_lt l → honest A d s l →
  rehydrate A d s = Ok (replay A l, env_version <$> last l).
Proof.
  intros Hwf Hs Hl Hsort Hhon. unfold rehydrate.
  destruct (snapshot_shaped d s (wf_shaped _ Hwf) Hs) as ([r|] & Hr & Hn); rewrite Hr; cbn [rbind].
  - destruct (Hhon r Hr) as [(e & He & Hev) ->]. cbn [rbind from_option] in *.
    unfold fold. cbn [bounds fst snd].
    assert (u64_add (sn_through_version r) 1 = sn_through_version r + 1) as ->.
    { unfold key_num in Hn. u64_norm. done. }
    rewrite (resolve_history_hist d s l) by (done || (split; [unfold key_num, key_lim in *; lia|done])).
    cbn [rbind]. rewrite fold_events_eq. cbn [rbind]. set (v := sn_through_version r) in *.
    pose proof (history_split l v Hsort) as Hsplit. f_equal. f_equal.
    + unfold replay. rewrite Hsplit at 3. by rewrite fmap_app, fold_left_app.
    + rewrite fmap_last. destruct (within (v + 1) None l) as [|x t _] using rev_ind.
      * simpl. rewrite (last_max version_lt l e); simpl; [by rewrite Hev|done|..|done|].
        -- unfold version_lt. lia.
        -- unfold version_lt. lia.
        -- intros y Hy. rewrite Hsplit, app_nil_r in Hy. apply list_elem_of_filter in Hy as [Hle Hy].
           unfold version_lt. destruct (decide (env_version y = env_version e)) as [E|]; [|right; lia].
           left. by apply (sorted_version_inj l).
      * rewrite Hsplit. by rewrite app_assoc, !last_snoc.
  - unfold fold. cbn [bounds fst snd]. pose proof KEY_MAX_pos.
    rewrite (resolve_history_hist d s l) by (done || (split; [unfold key_lim; lia|done])).
    cbn [rbind]. rewrite fold_events_eq.
    assert (within 0 None l = l) as ->.
    { apply filter_all. intros e He. destruct (hist_num d s l e (wf_shaped _ Hwf) Hs Hl He) as [Hv _].
      unfold in_window. simpl. rewrite andb_true_r. by apply Z.leb_le. }
    do 2 f_equal. rewrite fmap_last. by destruct (last l).
Qed.

(** C36: rehydrating an aggregate from its latest snapshot plus the events
    after it gives the state and version of replaying the stream's whole
    history, fork ancestry included; without a snapshot it replays the history.
    This asks that the versions of the history increase, and that the latest
    snapshot, if any, is honest: it covers a version of the history, and
    restores to the replay up to it, as what [compact] publishes does. *)
Theorem rehydrate_replays (A : Type) `{Aggregate A} d s :
  wf d → slash_free s → (∀ l, hist d s l → StronglySorted version_lt l ∧ honest A d s l) →
  ∃ l, hist d s l ∧ rehydrate A d s = Ok (replay A l, env_version <$> last l).
Proof.
  intros Hwf Hs Hh. destruct (hist_exists d s Hwf Hs) as [l Hl]. exists l. split; [done|].
  destruct (Hh l Hl). by apply rehydrate_honest.
Qed.

(** Every snapshot of [s] carries a sequence number the counter has passed. *)
Definition snaps_below (d : db) (s : string) : Prop :=
  ∀ q b, key_num q → db_get d (render (KSnap s q)) = Some b → q ≤ durable_sequence d.

Section publish.
Context (d : db) (o : Oracle) (s : string) (record : CompactionRecord) (state : bytes).
Context (Hwf : wf d) (Hs : slash_free s) (Ho : oracle_ok o)
  (Hth : key_num (cr_through_version record)) (Hseq : key_num (durable_sequence d + 1)).
Let q := durable_sequence d + 1.
Let ws := publish_kws o s record state q.
Let d1 := db_apply d (render_ws ws).
Let snap := mkSnapshot (cr_through_version record) (cr_ts_ms record) state.

Lemma published_wf : wf d1.
Proof. apply wf_side; [done|by apply publish_batch_ok|by repeat constructor]. Qed.

Lemma published_get k : key_ok k →
  k ≠ KSnap s q → k ≠ KCompaction (o_ulid o 0) → k ≠ KSeq → db_get d1 (render k) = db_get d (render k).
Proof.
  intros Hk N1 N2 N3. apply get_batch_other; [by apply publish_batch_ok|done|].
  intros w Hw E. unfold ws, publish_kws in Hw. rewrite !elem_of_cons in Hw.
  destruct Hw as [-> | [-> | [-> | Hw]]]; simpl in E; try congruence. by apply not_elem_of_nil in Hw.
Qed.

Lemma published_snap : db_get d1 (render (KSnap s q)) = Some (to_vec snap).
Proof.
  unfold d1. rewrite get_batch; [|by apply publish_batch_ok|done].
  unfold ws, publish_kws, seq_write. change [?a; ?b; ?c] with (([a] ++ [b]) ++ [c]).
  rewrite !klast_snoc_ne by done. cbn [klast]. by rewrite decide_True.
Qed.

Lemma published_latest : snaps_below d s → latest_snapshot d1 s = Ok (Some snap).
Proof.
  intros Hbelow. unfold latest_snapshot.
  rewrite (last_max entry_lt (db_scan d1 (snap_prefix s) None None) (snap_prefix s +:+ fmt016 q, to_vec snap)).
  - cbn. by rewrite from_to_vec.
  - apply entries_sorted, db_scan_sorted.
  - intros y Hy. by apply (irreflexivity entry_lt y).
  - intros y z Hyz Hzy. apply (irreflexivity entry_lt y). by etrans.
  - apply db_scan_elem. split; [rewrite render_snap; apply published_snap|]. by exists (fmt016 q).
  - intros [k b] (Hg & suf & -> & _)%db_scan_elem.
    destruct (wf_shaped _ published_wf _ _ Hg) as (K & HK & Hok & _).
    destruct (snap_family K s suf Hok Hs (eq_sym HK)) as (q' & -> & ->). destruct Hok as [_ Hq'].
    destruct (decide (q' = q)) as [-> |Hne].
    + left. rewrite render_snap, published_snap in Hg. by injection Hg as <-.
    + right. unfold entry_lt, str_lt. cbn [fst]. rewrite str_ltb_app_cancel, fmt016_ltb by key_bound.
      apply Z.ltb_lt. rewrite render_snap, published_get in Hg; [|done|congruence|done|done].
      specialize (Hbelow q' b Hq' Hg). unfold q. lia.
Qed.

Lemma published_hist x l : slash_free x → hist d x l → hist d1 x l.
Proof.
  intros Hx Hl. pose proof (wf_shaped _ Hwf) as Hsh.
  assert (∀ a, slash_free a → vis d1 a = vis d a) as Hvis.
  { intros a Ha. apply vis_ext; [apply published_wf|done|done|..].
    - split; intros; rewrite ?render_deleted; by apply published_get.
    - rewrite render_trim. by apply published_get.
    - apply log_ext; [apply published_wf|done|done|]. intros v Hv. unfold stored.
      by rewrite render_rec, published_get. }
  apply (hist_same d); [apply published_wf|done|done|..|by apply Hvis].
  - intros a Ha%(ancestor_slash_free _ _ _ Hsh Hx). unfold fork_ref, get_json.
    by rewrite render_fork, published_get.
  - intros y f Hy Hf. rewrite Hvis; [done|].
    by apply (forks_from_shaped d y f Hsh), (ancestor_edge d x y f).
Qed.
End publish.

(** C37: compaction is transparent: after a [compact] that succeeds the stream
    has the same history, its latest snapshot is the one just published, covers
    the last event of that history and is honest, and rehydrating through it
    yields the state of a full replay.  This is for a compaction during which
    nothing else commits, of a history whose versions increase, by an aggregate
    that restores what it snapshots, and while the sequence counter has not
    moved back below a snapshot key of the stream (as a slow writer can make it,
    [sequence_moves_back]): snapshots are ordered by that counter. *)
Theorem compact_transparent (A : Type) `{Aggregate A} o watch s d record d' :
  wf d → slash_free s → oracle_ok o → key_num (durable_sequence d + 1) → snaps_below d s → lawful A →
  (∀ l, hist d s l → StronglySorted version_lt l) →
  compact A o (λ d, d) watch s d = (Ok record, d') →
  ∃ l r, hist d s l ∧ hist d' s l ∧ latest_snapshot d' s = Ok (Some r)
    ∧ sn_through_version r = cr_through_version record
    ∧ env_version <$> last l = Some (cr_through_version record)
    ∧ honest A d' s l ∧ rehydrate A d' s = Ok (replay A l, Some (cr_through_version record)).
Proof.
  intros Hwf Hs Ho Hseq Hbelow Hlaw Hsort E.
  destruct (compact_Ok _ _ _ _ _ _ _ _ _ Hwf Hs Hseq E)
    as (l & e & state & Hl & Hb & Hlast & Hth & Hn & _ & _ & Hd). specialize (Hsort l Hl).
  rewrite <-Hth in Hn.
  pose proof (published_latest d o s record state Hwf Hs Ho Hn Hseq Hbelow) as Hsnap.
  pose proof (published_hist d o s record state Hwf Hs Ho Hn Hseq s l Hs Hl) as Hl'.
  pose proof (published_wf d o s record state Hwf Hs Ho Hn Hseq) as Hwf'.
  rewrite <-Hd in Hsnap, Hl', Hwf'.
  assert (upto (cr_through_version record) l = l) as Hall.
  { apply filter_all. intros x Hx. rewrite Hth. apply last_Some in Hlast as [l' ->].
    apply elem_of_app in Hx as [Hx | ->%list_elem_of_singleton]; [|done].
    assert (version_lt x e) as Hxe; [|unfold version_lt in Hxe; lia].
    apply (StronglySorted_app_1_elem_of version_lt l' [e]); [done|done|by left]. }
  assert (honest A d' s l) as Hh.
  { intros r Hr. rewrite Hsnap in Hr. injection Hr as <-. simpl. split.
    - exists e. split; [by apply last_Some_elem_of|done].
    - rewrite Hall. by apply Hlaw. }
  eexists l, _. split_and!; [done|done|exact Hsnap|done| |done|].
  - rewrite Hlast. simpl. by rewrite Hth.
  - rewrite (rehydrate_honest A d' s l), Hlast by done. simpl. by rewrite Hth.
Qed.
End snapshot_laws.

(** ** Instances *)

Import Samples.

(** A counter of payload bytes. *)
Definition counter : Type := Z.
#[local] Instance counter_aggregate : Aggregate counter := {|
  agg_default := 0;
  agg_apply n e := u64_add n (Z.of_nat (length (ev_data e)));
  agg_snapshot n := if (0 <=? n) && (n <? U64) then Ok (to_be_bytes n) else Err (InvalidInput NoSnapshotImpl);
  agg_restore b := Ok (from_be_bytes b);
|}.

Lemma counter_lawful : lawful counter.
Proof.
  intros n b. simpl. destruct (Z.leb_spec 0 n), (Z.ltb_spec n U64); simpl; try done. intros [= <-].
  f_equal. by apply from_to_be_bytes.
Qed.

Lemma d1_hist : hist d1 "a" (vis d1 "a").
Proof. apply hist_root. run. Qed.

Lemma d1_sorted l : hist d1 "a" l → StronglySorted version_lt l.
Proof.
  intros Hl. rewrite (hist_unique _ _ _ _ Hl d1_hist). apply StronglySorted_filter, log_sorted;
    [apply d1_wf|reflexivity].
Qed.

Lemma d1_no_snapshot : latest_snapshot d1 "a" = Ok None.
Proof. run. Qed.

Definition compact1 : R CompactionRecord * db :=
  compact counter (sample_oracle 400) (λ d, d) [mkStatus 9 false] "a" d1.

Lemma d1_snaps_below : snaps_below d1 "a".
Proof.
  intros q b _ Hg. exfalso. rewrite <-render_snap in Hg.
  assert ((snap_prefix "a" +:+ fmt016 q, b) ∈ db_scan d1 (snap_prefix "a") None None) as Hin.
  { apply db_scan_elem. split; [exact Hg|]. exists (fmt016 q). split; [reflexivity|split; exact I]. }
  assert (db_scan d1 (snap_prefix "a") None None = []) as E by run. rewrite E in Hin.
  by apply not_elem_of_nil in Hin.
Qed.

Lemma compact_transparent_witness :
  ∃ l r, hist d1 "a" l ∧ hist compact1.2 "a" l ∧ latest_snapshot compact1.2 "a" = Ok (Some r)
    ∧ sn_through_version r = 1 ∧ env_version <$> last l = Some 1
    ∧ honest counter compact1.2 "a" l ∧ rehydrate counter compact1.2 "a" = Ok (replay counter l, Some 1).
Proof.
  apply (compact_transparent counter (sample_oracle 400) [mkStatus 9 false] "a" d1
    (mkCompaction "a" 1 2 None 1400));
    [apply d1_wf|reflexivity|apply sample_oracle_ok|small|apply d1_snaps_below|apply counter_lawful
    |apply d1_sorted|run].
Defined.

(** The stream after the compaction and one more event: a snapshot and an event
    past it. *)
Definition appended3 : R CommitTicket * db := append_lazy (orc 600) quiet "a" Any [ev2] compact1.2.
Definition d3s : db := appended3.2.
Strategy expand [appended3 d3s].

Lemma d3s_wf : wf d3s.
Proof.
  eapply (wf_append (orc 600) quiet "a" Any None None [ev2] true compact1.2 appended3.1);
    [reflexivity|apply orc_ok|intros k; rewrite drift_quiet| |].
  - eapply (wf_compact (sample_oracle 400) (λ d, d) [mkStatus 9 false] "a" None _ d1 compact1.1);
      [apply d1_wf|reflexivity|apply sample_oracle_ok|small|apply d1_wf|]. apply surjective_pairing.
  - apply surjective_pairing.
  - intros tk Htk. assert (tk = mkTicket (mkInfo 2 2 4) 3) as ->; [|split; small].
    apply (f_equal (λ r, match r with Ok t => t | Err _ => tk end)) in Htk. rewrite <-Htk. run.
Qed.

Lemma d3s_hist : hist d3s "a" (vis d3s "a").
Proof. apply hist_root. run. Qed.

Definition snap3 : SnapshotRecord := mkSnapshot 1 1400 (to_be_bytes (replay counter (upto 1 (vis d3s "a")))).

Lemma snap3_latest : latest_snapshot d3s "a" = Ok (Some snap3).
Proof. run. Qed.

Lemma rehydrate_replays_witness :
  ∃ l, hist d3s "a" l ∧ rehydrate counter d3s "a" = Ok (replay counter l, env_version <$> last l).
Proof.
  apply (rehydrate_replays counter d3s "a"); [apply d3s_wf|reflexivity|].
  intros l Hl. rewrite (hist_unique _ _ _ _ Hl d3s_hist). split.
  - apply StronglySorted_filter, log_sorted; [apply d3s_wf|reflexivity].
  - intros r Hr. rewrite snap3_latest in Hr. injection Hr as <-. split.
    + assert (env_version <$> (vis d3s "a" !! 1%nat) = Some 1) as Hv by run.
      destruct (vis d3s "a" !! 1%nat) as [e|] eqn:El; [|discriminate Hv]. injection Hv as Hv.
      exists e. split; [exact (list_elem_of_lookup_2 _ _ _ El)|exact Hv].
    + run.
Defined.

(** ** The sequence counter under concurrency

    [g/seq] is not part of conflict detection, so a slow transaction may write
    it back to an older value.  Sequence numbers then repeat within a stream,
    and a later snapshot may get a smaller key than an earlier one. *)

(** Three events go to [b] while a transaction that appends to [c] is open. *)
Definition seq_regress : db :=
  (append_lazy (orc 500)
     (λ n d, if (n =? 0)%nat then (append_lazy (orc 0) quiet "b" NoStream [ev1; ev1; ev2] d).2 else d)
     "c" NoStream [ev1] d1).2.

Theorem sequence_moves_back :
  durable_sequence (append_lazy (orc 0) quiet "b" NoStream [ev1; ev1; ev2] d1).2 = 5
  ∧ durable_sequence seq_regress = 3
  ∧ match read_stream (append_lazy (orc 600) quiet "b" Any [ev2] seq_regress).2 "b" (Unbounded, Unbounded) with
    | Ok evs => ev_global_seq <$> evs
    | Err _ => []
    end = [3; 4; 5; 4].
Proof. split_and!; run. Qed.
