(* ===== verification/IndexThms.v ===== *)
(** * Theorems about keys, the time index and stream listing *)

From S2P Require Import Prelude Text Slate Types Keys Kv Fork Store Batch Append Wf Commit.
From S2P Require Import Appended Ops Purge History Txn Invariant Samples.
Local Open Scope Z_scope.

(** ** Strings of equal length *)

Lemma str_ltb_prefix a b x y :
  String.length a = String.length b →
  str_ltb (a +:+ x) (b +:+ y) = str_ltb a b || (String.eqb a b && str_ltb x y).
Proof.
  revert b. induction a as [|c a IH]; intros [|c' b] Hlen; try done.
  injection Hlen as Hlen. rewrite !str_app_cons, !str_ltb_cons, IH by done. cbn [String.eqb].
  rewrite ascii_eqb_N. destruct (N.ltb_spec (N_of_ascii c) (N_of_ascii c')), (N.eqb_spec (N_of_ascii c) (N_of_ascii c'));
    simpl; try done.
Qed.

Lemma fmt016_eqb a b : key_lim a → key_lim b → String.eqb (fmt016 a) (fmt016 b) = (a =? b).
Proof.
  intros Ha Hb. destruct (String.eqb_spec (fmt016 a) (fmt016 b)) as [E|E], (Z.eqb_spec a b) as [E'|E']; try done.
  - by apply fmt016_inj in E.
  - subst. done.
Qed.

Lemma ts_bound t ts suf : key_lim t → key_lim ts → str_leb (fmt016 t) (fmt016 ts +:+ suf) = (t <=? ts).
Proof.
  intros Ht Hts. unfold str_leb. rewrite <-(str_app_nil_r (fmt016 t)), str_ltb_prefix
    by (by rewrite !fmt016_length).
  rewrite fmt016_ltb by done. assert (str_ltb suf "" = false) as -> by by destruct suf.
  rewrite andb_false_r, orb_false_r. by rewrite Z.leb_antisym.
Qed.

Lemma ts_key_lt s ts v ts' v' :
  key_lim ts → key_lim v → key_lim ts' → key_lim v' →
  str_lt (ts_key s ts v) (ts_key s ts' v') ↔ ts < ts' ∨ (ts = ts' ∧ v < v').
Proof.
  intros Hts Hv Hts' Hv'. unfold str_lt, ts_key. rewrite !str_ltb_app_cancel.
  rewrite str_ltb_prefix by (by rewrite !fmt016_length).
  rewrite str_ltb_app_cancel, fmt016_eqb, !fmt016_ltb by done.
  rewrite orb_true_iff, andb_true_iff, !Z.ltb_lt, Z.eqb_eq. done.
Qed.

(** Within sixteen digits the record keys of a stream sort as their
    versions, and a version is read back from its key. *)
Theorem record_keys_ordered s v w :
  key_lim v → key_lim w →
  str_ltb (r_key s v) (r_key s w) = (v <? w) ∧ version_suffix (r_key s v) = Ok v.
Proof. intros Hv Hw. split; [by apply r_key_ltb|by apply version_suffix_rec]. Qed.

(** Past sixteen digits they do not: the key of version [10^16] sorts before
    that of [2 * 10^15], and [version_suffix] drops its first digit. *)
Theorem record_keys_overflow :
  str_ltb (r_key "a" (10 ^ 16)) (r_key "a" (2 * 10 ^ 15)) = true
  ∧ version_suffix (r_key "a" (10 ^ 16)) = Ok 0.
Proof. split; vm_compute; reflexivity. Qed.

(** Distinct structured keys -- records, tails, fences, pins, snapshots,
    index and journal entries of any streams -- never render to the same
    string, so no operation can overwrite another's key. *)
Theorem keys_disjoint k1 k2 : key_ok k1 → key_ok k2 → render k1 = render k2 → k1 = k2.
Proof. apply render_inj. Qed.

(** ** The time index *)

Section index.
Context `{SlateDbLaws} `{CodecLaws}.

(** The index entries of [s] are those of its log, whose timestamps never
    move backwards and are bounded by the tail's. *)
Record timeline (d : db) (s : string) : Prop := {
  tl_index ts v : key_num ts → key_num v →
    is_Some (db_get d (render (KTs s ts v))) ↔ ∃ e, e ∈ log d s ∧ env_ts_ms e = ts ∧ env_version e = v;
  tl_num e : e ∈ log d s → key_num (env_ts_ms e);
  tl_sorted : StronglySorted (λ e f, env_ts_ms e ≤ env_ts_ms f) (log d s);
  tl_tail e tl : tail d s = Ok tl → e ∈ log d s → env_ts_ms e ≤ map_or 0 tail_ts_ms tl;
}.

Definition at_or_after (t : Z) (e : Envelope) : Prop := t ≤ env_ts_ms e.
#[local] Instance at_or_after_dec t e : Decision (at_or_after t e).
Proof. unfold at_or_after. apply _. Defined.

Definition index_key (s : string) (e : Envelope) : string := ts_key s (env_ts_ms e) (env_version e).

Lemma index_sorted d s :
  wf d → slash_free s → timeline d s → StronglySorted str_lt (index_key s <$> log d s).
Proof.
  intros Hwf Hs Htl. pose proof (log_sorted d s (wf_shaped _ Hwf) Hs) as Hv.
  pose proof (tl_sorted _ _ Htl) as Ht.
  assert (∀ e, e ∈ log d s → key_lim (env_ts_ms e) ∧ key_lim (env_version e)) as Hn.
  { intros e He. split; [by apply key_num_lim, (tl_num _ _ Htl)|].
    apply log_elem in He as [? _]; [by apply key_num_lim|apply Hwf|done]. }
  induction Hv as [|e l Hv IH Hall]; [constructor|]. rewrite fmap_cons.
  apply StronglySorted_inv in Ht as [Ht Htall].
  constructor; [apply IH; [done|]; intros f Hf; apply Hn; by right|].
  rewrite Forall_fmap, Forall_forall in *. intros f Hf. simpl.
  destruct (Hn e) as [? ?]; [by left|]. destruct (Hn f) as [? ?]; [by right|].
  apply ts_key_lt; [done..|]. specialize (Hall f Hf). specialize (Htall f Hf). unfold version_lt in Hall. lia.
Qed.

(** The entries a seek scans. *)
Lemma seek_scan d s t :
  wf d → slash_free s → timeline d s → key_lim t →
  (db_scan d (ts_prefix s) (Some (fmt016 t)) None).*1
    = index_key s <$> filter (at_or_after t) (log d s).
Proof.
  intros Hwf Hs Htl Ht. apply (StronglySorted_ext str_lt); [apply db_scan_sorted|..].
  - pose proof (index_sorted d s Hwf Hs Htl) as Hsort. revert Hsort. generalize (log d s). clear.
    intros l. induction l as [|e l IH]; [done|]. rewrite fmap_cons, filter_cons.
    intros [Hsort Hall]%StronglySorted_inv. case_decide; [|by apply IH]. rewrite fmap_cons.
    constructor; [by apply IH|]. rewrite Forall_fmap, Forall_forall in *.
    intros f [_ Hf]%list_elem_of_filter. by apply Hall.
  - intros k. rewrite !list_elem_of_fmap. split.
    + intros ([k' b] & -> & (Hg & suf & -> & Hb)%db_scan_elem).
      destruct (wf_shaped _ Hwf _ _ Hg) as (K & HK & Hok & _).
      destruct (ts_family K s suf Hok Hs (eq_sym HK)) as (ts & v & -> & ->).
      destruct Hok as (_ & Hts & Hv). rewrite HK in Hg.
      destruct (proj1 (tl_index _ _ Htl ts v Hts Hv) (mk_is_Some _ _ Hg)) as (e & He & <- & <-).
      exists e. split; [done|]. apply list_elem_of_filter. split; [|done].
      destruct Hb as [Hb _]. rewrite ts_bound in Hb by key_bound. by apply Z.leb_le in Hb.
    + intros (e & -> & [Hge He]%list_elem_of_filter).
      pose proof (tl_num _ _ Htl e He) as Hts.
      assert (key_num (env_version e)) as Hv by (apply log_elem in He as [? _]; [done|apply Hwf|done]).
      destruct (proj2 (tl_index _ _ Htl (env_ts_ms e) (env_version e) Hts Hv)) as [b Hb]; [by exists e|].
      exists (index_key s e, b). split; [done|]. apply db_scan_elem. split; [done|].
      exists (fmt016 (env_ts_ms e) +:+ "/" +:+ fmt016 (env_version e)). split.
      * unfold index_key, ts_key, ts_prefix. by rewrite !str_app_assoc.
      * split; [|done]. rewrite ts_bound by key_bound. by apply Z.leb_le.
Qed.

(** [seek_timestamp] returns the version of the first event of the log at
    or after the target time, and [None] when there is none. *)
Theorem seek_timestamp_first d s t :
  wf d → slash_free s → timeline d s → key_lim t →
  seek_timestamp d s t = Ok (env_version <$> head (filter (λ e, t ≤ env_ts_ms e) (log d s))).
Proof.
  intros Hwf Hs Htl Ht. unfold seek_timestamp. pose proof (seek_scan d s t Hwf Hs Htl Ht) as E.
  change (filter (at_or_after t) (log d s)) with (filter (λ e, t ≤ env_ts_ms e) (log d s)) in E.
  destruct (db_scan d (ts_prefix s) (Some (fmt016 t)) None) as [|[k b] l];
    destruct (filter (λ e, t ≤ env_ts_ms e) (log d s)) as [|e l'] eqn:Ef; try done.
  injection E as -> _. cbn [head fst]. unfold index_key.
  assert (e ∈ filter (λ e, t ≤ env_ts_ms e) (log d s)) as [_ He]%list_elem_of_filter by (rewrite Ef; by left).
  destruct (proj1 (log_elem d s e (wf_shaped _ Hwf) Hs) He) as [Hv _].
  by rewrite version_suffix_ts by key_bound.
Qed.

Lemma final_ts_max lt envs :
  StronglySorted (λ e f, env_ts_ms e ≤ env_ts_ms f) envs →
  ∀ x, x ∈ envs → env_ts_ms x ≤ final_ts lt envs.
Proof.
  intros Hs x Hx. unfold final_ts. destruct envs as [|y envs _] using rev_ind; [by apply not_elem_of_nil in Hx|].
  rewrite last_snoc. simpl. apply elem_of_app in Hx as [Hx | ->%list_elem_of_singleton]; [|done].
  exact (StronglySorted_app_1_elem_of _ envs [y] x y Hs Hx ltac:(by left)).
Qed.

Lemma timeline_append o s expd tok evs d tk d' :
  wf d → slash_free s → (∀ n, oracle_ok (o n)) → timeline d s →
  commit_appends o quiet s expd None tok evs true d = (Ok tk, d') →
  key_num (first_version (ticket_info tk)) → key_num (last_version (ticket_info tk)) → timeline d' s.
Proof.
  intros Hwf Hs Ho Htl E Hf Hl. rewrite commit_appends_quiet in E.
  destruct (check_batch evs) as [[]|] eqn:Hb; [|done].
  destruct (append_plan _ _ _ _ _ _ _ _ _) as [[[info sq] ws]|] eqn:Ep; [|done]. injection E as <- <-.
  assert (takes_effect d (db_apply d (render_ws (ws ++ [seq_write sq]))) (o 0%nat) (durable_sequence d)
    s expd None tok evs true info) as Heff by by exists sq, ws.
  destruct (effect_batch _ _ _ _ _ _ _ _ _ _ _ Hwf Hs (Ho _) Hb Heff Hf Hl)
    as (tl & envs & Ht & Htok & _ & _ & _ & _ & _ & Hbo & Hok & _ & Hsh' & Ht' & Hlog & (q & Hq & Hd) & _).
  specialize (Hlog eq_refl). set (d' := db_apply d _) in *. simpl in Hf, Hl.
  destruct (tail_shaped d' s Hsh' Hs) as (t' & E' & Hnt). rewrite Ht' in E'. injection E' as <-.
  destruct Htl as [Hidx Hnum Hsorted Htail]. specialize (λ e, Htail e tl Ht) as Hbefore.
  pose proof (bo_start _ _ _ _ Hbo) as Hstart. rewrite Forall_forall in Hstart. split.
  - intros ts v Hts Hv. rewrite Hd, append_index, Hidx by done. rewrite <-Hd, Hlog. setoid_rewrite elem_of_app.
    split; [intros [(e & He & ? & ?) | (e & He & ? & ?)]|intros (e & [He|He] & ? & ?)]; eauto 6.
  - intros e. rewrite Hlog, elem_of_app. intros [He|He]; [by apply Hnum|by apply Hok].
  - rewrite Hlog. apply StronglySorted_app_2; [|done|apply (bo_times _ _ _ _ Hbo)].
    intros e f He Hfin. specialize (Hbefore e He). specialize (Hstart f Hfin). lia.
  - intros e tl' E'. rewrite Ht' in E'. injection E' as <-. simpl. rewrite Hlog, elem_of_app.
    assert (∀ x, x ∈ envs → env_ts_ms x ≤ final_ts (map_or 0 tail_ts_ms tl) envs) as Hfin.
    { apply final_ts_max, Hbo. }
    intros [He|He]; [|by apply Hfin]. specialize (Hbefore e He).
    destruct envs as [|x envs]; [done|]. specialize (Hfin x ltac:(by left)). specialize (Hstart x ltac:(by left)).
    lia.
Qed.

(** Appends keep the time index exact: with the index on, a stream whose
    index matches its log still has one that does after an append, and
    timestamps still never move backwards. *)
Theorem append_keeps_timeline o s expd evs d tk d' :
  wf d → slash_free s → (∀ n, oracle_ok (o n)) → timeline d s →
  append_lazy o quiet s expd evs d = (Ok tk, d') → fits (ticket_info tk) → timeline d' s.
Proof. intros Hwf Hs Ho Htl E [Hf Hl]. by eapply (timeline_append o s expd None evs d). Qed.

(** ** Listing *)

(** No fork child is called like one of the suffixes the listing looks for. *)
Definition plain_names (d : db) : Prop :=
  ∀ s c, slash_free s → slash_free c → is_Some (db_get d (render (KPin s c))) → c ≠ "tail" ∧ c ≠ "deleted".

(** What the loop makes of one key. *)
Definition listed (suffix : string) (kv : string * bytes) : option string :=
  rest ← strip_prefix "m/" kv.1; strip_suffix suffix rest.

Lemma list_loop_eq kvs st del :
  list_loop st del kvs =
    (st ++ omap (listed "/tail") kvs,
     del ++ omap (λ kv, match listed "/tail" kv with Some _ => None | None => listed "/deleted" kv end) kvs).
Proof.
  revert st del. induction kvs as [|[k b] kvs IH]; intros st del; cbn [list_loop omap list_omap];
    [by rewrite !app_nil_r|].
  destruct (strip_prefix "m/" k) as [rest|] eqn:Ep.
  - assert (∀ suf, listed suf (k, b) = strip_suffix suf rest) as Hl.
    { intros suf. unfold listed. cbn [fst]. by rewrite Ep. }
    rewrite !Hl. destruct (strip_suffix "/tail" rest) as [x|]; [rewrite IH; by rewrite <-app_assoc|].
    destruct (strip_suffix "/deleted" rest) as [x|]; rewrite IH; [by rewrite <-app_assoc|done].
  - assert (∀ suf, listed suf (k, b) = None) as Hl by (intros suf; unfold listed; cbn [fst]; by rewrite Ep).
    rewrite !Hl. apply IH.
Qed.

Lemma listed_Some f kv x : listed ("/" +:+ f) kv = Some x ↔ kv.1 = m_key x f.
Proof.
  unfold listed, m_key. destruct (strip_prefix "m/" kv.1) as [rest|] eqn:Ep; simpl.
  - apply strip_prefix_Some in Ep as ->. rewrite strip_suffix_Some. split; [by intros ->|].
    by intros ?%str_app_inj_l.
  - split; [done|]. intros E. by rewrite E, strip_prefix_app in Ep.
Qed.

(** Which structured keys end in [/f] under the metadata prefix. *)
Lemma meta_key_field K x f :
  key_ok K → slash_free f → (String.length f < 16)%nat → render K = m_key x f →
  match K with
  | KTail s => f = "tail" ∧ x = s
  | KDeleted s => f = "deleted" ∧ x = s
  | KFence _ => f = "fence" | KTrim _ => f = "trim" | KFork _ => f = "fork"
  | KPin _ c => f = c
  | _ => False
  end.
Proof.
  intros Hok Hf Hlen E.
  assert (after_last_slash (render K) = f) as Hlast.
  { rewrite E. unfold m_key. rewrite <-str_app_assoc. by apply after_last_slash_app. }
  destruct K as [s v|s|s|s|s|s|s c|s v|s ts v|s q|u|u|]; try discriminate E.
  - assert (f = "tail") as -> by (rewrite <-Hlast; by apply (after_last_slash_app ("m/" +:+ s))).
    split; [done|]. change ("m/" +:+ s +:+ "/tail" = "m/" +:+ x +:+ "/tail") in E.
    apply str_app_inj_l in E. by apply str_app_inj_r in E.
  - rewrite <-Hlast. by apply (after_last_slash_app ("m/" +:+ s)).
  - rewrite <-Hlast. by apply (after_last_slash_app ("m/" +:+ s)).
  - assert (f = "deleted") as -> by (rewrite <-Hlast; by apply (after_last_slash_app ("m/" +:+ s))).
    split; [done|]. change ("m/" +:+ s +:+ "/deleted" = "m/" +:+ x +:+ "/deleted") in E.
    apply str_app_inj_l in E. by apply str_app_inj_r in E.
  - rewrite <-Hlast. by apply (after_last_slash_app ("m/" +:+ s)).
  - rewrite <-Hlast. destruct Hok as [_ Hc].
    change (render (KPin s c)) with ("m/" +:+ s +:+ "/forks/" +:+ c).
    replace ("m/" +:+ s +:+ "/forks/" +:+ c) with (("m/" +:+ s +:+ "/forks") +:+ "/" +:+ c)
      by (by rewrite !str_app_assoc). by apply after_last_slash_app.
  - destruct Hok as [_ Hv]. pose proof (key_num_lim v Hv) as Hvl.
    assert (f = fmt016 v) as ->.
    { rewrite <-Hlast. change (render (KRollback s v)) with ("m/" +:+ s +:+ "/rollback/" +:+ fmt016 v).
      replace ("m/" +:+ s +:+ "/rollback/" +:+ fmt016 v) with (("m/" +:+ s +:+ "/rollback") +:+ "/" +:+ fmt016 v)
        by (by rewrite !str_app_assoc). apply after_last_slash_app. by apply fmt016_slash_free. }
    rewrite fmt016_length in Hlen by done. lia.
Qed.

Lemma listed_elem d f x :
  x ∈ omap (listed ("/" +:+ f)) (db_scan d "m/" None None) ↔ is_Some (db_get d (m_key x f)).
Proof.
  rewrite list_elem_of_omap. split.
  - intros ([k b] & (Hg & _)%db_scan_elem & E%listed_Some). simpl in E. rewrite <-E. eauto.
  - intros [b Hb]. exists (m_key x f, b). split; [|by apply listed_Some].
    apply db_scan_elem. split; [done|]. by exists (x +:+ "/" +:+ f).
Qed.

Lemma omap_NoDup {A B} (f : A → option B) l :
  NoDup l → (∀ a b y, a ∈ l → b ∈ l → f a = Some y → f b = Some y → a = b) → NoDup (omap f l).
Proof.
  intros Hnd Hinj. induction Hnd as [|a l Ha Hnd IH]; [constructor|]. cbn [omap list_omap].
  assert (NoDup (omap f l)) as IH' by (apply IH; intros x z y Hx Hz; apply Hinj; by right).
  destruct (f a) as [y|] eqn:E; [|done]. constructor; [|done].
  intros (b & Hb & Hfb)%list_elem_of_omap. apply Ha. rewrite (Hinj a b y); [done|by left|by right|done..].
Qed.

Lemma listed_NoDup d f : NoDup (omap (listed ("/" +:+ f)) (db_scan d "m/" None None)).
Proof.
  apply omap_NoDup.
  - apply (StronglySorted_irrefl_NoDup entry_lt), entries_sorted, db_scan_sorted.
  - intros [k1 b1] [k2 b2] y Hin1 Hin2 E1%listed_Some E2%listed_Some. simpl in *. subst.
    f_equal. by eapply scan_fst_inj.
Qed.

Lemma meta_field_owner d x f :
  shaped d → plain_names d → f = "tail" ∨ f = "deleted" → is_Some (db_get d (m_key x f)) → slash_free x.
Proof.
  intros Hsh Hpl Hf [b Hb]. destruct (Hsh _ _ Hb) as (K & HK & Hok & _).
  assert (slash_free f ∧ (String.length f < 16)%nat) as [Hsf Hlen]
    by (destruct Hf as [-> | ->]; (split; [done|simpl; lia])).
  pose proof (meta_key_field K x f Hok Hsf Hlen (eq_sym HK)) as Hm.
  destruct K; try done; try (by destruct Hf as [-> | ->]); try (by destruct Hm; subst).
  destruct Hok as [Hs Hc]. rewrite HK in Hb. subst f.
  by destruct (Hpl _ _ Hs Hc (mk_is_Some _ _ Hb)); destruct Hf.
Qed.

(** [list_streams] lists exactly the streams that exist and are not
    deleted, each one once. *)
Theorem list_streams_exact d :
  wf d → plain_names d →
  NoDup (list_streams d)
  ∧ ∀ s, s ∈ list_streams d ↔
      slash_free s ∧ (∃ t, tail d s = Ok (Some t)) ∧ is_deleted d s = false.
Proof.
  intros Hwf Hpl. unfold list_streams. rewrite list_loop_eq. cbn [app].
  set (del := omap _ (db_scan d "m/" None None)). pose proof (wf_shaped _ Hwf) as Hsh.
  assert (∀ s, slash_free s → s ∈ del ↔ is_deleted d s = true) as Hdel.
  { intros s Hs. unfold del. rewrite list_elem_of_omap. unfold is_deleted. split.
    - intros ([k b] & (Hg & _)%db_scan_elem & E). destruct (listed "/tail" (k, b)); [done|].
      apply (listed_Some "deleted") in E. simpl in E. subst k. by rewrite Hg.
    - destruct (db_get d (m_key s "deleted")) as [b|] eqn:Hg; [|done]. intros _.
      exists (m_key s "deleted", b). split.
      + apply db_scan_elem. split; [done|]. by exists (s +:+ "/" +:+ "deleted").
      + destruct (listed "/tail" (m_key s "deleted", b)) as [x|] eqn:El.
        * exfalso. apply (listed_Some "tail") in El. simpl in El. rewrite render_deleted in El.
          by destruct (meta_key_field (KDeleted s) x "tail" Hs) as [? _]; [|simpl; lia|..].
        * by apply (listed_Some "deleted"). }
  split.
  - apply NoDup_filter, listed_NoDup.
  - intros s. rewrite list_elem_of_filter, (listed_elem d "tail"). split.
    + intros [Hnd Hs]. pose proof (meta_field_owner d s "tail" Hsh Hpl ltac:(by left) Hs) as Hsf.
      split_and!; [done|..].
      * destruct (tail_shaped d s Hsh Hsf) as (tl & Htl & _). destruct Hs as [b Hb].
        unfold tail, get_json in *. rewrite Hb in *. simpl in *.
        destruct (from_slice b) as [t|]; [|done]. by exists t.
      * rewrite Hdel in Hnd by done. by destruct (is_deleted d s).
    + intros (Hs & (t & Ht) & Hd). split; [rewrite Hdel by done; by rewrite Hd|].
      unfold tail, get_json in Ht. destruct (db_get d (m_key s "tail")); [|done]. eauto.
Qed.
End index.

(** ** Instances *)

Import Samples.

Lemma record_keys_ordered_witness :
  str_ltb (r_key "a" 9) (r_key "a" 10) = (9 <? 10) ∧ version_suffix (r_key "a" 9) = Ok 9.
Proof. apply (record_keys_ordered "a" 9 10); small. Defined.

Lemma keys_disjoint_witness : KRec "a" 1 = KRec "a" 1.
Proof. apply (keys_disjoint (KRec "a" 1) (KRec "a" 1)); [split; small|split; small|reflexivity]. Defined.

Lemma timeline_empty : timeline mem_empty "a".
Proof.
  assert (log mem_empty "a" = []) as E by run. split; rewrite ?E.
  - intros ts v _ _. split; [by intros [? ?]|]. by intros (e & He%not_elem_of_nil & _).
  - by intros e He%not_elem_of_nil.
  - constructor.
  - intros e tl _. by intros He%not_elem_of_nil.
Qed.

Lemma timeline_d1 : timeline d1 "a".
Proof.
  apply (timeline_append (orc 0) "a" NoStream None [ev1; ev2] mem_empty (mkTicket (mkInfo 0 1 1) 1));
    [apply wf_mem_empty|reflexivity|apply orc_ok|apply timeline_empty|run|small|small].
Qed.

Lemma seek_timestamp_first_witness :
  seek_timestamp d1 "a" 1001 = Ok (env_version <$> head (filter (λ e, 1001 ≤ env_ts_ms e) (log d1 "a"))).
Proof. apply (seek_timestamp_first d1 "a" 1001); [apply d1_wf|reflexivity|apply timeline_d1|small]. Defined.

Example seek_d1 : seek_timestamp d1 "a" 1001 = Ok (Some 1) ∧ seek_timestamp d1 "a" 1002 = Ok None.
Proof. split; run. Qed.

Lemma append_keeps_timeline_witness : timeline (append_lazy (orc 7) quiet "a" (Exact 1) [ev1] d1).2 "a".
Proof.
  apply (append_keeps_timeline (orc 7) "a" (Exact 1) [ev1] d1 (mkTicket (mkInfo 2 2 3) 2));
    [apply d1_wf|reflexivity|apply orc_ok|apply timeline_d1|run|split; small].
Defined.

Lemma d2_plain : plain_names d2.
Proof.
  intros s c Hs Hc [b Hb]. rewrite <-render_pin in Hb.
  pose proof (wf_pins _ d2_wf s c b Hs Hc Hb) as [_ Hf].
  assert (m_key c "fork" ∈ (db_scan d2 "m/" None None).*1) as Hin.
  { unfold fork_ref, get_json in Hf. destruct (db_get d2 (m_key c "fork")) as [b'|] eqn:E; [|discriminate Hf].
    apply list_elem_of_fmap. exists (m_key c "fork", b'). split; [reflexivity|]. apply db_scan_elem.
    split; [exact E|]. exists (c +:+ "/fork"). split; [reflexivity|split; exact I]. }
  assert ((db_scan d2 "m/" None None).*1 = ["m/a/forks/b"; "m/a/tail"; "m/b/fork"; "m/b/tail"]) as E by run.
  rewrite E in Hin. split; intros ->; vm_compute in Hin;
    repeat (apply elem_of_cons in Hin as [Hin|Hin]; [discriminate Hin|]); by apply not_elem_of_nil in Hin.
Qed.

Lemma list_streams_exact_witness :
  NoDup (list_streams d2)
  ∧ ∀ s, s ∈ list_streams d2 ↔
      slash_free s ∧ (∃ t, tail d2 s = Ok (Some t)) ∧ is_deleted d2 s = false.
Proof. apply (list_streams_exact d2); [apply d2_wf|apply d2_plain]. Defined.

(** ** Names the key format does not separate

    Nothing rejects a stream id with a slash, and nothing reserves the words
    of the metadata fields. *)

(** The events of [a/b] show up in a read of [a]. *)
Theorem slash_leaks :
  (let d := (append_lazy (orc 0) quiet "a/b" NoStream [ev1] mem_empty).2 in
   match read_stream d "a" (Unbounded, Unbounded) with Ok evs => ev_type <$> evs | Err _ => [] end)
  = ["opened"].
Proof. run. Qed.

(** A fork called [tail] makes the listing report a stream that does not
    exist. *)
Theorem phantom_stream :
  list_streams (fork (λ d, d) "a" 0 "tail" d1).2 = ["a/forks"; "a"; "tail"].
Proof. run. Qed.

(** An append to a deleted stream succeeds, and no reader sees it. *)
Theorem append_after_delete :
  (let d := (delete_stream (λ d, d) "a" d1).2 in
   let r := append_lazy (orc 7) quiet "a" Any [ev1] d in
   (rmap ticket_info r.1, read_stream r.2 "a" (Unbounded, Unbounded)))
  = (Ok (mkInfo 2 2 3), Ok []).
Proof. run. Qed.

(** [append_at] below a fork point gives the child two events with one
    version. *)
Theorem append_at_duplicates :
  (let d := (append_at (orc 7) quiet "b" 0 Any [ev2] d2).2 in
   match read_history d "b" (Unbounded, Unbounded) with Ok evs => ev_version <$> evs | Err _ => [] end)
  = [0; 0].
Proof. run. Qed.

(** A rollback window also hides what is appended after it. *)
Theorem trim_hides_later_appends :
  (let d := (trim (λ d, d) "a" 1 1 d1).2 in
   let d := (append_lazy (orc 7) quiet "a" Any [ev1] d).2 in
   match read_stream d "a" (Unbounded, Unbounded) with Ok evs => ev_version <$> evs | Err _ => [] end)
  = [0].
Proof. run. Qed.
