(* ===== verification/Reader.v ===== *)
(** * The read-only side ([src/reader.rs])

    [EventStoreReader] and the poll loop behind its followers.  A follower is
    a function of the states its polls see, one per tick; its value is what it
    sends, in order, to a receiver that is not dropped. *)

From S2P Require Import Prelude Text Slate Types Keys Kv Fork Store Batch Append Wf Commit.
From S2P Require Import Appended Ops Purge History Txn Invariant Samples.
Local Open Scope Z_scope.

Section reader.
Context `{SlateDb} `{Codecs}.

Definition reader_read_stream (d : db) (stream : string) (range : Bound * Bound) : R (list Event) :=
  read_events d stream range.

(** System events are filtered out of a reader's histories. *)
Definition reader_read_history (d : db) (stream : string) (range : Bound * Bound) : R (list Event) :=
  let '(lo, hi) := bounds range in
  let? events := resolve_history d stream lo hi in
  Ok (filter (λ e, starts_with "$" (ev_type e) = false) events).

Definition reader_stream_version (d : db) (stream : string) : R (option Version) :=
  let? events := reader_read_stream d stream (Unbounded, Unbounded) in
  Ok (ev_version <$> last events).

Definition reader_latest_snapshot (d : db) (stream : string) : R (option SnapshotRecord) :=
  latest_snapshot d stream.

Definition reader_compaction_records (d : db) : R (list CompactionRecord) := compaction_records d.

Section follow.
Context {K T : Type} (gt : K → K → bool) (dec : string → bytes → R (option (K * T))).

(** One poll: the cursor after it and the items found. *)
Fixpoint poll (cursor : option K) (kvs : list (string * bytes)) : option K * R (list T) :=
  match kvs with
  | [] => (cursor, Ok [])
  | (key, value) :: kvs =>
      match dec key value with
      | Err e => (cursor, Err e)
      | Ok None => poll cursor kvs
      | Ok (Some (k, item)) =>
          if map_or true (λ c, gt k c) cursor then
            let '(cursor, r) := poll (Some k) kvs in (cursor, rmap (cons item) r)
          else poll cursor kvs
      end
  end.

(** The loop over the states of successive ticks. *)
Fixpoint follow (prefix : string) (cursor : option K) (polls : list db) : list (R T) :=
  match polls with
  | [] => []
  | d :: polls =>
      match poll cursor (db_scan d prefix None None) with
      | (cursor, Ok items) => (Ok <$> items) ++ follow prefix cursor polls
      | (_, Err e) => [Err e]
      end
  end.
End follow.

Definition decode_event (from_version : Version) (_ : string) (value : bytes) :
    R (option (Version * Event)) :=
  let? env := Envelope_decode value in
  Ok (if from_version <=? env_version env then Some (env_version env, from_parts env) else None).

Definition follow_stream (stream : string) (from_version : Version) (polls : list db) : list (R Event) :=
  follow Z.gtb (decode_event from_version) (r_prefix stream) None polls.

Definition decode_compaction (key : string) (value : bytes) : R (option (string * CompactionRecord)) :=
  match from_slice value with
  | Some r => Ok (Some (key, r))
  | None => Err Encoding
  end.

Definition follow_compactions (polls : list db) : list (R CompactionRecord) :=
  follow (λ k c, str_ltb c k) decode_compaction COMPACTIONS_PREFIX None polls.
End reader.

(** Successive states of a log that only grows. *)
Fixpoint growing (l : list Envelope) (logs : list (list Envelope)) : Prop :=
  match logs with
  | [] => True
  | l' :: logs => (∃ new, l' = l ++ new) ∧ growing l' logs
  end.

Lemma growing_last l logs : logs ≠ [] → growing l logs → ∃ rest, default l (last logs) = l ++ rest.
Proof.
  revert l. induction logs as [|l' logs IH]; intros l Hne Hg; [done|]. destruct Hg as [[new ->] Hg].
  destruct logs as [|l2 logs]; [by exists new|]. destruct (IH (l ++ new) ltac:(done) Hg) as [rest Hr].
  exists (new ++ rest). rewrite app_assoc, <-Hr, last_cons_cons.
  destruct (last (l2 :: logs)) eqn:E; [done|]. by apply last_None in E.
Qed.

Section follow_laws.
Context `{SlateDbLaws} `{CodecLaws}.
Context (from : Version).

(** What a poll lets through. *)
Definition past (cursor : option Version) (e : Envelope) : bool :=
  (from <=? env_version e) && map_or true (λ c, c <? env_version e) cursor.

Definition next_cursor (cursor : option Version) (items : list Envelope) : option Version :=
  match last items with Some e => Some (env_version e) | None => cursor end.

Lemma poll_eq kvs envs cursor :
  Forall2 (λ kv e, Envelope_decode kv.2 = Ok e) kvs envs → StronglySorted version_lt envs →
  poll Z.gtb (decode_event from) cursor kvs =
    (next_cursor cursor (filter (λ e, past cursor e = true) envs),
     Ok (from_parts <$> filter (λ e, past cursor e = true) envs)).
Proof.
  intros Hf. revert cursor. induction Hf as [|[k b] e kvs envs Hd Hf IH]; intros cursor Hs; [done|].
  apply StronglySorted_inv in Hs as [Hs Hall]. cbn [poll]. unfold decode_event at 1.
  cbn [snd] in Hd. rewrite Hd. cbn [rbind]. rewrite filter_cons.
  assert (past cursor e = (from <=? env_version e) && map_or true (λ c, env_version e >? c) cursor) as Hp.
  { unfold past. destruct cursor; simpl; [by rewrite Z.gtb_ltb|done]. }
  rewrite Hp. destruct (Z.leb_spec from (env_version e)) as [Hle|Hgt]; simpl; [|by rewrite IH].
  destruct (map_or true (λ c, env_version e >? c) cursor) eqn:Ec; [|by rewrite IH].
  rewrite decide_True by done. rewrite IH by done.
  assert (filter (λ x, past (Some (env_version e)) x = true) envs
    = filter (λ x, past cursor x = true) envs) as ->.
  { apply filter_ext_in. intros x Hx. rewrite Forall_forall in Hall. specialize (Hall x Hx).
    unfold version_lt in Hall. unfold past. destruct cursor as [c|]; simpl in *;
      rewrite ?Z.gtb_ltb, ?andb_true_iff, ?Z.leb_le, ?Z.ltb_lt in *; lia. }
  simpl. f_equal. unfold next_cursor. destruct (filter _ envs) as [|x l]; [done|].
  rewrite last_cons_cons. destruct (last (x :: l)) eqn:E; [done|]. by apply last_None in E.
Qed.

Lemma scan_decodes d s :
  shaped d → slash_free s →
  Forall2 (λ kv e, Envelope_decode kv.2 = Ok e) (db_scan d (r_prefix s) None None) (log d s).
Proof.
  intros Hsh Hs. unfold log.
  assert (∀ kv, kv ∈ db_scan d (r_prefix s) None None → ∃ e, Envelope_decode kv.2 = Ok e) as Hall.
  { intros [k b] Hin. destruct (db_scan_rec d s _ _ k b Hsh Hs Hin) as (v & e & ? & ? & ? & ? & ?). by exists e. }
  induction (db_scan d (r_prefix s) None None) as [|kv l IH]; [constructor|]. cbn [omap list_omap].
  destruct (Hall kv) as [e He]; [by left|]. unfold decode_entry. rewrite He. constructor; [done|].
  apply IH. intros x Hx. apply Hall. by right.
Qed.

(** The cursor of a follower that has delivered [l] from [from] on. *)
Definition cursor_of (l : list Envelope) : option Version :=
  env_version <$> last (filter (λ e, from ≤ env_version e) l).

Lemma past_new l new :
  StronglySorted version_lt (l ++ new) →
  filter (λ e, past (cursor_of l) e = true) (l ++ new) = filter (λ e, from ≤ env_version e) new.
Proof.
  intros Hs. pose proof (StronglySorted_app_1_elem_of version_lt l new) as Hlt.
  pose proof (StronglySorted_app_1_l _ _ _ Hs) as Hsl. specialize (λ x y, Hlt x y Hs) as Hlt'.
  rewrite filter_app, filter_none.
  - apply filter_ext_in. intros e He. unfold past, cursor_of.
    destruct (last _) as [c|] eqn:El; simpl; rewrite ?andb_true_r, ?andb_true_iff, ?Z.leb_le, ?Z.ltb_lt; [|done].
    apply last_Some_elem_of, list_elem_of_filter in El as [_ Hc].
    specialize (Hlt' c e Hc He). unfold version_lt in Hlt'. lia.
  - intros e He. unfold past, cursor_of. rewrite andb_true_iff, Z.leb_le. intros [Hge Hc].
    assert (e ∈ filter (λ e, from ≤ env_version e) l) as Hin by by apply list_elem_of_filter.
    destruct (filter (λ e, from ≤ env_version e) l) as [|c t _] eqn:Ef using rev_ind;
      [by apply not_elem_of_nil in Hin|].
    rewrite last_snoc in Hc. simpl in Hc. apply Z.ltb_lt in Hc.
    assert (StronglySorted version_lt (t ++ [c])) as Hst by (rewrite <-Ef; by apply StronglySorted_filter).
    apply elem_of_app in Hin as [Hin | ->%list_elem_of_singleton]; [|lia].
    pose proof (StronglySorted_app_1_elem_of version_lt t [c] e c Hst Hin ltac:(by left)) as Hec.
    unfold version_lt in Hec. lia.
Qed.

Lemma cursor_next l new :
  next_cursor (cursor_of l) (filter (λ e, from ≤ env_version e) new) = cursor_of (l ++ new).
Proof.
  unfold next_cursor, cursor_of. rewrite filter_app, last_app. by destruct (last (filter _ new)).
Qed.

Lemma follow_growing s l polls :
  slash_free s → Forall shaped polls → growing l ((λ d, log d s) <$> polls) →
  follow Z.gtb (decode_event from) (r_prefix s) (cursor_of l) polls =
    Ok <$> (from_parts <$> filter (λ e, from ≤ env_version e)
      (drop (length l) (default l (last ((λ d, log d s) <$> polls))))).
Proof.
  intros Hs. revert l. induction polls as [|d polls IH]; intros l Hsh Hg; cbn [follow].
  { simpl. by rewrite drop_all. }
  apply Forall_cons in Hsh as [Hd Hsh]. destruct Hg as [[new Hnew] Hg].
  pose proof (log_sorted d s Hd Hs) as Hsort. rewrite Hnew in Hsort.
  rewrite (poll_eq _ (log d s)) by (by apply scan_decodes || by rewrite Hnew).
  rewrite Hnew, past_new, cursor_next by done. rewrite Hnew in Hg. rewrite IH by done.
  rewrite <-fmap_app, <-fmap_app, <-filter_app. do 2 f_equal. f_equal.
  rewrite fmap_cons, last_cons. cbn [default].
  pose proof (growing_last (l ++ new) ((λ d, log d s) <$> polls)) as Hr.
  destruct (last ((λ d, log d s) <$> polls)) as [x|] eqn:El; cbn [default from_option] in *.
  - destruct polls as [|d' polls]; [done|]. destruct Hr as [rest ->]; [done|done|].
    unfold id. rewrite drop_app_length, <-app_assoc, drop_app_length. done.
  - unfold id. rewrite Hnew, drop_app_length, drop_all. by rewrite app_nil_r.
Qed.

(** The cursor orders deliveries whatever happens to the log between polls. *)
Lemma follow_sorted s polls :
  slash_free s → Forall shaped polls → ∀ cursor, ∃ envs,
    follow Z.gtb (decode_event from) (r_prefix s) cursor polls = Ok <$> (from_parts <$> envs)
    ∧ StronglySorted version_lt envs
    ∧ ∀ e, e ∈ envs → past cursor e = true ∧ ∃ d, d ∈ polls ∧ e ∈ log d s.
Proof.
  intros Hs Hsh. induction Hsh as [|d polls Hd Hsh IH]; intros cursor; cbn [follow].
  { exists []. split_and!; [done|constructor|]. by intros e He%not_elem_of_nil. }
  pose proof (log_sorted d s Hd Hs) as Hsort. rewrite (poll_eq _ (log d s)) by (done || by apply scan_decodes).
  set (new := filter (λ e, past cursor e = true) (log d s)).
  assert (StronglySorted version_lt new) as Hnew by by apply StronglySorted_filter.
  destruct (IH (next_cursor cursor new)) as (envs & -> & Hse & Hpast). exists (new ++ envs).
  assert (∀ e, e ∈ envs → past cursor e = true ∧ ∀ x, x ∈ new → version_lt x e) as Hlt.
  { intros e He. destruct (Hpast e He) as [Hp _]. revert Hp. unfold next_cursor.
    destruct (last new) as [c|] eqn:El; [|intros Hp; apply last_None in El; rewrite El; split; [done|];
      by intros x Hx%not_elem_of_nil].
    assert (past cursor c = true) as Hc by (apply last_Some_elem_of, list_elem_of_filter in El as [? _]; done).
    revert Hc. unfold past. destruct cursor as [c'|]; simpl; rewrite ?andb_true_iff, ?Z.leb_le, ?Z.ltb_lt;
      intros Hc [Hp1 Hp2]; (split; [lia|]); intros x Hx; apply last_Some in El as [l' El]; rewrite El in Hx, Hnew;
      (apply elem_of_app in Hx as [Hx | ->%list_elem_of_singleton]; [|unfold version_lt; lia]);
      pose proof (StronglySorted_app_1_elem_of version_lt l' [c] x c Hnew Hx ltac:(by left)) as Hxc;
      unfold version_lt in *; lia. }
  rewrite !fmap_app. split_and!; [done|apply StronglySorted_app_2; [|done..]; intros x e Hx He; by apply Hlt|].
  intros e [He | He]%elem_of_app; [|split; [by apply Hlt|]; destruct (Hpast e He) as (_ & x & ? & ?);
    exists x; split; [by right|done]].
  apply list_elem_of_filter in He as [? ?]. split; [done|]. exists d. split; [by left|done].
Qed.

(** C39: [follow_stream] delivers each new event once.  Whatever happens to the
    stream between polls, the deliveries are stored events from the start
    version on, in strictly increasing version order, and never an error; and
    when the log grows from poll to poll, they are exactly the last log's
    events from the start version on. *)
Theorem follow_stream_once s polls :
  slash_free s → Forall shaped polls →
  (∃ envs, follow_stream s from polls = Ok <$> (from_parts <$> envs) ∧ StronglySorted version_lt envs
    ∧ ∀ e, e ∈ envs → from ≤ env_version e ∧ ∃ d, d ∈ polls ∧ e ∈ log d s)
  ∧ (growing [] ((λ d, log d s) <$> polls) →
     follow_stream s from polls = Ok <$> (from_parts <$>
       filter (λ e, from ≤ env_version e) (default [] (last ((λ d, log d s) <$> polls))))).
Proof.
  intros Hs Hsh. split.
  - destruct (follow_sorted s polls Hs Hsh None) as (envs & E & Hse & Hin). exists envs.
    split_and!; [exact E|done|]. intros e He. destruct (Hin e He) as [Hp Hd]. split; [|done].
    unfold past in Hp. simpl in Hp. rewrite andb_true_r in Hp. by apply Z.leb_le.
  - intros Hg. apply (follow_growing s [] polls Hs Hsh Hg).
Qed.

(** A reader's history is the fork-resolved history restricted to the
    range, less the system events, whose type starts with a dollar sign. *)
Theorem reader_history_filters d s range l :
  wf d → slash_free s → hist d s l → lim_window (bounds range).1 (bounds range).2 →
  reader_read_history d s range = Ok (from_parts <$>
    filter (λ e, starts_with "$" (env_type e) = false)
      (within (bounds range).1 (bounds range).2 l)).
Proof.
  intros Hwf Hs Hl Hw. unfold reader_read_history. destruct (bounds range) as [lo hi].
  rewrite (resolve_history_hist d s l lo hi Hwf Hs Hl Hw). cbn [rbind fst snd]. f_equal.
  induction (within lo hi l) as [|e l' IH]; [done|]. rewrite fmap_cons, !filter_cons.
  change (ev_type (from_parts e)) with (env_type e).
  destruct (decide _); [rewrite fmap_cons; by f_equal|done].
Qed.
End follow_laws.

(** ** Instances *)

Import Samples.

(** Stream [a] polled before and after one more event. *)
Definition d1_more : db := (append_lazy (orc 10) quiet "a" Any [ev2] d1).2.

Lemma d1_more_wf : wf d1_more.
Proof.
  eapply (wf_append (orc 10) quiet "a" Any None None [ev2] true d1);
    [reflexivity|apply orc_ok|apply quiet_wf, d1_wf|apply surjective_pairing|].
  intros tk Htk. assert (tk = mkTicket (mkInfo 2 2 3) 2) as ->.
  { apply (f_equal (λ r, match r with Ok t => t | Err _ => tk end)) in Htk.
    rewrite <-Htk. vm_compute. reflexivity. }
  split; small.
Qed.

Lemma follow_stream_once_witness :
  follow_stream "a" 1 [d1; d1_more] =
    Ok <$> (from_parts <$> filter (λ e, 1 ≤ env_version e)
      (default [] (last ((λ d, log d "a") <$> [d1; d1_more])))).
Proof.
  destruct (follow_stream_once 1 "a" [d1; d1_more]) as [_ Hg]; [reflexivity|..].
  - constructor; [apply d1_wf|constructor; [apply d1_more_wf|constructor]].
  - apply Hg. cbn [growing fmap list_fmap]. split_and!; [by exists (log d1 "a")| |exact I].
    exists (drop 2 (log d1_more "a")). run.
Defined.

Lemma reader_history_filters_witness :
  reader_read_history d1 "a" (Unbounded, Unbounded) = Ok (from_parts <$>
    filter (λ e, starts_with "$" (env_type e) = false) (within 0 None (vis d1 "a"))).
Proof.
  apply (reader_history_filters d1 "a" (Unbounded, Unbounded));
    [apply d1_wf|reflexivity|apply hist_root; run|split; [small|exact I]].
Defined.

(** ** Compaction feeds

    The cursor of [follow_compactions] is the journal key, and ULIDs of
    concurrent writers need not sort in commit order: a record committed late
    under a smaller ULID is in the journal but never delivered. *)

Definition d_comp1 : db :=
  (compact_with (sample_oracle 400) (λ d, d) [mkStatus 9 false] "a" (λ _, Ok [x01]) d1).2.
Definition d_comp2 : db :=
  (compact_with (sample_oracle 300) (λ d, d) [mkStatus 9 false] "a" (λ _, Ok [x01]) d_comp1).2.

Theorem compaction_not_delivered :
  match reader_compaction_records d_comp2 with Ok l => length l | Err _ => O end = 2%nat
  ∧ length (follow_compactions [d_comp1; d_comp2]) = 1%nat.
Proof. split; run. Qed.

