(* ===== verification/Frames.v ===== *)
(** * Frame lemmas of the client crates

    What the operations the client crates use (fence, append under a token,
    publication of snapshots, folds) keep of the histories of streams. *)

From S2P Require Import Prelude Text Slate Types Keys Kv Fork Store Batch Append Wf Commit.
From S2P Require Import Appended Ops Purge History Txn Invariant Samples AppendThms ForkThms RetentionThms SnapshotThms.
Local Open Scope Z_scope.

Section frames.
Context `{SlateDbLaws} `{CodecLaws}.

(** Keys no history depends on. *)
Definition aux_key (k : Key) : bool :=
  match k with
  | KFence _ | KSnap _ _ | KCompaction _ | KJob _ | KSeq | KTs _ _ _ => true
  | _ => false
  end.

Lemma aux_hist d d' x l :
  wf d → wf d' → slash_free x →
  (∀ k, key_ok k → aux_key k = false → db_get d' (render k) = db_get d (render k)) →
  hist d x l → hist d' x l.
Proof.
  intros Hwf Hwf' Hx Hget Hl. pose proof (wf_shaped _ Hwf) as Hsh.
  assert (∀ a, slash_free a → vis d' a = vis d a) as Hvis.
  { intros a Ha. apply vis_ext; [apply Hwf'|done|done|..].
    - split; intros; rewrite ?render_deleted; by apply Hget.
    - rewrite render_trim. by apply Hget.
    - apply log_ext; [apply Hwf'|done|done|]. intros v Hv. unfold stored.
      by rewrite render_rec, Hget. }
  apply (hist_same d); [done|done|done|..|by apply Hvis].
  - intros a Ha%(ancestor_slash_free _ _ _ Hsh Hx). unfold fork_ref, get_json.
    by rewrite render_fork, Hget.
  - intros y f Hy Hf. rewrite Hvis; [done|].
    by apply (forks_from_shaped d y f Hsh), (ancestor_edge d x y f).
Qed.

Lemma fence_get watch s token d r d' :
  wf d → slash_free s → fence (λ d, d) watch s token d = (r, d') →
  ∀ k, key_ok k → k ≠ KFence s → db_get d' (render k) = db_get d (render k).
Proof.
  intros Hwf Hs E k Hk Hne. destruct (fence_Ok _ _ _ _ _ _ _ E (wf_shaped _ Hwf) Hs) as [-> | [Hd _]]; [done|].
  rewrite (Hd (render k)). apply get_batch_other; [|done|].
  - apply batch_ok_one; [done|]. by destruct (fence_value token).
  - intros w ->%list_elem_of_singleton. simpl. congruence.
Qed.

Lemma fence_keeps watch s token d r d' :
  wf d → slash_free s → fence (λ d, d) watch s token d = (r, d') →
  wf d' ∧ (∀ x l, slash_free x → hist d x l → hist d' x l)
  ∧ (∀ x, slash_free x → latest_snapshot d' x = latest_snapshot d x).
Proof.
  intros Hwf Hs E. pose proof (wf_fence _ _ _ _ _ _ _ Hwf Hs Hwf E) as Hwf'.
  pose proof (fence_get watch s token d r d' Hwf Hs E) as Hget.
  split_and!; [done|..].
  - intros x l Hx. apply aux_hist; [done..|]. intros k Hk Ha. apply Hget; [done|]. by intros ->.
  - intros x Hx. unfold latest_snapshot. rewrite (scan_ext d' d); [done|apply Hwf'|apply Hwf|].
    intros K suf Hok Heq. apply Hget; [done|]. intros ->.
    destruct (snap_family _ x suf Hok Hx Heq) as (q & Hq & _). done.
Qed.

(** ** Folds *)

Lemma fold_history {T} d s l from (init : T) f :
  wf d → slash_free s → hist d s l → key_lim from →
  fold d s (Included from, Unbounded) init f =
    Ok (fold_left f (from_parts <$> within from None l) init, env_version <$> last (within from None l)).
Proof.
  intros Hwf Hs Hl Hf. unfold fold. cbn [bounds fst snd].
  rewrite (resolve_history_hist d s l) by (done || (split; done)). cbn [rbind]. rewrite fold_events_eq.
  do 2 f_equal. rewrite fmap_last. by destruct (last _).
Qed.

Lemma upto_last l v : StronglySorted version_lt l → env_version <$> last l = Some v → upto v l = l.
Proof.
  intros Hsort Hlast. apply filter_all. intros x Hx.
  destruct (last l) as [e|] eqn:El; [|done]. injection Hlast as <-. apply last_Some in El as [l' ->].
  apply elem_of_app in Hx as [Hx | ->%list_elem_of_singleton]; [|done].
  assert (version_lt x e) as Hxe; [|unfold version_lt in Hxe; lia].
  apply (StronglySorted_app_1_elem_of version_lt l' [e]); [done|done|by left].
Qed.

Lemma last_num d s l v : wf d → slash_free s → hist d s l → env_version <$> last l = Some v → key_num v.
Proof.
  intros Hwf Hs Hl Hlast. destruct (last l) as [e|] eqn:El; [|done]. injection Hlast as <-.
  apply last_Some_elem_of in El. by apply (hist_num d s l e (wf_shaped _ Hwf)).
Qed.

Lemma no_snaps d s : db_scan d (snap_prefix s) None None = [] → snaps_below d s.
Proof.
  intros E q b _ Hg. exfalso. rewrite <-render_snap in Hg.
  assert ((snap_prefix s +:+ fmt016 q, b) ∈ db_scan d (snap_prefix s) None None) as Hin.
  { apply db_scan_elem. split; [exact Hg|]. exists (fmt016 q). split; [reflexivity|split; exact I]. }
  rewrite E in Hin. by apply not_elem_of_nil in Hin.
Qed.

(** ** Histories after a version *)

Lemma within_app lo hi l1 l2 : within lo hi (l1 ++ l2) = within lo hi l1 ++ within lo hi l2.
Proof. apply filter_app. Qed.

Lemma within_within lo lo' l : within lo None (within lo' None l) = within (Z.max lo lo') None l.
Proof.
  unfold within. rewrite list_filter_filter. apply filter_ext_in. intros e _. unfold in_window. simpl.
  rewrite !andb_true_r, !Z.leb_le. lia.
Qed.

(** Stores that agree on the records from a version on have histories that
    agree from there on. *)
Lemma hist_within d d' s l l' from :
  shaped d → slash_free s → hist d s l → hist d' s l' →
  (∀ a, slash_free a → fork_ref d' a = fork_ref d a) →
  (∀ a, slash_free a → within from None (vis d' a) = within from None (vis d a)) →
  within from None l' = within from None l.
Proof.
  intros Hsh Hs Hl Hl' Hr Hv. revert l' Hl' Hs. induction Hl as [s Hf|s f l Hf Hl IH]; intros l' Hl' Hs;
    pose proof (Hr s Hs) as Hrs; rewrite Hf in Hrs;
    inversion Hl' as [? Hf'|? f' l0 Hf' Hl0]; subst; rewrite Hrs in Hf'; try done; [by apply Hv|].
  injection Hf' as <-.
  rewrite !within_app, Hv by done. f_equal.
  assert (∀ v l, within from None (upto v l) = upto v (within from None l)) as Hswap.
  { intros v x. unfold within, upto. rewrite !list_filter_filter. apply filter_ext_in. intros e _. tauto. }
  rewrite !Hswap. f_equal. apply IH; [done|].
  by apply (forks_from_shaped d s f Hsh (conj Hs Hf)).
Qed.

(** A purge below [floor] keeps what a stream shows from [floor] on. *)
Lemma purge_within d s floor n d' l :
  wf d → slash_free s → key_lim floor → purge_below s floor d = (Ok n, d') → hist d s l →
  ∃ l', hist d' s l' ∧ within floor None l' = within floor None l.
Proof.
  intros Hwf Hs Hf E Hl. pose proof (wf_shaped _ Hwf) as Hsh.
  destruct (purge_below_spec d s floor Hsh Hs Hf) as (d0 & E0 & Hw). rewrite E0 in E.
  injection E as _ <-. pose proof (purge_wf d s floor Hwf Hs Hf d0 Hw) as Hwf'.
  destruct (hist_exists d0 s Hwf' Hs) as [l' Hl']. exists l'. split; [done|].
  apply (hist_within d d0 s); [done..| |].
  - intros a Ha. unfold fork_ref, get_json. rewrite render_fork. by rewrite (purge_get d s floor).
  - intros a Ha. destruct (decide (a = s)) as [-> |Hne].
    + rewrite (purge_vis d s floor Hwf Hs Hf d0 Hw). unfold within. rewrite list_filter_filter.
      apply filter_ext_in. intros e _. split; [tauto|]. intros Hi. split; [done|].
      unfold in_window in Hi. simpl in Hi. rewrite andb_true_r, Z.leb_le in Hi.
      unfold purged, in_window. simpl. apply andb_false_iff. right. apply Z.ltb_ge. lia.
    + by rewrite (purge_vis_other d s floor Hwf Hs Hf d0 Hw).
Qed.

(** ** Streams that take appends *)

(** Nothing hides a record of [s] from the version [next] on. *)
Record writable (d : db) (s : string) (next : Version) : Prop := {
  wr_live : is_deleted d s = false;
  wr_windows : windows d s = [];
  wr_floor : floor_of d s ≤ next;
}.

Lemma writable_visible d s next e : writable d s next → next ≤ env_version e → visible d s e = true.
Proof.
  intros [Hd Hw Hf] He. unfold visible. rewrite Hd, Hw. simpl. rewrite !andb_true_r. apply Z.leb_le. lia.
Qed.

Lemma writable_ext d d' s next next' :
  shaped d → shaped d' → slash_free s → same_guards d d' s →
  db_get d (m_key s "trim") = db_get d' (m_key s "trim") → next ≤ next' →
  writable d s next → writable d' s next'.
Proof.
  intros Hsh Hsh' Hs Hg Ht Hle [Hd Hw Hf]. split.
  - unfold is_deleted in *. by rewrite <-(sg_deleted _ _ _ Hg).
  - by rewrite <-(windows_ext d d').
  - unfold floor_of, get_be in *. rewrite <-Ht. lia.
Qed.

(** Guards depend on no key outside these. *)
Lemma guards_frame d d' s :
  slash_free s →
  (∀ k, key_ok k → aux_key k = false → (∀ x v, k ≠ KRec x v) → (∀ x, k ≠ KTail x) →
     db_get d' (render k) = db_get d (render k)) →
  same_guards d d' s ∧ db_get d (m_key s "trim") = db_get d' (m_key s "trim").
Proof.
  intros Hs Hget. split; [|rewrite render_trim; symmetry; by apply Hget].
  split; intros; rewrite ?render_deleted; symmetry; by apply Hget.
Qed.
End frames.

Section own.
Context `{SlateDbLaws} `{CodecLaws}.
Context (d d' : db) (o : Oracle) (s : string) (expd : ExpectedVersion)
  (tok : option string) (evs : list NewEvent) (idx : bool) (info : CommitInfo).
Context (Hwf : wf d) (Hs : slash_free s) (Ho : oracle_ok o) (Hb : check_batch evs = Ok tt)
  (Heff : takes_effect d d' o (durable_sequence d) s expd None tok evs idx info) (Hfits : fits info).

(** What an append did to its own stream, whose tail was [tv]. *)
Record own_append (tv : option Version) (envs : list Envelope) : Prop := {
  oa_expected : expected_matches expd tv = true;
  oa_payload : payload <$> envs = evs;
  oa_nonempty : envs ≠ [];
  oa_sorted : StronglySorted version_lt envs;
  oa_after e : e ∈ envs → map_or 0 (λ v, v + 1) tv ≤ env_version e;
  oa_last : env_version <$> last envs = Some (last_version info);
  oa_tail : stream_version d' s = Ok (Some (last_version info));
  oa_wf : wf d';
  oa_get k : key_ok k → untouched s k → db_get d' (render k) = db_get d (render k);
  oa_hist l : hist d s l → writable d s (map_or 0 (λ v, v + 1) tv) → hist d' s (l ++ envs);
  oa_versions : env_version <$> envs = versions (map_or 0 (λ v, v + 1) tv) (length evs);
}.

Lemma last_versions envs f n : env_version <$> envs = versions f n → (0 < n)%nat →
  env_version <$> last envs = Some (f + Z.of_nat n - 1).
Proof.
  intros E Hn. rewrite <-fmap_last, E. unfold versions. rewrite fmap_last, last_lookup, length_seq.
  rewrite lookup_seq_lt by lia. simpl. f_equal. lia.
Qed.

Lemma append_own : ∃ tv envs, stream_version d s = Ok tv ∧ own_append tv envs.
Proof.
  pose proof Hfits as [Hf Hl].
  destruct (effect_batch d d' o _ s expd None tok evs idx info Hwf Hs Ho Hb Heff Hf Hl)
    as (tl & envs & Htl & Htok & Hexp & _ & Hne & Hfst & Hlst & Hbo & _ & Hsort & _ & Ht' & Hlog & _ & Hap).
  pose proof (effect_wf d d' o _ s expd None tok evs idx info Hwf Hs Ho Hb Heff Hf Hl) as Hwf'.
  assert (first_version info = map_or 0 (λ v, v + 1) (tail_version <$> tl)) as Hfirst.
  { rewrite Hfst. unfold first_of. destruct tl as [t|]; simpl; [|done].
    destruct Htok as [Hv _]. unfold key_num in Hv. u64_norm. done. }
  assert (0 < length evs)%nat as Hlen by (destruct evs; simpl; [done|lia]).
  exists (tail_version <$> tl), envs. split; [unfold stream_version; by rewrite Htl|].
  assert (∀ e, e ∈ envs → map_or 0 (λ v, v + 1) (tail_version <$> tl) ≤ env_version e) as Hafter.
  { intros e He. pose proof (batch_of_range _ _ _ _ _ Hbo He). lia. }
  pose proof (bo_payload _ _ _ _ Hbo) as Hpay.
  split; [done|done| |done|done| | |done| | |rewrite <-Hfirst; apply (bo_versions _ _ _ _ Hbo)].
  - intros ->. by rewrite <-Hpay in Hne.
  - rewrite (last_versions envs _ _ (bo_versions _ _ _ _ Hbo) Hlen). by rewrite Hlst.
  - unfold stream_version. rewrite Ht'. cbn [rbind fmap option_fmap option_map new_tail tail_version].
    do 2 f_equal. destruct tl as [t|]; simpl in *; [lia|done].
  - intros k Hk Hu. by apply (ap_untouched _ _ _ _ Hap).
  - intros l Hl0 Hw. assert (vis d' s = vis d s ++ envs) as Hvis.
    { unfold vis. rewrite Hlog by done. rewrite filter_app. f_equal.
      - apply filter_ext_in. intros e _. rewrite (visible_ext d d'); [done|apply Hwf|apply Hwf'|done|..].
        + by eapply append_guards.
        + by eapply append_trim.
      - apply filter_all. intros e He. rewrite <-(visible_ext d d'); [|apply Hwf|apply Hwf'|done|..].
        + eapply writable_visible; [exact Hw|]. by apply Hafter.
        + by eapply append_guards.
        + by eapply append_trim. }
    assert (∀ x, slash_free x → fork_ref d' x = fork_ref d x) as Hfr.
    { intros x Hx. unfold fork_ref, get_json. rewrite render_fork. by rewrite (ap_untouched _ _ _ _ Hap). }
    inversion Hl0 as [? Hf0|? f l0 Hf0 Hp]; clear Hpay; subst.
    + rewrite <-Hvis. apply hist_root. by rewrite Hfr.
    + rewrite <-app_assoc, <-Hvis. apply hist_fork; [by rewrite Hfr|].
      pose proof (conj Hs Hf0 : forks_from d s f) as Hff.
      apply (append_hist_other d d' o (durable_sequence d) s expd tok evs idx info); [done..| | |done].
      * by apply (forks_from_shaped d s f (wf_shaped _ Hwf)).
      * destruct (wf_acyclic _ Hwf) as [rank Hrk]. specialize (Hrk s f Hff). intros E. rewrite E in Hrk. lia.
Qed.

(** The sequence counter moves forward. *)
Lemma append_moves : durable_sequence d + Z.of_nat (length evs) < U64 → durable_sequence d < durable_sequence d'.
Proof.
  intros Hcap. destruct Heff as (q & ws & Hp & ->). unfold append_plan in Hp.
  apply rbind_Ok in Hp as (tl & _ & Hp). apply rbind_Ok in Hp as (? & _ & Hp).
  destruct (negb _); [done|].
  assert (1 ≤ Z.of_nat (length evs)) by (destruct evs; simpl; [done|lia]).
  assert (u64_add (u64_add (durable_sequence d) 1) (Z.of_nat (length evs) - 1) = q) as Hq.
  { destruct evs; [done|]. by injection Hp. } pose proof (durable_range d (wf_shaped _ Hwf)).
  rewrite !u64_add_small in Hq by (rewrite ?u64_add_small; lia).
  rewrite durable_after by lia. lia.
Qed.

Lemma append_snaps x : slash_free x → durable_sequence d + Z.of_nat (length evs) < U64 →
  snaps_below d x → snaps_below d' x.
Proof.
  intros Hx Hcap Hsn q b Hq Hg. pose proof (append_moves Hcap). destruct append_own as (tv & envs & _ & Hoa).
  rewrite (oa_get _ _ Hoa) in Hg by done. specialize (Hsn q b Hq Hg). lia.
Qed.

Lemma append_snapshot x : slash_free x → latest_snapshot d' x = latest_snapshot d x.
Proof.
  intros Hx. destruct append_own as (tv & envs & _ & Hoa). unfold latest_snapshot.
  rewrite (scan_ext d' d); [done|apply (oa_wf _ _ Hoa)|apply Hwf|].
  intros K suf Hok Heq. destruct (snap_family _ x suf Hok Hx Heq) as (q & -> & _).
  by apply (oa_get _ _ Hoa).
Qed.
End own.

(** ** Appends with room *)

(** The version after the last record. *)
Definition next_version (l : list Envelope) : Version := map_or 0 (λ v, v + 1) (env_version <$> last l).

Section room.
Context `{SlateDbLaws} `{CodecLaws}.

(** Versions and sequence numbers stay within the keys for one more batch. *)
Definition roomy (s : string) (d : db) : Prop :=
  (∀ v, stream_version d s = Ok v → map_or 0 (λ v, v + 1) v + MAX_BATCH_RECORDS < KEY_MAX - 1)
  ∧ durable_sequence d + MAX_BATCH_RECORDS < KEY_MAX - 1.

Lemma quiet_outcome o s expd tok evs idx d r d' :
  commit_appends o quiet s expd None tok evs idx d = (r, d') →
  match r with
  | Err _ => d' = d
  | Ok tk => check_batch evs = Ok tt
      ∧ takes_effect d d' (o 0%nat) (durable_sequence d) s expd None tok evs idx (ticket_info tk)
  end.
Proof.
  intros E. destruct r as [tk|e]; [by apply quiet_effect|].
  rewrite commit_appends_quiet in E. destruct (check_batch evs) as [[]|]; [|by injection E as _ <-].
  destruct (append_plan _ _ _ _ _ _ _ _ _) as [[[info sq] ws]|]; [done|by injection E as _ <-].
Qed.

(** With room left, a batch fits. *)
Lemma effect_fits d d' o sq s expd tok evs idx info L :
  check_batch evs = Ok tt → takes_effect d d' o sq s expd None tok evs idx info →
  stream_version d s = Ok (env_version <$> last L) → 0 ≤ next_version L →
  next_version L + MAX_BATCH_RECORDS < KEY_MAX - 1 → fits info.
Proof.
  intros Hb (q & ws & Hp & _) Hv Hpos Hroom. apply check_batch_length in Hb.
  unfold stream_version in Hv. unfold append_plan in Hp.
  destruct (tail d s) as [tl|]; [|done]. cbn [rbind] in *. injection Hv as Hv.
  apply rbind_Ok in Hp as (? & _ & Hp). destruct (negb _); [done|]. u64_facts.
  assert (first_of tl None = next_version L) as Hf.
  { unfold first_of, next_version in *. rewrite <-Hv in *. destruct tl as [t|]; simpl in *; [|done].
    by rewrite u64_add_small by (unfold MAX_BATCH_RECORDS in *; lia). }
  unfold MAX_BATCH_RECORDS in *. destruct evs as [|e evs]; [discriminate Hp|]. injection Hp as <- _ _.
  unfold first_of in Hf. simpl in Hf. rewrite Hf. split; cbn [first_version last_version]; unfold key_num; [lia|].
  cbn [length] in *. rewrite u64_add_small; lia.
Qed.

Lemma nums_next L : Forall (λ e, key_num (env_version e)) L → 0 ≤ next_version L.
Proof.
  intros Hn. unfold next_version. destruct (last L) as [e|] eqn:E; simpl; [|done].
  apply last_Some_elem_of in E. rewrite Forall_forall in Hn. destruct (Hn e E). lia.
Qed.

Lemma below_next L e : StronglySorted version_lt L → e ∈ L → env_version e < next_version L.
Proof.
  intros Hv He. unfold next_version. destruct L as [|x L _] using rev_ind; [by apply not_elem_of_nil in He|].
  rewrite last_snoc. simpl. apply elem_of_app in He as [He | ->%list_elem_of_singleton]; [|lia].
  assert (version_lt e x) as Hex; [|unfold version_lt in Hex; lia].
  apply (StronglySorted_app_1_elem_of version_lt L [x]); [done|done|by left].
Qed.

Lemma sorted_app l1 l2 :
  StronglySorted version_lt l1 → StronglySorted version_lt l2 →
  (∀ e, e ∈ l2 → next_version l1 ≤ env_version e) → StronglySorted version_lt (l1 ++ l2).
Proof.
  intros H1' H2' Hn. apply StronglySorted_app_2; [|done..]. intros x y Hx Hy.
  pose proof (below_next l1 x H1' Hx). specialize (Hn y Hy). unfold version_lt. lia.
Qed.

Lemma upto_below v l : (∀ e, e ∈ l → v < env_version e) → upto v l = [].
Proof. apply upto_none. Qed.

(** A store with few records has room. *)
Lemma room_of s (d : db) v : stream_version d s = Ok v →
  (map_or 0 (λ v, v + 1) v <? 1000000) && (durable_sequence d <? 1000000) = true → roomy s d.
Proof.
  intros E [Hv Hq]%andb_true_iff. apply Z.ltb_lt in Hv, Hq. split.
  - intros w Hw. rewrite E in Hw. injection Hw as <-. unfold MAX_BATCH_RECORDS. rewrite KEY_MAX_eq. lia.
  - unfold MAX_BATCH_RECORDS. rewrite KEY_MAX_eq. lia.
Qed.
End room.
