(* ===== verification/Bucket.v ===== *)
(** * The object store

    The bucket of the client crates ([landslide-fuse], [landslide-sqlite]) as
    a parameter: one object is read, written or deleted at a time. *)

From S2P Require Import Prelude Text Slate Types.
Local Open Scope Z_scope.

(** [path_from] is the path normalisation of
    [object_store::path::Path::from].  The callers drop the result of
    [delete]. *)

Class ObjectStore := {
  bucket : Type;
  bucket_get : bucket → string → option bytes;
  bucket_put : bucket → string → bytes → option bucket;
  bucket_delete : bucket → string → bucket;
  path_from : string → string;
}.

Class ObjectStoreLaws `{ObjectStore} : Prop := {
  bucket_get_put b k v b' : bucket_put b k v = Some b' →
    ∀ k', bucket_get b' k' = if decide (k' = k) then Some v else bucket_get b k';
  bucket_get_delete b k k' : k' ≠ k → bucket_get (bucket_delete b k) k' = bucket_get b k';
}.

(** [io] *)
Definition io {A} (o : option A) : R A :=
  match o with Some a => Ok a | None => Err (InvalidInput BucketIo) end.

(** An in-memory object store. *)

Module SampleBucket.
#[export] Instance mem_bucket : ObjectStore := {|
  bucket := gmap string bytes;
  bucket_get b k := b !! k;
  bucket_put b k v := Some (<[k := v]> b);
  bucket_delete b k := delete k b;
  path_from s := s;
|}.

#[export] Instance mem_bucket_laws : ObjectStoreLaws.
Proof.
  split; simpl; [|intros; by rewrite lookup_delete_ne].
  intros b k v b' [= <-] k'. destruct (decide (k' = k)) as [->|Hne];
    [by rewrite lookup_insert_eq|by rewrite lookup_insert_ne].
Qed.
End SampleBucket.
