(* ===== verification/Wal.v ===== *)
(** * SQLite write-ahead logs ([landslide-sqlite/src/wal.rs])

    The parser of WAL headers and frames.  Lengths and indices are natural
    numbers: an index is only multiplied by the frame length while the frames
    before it lie in the buffer. *)

From S2P Require Import Prelude Text.
Local Open Scope Z_scope.

Definition HEADER_LEN : nat := 32.
Definition FRAME_HEADER_LEN : nat := 24.

(** [MAGIC]: [0x377f0682] and [0x377f0683]. *)
Definition MAGIC : list Z := [931071618; 931071619].

(** The salts identify a generation of the file; [cur_frame] is the first
    frame after the last commit frame. *)
Record WalCursor := mkCursor {
  cur_salt1 : Z;
  cur_salt2 : Z;
  cur_frame : nat;
}.

Definition WalCursor_default : WalCursor := mkCursor 0 0 0.

Record Header := mkHeader {
  h_page_size : Z;
  h_salt1 : Z;
  h_salt2 : Z;
}.

(** The callers pass slices of at least four bytes. *)
Definition be32 (b : bytes) : Z := of_be (take 4 b).

Definition header (wal : bytes) : option Header :=
  if (length wal <? HEADER_LEN)%nat then None
  else if negb (existsb (Z.eqb (be32 wal)) MAGIC) then None
  else
    let page_size := match be32 (drop 8 wal) with 1 => 65536 | n => n end in
    Some (mkHeader page_size (be32 (drop 16 wal)) (be32 (drop 20 wal))).

(** [wal.get(lo..hi)] *)
Definition get_slice (wal : bytes) (lo hi : nat) : option bytes :=
  if (lo <=? hi)%nat && (hi <=? length wal)%nat then Some (take (hi - lo) (drop lo wal)) else None.

Definition frame_len (h : Header) : nat := FRAME_HEADER_LEN + Z.to_nat (h_page_size h).

(** [wal::frame]: the page number, the size field and the page. *)
Definition frame (wal : bytes) (h : Header) (index : nat) : option (Z * Z * bytes) :=
  let off := (HEADER_LEN + index * frame_len h)%nat in
  match get_slice wal off (off + FRAME_HEADER_LEN) with
  | None => None
  | Some hdr =>
      if negb (be32 (drop 8 hdr) =? h_salt1 h) || negb (be32 (drop 12 hdr) =? h_salt2 h) then None
      else
        match get_slice wal (off + FRAME_HEADER_LEN) (off + frame_len h) with
        | None => None
        | Some data => Some (be32 hdr, be32 (drop 4 hdr), data)
        end
  end.

(** ** The format

    What SQLite writes: a header and frames.  [checksum] is what the parser
    does not look at. *)

Definition U32 : Z := 2 ^ 32.

Record WalFrame := mkWalFrame {
  f_pgno : Z;
  f_db_size : Z;
  f_data : bytes;
  f_checksum : bytes;
}.

Definition u32_ok (z : Z) : Prop := 0 ≤ z < U32.

#[global] Instance u32_ok_dec z : Decision (u32_ok z).
Proof. unfold u32_ok. apply _. Defined.

Record frame_ok (h : Header) (f : WalFrame) : Prop := {
  fo_pgno : u32_ok (f_pgno f);
  fo_db_size : u32_ok (f_db_size f);
  fo_data : length (f_data f) = Z.to_nat (h_page_size h);
  fo_checksum : length (f_checksum f) = 8%nat;
}.

Record header_ok (h : Header) : Prop := {
  ho_page_size : 512 ≤ h_page_size h ≤ 65536;
  ho_salt1 : u32_ok (h_salt1 h);
  ho_salt2 : u32_ok (h_salt2 h);
}.

(** [fmt] is the magic number, [version] and [seq] the file format and the
    checkpoint sequence number. *)
Definition encode_header (fmt version seq : Z) (checksum : bytes) (h : Header) : bytes :=
  be_bytes 4 fmt ++ be_bytes 4 version
  ++ be_bytes 4 (if h_page_size h =? 65536 then 1 else h_page_size h) ++ be_bytes 4 seq
  ++ be_bytes 4 (h_salt1 h) ++ be_bytes 4 (h_salt2 h) ++ checksum.

Definition encode_frame (h : Header) (f : WalFrame) : bytes :=
  (be_bytes 4 (f_pgno f) ++ be_bytes 4 (f_db_size f)
   ++ be_bytes 4 (h_salt1 h) ++ be_bytes 4 (h_salt2 h) ++ f_checksum f) ++ f_data f.

(** The buffer holds the frames [fs] after its header. *)
Definition encode_wal (hdr : bytes) (h : Header) (fs : list WalFrame) (rest : bytes) : bytes :=
  hdr ++ concat (encode_frame h <$> fs) ++ rest.

Lemma be32_be_bytes z rest : u32_ok z → be32 (be_bytes 4 z ++ rest) = z.
Proof.
  intros Hz. unfold be32. rewrite take_app_length' by by rewrite be_bytes_length.
  rewrite of_be_be_bytes. apply Z.mod_small. exact Hz.
Qed.

Lemma drop_be_bytes n z rest : drop (4 + n) (be_bytes 4 z ++ rest) = drop n rest.
Proof. rewrite <-drop_drop, drop_app_length' by by rewrite be_bytes_length. done. Qed.

Lemma header_encode fmt version seq checksum h rest :
  fmt ∈ MAGIC → length checksum = 8%nat → header_ok h →
  header (encode_header fmt version seq checksum h ++ rest) = Some h.
Proof.
  intros Hf Hc [Hp H1 H2]. unfold header, encode_header. rewrite <-!app_assoc.
  rewrite !length_app, !be_bytes_length, Hc.
  replace (_ <? HEADER_LEN)%nat with false by (symmetry; apply Nat.ltb_ge; unfold HEADER_LEN; lia).
  assert (u32_ok fmt) as Hfu.
  { assert (Forall u32_ok MAGIC) as Hall by by repeat constructor. rewrite Forall_forall in Hall. by apply Hall. }
  rewrite be32_be_bytes by done.
  replace (existsb (Z.eqb fmt) MAGIC) with true.
  2: { symmetry. apply elem_of_existsb. exists fmt. split; [done|]. apply Z.eqb_refl. }
  cbn [negb]. change 20%nat with (4 + (4 + (4 + (4 + (4 + 0)))))%nat.
  change 16%nat with (4 + (4 + (4 + (4 + 0))))%nat. change 8%nat with (4 + (4 + 0))%nat.
  rewrite !drop_be_bytes, !drop_0.
  rewrite !be32_be_bytes; [|done|done|].
  - f_equal. destruct h as [ps s1 s2]. simpl in *. f_equal.
    destruct (Z.eqb_spec ps 65536) as [-> |]; [done|]. destruct ps as [|[p|p|]|p]; (done || lia).
  - unfold u32_ok, U32. destruct (Z.eqb_spec (h_page_size h) 65536); lia.
Qed.

Section frames.
Context (h : Header) (Hh : header_ok h).

Lemma encode_frame_length f : frame_ok h f → length (encode_frame h f) = frame_len h.
Proof.
  intros [_ _ Hd Hc]. unfold encode_frame, frame_len, FRAME_HEADER_LEN.
  rewrite !length_app, !be_bytes_length, Hd, Hc. lia.
Qed.

Lemma encode_frames_length fs : Forall (frame_ok h) fs →
  length (concat (encode_frame h <$> fs)) = (length fs * frame_len h)%nat.
Proof.
  induction 1 as [|f fs Hf Hfs IH]; [done|]. rewrite fmap_cons. cbn [concat length].
  rewrite length_app, IH, encode_frame_length by done. lia.
Qed.

Lemma get_slice_mid a b c lo hi :
  lo = length a → hi = (length a + length b)%nat → get_slice (a ++ b ++ c) lo hi = Some b.
Proof.
  intros -> ->. unfold get_slice. rewrite !length_app.
  rewrite (proj2 (Nat.leb_le _ _)), (proj2 (Nat.leb_le _ _)) by lia. simpl.
  rewrite drop_app_length. f_equal. apply take_app_length'. lia.
Qed.

(** The parser reads back each frame. *)
Lemma frame_encode hdr fs f fs' rest :
  length hdr = HEADER_LEN → Forall (frame_ok h) fs → frame_ok h f →
  frame (encode_wal hdr h (fs ++ f :: fs') rest) h (length fs) = Some (f_pgno f, f_db_size f, f_data f).
Proof.
  intros Hl Hfs [Hp Hs Hd Hc]. unfold frame, encode_wal. destruct Hh as [_ Hs1 Hs2].
  rewrite fmap_app, concat_app, fmap_cons. cbn [concat]. unfold encode_frame at 2 5.
  set (A := be_bytes 4 (f_pgno f) ++ _). rewrite <-!app_assoc.
  assert (length A = FRAME_HEADER_LEN) as HA.
  { unfold A. rewrite !length_app, !be_bytes_length, Hc. done. }
  set (pre := concat (encode_frame h <$> fs)).
  assert (length pre = (length fs * frame_len h)%nat) as Hpre by by apply encode_frames_length.
  rewrite (app_assoc hdr), (get_slice_mid (hdr ++ pre) A) by (rewrite length_app; lia).
  assert (be32 A = f_pgno f ∧ be32 (drop 4 A) = f_db_size f
    ∧ be32 (drop 8 A) = h_salt1 h ∧ be32 (drop 12 A) = h_salt2 h) as (-> & -> & -> & ->).
  { unfold A. change 12%nat with (4 + (4 + (4 + 0)))%nat. change 8%nat with (4 + (4 + 0))%nat.
    change (drop 4) with (@drop byte (4 + 0)). rewrite !drop_be_bytes, !drop_0.
    split_and!; by apply be32_be_bytes. }
  rewrite !Z.eqb_refl. cbn [negb orb].
  rewrite (app_assoc (hdr ++ pre)), (get_slice_mid ((hdr ++ pre) ++ A) (f_data f)); [done|..];
    rewrite !length_app; unfold frame_len in *; lia.
Qed.
End frames.
