(* ===== verification/Sqlite.v ===== *)
(** * SQLite replication ([landslide-sqlite/src/lib.rs], [src/store.rs])

    A database is a stream of page deltas.  [Db] is the write handle: the
    event store is the state [d], the object store the bucket [b]; the local
    connection is outside, what the code reads of it (the bytes of the WAL
    file) and what it answers are arguments. *)

From S2P Require Import Prelude Text Slate Types Keys Kv Fork Store Bucket Wal.
Local Open Scope Z_scope.

(** ** Data *)

(** One page post-image; page numbers start at 1. *)
Record Frame := mkFrame { pgno : Z; page : bytes }.

Record Delta := mkDelta {
  d_txid : Z;
  d_page_size : Z;
  d_db_size : Z;
  d_pages : list Frame;
}.

Record Ltx := mkLtx {
  l_txid_start : Z;
  l_txid_end : Z;
  l_page_size : Z;
  l_db_size : Z;
  l_pages : list Frame;
}.

Record SegmentRef := mkRef {
  sr_path : string;
  sr_txid_start : Z;
  sr_txid_end : Z;
  sr_page_size : Z;
  sr_db_size : Z;
}.

(** [SegmentRef::of] *)
Definition SegmentRef_of (l : Ltx) (path : string) : SegmentRef :=
  mkRef path (l_txid_start l) (l_txid_end l) (l_page_size l) (l_db_size l).

Record Manifest := mkManifest {
  m_segments : list SegmentRef;
  m_retire : list string;
}.

Definition Manifest_default : Manifest := mkManifest [] [].

Record CheckpointOpts := mkOpts { coalesce_at : nat; purge : bool }.

Definition CheckpointOpts_default : CheckpointOpts := mkOpts 8 false.

Abbreviation Pages := (gmap Z bytes).

(** The loop [for f in frames { pages.insert(f.pgno, f.data) }]. *)
Definition insert_frames (fs : list Frame) (m : Pages) : Pages :=
  fold_left (λ m f, <[pgno f := page f]> m) fs m.

Definition page_le (x y : Z * bytes) : Prop := x.1 ≤ y.1.

#[global] Instance page_le_dec : RelDecision page_le.
Proof. intros x y. unfold page_le. apply _. Defined.

(** [BTreeMap::into_iter], in key order, as frames. *)
Definition into_frames (m : Pages) : list Frame :=
  (λ p, mkFrame p.1 p.2) <$> merge_sort page_le (map_to_list m).

(** ** Images *)

Record DbImage := mkImage {
  i_page_size : Z;
  i_db_size : Z;
  i_txid : Z;
  i_pages : Pages;
}.

Definition DbImage_default : DbImage := mkImage 0 0 0 ∅.

(** [DbImage::apply] *)
Definition DbImage_apply (i : DbImage) (d : Delta) : DbImage :=
  mkImage (d_page_size d) (d_db_size d) (d_txid d) (insert_frames (d_pages d) (i_pages i)).

Definition merge_ltx (i : DbImage) (l : Ltx) : DbImage :=
  mkImage (l_page_size l) (l_db_size l) (l_txid_end l) (insert_frames (l_pages l) (i_pages i)).

(** [out[start..start + data.len()].copy_from_slice(data)]: out of range
    panics. *)
Definition copy_at (out : bytes) (start : nat) (x : bytes) : option bytes :=
  if (start + length x <=? length out)%nat
  then Some (take start out ++ x ++ drop (start + length x) out) else None.

Definition write_page (i : DbImage) (out : option bytes) (f : Frame) : option bytes :=
  if (pgno f =? 0) || (i_db_size i <? pgno f) then out
  else match out with
  | None => None
  | Some out => copy_at out (Z.to_nat (pgno f - 1) * Z.to_nat (i_page_size i)) (page f)
  end.

(** [DbImage::to_bytes]; [None] is a panic. *)
Definition to_bytes (i : DbImage) : option bytes :=
  if i_page_size i =? 0 then Some []
  else fold_left (write_page i) (into_frames (i_pages i))
         (Some (replicate (Z.to_nat (i_db_size i) * Z.to_nat (i_page_size i)) x00)).

(** ** The fold in progress *)

Record LtxBuilder := mkBuilder {
  b_txid_start : option Z;
  b_txid_end : Z;
  b_page_size : Z;
  b_db_size : Z;
  b_pages : Pages;
}.

Definition LtxBuilder_default : LtxBuilder := mkBuilder None 0 0 0 ∅.

(** [LtxBuilder::apply] *)
Definition LtxBuilder_apply (p : LtxBuilder) (d : Delta) : LtxBuilder :=
  mkBuilder (Some (default (d_txid d) (b_txid_start p))) (d_txid d) (d_page_size d) (d_db_size d)
    (insert_frames (d_pages d) (b_pages p)).

(** [LtxBuilder::into_ltx] of a builder that started at [txid_start]. *)
Definition into_ltx (txid_start : Z) (p : LtxBuilder) : Ltx :=
  mkLtx txid_start (b_txid_end p) (b_page_size p) (b_db_size p) (into_frames (b_pages p)).

(** [fold] of [store.rs]: a batch as one delta; the caller's batch is not
    empty. *)
Definition fold_deltas (last : Delta) (deltas : list Delta) : Delta :=
  mkDelta (d_txid last) (d_page_size last) (d_db_size last)
    (into_frames (fold_left (λ m d, insert_frames (d_pages d) m) deltas ∅)).

(** ** Codecs

    [bincode] and [zstd] are parameters; both can report an error. *)

Class Bin (T : Type) := {
  bin_serialize : T → option bytes;
  bin_deserialize : bytes → option T;
}.

Class BinLaw (T : Type) `{Bin T} : Prop := {
  bin_round_trip (x : T) b : bin_serialize x = Some b → bin_deserialize b = Some x;
}.

Class SqliteCodecs := {
  #[global] bin_deltas :: Bin (list Delta);
  #[global] bin_ltx :: Bin Ltx;
  serialized_size : Delta → option Z;
  zstd_encode : bytes → option bytes;
  zstd_decode : bytes → option bytes;
  #[global] json_delta :: Json Delta;
  #[global] json_manifest :: Json Manifest;
}.

Class SqliteCodecLaws `{SqliteCodecs} : Prop := {
  #[global] bin_deltas_law :: BinLaw (list Delta);
  #[global] bin_ltx_law :: BinLaw Ltx;
  zstd_round_trip x b : zstd_encode x = Some b → zstd_decode b = Some x;
  #[global] json_manifest_law :: JsonLaw Manifest;
}.

Section codec.
Context `{SqliteCodecs}.

Definition codec {A} (o : option A) : R A :=
  match o with Some a => Ok a | None => Err (InvalidInput CodecFailed) end.

Definition pack {T} `{Bin T} (v : T) : R bytes :=
  let? raw := codec (bin_serialize v) in codec (zstd_encode raw).

Definition unpack {T} `{Bin T} (data : bytes) : R T :=
  let? raw := codec (zstd_decode data) in codec (bin_deserialize raw).

Definition TXB : string := "txb".
Definition TXB_CHUNK : Z := 512 * 1024.

Definition txb_event (chunk : list Delta) : R NewEvent :=
  let? b := pack chunk in Ok (NewEvent_new TXB b).

(** The loop of [encode_deltas]; [chunk] is [deltas[start..i]]. *)
Fixpoint encode_loop (events : list NewEvent) (chunk : list Delta) (size : Z) (deltas : list Delta) :
    R (list NewEvent) :=
  match deltas with
  | [] =>
      match chunk with
      | [] => Ok events
      | _ => let? e := txb_event chunk in Ok (events ++ [e])
      end
  | d :: deltas =>
      let? n := codec (serialized_size d) in
      if (TXB_CHUNK <? u64_add size n) && negb (bool_decide (chunk = []))
      then let? e := txb_event chunk in encode_loop (events ++ [e]) [d] n deltas
      else encode_loop events (chunk ++ [d]) (u64_add size n) deltas
  end.

Definition encode_deltas (deltas : list Delta) : R (list NewEvent) := encode_loop [] [] 0 deltas.

Definition delta_events (e : Event) : R (list Delta) :=
  if String.eqb (ev_type e) TXB then unpack (ev_data e)
  else if String.eqb (ev_type e) "tx" then Ok (option_list (from_slice (ev_data e)))
  else Ok [].
End codec.

(** [record] *)
Definition checkpoint_record (clock : option Z) (name : string) (through_version : Version) :
    CompactionRecord :=
  mkCompaction name through_version 0 None (now_ms clock).

(** ** Capture *)

(** The loop of [sync_inner] over the frames of the buffer: the captured
    transactions, the frames of an unfinished one, and the next index.  Every
    turn but the last consumes a frame, so the length of the buffer bounds
    them. *)
Fixpoint capture_loop (fuel : nat) (wal : bytes) (h : Header) (idx : nat) (txid : Z)
    (deltas : list Delta) (tx_frames : list Frame) : list Delta * list Frame * nat :=
  match fuel with
  | O => (deltas, tx_frames, idx)
  | S fuel =>
      match frame wal h idx with
      | None => (deltas, tx_frames, idx)
      | Some (n, db_size, x) =>
          let tx_frames := tx_frames ++ [mkFrame n x] in
          if db_size =? 0 then capture_loop fuel wal h (S idx) txid deltas tx_frames
          else
            let txid := u64_add txid 1 in
            capture_loop fuel wal h (S idx) txid
              (deltas ++ [mkDelta txid (h_page_size h) db_size tx_frames]) []
      end
  end.

(** The deltas past the cursor and the frame the cursor moves to. *)
Definition capture (file : bytes) (h : Header) (base : nat) (txid : Z) : list Delta * nat :=
  let off := (HEADER_LEN + base * frame_len h)%nat in
  let wal := take HEADER_LEN file ++ drop off file in
  let '(deltas, tx_frames, idx) := capture_loop (length wal) wal h 0 txid [] [] in
  (deltas, (base + idx - length tx_frames)%nat).

(** ** Handles *)

Record Db := mkDb {
  dh_name : string;
  dh_token : string;
  dh_image : DbImage;
  dh_tail : option Version;
  dh_cursor : WalCursor;
  dh_pending : LtxBuilder;
}.

Definition with_cursor (h : Db) (c : WalCursor) : Db :=
  mkDb (dh_name h) (dh_token h) (dh_image h) (dh_tail h) c (dh_pending h).

Definition with_pending (h : Db) (p : LtxBuilder) : Db :=
  mkDb (dh_name h) (dh_token h) (dh_image h) (dh_tail h) (dh_cursor h) p.

(** What opening and reading the WAL file gives; the second read, past the
    header, can fail on its own. *)
Inductive WalFile :=
| WalNotFound
| WalUnreadable
| WalBytes (file : bytes) (tail_readable : bool).

Section handle.
Context `{SlateDb} `{Codecs} `{ObjectStore} `{SqliteCodecs}.

(** [expected] *)
Definition expected (tail : option Version) : ExpectedVersion := map_or NoStream Exact tail.

Definition sql (ok : bool) : R unit := if ok then Ok tt else Err (InvalidInput SqliteFailed).

(** [sync_inner] once the deltas are captured and are not empty. *)
Definition replicate_deltas (o : nat → Oracle) (interf : nat → db → db) (watch : list DbStatus)
    (deltas : list Delta) (next_frame : nat) (h : Db) (d : db) : R unit * Db * db :=
  match encode_deltas deltas with
  | Err e => (Err e, h, d)
  | Ok events =>
      match append_with_token_lazy o interf (dh_name h) (dh_token h) (expected (dh_tail h)) events
              false d with
      | (Err e, d) => (Err e, h, d)
      | (Ok ticket, d) =>
          match await_durable watch ticket with
          | Err e => (Err e, h, d)
          | Ok _ =>
              (Ok tt,
               mkDb (dh_name h) (dh_token h) (fold_left DbImage_apply deltas (dh_image h))
                 (Some (last_version (ticket_info ticket)))
                 (mkCursor (cur_salt1 (dh_cursor h)) (cur_salt2 (dh_cursor h)) next_frame)
                 (fold_left LtxBuilder_apply deltas (dh_pending h)), d)
          end
      end
  end.

(** New salts start a new generation of the file. *)
Definition rewind (hd : Header) (c : WalCursor) : WalCursor :=
  if (h_salt1 hd =? cur_salt1 c) && (h_salt2 hd =? cur_salt2 c) then c
  else mkCursor (h_salt1 hd) (h_salt2 hd) 0.

Definition sync_inner (o : nat → Oracle) (interf : nat → db → db) (watch : list DbStatus)
    (wal_file : WalFile) (coalesce : bool) (h : Db) (d : db) : R nat * Db * db :=
  match wal_file with
  | WalNotFound => (Ok 0%nat, h, d)
  | WalUnreadable => (Err (InvalidInput BucketIo), h, d)
  | WalBytes file tail_readable =>
      match header (take HEADER_LEN file) with
      | None => (Ok 0%nat, h, d)
      | Some hd =>
          let h := with_cursor h (rewind hd (dh_cursor h)) in
          if negb tail_readable then (Err (InvalidInput BucketIo), h, d)
          else
            let '(deltas, next_frame) :=
              capture file hd (cur_frame (dh_cursor h)) (i_txid (dh_image h)) in
            match last deltas with
            | None =>
                (Ok 0%nat,
                 with_cursor h (mkCursor (cur_salt1 (dh_cursor h)) (cur_salt2 (dh_cursor h)) next_frame), d)
            | Some newest =>
                let n := length deltas in
                let deltas := if coalesce && (1 <? n)%nat then [fold_deltas newest deltas] else deltas in
                let '(r, h, d) := replicate_deltas o interf watch deltas next_frame h d in
                (rmap (λ _, n) r, h, d)
            end
      end
  end.

Definition sync o interf watch wal_file h d : R nat * Db * db :=
  sync_inner o interf watch wal_file false h d.

Definition sync_coalesced o interf watch wal_file h d : R nat * Db * db :=
  sync_inner o interf watch wal_file true h d.

(** ** Segments *)

Definition put_ltx (ulid name : string) (ltx : Ltx) (b : bucket) : R string * bucket :=
  let path := path_from ("ltx/" +:+ name +:+ "/" +:+ ulid) in
  match pack ltx with
  | Err e => (Err e, b)
  | Ok x =>
      match bucket_put b path x with
      | Some b => (Ok path, b)
      | None => (Err (InvalidInput BucketIo), b)
      end
  end.

Definition fetch_ltx (b : bucket) (path : string) : R Ltx :=
  let? x := io (bucket_get b (path_from path)) in unpack x.

Definition json {A} (o : option A) : R A :=
  match o with Some a => Ok a | None => Err Encoding end.

(** The manifest of the latest snapshot. *)
Definition manifest_of (d : db) (name : string) : R Manifest :=
  let? snap := latest_snapshot d name in
  match snap with
  | Some s => json (from_slice (sn_state s))
  | None => Ok Manifest_default
  end.

(** The pages of the older segments, oldest first. *)
Fixpoint collect_pages (b : bucket) (new_path : string) (pages : Pages) (segs : list SegmentRef) : R Pages :=
  match segs with
  | [] => Ok pages
  | sr :: segs =>
      if String.eqb (sr_path sr) new_path then collect_pages b new_path pages segs
      else
        let? l := fetch_ltx b (sr_path sr) in
        collect_pages b new_path (insert_frames (l_pages l) pages) segs
  end.

(** The segments of the new manifest and the paths they replace. *)
Definition coalesce_segments (at_ : nat) (ulid name : string) (ltx : Ltx) (new_ref : SegmentRef)
    (segs : list SegmentRef) (b : bucket) : R (list SegmentRef * list string) * bucket :=
  if (at_ <? length segs)%nat then
    match collect_pages b (sr_path new_ref) ∅ segs with
    | Err e => (Err e, b)
    | Ok pages =>
        let pages := filter (λ p, p.1 ≤ sr_db_size new_ref) (insert_frames (l_pages ltx) pages) in
        match segs with
        | [] => (Err (Panicked "checkpoint_with"), b)
        | first :: _ =>
            let merged := mkLtx (sr_txid_start first) (sr_txid_end new_ref) (sr_page_size new_ref)
                            (sr_db_size new_ref) (into_frames pages) in
            match put_ltx ulid name merged b with
            | (Err e, b) => (Err e, b)
            | (Ok merged_path, b) => (Ok ([SegmentRef_of merged merged_path], sr_path <$> segs), b)
            end
        end
    end
  else (Ok (segs, []), b).

Definition delete_paths (paths : list string) (b : bucket) : bucket :=
  fold_left (λ b p, bucket_delete b (path_from p)) paths b.

(** ** Checkpoints *)

(** [checkpoint_with] from the point where the builder has been taken; the
    handle no longer holds it.  [o] draws the ULIDs of the journal entry, of
    the segment and of the merged segment, and the time of the record. *)
Definition seal (o : Oracle) (watch : list DbStatus) (opts : CheckpointOpts) (restart : bool)
    (name : string) (through : Version) (manifest : Manifest) (ltx : Ltx) (b : bucket) (d : db) :
    R (option CompactionRecord) * bucket * db :=
  match put_ltx (o_ulid o 1) name ltx b with
  | (Err e, b) => (Err e, b, d)
  | (Ok seg_path, b) =>
      let new_ref := SegmentRef_of ltx seg_path in
      match coalesce_segments (coalesce_at opts) (o_ulid o 2) name ltx new_ref
              (m_segments manifest ++ [new_ref]) b with
      | (Err e, b) => (Err e, b, d)
      | (Ok (segs, retire), b) =>
          let b := delete_paths (m_retire manifest) b in
          let record := checkpoint_record (o_clock o 0) name through in
          let '(r, d) := publish_snapshot o (λ d, d) watch name record (to_vec (mkManifest segs retire)) d in
          match r with
          | Err e => (Err e, b, d)
          | Ok _ =>
              let '(r, d) := if purge opts then purge_below name (u64_add through 1) d else (Ok 0, d) in
              (let? _ := r in let? _ := sql restart in Ok (Some record), b, d)
          end
      end
  end.

Definition checkpoint_with (oa : nat → Oracle) (interf : nat → db → db) (watch_a : list DbStatus)
    (wal_file : WalFile) (o : Oracle) (watch : list DbStatus) (restart : bool) (opts : CheckpointOpts)
    (h : Db) (b : bucket) (d : db) : R (option CompactionRecord) * Db * bucket * db :=
  match sync oa interf watch_a wal_file h d with
  | (Err e, h, d) => (Err e, h, b, d)
  | (Ok _, h, d) =>
      match dh_tail h with
      | None => (Ok None, h, b, d)
      | Some through =>
          match manifest_of d (dh_name h) with
          | Err e => (Err e, h, b, d)
          | Ok manifest =>
              match b_txid_start (dh_pending h) with
              | None => (Ok None, h, b, d)
              | Some txid_start =>
                  let ltx := into_ltx txid_start (dh_pending h) in
                  let h := with_pending h LtxBuilder_default in
                  let '(r, b, d) := seal o watch opts restart (dh_name h) through manifest ltx b d in
                  (r, h, b, d)
              end
          end
      end
  end.

Definition checkpoint oa interf watch_a wal_file o watch restart h b d :
    R (option CompactionRecord) * Db * bucket * db :=
  checkpoint_with oa interf watch_a wal_file o watch restart CheckpointOpts_default h b d.

(** [Db::tail] *)
Definition db_tail (h : Db) (d : db) : R (option Version) := stream_version d (dh_name h).

(** ** Restores

    A restore is a sequence of reads that other writers may interleave:
    [snap_view] is the store at the read of the snapshot, [bs i] the bucket at
    the fetch of the [i]-th segment, [log_view] the store at the fold. *)

Fixpoint load_loop (bs : nat → bucket) (i : nat) (image : DbImage) (segs : list SegmentRef) : R DbImage :=
  match segs with
  | [] => Ok image
  | sr :: segs =>
      let? l := fetch_ltx (bs i) (sr_path sr) in
      load_loop bs (S i) (merge_ltx image l) segs
  end.

Definition restore_step (acc : DbImage * LtxBuilder * option Error) (e : Event) :
    DbImage * LtxBuilder * option Error :=
  let '(i, p, bad) := acc in
  match delta_events e with
  | Ok ds => (fold_left DbImage_apply ds i, fold_left LtxBuilder_apply ds p, bad)
  | Err err => (i, p, Some err)
  end.

(** The image of the latest manifest, the first version after it, and its
    version. *)
Definition restore_base (snap_view : db) (bs : nat → bucket) (name : string) :
    R (DbImage * Version * option Version) :=
  let? snap := latest_snapshot snap_view name in
  match snap with
  | Some s =>
      let? manifest := json (from_slice (sn_state s)) in
      let? image := load_loop bs 0 DbImage_default (m_segments manifest) in
      Ok (image, u64_add (sn_through_version s) 1, Some (sn_through_version s))
  | None => Ok (DbImage_default, 0, None)
  end.

Definition restore_impl (snap_view : db) (bs : nat → bucket) (log_view : db) (name : string) :
    R (DbImage * LtxBuilder * option Version) :=
  let? base := restore_base snap_view bs name in
  let '(image, from, through) := base in
  let? folded := fold log_view name (Included from, Unbounded) (image, LtxBuilder_default, None) restore_step in
  let '(image, pending, bad, last) := folded in
  match bad with
  | Some err => Err err
  | None => Ok (image, pending, match last with Some v => Some v | None => through end)
  end.

Definition restore (snap_view : db) (bs : nat → bucket) (log_view : db) (name : string) :
    R (DbImage * option Version) :=
  let? r := restore_impl snap_view bs log_view name in
  let '(image, _, tail) := r in Ok (image, tail).

(** The segments up to the target. *)
Fixpoint load_upto (bs : nat → bucket) (i : nat) (target : Z) (image : DbImage) (segs : list SegmentRef) :
    R DbImage :=
  match segs with
  | [] => Ok image
  | sr :: segs =>
      if (target <? sr_txid_start sr) || (target <? sr_txid_end sr) then Ok image
      else
        let? l := fetch_ltx (bs i) (sr_path sr) in
        load_upto bs (S i) target (merge_ltx image l) segs
  end.

Definition restore_at_step (base target : Z) (acc : DbImage * option Error) (e : Event) :
    DbImage * option Error :=
  let '(image, bad) := acc in
  match delta_events e with
  | Ok ds =>
      (fold_left (λ i d, if (base <? d_txid d) && (d_txid d <=? target) then DbImage_apply i d else i) ds image,
       bad)
  | Err err => (image, Some err)
  end.

Definition restore_at (snap_view : db) (bs : nat → bucket) (log_view : db) (name : string) (target_txid : Z) :
    R DbImage :=
  let? snap := latest_snapshot snap_view name in
  let? image :=
    match snap with
    | Some s =>
        let? manifest := json (from_slice (sn_state s)) in
        load_upto bs 0 target_txid DbImage_default (m_segments manifest)
    | None => Ok DbImage_default
    end in
  let base := i_txid image in
  let? folded := fold log_view name (Included 0, Unbounded) (image, None) (restore_at_step base target_txid) in
  let '(image, bad, _) := folded in
  match bad with
  | Some err => Err err
  | None =>
      if i_txid image <? target_txid then Err (InvalidInput (NotReconstructable target_txid (i_txid image)))
      else Ok image
  end.

(** ** Opening

    The fence commits on [d] while the restore reads its own views; an error
    of either is the error of the call (the fence's when both fail).  The
    local file and the connection answer [file_ok] and [conn_ok].  The second
    component is the content written to the local file. *)
Definition open (o : Oracle) (watch : list DbStatus) (snap_view : db) (bs : nat → bucket) (log_view : db)
    (file_ok conn_ok : bool) (name : string) (d : db) : R (Db * bytes) * db :=
  let token := o_ulid o 0 in
  let '(r, d) := fence (λ d, d) watch name (Some token) d in
  (let? _ := r in
   let? restored := restore_impl snap_view bs log_view name in
   let '(image, pending, tail) := restored in
   match to_bytes image with
   | None => Err (Panicked "to_bytes")
   | Some file =>
       let? _ := io (if file_ok then Some tt else None) in
       let? _ := sql conn_ok in
       Ok (mkDb name token image tail WalCursor_default pending, file)
   end, d).
End handle.
