(* ===== verification/PageThms.v ===== *)
(** * Pages, transactions and batches

    What the pure parts of the SQLite crate compute: the transactions captured
    from a WAL, the events that carry them, the images they replay to, and the
    database file of an image. *)

From S2P Require Import Prelude Text Slate Types Appended Bucket Wal Sqlite.
Local Open Scope Z_scope.

(** ** Capture *)

Section capture.
Context (h : Header) (Hh : header_ok h).

(** A transaction of the file: its last frame alone carries a size. *)
Record WalTx := mkTx { tx_body : list WalFrame; tx_commit : WalFrame }.

Definition tx_frames (t : WalTx) : list WalFrame := tx_body t ++ [tx_commit t].

Definition uncommitted (f : WalFrame) : Prop := frame_ok h f ∧ f_db_size f = 0.

Record tx_ok (t : WalTx) : Prop := {
  to_body : Forall uncommitted (tx_body t);
  to_commit : frame_ok h (tx_commit t);
  to_size : f_db_size (tx_commit t) ≠ 0;
}.

Definition frame_of (f : WalFrame) : Frame := mkFrame (f_pgno f) (f_data f).

(** The deltas of the transactions after [txid]. *)
Fixpoint deltas_from (txid : Z) (txs : list WalTx) : list Delta :=
  match txs with
  | [] => []
  | t :: txs =>
      let txid := u64_add txid 1 in
      mkDelta txid (h_page_size h) (f_db_size (tx_commit t)) (frame_of <$> tx_frames t)
      :: deltas_from txid txs
  end.

(** The loop of the capture over parsed frames. *)
Fixpoint group (txid : Z) (deltas : list Delta) (cur : list Frame) (fs : list WalFrame) :
    list Delta * list Frame :=
  match fs with
  | [] => (deltas, cur)
  | f :: fs =>
      let cur := cur ++ [frame_of f] in
      if f_db_size f =? 0 then group txid deltas cur fs
      else
        let txid := u64_add txid 1 in
        group txid (deltas ++ [mkDelta txid (h_page_size h) (f_db_size f) cur]) [] fs
  end.

Lemma group_uncommitted txid deltas cur fs rest :
  Forall uncommitted fs →
  group txid deltas cur (fs ++ rest) = group txid deltas (cur ++ (frame_of <$> fs)) rest.
Proof.
  intros Hfs. revert cur. induction Hfs as [|f fs [_ Hf] Hfs IH]; intros cur; [by rewrite app_nil_r|].
  cbn [app group]. rewrite Hf, Z.eqb_refl, IH, fmap_cons. by rewrite <-app_assoc.
Qed.

Lemma group_txs txid deltas txs open_tx :
  Forall tx_ok txs → Forall uncommitted open_tx →
  group txid deltas [] (concat (tx_frames <$> txs) ++ open_tx)
  = (deltas ++ deltas_from txid txs, frame_of <$> open_tx).
Proof.
  intros Htxs Hop. revert txid deltas.
  induction Htxs as [|t txs [Hb _ Hc] Htxs IH]; intros txid deltas; cbn [deltas_from].
  - rewrite <-(app_nil_r open_tx) at 1. change (concat _ ++ ?l) with l.
    rewrite group_uncommitted by done. simpl. by rewrite app_nil_r.
  - rewrite fmap_cons. cbn [concat]. unfold tx_frames at 1. rewrite <-!app_assoc.
    rewrite group_uncommitted by done. cbn [app group].
    destruct (Z.eqb_spec (f_db_size (tx_commit t)) 0); [done|]. rewrite IH, <-app_assoc.
    unfold tx_frames. by rewrite fmap_app.
Qed.

Lemma get_slice_skip a b c lo hi :
  get_slice (a ++ b ++ c) (length a + length b + lo) (length a + length b + hi)
  = get_slice (a ++ c) (length a + lo) (length a + hi).
Proof.
  unfold get_slice. rewrite !length_app.
  assert (∀ x y, (length a + length b + x <=? length a + length b + y)%nat
    = (length a + x <=? length a + y)%nat) as E.
  { intros x y. apply Bool.eq_iff_eq_true. rewrite !Nat.leb_le. lia. }
  rewrite E, Nat.add_assoc, E. destruct (_ && _); [|done]. f_equal.
  replace (length a + length b + hi - (length a + length b + lo))%nat
    with (length a + hi - (length a + lo))%nat by lia. f_equal.
  rewrite app_assoc, (drop_app_ge (a ++ b)), (drop_app_ge a) by (rewrite ?length_app; lia).
  f_equal. rewrite length_app. lia.
Qed.

(** Frames before an index do not matter to the frames after it. *)
Lemma frame_skip hdr fs rest k :
  length hdr = HEADER_LEN → Forall (frame_ok h) fs →
  frame (encode_wal hdr h fs rest) h (length fs + k) = frame (hdr ++ rest) h k.
Proof.
  intros Hl Hfs. unfold frame, encode_wal. pose proof (encode_frames_length h fs Hfs) as HA.
  set (A := concat (encode_frame h <$> fs)) in *. rewrite Nat.mul_add_distr_r, <-HA, <-Hl.
  assert (∀ x, (length hdr + (length A + k * frame_len h) + x
    = length hdr + length A + (k * frame_len h + x))%nat) as E1 by lia.
  rewrite !E1, <-!Nat.add_assoc. rewrite !(Nat.add_assoc (length hdr) (length A)).
  by rewrite !get_slice_skip.
Qed.

Lemma capture_group hdr pre fs rest fuel txid deltas cur :
  length hdr = HEADER_LEN → Forall (frame_ok h) pre → Forall (frame_ok h) fs →
  frame (hdr ++ rest) h 0 = None → (length fs < fuel)%nat →
  capture_loop fuel (encode_wal hdr h (pre ++ fs) rest) h (length pre) txid deltas cur
  = (group txid deltas cur fs, (length pre + length fs)%nat).
Proof.
  intros Hl Hpre Hfs Hend. revert pre txid deltas cur fuel Hpre.
  induction Hfs as [|f fs Hf Hfs IH]; intros pre txid deltas cur fuel Hpre Hfuel;
    (destruct fuel as [|fuel]; [simpl in Hfuel; lia|]); cbn [capture_loop group].
  - rewrite app_nil_r, <-(Nat.add_0_r (length pre)) at 1. rewrite frame_skip by done. rewrite Hend. simpl.
    by rewrite Nat.add_0_r.
  - rewrite (frame_encode h Hh) by done.
    replace (S (length pre)) with (length (pre ++ [f])) by (rewrite length_app; simpl; lia).
    replace (encode_wal hdr h (pre ++ f :: fs) rest) with (encode_wal hdr h ((pre ++ [f]) ++ fs) rest)
      by by rewrite <-app_assoc.
    simpl in Hfuel. assert (Forall (frame_ok h) (pre ++ [f])) as Hpre'.
    { apply Forall_app. split; [done|by apply Forall_singleton]. }
    assert (length fs < fuel)%nat as Hfuel' by lia.
    destruct (f_db_size f =? 0); rewrite IH by done; rewrite length_app; f_equal; simpl; lia.
Qed.

Lemma frames_bound hdr fs rest : length hdr = HEADER_LEN → Forall (frame_ok h) fs →
  (length fs < length (encode_wal hdr h fs rest))%nat.
Proof.
  intros Hl Hfs. unfold encode_wal. rewrite !length_app, (encode_frames_length h fs Hfs), Hl.
  unfold HEADER_LEN, frame_len, FRAME_HEADER_LEN. nia.
Qed.

Lemma tx_frames_ok txs : Forall tx_ok txs → Forall (frame_ok h) (concat (tx_frames <$> txs)).
Proof.
  induction 1 as [|t txs [Hb Hc _] Htxs IH]; [constructor|]. rewrite fmap_cons. cbn [concat].
  apply Forall_app. split; [|done]. apply Forall_app. split; [|by apply Forall_singleton].
  eapply Forall_impl; [exact Hb|]. by intros f [? _].
Qed.

Lemma capture_txs hdr pre txs open_tx rest txid :
  length hdr = HEADER_LEN → Forall (frame_ok h) pre → Forall tx_ok txs → Forall uncommitted open_tx →
  frame (hdr ++ rest) h 0 = None →
  capture (encode_wal hdr h (pre ++ concat (tx_frames <$> txs) ++ open_tx) rest) h (length pre) txid
  = (deltas_from txid txs, (length pre + length (concat (tx_frames <$> txs)))%nat).
Proof.
  intros Hl Hpre Htxs Hop Hend. unfold capture.
  set (fs := concat (tx_frames <$> txs) ++ open_tx).
  assert (Forall (frame_ok h) fs) as Hfs.
  { apply Forall_app. split; [by apply tx_frames_ok|]. eapply Forall_impl; [exact Hop|]. by intros f [? _]. }
  assert (take HEADER_LEN (encode_wal hdr h (pre ++ fs) rest)
    ++ drop (HEADER_LEN + length pre * frame_len h) (encode_wal hdr h (pre ++ fs) rest)
    = encode_wal hdr h fs rest) as ->.
  { unfold encode_wal. rewrite fmap_app, concat_app, <-!app_assoc.
    rewrite <-(encode_frames_length h pre Hpre), <-Hl, take_app_length, <-drop_drop, drop_app_length.
    by rewrite drop_app_length. }
  pose proof (capture_group hdr [] fs rest (length (encode_wal hdr h fs rest)) txid [] []) as E.
  cbn [app length] in E. rewrite E; [|done|constructor|done|done|by apply frames_bound]. unfold fs.
  rewrite group_txs by done. cbn [app]. rewrite !length_app, length_fmap. f_equal. lia.
Qed.
(** C23: replication captures exactly the committed transactions: from a WAL
    file of a header, consumed frames, committed transactions, frames of an
    unfinished transaction and then stale or missing frames, one delta per
    transaction comes out, with its pages in frame order, the size of its
    commit frame and consecutive transaction ids, and the cursor ends before
    the unfinished transaction. *)
Theorem capture_exact fmt version seq checksum pre txs open_tx rest txid :
  let hdr := encode_header fmt version seq checksum h in
  let file := encode_wal hdr h (pre ++ concat (tx_frames <$> txs) ++ open_tx) rest in
  fmt ∈ MAGIC → length checksum = 8%nat →
  Forall (frame_ok h) pre → Forall tx_ok txs → Forall uncommitted open_tx → frame (hdr ++ rest) h 0 = None →
  header (take HEADER_LEN file) = Some h
  ∧ capture file h (length pre) txid
    = (deltas_from txid txs, (length pre + length (concat (tx_frames <$> txs)))%nat).
Proof.
  intros hdr file Hf Hc Hpre Htxs Hop Hend.
  assert (length hdr = HEADER_LEN) as Hl.
  { unfold hdr, encode_header. rewrite !length_app, !be_bytes_length, Hc. done. }
  split; [|by apply capture_txs]. unfold file, encode_wal. rewrite take_app_length' by done.
  rewrite <-(app_nil_r hdr). by apply header_encode.
Qed.
End capture.

(** ** Batches of deltas *)

Section codec.
Context `{SqliteCodecLaws}.

Lemma unpack_pack {T} `{BinLaw T} (x : T) b : pack x = Ok b → unpack b = Ok x.
Proof.
  unfold pack, unpack. destruct (bin_serialize x) as [raw|] eqn:E1; [|done]. cbn [codec rbind].
  destruct (zstd_encode raw) as [b'|] eqn:E2; [|done]. intros [= <-].
  rewrite (zstd_round_trip _ _ E2). cbn [codec rbind]. by rewrite (bin_round_trip _ _ E1).
Qed.

(** The serialized size of a run of deltas. *)
Definition sizes (ds : list Delta) : Z := foldr (λ d n, default 0 (serialized_size d) + n) 0 ds.

(** Each chunk is one delta or stays within [TXB_CHUNK]. *)
Definition chunk_ok (ds : list Delta) : Prop :=
  ds ≠ [] ∧ (length ds = 1%nat ∨ sizes ds ≤ TXB_CHUNK).

(** The events carry the chunks. *)
Definition carries (events : list NewEvent) (chunks : list (list Delta)) : Prop :=
  Forall2 (λ e c, ne_type e = TXB ∧ pack c = Ok (ne_data e)) events chunks.

Lemma sizes_app l1 l2 : sizes (l1 ++ l2) = sizes l1 + sizes l2.
Proof. induction l1 as [|d l1 IH]; [done|]. unfold sizes in *. simpl. rewrite IH. lia. Qed.

Lemma carries_snoc events chunks c e :
  carries events chunks → txb_event c = Ok e → carries (events ++ [e]) (chunks ++ [c]).
Proof.
  intros Hc E. apply Forall2_app; [done|]. constructor; [|constructor]. unfold txb_event in E.
  destruct (pack c) as [b|]; [|done]. cbn [rbind] in E. by injection E as <-.
Qed.

(** Sizes are [u64] values. *)
Definition sized (ds : list Delta) : Prop :=
  Forall (λ d, 0 ≤ default 0 (serialized_size d)) ds ∧ sizes ds < U64.

Lemma sized_cons d ds : sized (d :: ds) → 0 ≤ default 0 (serialized_size d) ∧ sized ds
  ∧ sizes (d :: ds) = default 0 (serialized_size d) + sizes ds ∧ 0 ≤ sizes ds.
Proof.
  intros [Hall Hlt]. apply Forall_cons in Hall as [Hd Hall].
  assert (0 ≤ sizes ds) as Hp.
  { clear -Hall. induction Hall as [|x l Hx Hl IH]; unfold sizes in *; simpl; lia. }
  unfold sized, sizes in *. simpl in *. split_and!; [done|done|lia|done|done].
Qed.

Lemma encode_loop_chunks events chunk ds out chunks :
  carries events chunks → Forall chunk_ok chunks → (chunk = [] ∨ chunk_ok chunk) → 0 ≤ sizes chunk →
  sized ds → sizes chunk + sizes ds < U64 →
  encode_loop events chunk (sizes chunk) ds = Ok out →
  ∃ chunks', carries out chunks' ∧ Forall chunk_ok chunks' ∧ concat chunks' = concat chunks ++ chunk ++ ds.
Proof.
  revert events chunk chunks. induction ds as [|d ds IH]; intros events chunk chunks Hc Hok Hch Hp Hs Hlt E.
  - cbn [encode_loop] in E. rewrite app_nil_r. destruct chunk as [|x chunk].
    { injection E as <-. exists chunks. by rewrite app_nil_r. }
    destruct (txb_event (x :: chunk)) as [e|] eqn:Ee; [|done]. cbn [rbind] in E. injection E as <-.
    exists (chunks ++ [x :: chunk]). split_and!; [by apply carries_snoc| |].
    + apply Forall_app. split; [done|]. apply Forall_singleton. by destruct Hch.
    + by rewrite concat_app; cbn [concat]; rewrite app_nil_r.
  - destruct (sized_cons d ds Hs) as (Hd & Hs' & Hsz & Hds). cbn [encode_loop] in E.
    destruct (serialized_size d) as [n|] eqn:En; [|done]. cbn [codec rbind] in E. cbn [from_option id] in Hd, Hsz.
    assert (sizes [d] = n) as H1 by (unfold sizes; simpl; rewrite En; simpl; lia).
    rewrite u64_add_small in E by lia.
    destruct ((TXB_CHUNK <? sizes chunk + n) && negb (bool_decide (chunk = []))) eqn:Ec.
    + apply andb_true_iff in Ec as [_ Hne%negb_true_iff]. apply bool_decide_eq_false_1 in Hne.
      destruct (txb_event chunk) as [e|] eqn:Ee; [|done]. cbn [rbind] in E.
      rewrite <-H1 in E. destruct (IH (events ++ [e]) [d] (chunks ++ [chunk])) as (cs & ? & ? & Hcat);
        [by apply carries_snoc| |by right; split; [|left]|lia|done|lia|done|].
      { apply Forall_app. split; [done|]. apply Forall_singleton. by destruct Hch. }
      exists cs. split_and!; [done..|]. rewrite Hcat, concat_app. cbn [concat]. by rewrite app_nil_r, <-!app_assoc.
    + rewrite <-H1, <-sizes_app in E. destruct (IH events (chunk ++ [d]) chunks) as (cs & ? & ? & Hcat);
        [done|done| |rewrite sizes_app; lia|done|rewrite sizes_app; lia|done|].
      { right. split; [by destruct chunk|]. rewrite sizes_app. apply andb_false_iff in Ec as [Ec|Ec].
        - right. apply Z.ltb_ge in Ec. lia.
        - left. apply negb_false_iff, bool_decide_eq_true_1 in Ec. by subst chunk. }
      exists cs. split_and!; [done..|]. rewrite Hcat. by rewrite <-!app_assoc.
Qed.

Lemma encode_carries ds events : sized ds → encode_deltas ds = Ok events →
  ∃ chunks, carries events chunks ∧ Forall chunk_ok chunks ∧ concat chunks = ds.
Proof.
  intros Hs E. apply (encode_loop_chunks [] [] ds events []); [constructor|constructor|by left|done|done|by destruct Hs|done].
Qed.

Lemma carries_decode envs chunks : carries (payload <$> envs) chunks →
  delta_events ∘ from_parts <$> envs = Ok <$> chunks.
Proof.
  revert chunks. induction envs as [|e envs IH]; intros chunks Hc; inversion Hc as [|? c ? cs [Ht Hpk] Hcs]; subst;
    [done|]. rewrite !fmap_cons, (IH cs Hcs). f_equal. cbn [compose]. unfold delta_events. cbn [ev_type from_parts ev_data].
  change (env_type e) with (ne_type (payload e)). rewrite Ht, String.eqb_refl.
  change (env_data e) with (ne_data (payload e)). by apply unpack_pack.
Qed.

(** C25: a batch survives its encoding: the events of [encode_deltas] decode,
    in order, to exactly the deltas encoded, whatever envelopes the store
    gives them, and no event packs more than [TXB_CHUNK] bytes of deltas
    unless it packs a single one. *)
Theorem deltas_roundtrip ds events envs :
  sized ds → encode_deltas ds = Ok events → payload <$> envs = events →
  ∃ chunks, collect (delta_events ∘ from_parts <$> envs) = Ok chunks
    ∧ concat chunks = ds ∧ Forall chunk_ok chunks.
Proof.
  intros Hs E <-. destruct (encode_carries ds _ Hs E) as (chunks & Hc & Hok & Hcat).
  exists chunks. split_and!; [|done|done]. rewrite (carries_decode _ _ Hc).
  clear. induction chunks as [|c cs IH]; [done|]. rewrite fmap_cons. cbn [collect rbind]. by rewrite IH.
Qed.
End codec.

(** ** Page maps *)

Lemma insert_frames_app fs1 fs2 m : insert_frames (fs1 ++ fs2) m = insert_frames fs2 (insert_frames fs1 m).
Proof. apply fold_left_app. Qed.

Lemma insert_frames_union fs m : insert_frames fs m = insert_frames fs ∅ ∪ m.
Proof.
  revert m. induction fs as [|f fs IH] using rev_ind; intros m; [cbn; by rewrite (left_id_L ∅ (∪))|].
  rewrite !insert_frames_app, (IH m). cbn. by rewrite insert_union_l.
Qed.

Lemma insert_frames_notin fs m p : p ∉ pgno <$> fs → insert_frames fs m !! p = m !! p.
Proof.
  revert m. induction fs as [|f fs IH]; intros m; [done|]. rewrite fmap_cons, not_elem_of_cons.
  intros [Hne Hn]. cbn. unfold insert_frames in IH. rewrite IH by done. by apply lookup_insert_ne.
Qed.

Lemma insert_frames_in fs m f : NoDup (pgno <$> fs) → f ∈ fs → insert_frames fs m !! pgno f = Some (page f).
Proof.
  revert m. induction fs as [|g fs IH]; intros m; [by intros _ ?%not_elem_of_nil|].
  rewrite fmap_cons, NoDup_cons. intros [Hg Hnd] Hf. change (insert_frames (g :: fs) m) with
    (insert_frames fs (<[pgno g := page g]> m)).
  apply elem_of_cons in Hf as [-> | Hf]; [|by apply IH].
  rewrite insert_frames_notin by done. apply lookup_insert_eq.
Qed.

Lemma insert_frames_written fs m p : p ∈ pgno <$> fs → insert_frames fs m !! p = insert_frames fs ∅ !! p.
Proof.
  intros Hp. rewrite insert_frames_union. apply lookup_union_l'.
  induction fs as [|f fs IH] using rev_ind; [by apply not_elem_of_nil in Hp|].
  rewrite insert_frames_app. cbn. rewrite fmap_app in Hp.
  apply elem_of_app in Hp as [Hp | ->%list_elem_of_singleton]; [|by rewrite lookup_insert_eq].
  destruct (decide (p = pgno f)) as [-> |]; [by rewrite lookup_insert_eq|]. rewrite lookup_insert_ne by done. auto.
Qed.

Lemma into_frames_elem m f : f ∈ into_frames m ↔ m !! pgno f = Some (page f).
Proof.
  unfold into_frames. rewrite merge_sort_Permutation, list_elem_of_fmap. split.
  - by intros ([p x] & -> & Hx%elem_of_map_to_list).
  - intros Hf. exists (pgno f, page f). split; [by destruct f|by apply elem_of_map_to_list].
Qed.

Lemma into_frames_NoDup m : NoDup (pgno <$> into_frames m).
Proof.
  unfold into_frames. rewrite merge_sort_Permutation, <-list_fmap_compose. apply NoDup_fst_map_to_list.
Qed.

(** Inserting the frames of a map is a union. *)
Lemma insert_into_frames m m0 : insert_frames (into_frames m) m0 = m ∪ m0.
Proof.
  apply map_eq. intros p. rewrite lookup_union. destruct (m !! p) as [x|] eqn:E.
  - rewrite union_Some_l. apply (insert_frames_in _ _ (mkFrame p x)); [apply into_frames_NoDup|].
    by apply into_frames_elem.
  - rewrite insert_frames_notin, (left_id None (∪)); [done|]. intros (f & -> & Hf)%list_elem_of_fmap.
    apply into_frames_elem in Hf. congruence.
Qed.

(** ** Replays *)

Definition replay (i : DbImage) (ds : list Delta) : DbImage := fold_left DbImage_apply ds i.

Definition build (ds : list Delta) : LtxBuilder := fold_left LtxBuilder_apply ds LtxBuilder_default.

(** All frames of the deltas, in order. *)
Definition frames_of (ds : list Delta) : list Frame := concat (d_pages <$> ds).

Lemma replay_app i l1 l2 : replay i (l1 ++ l2) = replay (replay i l1) l2.
Proof. apply fold_left_app. Qed.

Lemma frames_of_app l1 l2 : frames_of (l1 ++ l2) = frames_of l1 ++ frames_of l2.
Proof. unfold frames_of. by rewrite fmap_app, concat_app. Qed.

Lemma frames_of_snoc l d : frames_of (l ++ [d]) = frames_of l ++ d_pages d.
Proof. rewrite frames_of_app. unfold frames_of at 2. simpl. by rewrite app_nil_r. Qed.

(** A replay is its last delta over the frames of all. *)
Lemma replay_eq i ds : replay i ds = match last ds with
  | None => i
  | Some d => mkImage (d_page_size d) (d_db_size d) (d_txid d) (insert_frames (frames_of ds) (i_pages i))
  end.
Proof.
  induction ds as [|d ds IH] using rev_ind; [done|]. rewrite replay_app, last_snoc. cbn.
  unfold DbImage_apply. f_equal. rewrite frames_of_snoc, insert_frames_app. f_equal.
  rewrite IH. by destruct ds as [|x ds _] using rev_ind; rewrite ?last_snoc.
Qed.

Lemma build_app l1 l2 : build (l1 ++ l2) = fold_left LtxBuilder_apply l2 (build l1).
Proof. apply fold_left_app. Qed.

Lemma build_eq ds : build ds = match head ds, last ds with
  | Some f, Some d =>
      mkBuilder (Some (d_txid f)) (d_txid d) (d_page_size d) (d_db_size d) (insert_frames (frames_of ds) ∅)
  | _, _ => LtxBuilder_default
  end.
Proof.
  induction ds as [|d ds IH] using rev_ind; [done|]. rewrite build_app, last_snoc, IH. cbn.
  rewrite frames_of_snoc, insert_frames_app.
  destruct ds as [|f ds]; [done|]. cbn [head app]. destruct (last (f :: ds)) eqn:E; [done|].
  by apply last_None in E.
Qed.

(** Merging the sealed fold of some deltas is replaying them. *)
Lemma merge_built i ds txid_start :
  ds ≠ [] → merge_ltx i (into_ltx txid_start (build ds)) = replay i ds.
Proof.
  intros Hne. rewrite build_eq, replay_eq. destruct ds as [|f ds]; [done|]. cbn [head].
  destruct (last (f :: ds)) as [d|] eqn:E; [|by apply last_None in E].
  unfold merge_ltx, into_ltx. cbn. f_equal. by rewrite insert_into_frames, <-insert_frames_union.
Qed.

Lemma fold_frames ds m : fold_left (λ m d, insert_frames (d_pages d) m) ds m = insert_frames (frames_of ds) m.
Proof.
  revert m. induction ds as [|d ds IH]; intros m; [done|]. cbn [fold_left]. rewrite IH.
  unfold frames_of. cbn [fmap list_fmap concat]. by rewrite insert_frames_app.
Qed.

(** A folded batch replays to the same image. *)
Lemma replay_folded i ds newest : last ds = Some newest →
  replay i [fold_deltas newest ds] = replay i ds.
Proof.
  intros Hl. rewrite (replay_eq i ds), Hl. unfold replay, fold_deltas, DbImage_apply. cbn. f_equal.
  rewrite fold_frames. by rewrite insert_into_frames, <-insert_frames_union.
Qed.

(** ** Images up to the pages beyond their end *)

(** Two images of the same database: pages beyond its size, left over from a
    larger database, do not matter. *)
#[global] Instance image_equiv : Equiv DbImage := λ i1 i2,
  i_page_size i1 = i_page_size i2 ∧ i_db_size i1 = i_db_size i2 ∧ i_txid i1 = i_txid i2
  ∧ ∀ p, p ≤ i_db_size i1 → i_pages i1 !! p = i_pages i2 !! p.

#[global] Instance image_equivalence : Equivalence (≡@{DbImage}).
Proof.
  split.
  - by intros i.
  - intros i1 i2 (? & Hs & ? & Hp). split_and!; [done..|]. intros p Hle. symmetry. apply Hp. congruence.
  - intros i1 i2 i3 (? & Hs & ? & Hp) (? & ? & ? & Hp'). split_and!; [congruence..|]. intros p Hle.
    rewrite Hp by done. apply Hp'. congruence.
Qed.

(** A transaction that makes the database larger writes every new page. *)
Fixpoint grows (size : Z) (ds : list Delta) : Prop :=
  match ds with
  | [] => True
  | d :: ds =>
      Forall (λ p, p ∈ pgno <$> d_pages d) (seqZ (size + 1) (d_db_size d - size)) ∧ grows (d_db_size d) ds
  end.

#[global] Instance grows_dec ds : ∀ size, Decision (grows size ds).
Proof. induction ds as [|d ds IH]; intros size; simpl; apply _. Defined.

Lemma grows_app size l1 l2 :
  grows size (l1 ++ l2) ↔ grows size l1 ∧ grows (default size (d_db_size <$> last l1)) l2.
Proof.
  revert size. induction l1 as [|d l1 IH]; intros size; [simpl; tauto|]. cbn [app grows]. rewrite IH.
  destruct l1 as [|x l1]; simpl; [tauto|]. destruct (last (x :: l1)) eqn:E; [simpl; tauto|].
  by apply last_None in E.
Qed.

Lemma db_apply_equiv i1 i2 d : i1 ≡ i2 → grows (i_db_size i1) [d] → DbImage_apply i1 d ≡ DbImage_apply i2 d.
Proof.
  intros (? & Hs & ? & Hp) [Hg _]. split_and!; [done..|]. intros p Hle. cbn in *.
  destruct (decide (p ∈ pgno <$> d_pages d)) as [Hin|Hn].
  - by rewrite !(insert_frames_written _ (i_pages _)).
  - rewrite !insert_frames_notin by done. apply Hp. destruct (decide (p ≤ i_db_size i1)); [done|].
    destruct Hn. rewrite Forall_forall in Hg. apply Hg, elem_of_seqZ. lia.
Qed.

Lemma db_replay_equiv i1 i2 ds : i1 ≡ i2 → grows (i_db_size i1) ds → replay i1 ds ≡ replay i2 ds.
Proof.
  revert i1 i2. induction ds as [|d ds IH]; intros i1 i2 Hi Hg; [done|]. cbn. apply IH.
  - apply db_apply_equiv; [done|]. split; [apply Hg|done].
  - apply Hg.
Qed.

Lemma trimmed_equiv ps sz tx (m : Pages) :
  mkImage ps sz tx (filter (λ p, p.1 ≤ sz) m) ≡ mkImage ps sz tx m.
Proof.
  split_and!; [done..|]. cbn. intros p Hp. destruct (m !! p) as [x|] eqn:E.
  - by apply map_lookup_filter_Some.
  - apply map_lookup_filter_None. by left.
Qed.

(** ** Database files *)

Definition blank (i : DbImage) : bytes := replicate (Z.to_nat (i_page_size i)) x00.

(** Page after page, those never written all zero. *)
Definition file_pages (i : DbImage) (m : Pages) : list bytes :=
  (λ k, default (blank i) (m !! (Z.of_nat k + 1))) <$> seq 0 (Z.to_nat (i_db_size i)).

Definition file_of (i : DbImage) : bytes := concat (file_pages i (i_pages i)).

Record image_ok (i : DbImage) : Prop := {
  io_page_size : 0 < i_page_size i;
  io_pages p x : p ≤ i_db_size i → i_pages i !! p = Some x → 0 ≤ p ∧ Z.of_nat (length x) = i_page_size i;
}.

Section blocks.
Context (n : nat).

Definition uniform (bl : list bytes) : Prop := Forall (λ x, length x = n) bl.

Lemma uniform_length bl : uniform bl → length (concat bl) = (length bl * n)%nat.
Proof. induction 1 as [|x bl Hx Hbl IH]; [done|]. cbn [concat length]. rewrite length_app. lia. Qed.

Lemma copy_block bl k x y :
  uniform bl → length x = n → bl !! k = Some y →
  copy_at (concat bl) (k * n) x = Some (concat (<[k := x]> bl)).
Proof.
  intros Hu Hx Hk. pose proof (uniform_length bl Hu) as Hl. pose proof (lookup_lt_Some _ _ _ Hk) as Hlt.
  unfold copy_at. rewrite Hl, Hx, (proj2 (Nat.leb_le _ _)) by nia. f_equal.
  rewrite <-(take_drop_middle bl k y Hk) at 1 2. rewrite insert_take_drop by done.
  rewrite !concat_app. cbn [concat].
  assert (uniform (take k bl) ∧ length y = n) as [Hu1 Hy].
  { split; [by apply Forall_take|]. by apply (Forall_lookup_1 _ _ _ _ Hu Hk). }
  assert (length (concat (take k bl)) = (k * n)%nat) as Hl1.
  { rewrite (uniform_length _ Hu1), length_take. f_equal. lia. }
  rewrite take_app_length' by done. f_equal. f_equal.
  rewrite app_assoc, drop_app_length'; [done|]. rewrite length_app. lia.
Qed.
End blocks.

Lemma write_pages_exact i m fs :
  0 < i_page_size i →
  Forall (λ f, pgno f ≤ i_db_size i → 0 ≤ pgno f ∧ Z.of_nat (length (page f)) = i_page_size i) fs →
  uniform (Z.to_nat (i_page_size i)) (file_pages i m) →
  fold_left (write_page i) fs (Some (concat (file_pages i m))) = Some (concat (file_pages i (insert_frames fs m))).
Proof.
  intros Hps Hfs. revert m. induction Hfs as [|f fs Hpl Hfs IH]; intros m Hu; [done|].
  cbn [fold_left]. change (insert_frames (f :: fs) m) with (insert_frames fs (<[pgno f := page f]> m)).
  assert (write_page i (Some (concat (file_pages i m))) f
    = Some (concat (file_pages i (<[pgno f := page f]> m)))
    ∧ uniform (Z.to_nat (i_page_size i)) (file_pages i (<[pgno f := page f]> m))) as [-> Hu'];
    [|by apply IH]. unfold write_page.
  destruct ((pgno f =? 0) || (i_db_size i <? pgno f)) eqn:E.
  - assert (file_pages i (<[pgno f := page f]> m) = file_pages i m) as ->; [|done].
    apply list_fmap_ext. intros j k [-> Hk]%lookup_seq. rewrite lookup_insert_ne; [done|].
    apply orb_true_iff in E as [E%Z.eqb_eq | E%Z.ltb_lt]; lia.
  - apply orb_false_iff in E as [E1%Z.eqb_neq E2%Z.ltb_ge]. destruct (Hpl E2) as [Hp Hlen]. set (k := Z.to_nat (pgno f - 1)).
    assert (file_pages i (<[pgno f := page f]> m) = <[k := page f]> (file_pages i m)) as ->.
    { apply list_eq. intros j. unfold file_pages at 1. rewrite list_lookup_fmap.
      destruct (decide (j < Z.to_nat (i_db_size i))%nat) as [Hj|Hj].
      - rewrite lookup_seq_lt by done. cbn. destruct (decide (j = k)) as [-> |Hne].
        + rewrite list_lookup_insert_eq by (unfold file_pages; rewrite length_fmap, length_seq; lia).
          replace (Z.of_nat k + 1) with (pgno f) by lia. by rewrite lookup_insert_eq.
        + rewrite list_lookup_insert_ne, lookup_insert_ne by lia. unfold file_pages.
          by rewrite list_lookup_fmap, lookup_seq_lt.
      - rewrite lookup_seq_ge by lia. symmetry. apply lookup_ge_None.
        rewrite length_insert. unfold file_pages. rewrite length_fmap, length_seq. lia. }
    split; [|by apply Forall_insert; [|lia]].
    assert (is_Some (file_pages i m !! k)) as [y Hy].
    { apply lookup_lt_is_Some. unfold file_pages. rewrite length_fmap, length_seq. lia. }
    apply (copy_block _ _ _ _ y); [done|lia|done].
Qed.

Lemma to_bytes_file i : image_ok i → to_bytes i = Some (file_of i).
Proof.
  intros [Hps Hpg]. unfold to_bytes. destruct (Z.eqb_spec (i_page_size i) 0) as [|_]; [lia|].
  assert (replicate (Z.to_nat (i_db_size i) * Z.to_nat (i_page_size i)) x00 = concat (file_pages i ∅)
    ∧ uniform (Z.to_nat (i_page_size i)) (file_pages i ∅)) as [-> Hu].
  { unfold file_pages. assert (∀ a k, (λ k : nat, default (blank i) ((∅ : Pages) !! (Z.of_nat k + 1))) <$> seq a k
      = replicate k (blank i)) as ->.
    { intros a k. revert a. induction k as [|k IH]; intros a; [done|]. simpl. by rewrite IH. }
    split.
    - generalize (Z.to_nat (i_db_size i)) as k. intros k. induction k as [|k IH]; [done|]. cbn [replicate concat].
      rewrite <-IH. unfold blank. by rewrite <-replicate_add.
    - apply Forall_replicate. unfold blank. apply length_replicate. }
  rewrite write_pages_exact; [|done| |done].
  - rewrite insert_into_frames, (right_id_L ∅ (∪)). done.
  - apply Forall_forall. intros f Hf%into_frames_elem Hle. by apply (Hpg _ _ Hle Hf).
Qed.

#[global] Instance image_ok_proper : Proper ((≡) ==> impl) image_ok.
Proof.
  intros i1 i2 (Hps & Hsz & _ & Hp) [H1 H2]. split; [by rewrite <-Hps|]. intros p x Hle Hx.
  rewrite <-Hps. apply H2; [lia|]. rewrite Hp by lia. done.
Qed.

(** Equal images have one file. *)
#[global] Instance file_of_proper : Proper ((≡) ==> (=)) file_of.
Proof.
  intros i1 i2 (Hps & Hs & _ & Hp). unfold file_of, file_pages, blank. rewrite <-Hs, <-Hps. f_equal.
  apply list_fmap_ext. intros j k [-> Hk]%lookup_seq. by rewrite Hp by lia.
Qed.

Lemma concat_block n bl k x : uniform n bl → bl !! k = Some x → take n (drop (k * n) (concat bl)) = x.
Proof.
  intros Hu Hk. rewrite <-(take_drop_middle bl k x Hk), concat_app. cbn [concat].
  assert (uniform n (take k bl)) as Hu1 by by apply Forall_take.
  assert (length x = n) as Hx by by apply (Forall_lookup_1 _ _ _ _ Hu Hk).
  pose proof (lookup_lt_Some _ _ _ Hk).
  rewrite drop_app_length', take_app_length'; [done|done|].
  rewrite (uniform_length n _ Hu1), length_take. f_equal. lia.
Qed.

Lemma file_uniform i : image_ok i → uniform (Z.to_nat (i_page_size i)) (file_pages i (i_pages i)).
Proof.
  intros [Hps Hpg]. apply Forall_fmap, Forall_forall. intros k [_ Hk]%elem_of_seq. cbn.
  destruct (i_pages i !! (Z.of_nat k + 1)) as [x|] eqn:E; cbn.
  - destruct (Hpg (Z.of_nat k + 1) x) as [_ Hl]; [lia|done|]. lia.
  - apply length_replicate.
Qed.

(** Writing an image as a database file never goes out of range; the file
    has exactly the pages of the database, and reading it back at a page's
    offset gives the page, zeroes where no transaction wrote it. *)
Theorem to_bytes_exact i :
  image_ok i → 0 ≤ i_db_size i →
  ∃ out, to_bytes i = Some out
    ∧ length out = (Z.to_nat (i_db_size i) * Z.to_nat (i_page_size i))%nat
    ∧ ∀ p, 1 ≤ p ≤ i_db_size i →
        take (Z.to_nat (i_page_size i)) (drop (Z.to_nat (p - 1) * Z.to_nat (i_page_size i)) out)
        = default (blank i) (i_pages i !! p).
Proof.
  intros Hok Hsz. exists (file_of i). split_and!; [by apply to_bytes_file|..].
  - unfold file_of. rewrite (uniform_length _ _ (file_uniform i Hok)). unfold file_pages.
    by rewrite length_fmap, length_seq.
  - intros p Hp. apply concat_block; [by apply file_uniform|]. unfold file_pages.
    rewrite list_lookup_fmap, lookup_seq_lt by lia. cbn. do 3 f_equal. lia.
Qed.

(** ** Transaction ids *)

Lemma capture_loop_txids fuel wal h idx txid deltas cur :
  0 ≤ txid → txid + Z.of_nat fuel < U64 →
  ∃ new, (capture_loop fuel wal h idx txid deltas cur).1.1 = deltas ++ new
    ∧ Forall (λ d, txid < d_txid d) new ∧ StronglySorted (λ x y, d_txid x < d_txid y) new.
Proof.
  revert idx txid deltas cur. induction fuel as [|fuel IH]; intros idx txid deltas cur Hpos Hlt; cbn [capture_loop].
  { exists []. rewrite app_nil_r. by split_and!; [|constructor..]. }
  destruct (frame wal h idx) as [[[n sz] x]|].
  2: { exists []. rewrite app_nil_r. by split_and!; [|constructor..]. }
  destruct (sz =? 0).
  - destruct (IH (S idx) txid deltas (cur ++ [mkFrame n x])) as (new & -> & Hnew); [lia|lia|]. by exists new.
  - rewrite u64_add_small by lia. set (dl := mkDelta _ _ _ _).
    destruct (IH (S idx) (txid + 1) (deltas ++ [dl]) []) as (new & -> & Hall & Hsort); [lia|lia|].
    exists (dl :: new). rewrite <-app_assoc. split_and!; [done|..].
    + constructor; [simpl; lia|]. eapply Forall_impl; [exact Hall|]. simpl. lia.
    + constructor; [done|]. eapply Forall_impl; [exact Hall|]. simpl. lia.
Qed.

Lemma capture_txids file h base txid :
  0 ≤ txid → txid + Z.of_nat (HEADER_LEN + length file) < U64 →
  Forall (λ d, txid < d_txid d) (capture file h base txid).1
  ∧ StronglySorted (λ x y, d_txid x < d_txid y) (capture file h base txid).1.
Proof.
  intros Hpos Hlt. unfold capture. set (wal := take _ _ ++ drop _ _).
  assert (length wal ≤ HEADER_LEN + length file)%nat as Hlen.
  { unfold wal. rewrite length_app, length_take, length_drop. lia. }
  destruct (capture_loop_txids (length wal) wal h 0 txid [] []) as (new & E & Hnew); [lia|lia|].
  destruct (capture_loop _ _ _ _ _ _ _) as [[ds fs] idx]. simpl in *. by subst.
Qed.

(** ** Capturing again *)

(** The buffer of a capture is the file from the cursor's frame on. *)
Lemma frame_shift file h base idx : (HEADER_LEN <= length file)%nat →
  frame (take HEADER_LEN file ++ drop (HEADER_LEN + base * frame_len h) file) h idx = frame file h (base + idx).
Proof.
  intros Hlen. set (off := (HEADER_LEN + base * frame_len h)%nat).
  assert (∀ k m, (0 < k + m)%nat → get_slice (take HEADER_LEN file ++ drop off file) (HEADER_LEN + k) (HEADER_LEN + k + m)
    = get_slice file (off + k) (off + k + m)) as Hg.
  { intros k m Hkm. unfold get_slice. rewrite length_app, length_take, length_drop, drop_app_ge by (rewrite length_take; lia).
    rewrite length_take, drop_drop. replace (off + (HEADER_LEN + k - HEADER_LEN `min` length file))%nat with (off + k)%nat by lia.
    replace (HEADER_LEN + k + m - (HEADER_LEN + k))%nat with (off + k + m - (off + k))%nat by lia.
    replace (HEADER_LEN + k <=? HEADER_LEN + k + m)%nat with (off + k <=? off + k + m)%nat.
    2: { destruct (Nat.leb_spec (off + k) (off + k + m)), (Nat.leb_spec (HEADER_LEN + k) (HEADER_LEN + k + m)); lia. }
    replace (HEADER_LEN + k + m <=? HEADER_LEN `min` length file + (length file - off))%nat with (off + k + m <=? length file)%nat; [done|].
    destruct (Nat.leb_spec (off + k + m) (length file)),
      (Nat.leb_spec (HEADER_LEN + k + m) (HEADER_LEN `min` length file + (length file - off))); lia. }
  unfold frame. replace (HEADER_LEN + (base + idx) * frame_len h)%nat with (off + idx * frame_len h)%nat by (unfold off; lia).
  rewrite (Hg (idx * frame_len h)%nat FRAME_HEADER_LEN), <-!(Nat.add_assoc HEADER_LEN), <-!(Nat.add_assoc off);
    [|unfold FRAME_HEADER_LEN; lia].
  pose proof (Hg (idx * frame_len h + FRAME_HEADER_LEN)%nat (Z.to_nat (h_page_size h))) as Hd.
  unfold frame_len in *. rewrite <-!Nat.add_assoc in *. rewrite Hd; [done|unfold FRAME_HEADER_LEN; lia].
Qed.

Lemma frame_bound wal h idx x : frame wal h idx = Some x → (idx < length wal)%nat.
Proof.
  unfold frame, get_slice. destruct (_ && _) eqn:E; [|done]. intros _. apply andb_true_iff in E as [_ E%Nat.leb_le].
  unfold frame_len, HEADER_LEN, FRAME_HEADER_LEN in *. nia.
Qed.

(** A frame that does not commit. *)
Definition unfinished (wal : bytes) (h : Header) (i : nat) : Prop := ∃ n x, frame wal h i = Some (n, 0, x).

(** A capture ends where no frame follows, past the frames of an unfinished
    transaction. *)
Lemma capture_loop_end fuel wal h idx txid deltas cur ds tx_frames idx' :
  (length cur <= idx)%nat → (length wal <= idx + fuel)%nat →
  (∀ i, (idx - length cur <= i < idx)%nat → unfinished wal h i) →
  capture_loop fuel wal h idx txid deltas cur = (ds, tx_frames, idx') →
  (length tx_frames <= idx')%nat ∧ frame wal h idx' = None
  ∧ ∀ i, (idx' - length tx_frames <= i < idx')%nat → unfinished wal h i.
Proof.
  revert idx txid deltas cur. induction fuel as [|fuel IH]; intros idx txid deltas cur Hcur Hfuel Hun; cbn [capture_loop].
  { intros [= <- <- <-]. split_and!; [done| |done]. destruct (frame wal h idx) as [y|] eqn:E; [|done]. apply frame_bound in E. lia. }
  destruct (frame wal h idx) as [[[n sz] x]|] eqn:Ef; [|by intros [= <- <- <-]].
  destruct (Z.eqb_spec sz 0) as [-> |]; apply IH; rewrite ?length_app; cbn [length]; try lia.
  intros i Hi. destruct (decide (i = idx)) as [-> |]; [by exists n, x|apply Hun; lia].
Qed.

Lemma capture_loop_idle fuel wal h k idx txid deltas cur :
  (idx <= k)%nat → (∀ i, (idx <= i < k)%nat → unfinished wal h i) → frame wal h k = None →
  (capture_loop fuel wal h idx txid deltas cur).1.1 = deltas.
Proof.
  revert idx cur. induction fuel as [|fuel IH]; intros idx cur Hle Hun Hk; [done|]. cbn [capture_loop].
  destruct (decide (idx = k)) as [-> |]; [by rewrite Hk|]. destruct (Hun idx) as (pg & x & ->); [lia|]. cbn [Z.eqb].
  apply IH; [lia| |done]. intros i Hi. apply Hun. lia.
Qed.

(** Nothing is captured twice: from the frame a capture moves to, the same
    file has no transaction left. *)
Lemma captured_once file h base txid txid' :
  (HEADER_LEN <= length file)%nat → (capture file h (capture file h base txid).2 txid').1 = [].
Proof.
  intros Hlen. unfold capture at 2. set (wal := take _ _ ++ drop _ _).
  destruct (capture_loop (length wal) wal h 0 txid [] []) as [[ds fs] idx] eqn:E.
  apply capture_loop_end in E as (Hle & Hend & Hun); [|simpl; lia|lia|intros i Hi; simpl in Hi; lia]. cbn [snd].
  unfold capture. set (nf := (base + idx - length fs)%nat). set (wal' := take _ _ ++ drop _ _).
  assert (∀ i, frame wal' h i = frame file h (nf + i)) as Hf by (intros i; by apply frame_shift).
  assert (∀ i, frame wal h i = frame file h (base + i)) as Hf0 by (intros i; by apply frame_shift).
  pose proof (capture_loop_idle (length wal') wal' h (length fs) 0 txid' [] []) as Hidle.
  destruct (capture_loop (length wal') wal' h 0 txid' [] []) as [[ds' fs'] idx']. cbn [fst] in *. apply Hidle; [lia| |].
  - intros i Hi. destruct (Hun (idx - length fs + i)%nat) as (n & x & Hx); [lia|]. exists n, x. rewrite Hf, <-Hx, Hf0. f_equal. unfold nf. lia.
  - rewrite Hf, <-Hend, Hf0. f_equal. unfold nf. lia.
Qed.

(** A folded batch writes the pages its transactions added. *)
Lemma grows_written size ds newest p :
  grows size ds → last ds = Some newest → size < p ≤ d_db_size newest → p ∈ pgno <$> frames_of ds.
Proof.
  revert size. induction ds as [|d ds IH]; intros size Hg Hl Hp; [done|]. destruct Hg as [Hd Hg].
  unfold frames_of. rewrite fmap_cons. cbn [concat]. rewrite fmap_app. apply elem_of_app.
  destruct (decide (p ≤ d_db_size d)) as [Hle|Hgt].
  - left. rewrite Forall_forall in Hd. apply Hd, elem_of_seqZ. lia.
  - right. destruct ds as [|x ds]; [injection Hl as <-; lia|]. rewrite last_cons_cons in Hl.
    apply (IH (d_db_size d)); [done|done|lia].
Qed.

Lemma grows_folded size ds newest :
  grows size ds → last ds = Some newest → grows size [fold_deltas newest ds].
Proof.
  intros Hg Hl. split; [|done]. apply Forall_forall. intros p Hp%elem_of_seqZ. cbn in *.
  assert (p ∈ pgno <$> frames_of ds) as Hin by (eapply grows_written; [done..|lia]).
  rewrite fold_frames. destruct (insert_frames (frames_of ds) ∅ !! p) as [x|] eqn:E.
  - apply list_elem_of_fmap. exists (mkFrame p x). split; [done|]. by apply into_frames_elem.
  - exfalso. pose proof (insert_frames_written (frames_of ds) {[p := []]} p Hin) as E'.
    rewrite E, insert_frames_union in E'. apply lookup_union_None in E' as [_ E']. by rewrite lookup_singleton_eq in E'.
Qed.
