(* ===== verification/SqliteThms.v ===== *)
(** * Theorems about replicated databases

    [replicated b d L]: the store and the bucket hold the database whose
    stream was given the records [L].  Sealing segments, coalescing them and
    purging the records they cover keep it, syncs extend it, and a restore
    reads back the replay of all its transactions. *)

From S2P Require Import Prelude Text Slate Types Keys Kv Fork Store Batch Append Wf Commit.
From S2P Require Import Appended Ops Purge History Txn Invariant Samples AppendThms ForkThms SnapshotThms.
From S2P Require Import Frames Bucket Wal Sqlite PageThms.
Local Open Scope Z_scope.

Definition txid_lt (x y : Delta) : Prop := d_txid x < d_txid y.

(** The first version a snapshot does not cover. *)
Definition after (snap : option SnapshotRecord) : Version := map_or 0 (λ r, sn_through_version r + 1) snap.

Section replicated.
Context `{SlateDb} `{Codecs} `{ObjectStore} `{SqliteCodecs}.

(** ** Transactions of a history *)

Definition deltas_in (e : Envelope) : list Delta :=
  match delta_events (from_parts e) with Ok ds => ds | Err _ => [] end.

Definition txs (l : list Envelope) : list Delta := concat (deltas_in <$> l).

Definition decodes (l : list Envelope) : Prop := Forall (λ e, ∃ ds, delta_events (from_parts e) = Ok ds) l.

(** ** Sealed transactions *)

(** A segment reference names the first and the last transaction it seals. *)
Record group_ok (sr : SegmentRef) (ds : list Delta) : Prop := {
  go_start : d_txid <$> head ds = Some (sr_txid_start sr);
  go_end : d_txid <$> last ds = Some (sr_txid_end sr);
}.

Definition load (b : bucket) (segs : list SegmentRef) : R DbImage :=
  load_loop (λ _, b) 0 DbImage_default segs.

(** The segments seal [groups]: every prefix loads to the replay of its
    transactions. *)
Record segments_ok (b : bucket) (segs : list SegmentRef) (groups : list (list Delta)) : Prop := {
  so_refs : Forall2 group_ok segs groups;
  so_load k : ∃ im, load b (take k segs) = Ok im ∧ im ≡ replay DbImage_default (concat (take k groups));
}.

(** No segment of a manifest is on its list of objects to delete. *)
Record manifest_ok (b : bucket) (m : Manifest) (groups : list (list Delta)) : Prop := {
  mo_segments : segments_ok b (m_segments m) groups;
  mo_retire p sr : p ∈ m_retire m → sr ∈ m_segments m → path_from p ≠ path_from (sr_path sr);
}.

(** The snapshot covers a version of [l], and its manifest seals exactly the
    transactions up to it. *)
Definition sealed (b : bucket) (snap : option SnapshotRecord) (l : list Envelope) : Prop :=
  match snap with
  | None => True
  | Some r => ∃ m groups, from_slice (sn_state r) = Some m ∧ manifest_ok b m groups
      ∧ concat groups = txs (upto (sn_through_version r) l)
      ∧ ∃ e, e ∈ l ∧ env_version e = sn_through_version r
  end.

(** What SQLite and the capture give: transaction ids grow, and a larger
    database has its new pages written. *)
Record tx_log (ds : list Delta) : Prop := {
  tl_sorted : StronglySorted txid_lt ds;
  tl_pos : Forall (λ d, 0 < d_txid d) ds;
  tl_grows : grows 0 ds;
}.

(** ** The invariant *)

Record replicated (s : string) (b : bucket) (d : db) (L : list Envelope) : Prop := {
  rp_wf : wf d;
  rp_versions : StronglySorted version_lt L;
  rp_nums : Forall (λ e, key_num (env_version e)) L;
  rp_decodes : decodes L;
  rp_txs : tx_log (txs L);
  rp_snaps : snaps_below d s;
  rp_writable : writable d s (next_version L);
  rp_tail : stream_version d s = Ok (env_version <$> last L);
  rp_log : ∃ snap l, latest_snapshot d s = Ok snap ∧ sealed b snap L ∧ hist d s l
    ∧ within (after snap) None l = within (after snap) None L;
}.

(** A handle that shows the records [L]: its image and its tail. *)
Record tracks (s : string) (h : Db) (L : list Envelope) : Prop := {
  tk_name : dh_name h = s;
  tk_image : dh_image h ≡ replay DbImage_default (txs L);
  tk_tail : dh_tail h = env_version <$> last L;
}.

(** A handle that is current: it shows the records, and its buffered pages are
    those written since the latest snapshot. *)
Record handle_ok (s : string) (h : Db) (d : db) (L : list Envelope) : Prop := {
  hk_name : dh_name h = s;
  hk_image : dh_image h ≡ replay DbImage_default (txs L);
  hk_tail : dh_tail h = env_version <$> last L;
  hk_pending : ∃ snap, latest_snapshot d s = Ok snap ∧ dh_pending h = build (txs (within (after snap) None L));
}.

End replicated.

Section restores.
Context `{SlateDbLaws} `{CodecLaws} `{ObjectStoreLaws} `{SqliteCodecLaws}.

Lemma txs_app l1 l2 : txs (l1 ++ l2) = txs l1 ++ txs l2.
Proof. unfold txs. by rewrite fmap_app, concat_app. Qed.

Lemma restore_fold l i p bad : decodes l →
  fold_left restore_step (from_parts <$> l) (i, p, bad)
  = (replay i (txs l), fold_left LtxBuilder_apply (txs l) p, bad).
Proof.
  intros Hd. revert i p. induction Hd as [|e l [ds Hds] Hl IH]; intros i p; [done|].
  rewrite fmap_cons. cbn [fold_left]. unfold restore_step at 2. rewrite Hds, IH.
  assert (txs (e :: l) = ds ++ txs l) as ->.
  { unfold txs. rewrite fmap_cons. cbn [concat]. unfold deltas_in at 1. by rewrite Hds. }
  by rewrite replay_app, fold_left_app.
Qed.

Lemma within_all l : Forall (λ e, key_num (env_version e)) l → within 0 None l = l.
Proof.
  intros Hn. apply filter_all. intros e He. rewrite Forall_forall in Hn. destruct (Hn e He) as [Hv _].
  unfold in_window. simpl. rewrite andb_true_r. by apply Z.leb_le.
Qed.

Lemma within_sorted lo hi l : StronglySorted version_lt l → StronglySorted version_lt (within lo hi l).
Proof. apply StronglySorted_filter. Qed.

(** The last version of a history that contains the version [v]. *)
Lemma last_after l e :
  StronglySorted version_lt l → e ∈ l →
  match env_version <$> last (within (env_version e + 1) None l) with
  | Some v => Some v | None => Some (env_version e) end = env_version <$> last l.
Proof.
  intros Hs He. pose proof (history_split l (env_version e) Hs) as Hsplit.
  destruct (within (env_version e + 1) None l) as [|x t _] using rev_ind.
  - rewrite (last_max version_lt l e); [done|done|unfold version_lt; lia|unfold version_lt; lia|done|].
    intros y Hy. rewrite Hsplit, app_nil_r in Hy. apply list_elem_of_filter in Hy as [Hle Hy].
    unfold version_lt. destruct (decide (env_version y = env_version e)) as [E|]; [|right; lia].
    left. by apply (sorted_version_inj l).
  - rewrite Hsplit, app_assoc, !last_snoc. done.
Qed.

Section database.
Context (s : string) (Hs : slash_free s) (b : bucket) (d : db) (L : list Envelope).

Lemma sealed_all snap :
  sealed b snap L → from_option (λ r, key_num (sn_through_version r)) True snap →
  StronglySorted version_lt L → Forall (λ e, key_num (env_version e)) L → tx_log (txs L) →
  latest_snapshot d s = Ok snap →
  ∃ im, restore_base d (λ _, b) s = Ok (im, after snap, sn_through_version <$> snap)
    ∧ replay im (txs (within (after snap) None L)) ≡ replay DbImage_default (txs L)
    ∧ key_lim (after snap)
    ∧ (∀ v, env_version <$> last (within (after snap) None L) = Some v → env_version <$> last L = Some v)
    ∧ (env_version <$> last (within (after snap) None L) = None →
         env_version <$> last L = sn_through_version <$> snap).
Proof.
  intros Hsl Hn Hv Hk Htx Hsn. unfold restore_base. rewrite Hsn. cbn [rbind].
  destruct snap as [r|]; cbn [after map_or].
  - destruct Hsl as (m & groups & -> & Hm & Hcat & e & He & Hev). cbn [json rbind] in *. cbn in Hn.
    destruct Hm as [[Hrefs Hload] _]. destruct (Hload (length (m_segments m))) as (im & Hl & Him).
    pose proof (Forall2_length _ _ _ Hrefs) as Hlen.
    rewrite take_ge in Hl by done. rewrite take_ge, Hcat in Him by lia. unfold load in Hl. rewrite Hl.
    cbn [rbind]. exists im. unfold key_num in Hn. u64_facts. rewrite u64_add_small by lia.
    pose proof (history_split L (sn_through_version r) Hv) as Hsplit.
    pose proof (last_after L e Hv He) as Hlast. rewrite Hev in Hlast.
    split_and!; [done| |unfold key_lim; lia|..].
    + rewrite Hsplit at 2. rewrite txs_app, replay_app.
      destruct Htx as [_ _ Hg]. rewrite Hsplit, txs_app, grows_app in Hg.
      apply db_replay_equiv; [done|]. destruct Him as (_ & -> & _). rewrite replay_eq.
      destruct Hg as [_ Hg]. by destruct (last (txs (upto (sn_through_version r) L))).
    + intros v E. by rewrite E in Hlast.
    + intros E. by rewrite E in Hlast.
  - exists DbImage_default. pose proof KEY_MAX_pos. rewrite within_all by done.
    split_and!; [done|done|unfold key_lim; lia|done|done].
Qed.

(** What [restore_impl] returns on a replicated database. *)
Lemma restore_impl_ok :
  replicated s b d L →
  ∃ im snap, latest_snapshot d s = Ok snap
    ∧ restore_impl d (λ _, b) d s
      = Ok (im, build (txs (within (after snap) None L)), env_version <$> last L)
    ∧ im ≡ replay DbImage_default (txs L).
Proof.
  intros [Hwf Hv Hk Hd Htx _ _ _ (snap & l & Hsn & Hsl & Hl & Hlog)].
  destruct (snapshot_shaped d s (wf_shaped _ Hwf) Hs) as (snap' & Hsn' & Hn).
  rewrite Hsn in Hsn'. injection Hsn' as <-.
  destruct (sealed_all snap Hsl Hn Hv Hk Htx Hsn) as (im & Hb & Him & Hlim & Hl1 & Hl2).
  unfold restore_impl. rewrite Hb. cbn [rbind]. rewrite (fold_history d s l) by done. cbn [rbind].
  rewrite Hlog. rewrite restore_fold.
  2: { unfold decodes in *. rewrite Forall_forall in *. intros e [_ He]%list_elem_of_filter. by apply Hd. }
  exists (replay im (txs (within (after snap) None L))), snap. split_and!; [done| |done].
  do 2 f_equal. destruct (env_version <$> last (within (after snap) None L)) as [v|] eqn:E.
  - symmetry. by apply Hl1.
  - symmetry. by apply Hl2.
Qed.
End database.

(** A restore reads back the whole database: from the latest manifest, its
    segments and the records after it, it rebuilds the replay of every
    transaction ever replicated, up to pages beyond the database's end, and
    returns the version of the last record. *)
Theorem restore_replays s b d L :
  slash_free s → replicated s b d L →
  ∃ im, restore d (λ _, b) d s = Ok (im, env_version <$> last L)
    ∧ im ≡ replay DbImage_default (txs L).
Proof.
  intros Hs Hr. destruct (restore_impl_ok s Hs b d L Hr) as (im & snap & _ & E & Him). exists im.
  split; [|done]. unfold restore. by rewrite E.
Qed.
End restores.

(** ** Syncs *)

Section syncs.
Context `{SlateDbLaws} `{CodecLaws} `{ObjectStoreLaws} `{SqliteCodecLaws}.

Lemma sealed_app b snap L envs :
  (∀ e, e ∈ envs → next_version L ≤ env_version e) → StronglySorted version_lt L →
  sealed b snap L → sealed b snap (L ++ envs).
Proof.
  intros Hn Hv. destruct snap as [r|]; [|done]. intros (m & groups & Hm & Hok & Hcat & e & He & Hev).
  exists m, groups. split_and!; [done..| |].
  - rewrite upto_app, (upto_below _ envs), app_nil_r; [done|]. intros x Hx.
    pose proof (below_next L e Hv He). specialize (Hn x Hx). lia.
  - exists e. split; [apply elem_of_app; by left|done].
Qed.

(** The records of a batch carry its deltas. *)
Lemma batch_txs ds events envs : sized ds → encode_deltas ds = Ok events → payload <$> envs = events →
  txs envs = ds ∧ decodes envs.
Proof.
  intros Hsz E <-. destruct (encode_carries ds _ Hsz E) as (chunks & Hc & _ & <-). apply carries_decode in Hc.
  clear Hsz E. revert chunks Hc. induction envs as [|e envs IH]; intros [|c cs] Hc; try done; [by split; [|constructor]|].
  rewrite !fmap_cons in Hc. injection Hc as He Hc. change (delta_events (from_parts e) = Ok c) in He.
  destruct (IH cs Hc) as [IH1 IH2]. split; [|constructor; [by exists c|done]].
  unfold txs in *. rewrite fmap_cons. cbn [concat]. rewrite IH1. unfold deltas_in. by rewrite He.
Qed.

(** An append of encoded deltas by the current writer. *)
Lemma append_replicates s b d L o expd tok ds events d' info :
  slash_free s → replicated s b d L → oracle_ok o → roomy s d → sized ds → tx_log (txs L ++ ds) →
  encode_deltas ds = Ok events → check_batch events = Ok tt →
  takes_effect d d' o (durable_sequence d) s expd None tok events false info →
  ∃ envs, replicated s b d' (L ++ envs) ∧ txs envs = ds ∧ env_version <$> last (L ++ envs) = Some (last_version info)
    ∧ (∀ snap, latest_snapshot d s = Ok snap → latest_snapshot d' s = Ok snap
        ∧ within (after snap) None (L ++ envs) = within (after snap) None L ++ envs).
Proof.
  intros Hs [Hwf Hv Hk Hd Htx Hsn Hw Ht (snap & l & Hsnap & Hsl & Hl & Hlog)] Ho [Hr1 Hr2] Hsz Htx' Henc Hb Heff.
  pose proof (nums_next L Hk) as Hpos. specialize (Hr1 _ Ht).
  pose proof (effect_fits _ _ _ _ _ _ _ _ _ _ L Hb Heff Ht Hpos Hr1) as Hfits.
  destruct (append_own d d' o s expd tok events false info Hwf Hs Ho Hb Heff Hfits) as (tv & envs & Htv & Hoa).
  rewrite Ht in Htv. injection Htv as <-. destruct Hoa as [_ Hpay Hne Hsort Hafter Hlast Htail Hwf' Hget Hhist].
  change (map_or 0 _ _) with (next_version L) in Hafter. change (map_or 0 _ _) with (next_version L) in Hhist.
  destruct (batch_txs ds events envs Hsz Henc Hpay) as [Hds Hdec]. exists envs.
  pose proof (append_snapshot d d' o s expd tok events false info Hwf Hs Ho Hb Heff Hfits s Hs) as Hss.
  assert (env_version <$> last (L ++ envs) = Some (last_version info)) as Hlast'.
  { destruct envs as [|x envs _] using rev_ind; [done|]. rewrite app_assoc, last_snoc. by rewrite last_snoc in Hlast. }
  assert (∀ snap, latest_snapshot d s = Ok snap →
    within (after snap) None (L ++ envs) = within (after snap) None L ++ envs) as Hwin.
  { intros sn Hsn'. rewrite Hsnap in Hsn'. injection Hsn' as <-. rewrite within_app. f_equal. apply filter_all.
    intros e He. unfold in_window. simpl. rewrite andb_true_r. apply Z.leb_le. specialize (Hafter e He).
    destruct snap as [r|]; simpl; [|lia]. destruct Hsl as (m & groups & _ & _ & _ & x & Hx & <-).
    pose proof (below_next L x Hv Hx). lia. }
  assert (∀ e, e ∈ envs → key_num (env_version e)) as Hnum.
  { intros e He. pose proof (below_next envs e Hsort He) as Hlt. destruct Hfits as [_ Hf]. specialize (Hafter e He).
    unfold next_version in Hlt. rewrite Hlast in Hlt. simpl in Hlt. unfold key_num in *. lia. }
  assert (next_version L ≤ next_version (L ++ envs)) as Hmono.
  { unfold next_version at 2. rewrite Hlast'. simpl. destruct (last envs) as [e|] eqn:El; [|done].
    injection Hlast as <-. apply last_Some_elem_of, Hafter in El. lia. }
  split_and!; [|done|done|intros sn Hsn'; split; [by rewrite Hss|by apply Hwin]].
  destruct (guards_frame d d' s Hs) as [Hg Htr].
  { intros k Hkk Ha Hn1 Hn2. apply Hget; [done|]. destruct k; simpl in *; try done;
      [by edestruct Hn1|by edestruct Hn2]. }
  split.
  - done.
  - by apply sorted_app.
  - apply Forall_app. split; [done|]. by apply Forall_forall.
  - apply Forall_app. by split.
  - by rewrite txs_app, Hds.
  - apply (append_snaps d d' o s expd tok events false info Hwf Hs Ho Hb Heff Hfits s Hs); [|done].
    pose proof (check_batch_length _ Hb). u64_facts. unfold MAX_BATCH_RECORDS in *. lia.
  - apply (writable_ext d d' s (next_version L)); [apply Hwf|apply Hwf'|done..].
  - by rewrite Htail, Hlast'.
  - exists snap, (l ++ envs). rewrite Hss. split_and!; [done|by apply sealed_app|by apply Hhist|].
    rewrite Hwin by done. rewrite within_app, Hlog. f_equal.
    specialize (Hwin snap Hsnap). rewrite within_app in Hwin. by apply app_inv_head in Hwin.
Qed.

(** ** What a sync replicates *)

(** The transactions a sync finds in the file. *)
Definition captured (wal_file : WalFile) (h : Db) : list Delta :=
  match wal_file with
  | WalBytes file true =>
      match header (take HEADER_LEN file) with
      | Some hd => (capture file hd (cur_frame (rewind hd (dh_cursor h))) (i_txid (dh_image h))).1
      | None => []
      end
  | _ => []
  end.

(** What it appends: [sync_coalesced] folds more than one. *)
Definition shipped (coalesce : bool) (ds : list Delta) : list Delta :=
  match last ds with
  | Some newest => if coalesce && (1 <? length ds)%nat then [fold_deltas newest ds] else ds
  | None => []
  end.

Lemma shipped_replay coalesce i ds : replay i (shipped coalesce ds) = replay i ds.
Proof.
  unfold shipped. destruct (last ds) as [x|] eqn:E; [|by apply last_None in E; subst].
  destruct (coalesce && _); [|done]. by apply replay_folded.
Qed.

Lemma replay_txid L : i_txid (replay DbImage_default (txs L)) = default 0 (d_txid <$> last (txs L)).
Proof. rewrite replay_eq. by destruct (last (txs L)). Qed.

Lemma replay_size L : i_db_size (replay DbImage_default (txs L)) = default 0 (d_db_size <$> last (txs L)).
Proof. rewrite replay_eq. by destruct (last (txs L)). Qed.

Lemma last_txid_max ds x : StronglySorted txid_lt ds → x ∈ ds → d_txid x ≤ default 0 (d_txid <$> last ds).
Proof.
  intros Hs Hx. destruct ds as [|y ds _] using rev_ind; [by apply not_elem_of_nil in Hx|].
  rewrite last_snoc. simpl. apply elem_of_app in Hx as [Hx | ->%list_elem_of_singleton]; [|lia].
  assert (txid_lt x y) as Hxy; [|unfold txid_lt in Hxy; lia].
  apply (StronglySorted_app_1_elem_of txid_lt ds [y]); [done|done|by left].
Qed.

(** The hypotheses on a WAL file: ids do not overflow, and a transaction that
    makes the database larger writes its new pages. *)
Record wal_ok (wal_file : WalFile) (h : Db) : Prop := {
  wo_txids : ∀ file t, wal_file = WalBytes file t →
    i_txid (dh_image h) + Z.of_nat (HEADER_LEN + length file) < U64;
  wo_grows : grows (i_db_size (dh_image h)) (captured wal_file h);
}.

Lemma handle_tracks s h d L : handle_ok s h d L → tracks s h L.
Proof. by intros [? ? ? _]. Qed.

Lemma tracks_handle s h d L snap :
  tracks s h L → latest_snapshot d s = Ok snap → dh_pending h = build (txs (within (after snap) None L)) → handle_ok s h d L.
Proof. intros [? ? ?] Hsn Hp. split; [done..|]. by exists snap. Qed.

Lemma tracks_cursor s h L c : tracks s h L → tracks s (with_cursor h c) L.
Proof. by intros [? ? ?]. Qed.

Lemma captured_log s h L wal_file :
  tracks s h L → tx_log (txs L) → wal_ok wal_file h → tx_log (txs L ++ captured wal_file h).
Proof.
  intros [_ Him _] [Hsort Hpos Hg] [Hov Hgr]. destruct Him as (_ & Hsz & Htx & _).
  rewrite replay_txid in Htx. rewrite Hsz, replay_size in Hgr.
  assert (0 ≤ i_txid (dh_image h)) as H0'.
  { rewrite Htx. destruct (last (txs L)) as [x|] eqn:E; simpl; [|done].
    apply last_Some_elem_of in E. rewrite Forall_forall in Hpos. specialize (Hpos x E). lia. }
  assert (Forall (λ d, i_txid (dh_image h) < d_txid d) (captured wal_file h)
    ∧ StronglySorted txid_lt (captured wal_file h)) as [Hall Hs'].
  { unfold captured. destruct wal_file as [| |file []]; try by split; constructor.
    destruct (header _) as [hd|]; [|by split; constructor]. apply capture_txids; [done|].
    by apply (Hov file true). }
  split.
  - apply StronglySorted_app_2; [|done..]. intros x y Hx Hy. rewrite Forall_forall in Hall.
    specialize (Hall y Hy). pose proof (last_txid_max _ _ Hsort Hx). unfold txid_lt. lia.
  - apply Forall_app. split; [done|]. eapply Forall_impl; [exact Hall|]. simpl. lia.
  - by apply grows_app.
Qed.

Lemma shipped_log coalesce l ds : tx_log (l ++ ds) → tx_log (l ++ shipped coalesce ds).
Proof.
  intros Htx. unfold shipped. destruct (last ds) as [x|] eqn:E; [|by apply last_None in E; subst].
  destruct (coalesce && _); [|done]. destruct Htx as [Hs Hp Hg].
  assert (x ∈ ds) as Hx by by apply last_Some_elem_of. apply StronglySorted_app in Hs as (Hlt & Hs1 & Hs2).
  apply Forall_app in Hp as [Hp1 Hp2]. apply grows_app in Hg as [Hg1 Hg2]. split.
  - apply StronglySorted_app_2; [|done|repeat constructor].
    intros y z Hy ->%list_elem_of_singleton. exact (Hlt y x Hy Hx).
  - apply Forall_app. split; [done|]. apply Forall_singleton. rewrite Forall_forall in Hp2. exact (Hp2 x Hx).
  - apply grows_app. split; [done|]. by apply grows_folded.
Qed.

(** ** The cursor *)

(** The cursor once the header has been read: frame 0 of a new generation of
    the file, or where it was. *)
Definition cursor_seen (wal_file : WalFile) (h : Db) : WalCursor :=
  match wal_file with
  | WalBytes file _ =>
      match header (take HEADER_LEN file) with Some hd => rewind hd (dh_cursor h) | None => dh_cursor h end
  | _ => dh_cursor h
  end.

(** The cursor past the captured transactions. *)
Definition cursor_past (wal_file : WalFile) (h : Db) : WalCursor :=
  match wal_file with
  | WalBytes file true =>
      match header (take HEADER_LEN file) with
      | Some hd => mkCursor (h_salt1 hd) (h_salt2 hd)
          (capture file hd (cur_frame (rewind hd (dh_cursor h))) (i_txid (dh_image h))).2
      | None => dh_cursor h
      end
  | _ => dh_cursor h
  end.

Lemma rewind_again hd c : rewind hd (rewind hd c) = rewind hd c.
Proof. unfold rewind at 2 3. destruct (_ && _) eqn:E; unfold rewind; [by rewrite E|]. cbn. by rewrite !Z.eqb_refl. Qed.

Lemma rewind_salts hd c n : mkCursor (cur_salt1 (rewind hd c)) (cur_salt2 (rewind hd c)) n = mkCursor (h_salt1 hd) (h_salt2 hd) n.
Proof. unfold rewind. destruct (_ && _) eqn:E; [|done]. by apply andb_true_iff in E as [->%Z.eqb_eq ->%Z.eqb_eq]. Qed.

Lemma captured_same wal_file h : captured wal_file (with_cursor h (cursor_seen wal_file h)) = captured wal_file h.
Proof.
  unfold captured, cursor_seen. destruct wal_file as [| |file []]; try done. destruct (header _) as [hd|]; [|done].
  change (dh_cursor (with_cursor h ?c)) with c. change (dh_image (with_cursor h ?c)) with (dh_image h). by rewrite rewind_again.
Qed.

Lemma captured_past wal_file h h' : dh_cursor h' = cursor_past wal_file h → captured wal_file h' = [].
Proof.
  intros Hc. unfold captured, cursor_past in *. destruct wal_file as [| |file []]; try done.
  destruct (header _) as [hd|] eqn:Eh; [|done]. rewrite Hc. unfold rewind at 1. cbn [cur_salt1 cur_salt2]. rewrite !Z.eqb_refl.
  cbn [andb cur_frame]. apply captured_once. unfold header in Eh. destruct (Nat.ltb_spec (length (take HEADER_LEN file)) HEADER_LEN) as [|Hl]; [done|].
  rewrite length_take in Hl. lia.
Qed.

(** ** The outcome of a sync *)

Lemma replicate_core s b d L o watch ds nf h r h' d' :
  slash_free s → replicated s b d L → tracks s h L → (∀ n, oracle_ok (o n)) → roomy s d →
  sized ds → tx_log (txs L ++ ds) →
  replicate_deltas o quiet watch ds nf h d = (r, h', d') →
  match r with
  | Ok _ => dh_cursor h' = mkCursor (cur_salt1 (dh_cursor h)) (cur_salt2 (dh_cursor h)) nf
      ∧ dh_pending h' = fold_left LtxBuilder_apply ds (dh_pending h)
      ∧ ∃ envs, txs envs = ds ∧ replicated s b d' (L ++ envs) ∧ tracks s h' (L ++ envs)
        ∧ ∀ snap, latest_snapshot d s = Ok snap → latest_snapshot d' s = Ok snap
            ∧ within (after snap) None (L ++ envs) = within (after snap) None L ++ envs
  | Err _ => h' = h ∧ (d' = d ∨ ∃ envs, txs envs = ds ∧ replicated s b d' (L ++ envs))
  end.
Proof.
  intros Hs Hr Hh Ho Hroom Hsz Htx E. unfold replicate_deltas in E.
  destruct (encode_deltas ds) as [events|e] eqn:Ee; [|injection E as <- <- <-; split; [done|by left]].
  unfold append_with_token_lazy in E. pose proof Hh as [Hn Him Htl]. rewrite Hn in E.
  destruct (commit_appends _ _ _ _ _ _ _ _ _) as [ra da] eqn:Ea. apply quiet_outcome in Ea.
  destruct ra as [tk|e]; [|injection E as <- <- <-; subst da; split; [done|by left]]. destruct Ea as [Hb Heff].
  destruct (append_replicates _ _ _ _ _ _ _ _ _ _ _ Hs Hr (Ho 0%nat) Hroom Hsz Htx Ee Hb Heff)
    as (envs & Hrep & Hds & Hlast & Hsnap).
  destruct (await_durable watch tk) as [[]|e]; injection E as <- <- <-.
  - split_and!; [done..|]. exists envs. split_and!; [done..| |done]. split; cbn [dh_name dh_image dh_tail]; [done|..|by rewrite Hlast].
    fold (replay (dh_image h) ds). rewrite txs_app, Hds, replay_app. apply db_replay_equiv; [done|].
    destruct Him as (_ & -> & _). rewrite replay_size. apply grows_app. apply Htx.
  - split; [done|]. right. by exists envs.
Qed.

(** What a sync by a handle that shows the records does, whatever its buffered
    pages. *)
Definition sync_effect (s : string) (b : bucket) (L : list Envelope) (coalesce : bool) (wal_file : WalFile)
    (h : Db) (d : db) (r : R nat) (h' : Db) (d' : db) : Prop :=
  let ds := shipped coalesce (captured wal_file h) in
  match r with
  | Ok n => n = length (captured wal_file h) ∧ dh_cursor h' = cursor_past wal_file h ∧ captured wal_file h' = []
      ∧ dh_pending h' = fold_left LtxBuilder_apply ds (dh_pending h)
      ∧ ∃ envs, txs envs = ds ∧ replicated s b d' (L ++ envs) ∧ tracks s h' (L ++ envs)
        ∧ ∀ snap, latest_snapshot d s = Ok snap → latest_snapshot d' s = Ok snap
            ∧ within (after snap) None (L ++ envs) = within (after snap) None L ++ envs
  | Err _ => h' = with_cursor h (cursor_seen wal_file h)
      ∧ (d' = d ∨ ds ≠ [] ∧ ∃ envs, txs envs = ds ∧ replicated s b d' (L ++ envs))
  end.

Lemma nothing_synced s b d L coalesce wal_file h h' :
  replicated s b d L → tracks s h L → captured wal_file h = [] →
  h' = with_cursor h (cursor_past wal_file h) → sync_effect s b L coalesce wal_file h d (Ok 0%nat) h' d.
Proof.
  intros Hr Hh Hc ->. unfold sync_effect. rewrite Hc. split_and!; [done..|by eapply captured_past|done|].
  exists []. rewrite app_nil_r. split_and!; [done..|by apply tracks_cursor|]. intros snap Hsn. by rewrite app_nil_r.
Qed.

Lemma with_own_cursor h : with_cursor h (dh_cursor h) = h.
Proof. by destruct h. Qed.

Lemma sync_effected s b d L o watch wal_file coalesce h r h' d' :
  slash_free s → replicated s b d L → tracks s h L → (∀ n, oracle_ok (o n)) → roomy s d →
  wal_ok wal_file h → sized (shipped coalesce (captured wal_file h)) →
  sync_inner o quiet watch wal_file coalesce h d = (r, h', d') → sync_effect s b L coalesce wal_file h d r h' d'.
Proof.
  intros Hs Hr Hh Ho Hroom Hw Hsz E. pose proof (captured_log s h L wal_file Hh (rp_txs _ _ _ _ Hr) Hw) as Htx.
  apply (shipped_log coalesce) in Htx. unfold sync_inner in E. destruct wal_file as [| |file readable].
  - injection E as <- <- <-. apply nothing_synced; [done..|by rewrite with_own_cursor].
  - injection E as <- <- <-. split; [by rewrite with_own_cursor|by left].
  - destruct (header (take HEADER_LEN file)) as [hd|] eqn:Eh.
    2: { injection E as <- <- <-. apply nothing_synced; [done|done|..]; destruct readable; try done; unfold captured, cursor_past;
         rewrite ?Eh; by rewrite ?with_own_cursor. }
    destruct readable; cbn [negb] in E; [|injection E as <- <- <-; split; [by unfold cursor_seen; rewrite Eh|by left]].
    set (h0 := with_cursor h (rewind hd (dh_cursor h))) in *.
    assert (cursor_seen (WalBytes file true) h = dh_cursor h0) as Hseen by (unfold cursor_seen; by rewrite Eh).
    assert (cursor_past (WalBytes file true) h
      = mkCursor (cur_salt1 (dh_cursor h0)) (cur_salt2 (dh_cursor h0)) (capture file hd (cur_frame (dh_cursor h0)) (i_txid (dh_image h0))).2) as Hpast.
    { unfold cursor_past. rewrite Eh. symmetry. apply rewind_salts. }
    assert (captured (WalBytes file true) h = (capture file hd (cur_frame (dh_cursor h0)) (i_txid (dh_image h0))).1) as Hcap
      by (unfold captured; by rewrite Eh).
    destruct (capture file hd (cur_frame (dh_cursor h0)) (i_txid (dh_image h0))) as [ds nf]. cbn [fst snd] in *.
    destruct (last ds) as [newest|] eqn:El.
    2: { apply last_None in El. subst ds. injection E as <- <- <-. apply nothing_synced; [done..|]. by rewrite Hpast. }
    assert ((if coalesce && (1 <? length ds)%nat then [fold_deltas newest ds] else ds) = shipped coalesce ds) as Hout
      by (unfold shipped; by rewrite El).
    rewrite Hout, Hcap in *. destruct (replicate_deltas o quiet watch (shipped coalesce ds) nf h0 d) as [[rr hh] dd] eqn:Er.
    injection E as <- <- <-.
    pose proof (replicate_core s b d L o watch _ nf h0 rr hh dd Hs Hr (tracks_cursor _ _ _ _ Hh) Ho Hroom Hsz Htx Er) as Hcore.
    unfold sync_effect. rewrite Hcap. destruct rr as [u|e]; cbn [rmap].
    + destruct Hcore as (Hc & Hp & Henvs). rewrite <-Hpast in Hc. split_and!; [done|done|by eapply captured_past|done|done].
    + destruct Hcore as [-> Hcore]. split; [by rewrite Hseen|]. destruct Hcore as [?|?]; [by left|right]. split; [|done].
      unfold shipped. rewrite El. destruct (coalesce && _); [done|]. by intros ->.
Qed.

(** The outcome of a sync by a current handle. *)
Definition sync_outcome (s : string) (b : bucket) (L : list Envelope) (coalesce : bool) (wal_file : WalFile)
    (h : Db) (d : db) (r : R nat) (h' : Db) (d' : db) : Prop :=
  let ds := shipped coalesce (captured wal_file h) in
  match r with
  | Ok n => n = length (captured wal_file h) ∧ dh_cursor h' = cursor_past wal_file h ∧ captured wal_file h' = []
      ∧ ∃ envs, txs envs = ds ∧ replicated s b d' (L ++ envs) ∧ handle_ok s h' d' (L ++ envs)
  | Err _ => h' = with_cursor h (cursor_seen wal_file h) ∧ captured wal_file h' = captured wal_file h ∧ handle_ok s h' d L
      ∧ (d' = d ∨ ds ≠ [] ∧ ∃ envs, txs envs = ds ∧ replicated s b d' (L ++ envs))
  end.

Lemma handle_cursor s h d L c : handle_ok s h d L → handle_ok s (with_cursor h c) d L.
Proof. by intros [? ? ? ?]. Qed.

Lemma sync_ok s b d L o watch wal_file coalesce h r h' d' :
  slash_free s → replicated s b d L → handle_ok s h d L → (∀ n, oracle_ok (o n)) → roomy s d →
  wal_ok wal_file h → sized (shipped coalesce (captured wal_file h)) →
  sync_inner o quiet watch wal_file coalesce h d = (r, h', d') → sync_outcome s b L coalesce wal_file h d r h' d'.
Proof.
  intros Hs Hr Hh Ho Hroom Hw Hsz E.
  pose proof (sync_effected _ _ _ _ _ _ _ _ _ _ _ _ Hs Hr (handle_tracks _ _ _ _ Hh) Ho Hroom Hw Hsz E) as Heff.
  unfold sync_effect, sync_outcome in *. destruct r as [n|e].
  - destruct Heff as (Hn & Hc & Hcap & Hp & envs & Ht & Hrep & Htk & Hsnap). split_and!; [done..|]. exists envs. split_and!; [done..|].
    destruct Hh as [_ _ _ (snap & Hsn & Hpd)]. destruct (Hsnap snap Hsn) as [Hsn' Hwin].
    apply (tracks_handle _ _ _ _ snap Htk Hsn'). rewrite Hp, Hpd, Hwin, txs_app, Ht. unfold build. by rewrite fold_left_app.
  - destruct Heff as [-> Hd]. split_and!; [done|apply captured_same|by apply handle_cursor|done].
Qed.

(** C22: a sync replicates exactly what it captured, once.  When it succeeds
    the database has the captured transactions (or, coalesced, one with the
    same effect) after the old ones, the count is reported, the handle is
    current again, and its cursor is past what was captured: the same file read
    again gives nothing.  When it fails the handle is what it was but for a
    cursor that went back to frame 0 if the file is of a new generation, the
    same file read again gives the same transactions, and the database is
    unchanged or has the transactions, only their durability unknown.  The
    handle is current to begin with: its image, its tail and its buffered pages
    are the stream's.  No
    other writer commits during the call, and the WAL file is as SQLite writes
    it. *)
Theorem sync_replicates s b d L o watch wal_file coalesce h r h' d' :
  slash_free s → replicated s b d L → handle_ok s h d L → (∀ n, oracle_ok (o n)) → roomy s d →
  wal_ok wal_file h → sized (shipped coalesce (captured wal_file h)) →
  sync_inner o quiet watch wal_file coalesce h d = (r, h', d') →
  sync_outcome s b L coalesce wal_file h d r h' d'
  ∧ ∀ i, replay i (shipped coalesce (captured wal_file h)) = replay i (captured wal_file h).
Proof.
  intros Hs Hr Hh Ho Hroom Hw Hsz E. split; [by eapply sync_ok|]. intros i. apply shipped_replay.
Qed.
End syncs.
