(* ===== verification/SealThms.v ===== *)
(** * Theorems about checkpoints of replicated databases

    Sealing the pending transactions into a segment, coalescing the segments,
    deleting the objects a coalescing replaced and purging the records a
    manifest covers: none of it changes what a restore reads. *)

From S2P Require Import Prelude Text Slate Types Keys Kv Fork Store Batch Append Wf Commit.
From S2P Require Import Appended Ops Purge History Txn Invariant Samples AppendThms ForkThms RetentionThms SnapshotThms.
From S2P Require Import Frames Bucket Wal Sqlite PageThms SqliteThms.
Local Open Scope Z_scope.

Section segments.
Context `{SlateDbLaws} `{CodecLaws} `{ObjectStoreLaws} `{SqliteCodecLaws}.

(** ** Objects *)

Definition ltx_path (name ulid : string) : string := path_from ("ltx/" +:+ name +:+ "/" +:+ ulid).

(** The two buckets hold the same objects for [segs]. *)
Definition same_objects (b b' : bucket) (segs : list SegmentRef) : Prop :=
  ∀ sr, sr ∈ segs → fetch_ltx b' (sr_path sr) = fetch_ltx b (sr_path sr).

Lemma put_ltx_outcome ulid name ltx b r b' :
  put_ltx ulid name ltx b = (r, b') →
  match r with
  | Err _ => b' = b
  | Ok p => p = ltx_path name ulid
      ∧ (path_from p = p → fetch_ltx b' p = Ok ltx)
      ∧ ∀ q, path_from q ≠ p → fetch_ltx b' q = fetch_ltx b q
  end.
Proof.
  unfold put_ltx. fold (ltx_path name ulid). destruct (pack ltx) as [x|e] eqn:Ep; [|by intros [= <- <-]].
  destruct (bucket_put b (ltx_path name ulid) x) as [b1|] eqn:Eb; [|by intros [= <- <-]].
  intros [= <- <-]. split_and!; [done|..].
  - intros Hp. unfold fetch_ltx. rewrite Hp, (bucket_get_put _ _ _ _ Eb), decide_True by done.
    cbn [io rbind]. by apply unpack_pack.
  - intros q Hq. unfold fetch_ltx. by rewrite (bucket_get_put _ _ _ _ Eb), decide_False.
Qed.

Lemma delete_paths_get paths b q :
  (∀ p, p ∈ paths → path_from p ≠ path_from q) → fetch_ltx (delete_paths paths b) q = fetch_ltx b q.
Proof.
  unfold delete_paths. revert b. induction paths as [|p paths IH]; intros b Hp; [done|]. cbn [fold_left].
  rewrite IH by (intros x Hx; apply Hp; by right). unfold fetch_ltx.
  rewrite bucket_get_delete; [done|]. apply not_eq_sym, Hp. by left.
Qed.

(** A load whose every fetch sees what [b] holds is a load from [b]. *)
Lemma load_views bs b i j im segs :
  (∀ k, same_objects b (bs k) segs) → load_loop bs i im segs = load_loop (λ _, b) j im segs.
Proof.
  revert i j im. induction segs as [|sr segs IH]; intros i j im Hb; [done|]. cbn [load_loop].
  rewrite (Hb i sr) by by left. destruct (fetch_ltx b (sr_path sr)) as [l|]; [|done]. cbn [rbind].
  apply IH. intros k x Hx. apply Hb. by right.
Qed.

Lemma db_load_app b i im l1 l2 :
  load_loop (λ _, b) i im (l1 ++ l2)
  = rbind (load_loop (λ _, b) i im l1) (λ im, load_loop (λ _, b) 0 im l2).
Proof.
  revert i im. induction l1 as [|sr l1 IH]; intros i im; cbn [app load_loop].
  - apply load_views. by intros k sr.
  - destruct (fetch_ltx b (sr_path sr)) as [l|]; [|done]. apply IH.
Qed.

Lemma load_app b l1 l2 :
  load b (l1 ++ l2) = rbind (load b l1) (λ im, load_loop (λ _, b) 0 im l2).
Proof. apply db_load_app. Qed.

Lemma segments_views b b' segs groups :
  same_objects b b' segs → segments_ok b segs groups → segments_ok b' segs groups.
Proof.
  intros Hb [Hr Hl]. split; [done|]. intros k. destruct (Hl k) as (im & E & Him). exists im. split; [|done].
  rewrite <-E. apply load_views. intros _ sr Hsr. apply Hb. apply elem_of_take in Hsr as (i & Hi & _).
  by apply list_elem_of_lookup_2 in Hi.
Qed.

(** ** Pushing a segment *)

Lemma built_group ds path : ds ≠ [] → ∃ txid_start, b_txid_start (build ds) = Some txid_start
  ∧ group_ok (SegmentRef_of (into_ltx txid_start (build ds)) path) ds.
Proof.
  intros Hne. rewrite build_eq. destruct ds as [|f ds]; [done|]. cbn [head].
  destruct (last (f :: ds)) as [x|] eqn:E; [|by apply last_None in E].
  exists (d_txid f). split; [done|]. split; [done|]. by rewrite E.
Qed.

Lemma push_segment b b' segs groups ds txid_start path :
  segments_ok b segs groups → same_objects b b' segs → ds ≠ [] →
  b_txid_start (build ds) = Some txid_start → fetch_ltx b' path = Ok (into_ltx txid_start (build ds)) →
  grows 0 (concat groups ++ ds) →
  segments_ok b' (segs ++ [SegmentRef_of (into_ltx txid_start (build ds)) path]) (groups ++ [ds]).
Proof.
  intros Hok Hb Hne Hst Hf Hg. apply (segments_views b b') in Hok; [|done]. destruct Hok as [Hr Hl].
  pose proof (Forall2_length _ _ _ Hr) as Hlen. split.
  - apply Forall2_app; [done|]. constructor; [|constructor].
    destruct (built_group ds path Hne) as (t & Ht & Hgr). rewrite Hst in Ht. by injection Ht as <-.
  - intros k. destruct (decide (k ≤ length segs)%nat) as [Hk|Hk].
    + rewrite !take_app_le by lia. apply Hl.
    + rewrite !take_ge by (rewrite length_app; simpl; lia).
      destruct (Hl (length segs)) as (im & E & Him). rewrite take_ge in E by done. rewrite take_ge in Him by lia.
      exists (replay im ds). split.
      * rewrite load_app, E. cbn [rbind load_loop sr_path SegmentRef_of]. rewrite Hf. cbn [rbind].
        by rewrite merge_built.
      * rewrite concat_app. cbn [concat]. rewrite app_nil_r, replay_app. apply db_replay_equiv; [done|].
        destruct Him as (_ & -> & _). rewrite replay_eq. apply grows_app in Hg as [_ Hg].
        by destruct (last (concat groups)).
Qed.

(** ** Coalescing *)

Lemma collect_load b new_path im im' segs :
  (∀ sr, sr ∈ segs → sr_path sr ≠ new_path) → load_loop (λ _, b) 0 im segs = Ok im' →
  collect_pages b new_path (i_pages im) segs = Ok (i_pages im').
Proof.
  generalize 0%nat as i. intros i. revert i im. induction segs as [|sr segs IH]; intros i im Hn E; cbn [load_loop collect_pages] in *.
  { by injection E as ->. }
  destruct (String.eqb_spec (sr_path sr) new_path) as [He|_]; [by destruct (Hn sr); [left|]|].
  destruct (fetch_ltx b (sr_path sr)) as [l|]; [|done]. cbn [rbind] in *.
  apply (IH (S i) (merge_ltx im l)); [|done]. intros x Hx. apply Hn. by right.
Qed.

Lemma collect_app b new_path pages l1 l2 :
  collect_pages b new_path pages (l1 ++ l2) = rbind (collect_pages b new_path pages l1) (λ p, collect_pages b new_path p l2).
Proof.
  revert pages. induction l1 as [|sr l1 IH]; intros pages; [done|]. cbn [app collect_pages].
  destruct (String.eqb _ _); [apply IH|]. destruct (fetch_ltx b (sr_path sr)) as [l|]; [|done]. apply IH.
Qed.

Lemma head_concat {A} (gs : list (list A)) g gs' : gs = g :: gs' → g ≠ [] → head (concat gs) = head g.
Proof. intros -> Hg. by destruct g. Qed.

Lemma groups_nonempty segs groups : Forall2 group_ok segs groups → Forall (λ g, g ≠ []) groups.
Proof. induction 1 as [|sr g segs gs [Hst _] Hr IH]; constructor; [|done]. by intros ->. Qed.

Lemma coalesced_group segs groups ds first sr merged path :
  Forall2 group_ok (segs ++ [sr]) (groups ++ [ds]) → head (segs ++ [sr]) = Some first →
  l_txid_start merged = sr_txid_start first → l_txid_end merged = sr_txid_end sr →
  group_ok (SegmentRef_of merged path) (concat (groups ++ [ds])).
Proof.
  intros Hr Hh Hst Hen. split; cbn [SegmentRef_of sr_txid_start sr_txid_end].
  - rewrite Hst. inversion Hr as [E|x g xs gs [Hx _] _ Ex Eg]; subst; [by destruct segs|].
    rewrite <-Ex in Hh. injection Hh as ->. rewrite (head_concat _ g gs); [done|done|]. by intros ->.
  - rewrite Hen. apply Forall2_app_inv_l in Hr as (gs1 & gs2 & Hr1 & Hr2 & E).
    inversion Hr2 as [|? g ? ? [_ Hx] Hnil]; subst. inversion Hnil; subst. rewrite E, concat_app. cbn [concat].
    rewrite app_nil_r. destruct g as [|y g _] using rev_ind; [done|]. by rewrite app_assoc, last_snoc in *.
Qed.

(** The merged segment loads to the replay of everything it replaces. *)
Lemma merged_load b path merged segs groups ds sr txid_start im pages :
  segments_ok b (segs ++ [sr]) (groups ++ [ds]) → group_ok (SegmentRef_of merged path) (concat (groups ++ [ds])) →
  fetch_ltx b path = Ok merged → load b segs = Ok im → load b (segs ++ [sr]) = Ok (merge_ltx im (into_ltx txid_start (build ds))) →
  pages = filter (λ p, p.1 ≤ b_db_size (build ds)) (insert_frames (into_frames (b_pages (build ds))) (i_pages im)) →
  l_page_size merged = b_page_size (build ds) → l_db_size merged = b_db_size (build ds) →
  l_txid_end merged = b_txid_end (build ds) → l_pages merged = into_frames pages →
  segments_ok b [SegmentRef_of merged path] [concat (groups ++ [ds])].
Proof.
  intros [Hr Hl] Hg Hf Him Hall Hp Hps Hds Htx Hpg. split; [by constructor; [|constructor]|]. intros [|k].
  { by exists DbImage_default. }
  rewrite !take_ge by (simpl; lia). unfold load. cbn [load_loop sr_path SegmentRef_of]. rewrite Hf. cbn [rbind].
  eexists. split; [done|]. cbn [concat]. rewrite app_nil_r.
  destruct (Hl (length (segs ++ [sr]))) as (im' & E & Heq). pose proof (Forall2_length _ _ _ Hr).
  rewrite take_ge in E by done. rewrite take_ge in Heq by lia. rewrite Hall in E. injection E as <-.
  rewrite <-Heq. unfold merge_ltx. rewrite Hps, Hds, Htx, Hpg, Hp. cbn [i_pages DbImage_default into_ltx
    l_page_size l_db_size l_txid_end l_pages]. rewrite insert_into_frames, (right_id_L ∅ (∪)). apply trimmed_equiv.
Qed.

Lemma coalesce_outcome at_ ulid name segs groups ds txid_start path b r b' :
  let ltx := into_ltx txid_start (build ds) in
  let sr := SegmentRef_of ltx path in
  segments_ok b (segs ++ [sr]) (groups ++ [ds]) → fetch_ltx b path = Ok ltx →
  (∀ x, x ∈ segs → sr_path x ≠ path) → path_from (ltx_path name ulid) = ltx_path name ulid →
  (∀ x, x ∈ segs ++ [sr] → path_from (sr_path x) ≠ ltx_path name ulid) →
  coalesce_segments at_ ulid name ltx sr (segs ++ [sr]) b = (r, b') →
  (∀ q, path_from q ≠ ltx_path name ulid → fetch_ltx b' q = fetch_ltx b q)
  ∧ match r with
    | Err _ => True
    | Ok (segs', retire) => ∃ groups', segments_ok b' segs' groups' ∧ concat groups' = concat (groups ++ [ds])
        ∧ (∀ x, x ∈ segs' → x ∈ segs ++ [sr] ∨ sr_path x = ltx_path name ulid)
        ∧ ∀ p x, p ∈ retire → x ∈ segs' → path_from p ≠ path_from (sr_path x)
    end.
Proof.
  intros ltx sr Hok Hf Hne Hp Hp2 E. unfold coalesce_segments in E.
  destruct (at_ <? length (segs ++ [sr]))%nat.
  2: { injection E as <- <-. split; [done|]. exists (groups ++ [ds]). split_and!; [done|done|by left|].
       by intros p x ?%not_elem_of_nil. }
  pose proof Hok as [Hr Hl]. destruct (Hl (length segs)) as (im & Him & _). rewrite take_app_length in Him.
  assert (load b (segs ++ [sr]) = Ok (merge_ltx im ltx)) as Hall.
  { rewrite load_app, Him. cbn [rbind load_loop sr_path SegmentRef_of]. subst sr. simpl. by rewrite Hf. }
  rewrite collect_app, (collect_load b (sr_path sr) DbImage_default im) in E; [|done|done].
  cbn [rbind collect_pages] in E. rewrite String.eqb_refl in E. cbn [rbind] in E.
  destruct (segs ++ [sr]) as [|first rest] eqn:Esegs; [by destruct segs|]. rewrite <-Esegs in *.
  set (merged := mkLtx _ _ _ _ _) in E.
  destruct (put_ltx ulid name merged b) as [rp bp] eqn:Ep. apply put_ltx_outcome in Ep.
  destruct rp as [mp|e]; [|injection E as <- <-; subst; done]. destruct Ep as (-> & Hfm & Hother).
  injection E as <- <-. split; [done|]. exists [concat (groups ++ [ds])]. split_and!.
  - assert (same_objects b bp (segs ++ [sr])) as Hso by (intros x Hx; by apply Hother, Hp2).
    assert (same_objects b bp segs) as Hso1 by (intros x Hx; apply Hso, elem_of_app; by left).
    apply (merged_load bp _ merged segs groups ds sr txid_start im
      (filter (λ p, p.1 ≤ b_db_size (build ds)) (insert_frames (into_frames (b_pages (build ds))) (i_pages im))));
      [by eapply segments_views| |by apply Hfm|..]; try done.
    + eapply coalesced_group; [exact Hr|by rewrite Esegs|done..].
    + rewrite <-Him. by apply load_views.
    + fold ltx. rewrite <-Hall. by apply load_views.
  - cbn [concat]. by rewrite app_nil_r.
  - intros x ->%list_elem_of_singleton. by right.
  - intros p x Hpin ->%list_elem_of_singleton. cbn [sr_path SegmentRef_of]. rewrite Hp.
    apply list_elem_of_fmap in Hpin as (y & -> & Hy). by apply Hp2.
Qed.
End segments.

Section seals.
Context `{SlateDbLaws} `{CodecLaws} `{ObjectStoreLaws} `{SqliteCodecLaws}.

Lemma within_later lo lo' l : lo ≤ lo' → within lo' None (within lo None l) = within lo' None l.
Proof. intros Hle. rewrite within_within. by rewrite Z.max_l. Qed.

(** ** Transfer of the invariant

    An operation that writes no record, tail, guard or fork reference keeps
    the database, if its history and snapshot still cover it. *)
Lemma replicated_frame s b b' d d' L snap l :
  slash_free s → replicated s b d L → wf d' → snaps_below d' s →
  (∀ k, key_ok k → aux_key k = false → (∀ x v, k ≠ KRec x v) → db_get d' (render k) = db_get d (render k)) →
  latest_snapshot d' s = Ok snap → sealed b' snap L → hist d' s l →
  within (after snap) None l = within (after snap) None L → replicated s b' d' L.
Proof.
  intros Hs Hr Hwf' Hsn' Hget Hsnap Hsl Hl Hlog. pose proof Hr as [Hwf Hv Hk Hd Htx _ Hw Ht _].
  destruct (guards_frame d d' s Hs) as [Hg Htr]; [by intros; apply Hget|].
  split; try done.
  - apply (writable_ext d d' s (next_version L)); [apply Hwf|apply Hwf'|done..].
  - rewrite <-Ht. unfold stream_version, tail, get_json. rewrite render_tail. by rewrite Hget.
  - by exists snap, l.
Qed.

(** ** Purges *)

Lemma purge_replicated s b d L r n d' :
  slash_free s → replicated s b d L → latest_snapshot d s = Ok (Some r) →
  purge_below s (u64_add (sn_through_version r) 1) d = (n, d') →
  replicated s b d' L ∧ latest_snapshot d' s = Ok (Some r).
Proof.
  intros Hs Hr Hsn E. pose proof Hr as [Hwf _ _ _ _ Hbelow _ _ (snap & l & Hsn' & Hsl & Hl & Hlog)].
  rewrite Hsn in Hsn'. injection Hsn' as <-. pose proof (wf_shaped _ Hwf) as Hsh.
  destruct (snapshot_shaped d s Hsh Hs) as (r0 & E0 & Hnum). rewrite Hsn in E0. injection E0 as <-.
  cbn in Hnum. unfold key_num in Hnum. u64_facts. rewrite u64_add_small in E by lia.
  assert (key_lim (sn_through_version r + 1)) as Hlim by (unfold key_lim; lia).
  destruct (purge_below_spec d s _ Hsh Hs Hlim) as (d0 & E0 & Hw). rewrite E0 in E. injection E as <- <-.
  pose proof (purge_get d s _ Hwf Hs Hlim d0 Hw) as Hget.
  assert (latest_snapshot d0 s = Ok (Some r)) as Hsn0.
  { rewrite <-Hsn. unfold latest_snapshot. rewrite (scan_ext d0 d); [done|by apply (purge_wf d s _ Hwf Hs Hlim d0 Hw)|done|].
    intros K suf Hok Heq. destruct (snap_family _ s suf Hok Hs Heq) as (q & -> & _). by apply Hget. }
  split; [|done]. destruct (purge_within d s _ _ d0 l Hwf Hs Hlim E0 Hl) as (l' & Hl' & Hwin).
  apply (replicated_frame s b b d d0 L (Some r) l'); [done|done|by apply (purge_wf d s _ Hwf Hs Hlim d0 Hw)| | |done..|].
  - intros q x Hq Hx. rewrite (Hget (KSnap s q)) in Hx; [|exact (conj Hs Hq)|discriminate]. specialize (Hbelow q x Hq Hx).
    unfold durable_sequence, get_be in *. rewrite render_seq in *. by rewrite Hget.
  - intros k Hk Ha Hn. apply Hget; [done|]. intros v. by apply Hn.
  - by rewrite <-Hlog.
Qed.

(** ** Publications *)

Section publish.
Context (s : string) (b : bucket) (d : db) (L : list Envelope) (o : Oracle) (through : Version) (state : bytes).
Context (Hs : slash_free s) (Hr : replicated s b d L) (Ho : oracle_ok o) (Hroom : roomy s d)
  (Hlast : env_version <$> last L = Some through).
Let record := checkpoint_record (o_clock o 0) s through.
Let d1 := db_apply d (render_ws (publish_kws o s record state (durable_sequence d + 1))).
Let snap := mkSnapshot through (cr_ts_ms record) state.

Lemma through_num : key_num through.
Proof.
  destruct (last L) as [e|] eqn:E; [|done]. injection Hlast as <-. apply last_Some_elem_of in E.
  pose proof (rp_nums _ _ _ _ Hr) as Hn. rewrite Forall_forall in Hn. by apply Hn.
Qed.

Lemma sequence_num : key_num (durable_sequence d + 1).
Proof.
  destruct Hroom as [_ Hq]. pose proof (durable_range d (wf_shaped _ (rp_wf _ _ _ _ Hr))).
  unfold MAX_BATCH_RECORDS, key_num in *. lia.
Qed.

Lemma publish_latest : latest_snapshot d1 s = Ok (Some snap).
Proof.
  apply published_latest; [apply Hr|done|done|apply through_num|apply sequence_num|apply Hr].
Qed.

Lemma publish_replicated b' :
  sealed b' (Some snap) L → replicated s b' d1 L.
Proof.
  intros Hsl. pose proof Hr as [Hwf _ _ _ _ Hbelow _ _ (sn & l & Hsn & Hsl0 & Hl & Hlog)].
  pose proof (published_get d o s record state Hs Ho through_num sequence_num) as Hget. fold d1 in Hget.
  apply (replicated_frame s b b' d d1 L (Some snap) l); [done|done| | | |apply publish_latest|done| |].
  - apply published_wf; [done..|apply through_num|apply sequence_num].
  - intros q x Hq Hx. unfold d1, publish_kws. change [?a; ?b0; ?c] with ([a; b0] ++ [c]).
    pose proof sequence_num as Hqn. unfold key_num in Hqn. u64_facts. rewrite durable_after by lia.
    destruct (decide (q = durable_sequence d + 1)) as [-> |Hne]; [lia|].
    rewrite (Hget (KSnap s q)) in Hx; [|exact (conj Hs Hq)|congruence|discriminate|discriminate]. specialize (Hbelow q x Hq Hx). lia.
  - intros k Hk Ha _. apply Hget; [done|..]; by intros ->.
  - apply published_hist; [done..|apply through_num|apply sequence_num|done|done].
  - cbn [after map_or sn_through_version snap]. rewrite <-(within_later (after sn) (through + 1) l),
      <-(within_later (after sn) (through + 1) L); [by rewrite Hlog|..];
    (destruct sn as [r|]; cbn [after map_or]; [|pose proof through_num as [? _]; lia]);
    destruct Hsl0 as (m & gs & _ & _ & _ & e & He & <-);
    pose proof (below_next L e (rp_versions _ _ _ _ Hr) He) as Hlt; unfold next_version in Hlt;
    rewrite Hlast in Hlt; simpl in Hlt; lia.
Qed.

Lemma publish_sealed b' m' groups :
  from_slice state = Some m' → manifest_ok b' m' groups → concat groups = txs L → sealed b' (Some snap) L.
Proof.
  intros Hj Hm Hc. exists m', groups. cbn [sn_state sn_through_version snap].
  rewrite (upto_last L through) by (apply Hr || done). split_and!; [done..|].
  destruct (last L) as [e|] eqn:E; [|done]. injection Hlast as Hlast'. exists e. split; [|done].
  by apply last_Some_elem_of.
Qed.
End publish.
End seals.

Section checkpoints.
Context `{SlateDbLaws} `{CodecLaws} `{ObjectStoreLaws} `{SqliteCodecLaws}.

(** What fresh ULIDs give: the paths of the new objects survive being parsed
    again, and no object of the manifest has them. *)
Record fresh_paths (o : Oracle) (s : string) (m : Manifest) : Prop := {
  fp_first : path_from (ltx_path s (o_ulid o 1)) = ltx_path s (o_ulid o 1);
  fp_second : path_from (ltx_path s (o_ulid o 2)) = ltx_path s (o_ulid o 2);
  fp_distinct : ltx_path s (o_ulid o 1) ≠ ltx_path s (o_ulid o 2);
  fp_old q : q ∈ (sr_path <$> m_segments m) ++ m_retire m →
    path_from q ≠ ltx_path s (o_ulid o 1) ∧ path_from q ≠ ltx_path s (o_ulid o 2);
}.

(** The manifest seals what the handle does not hold. *)
Lemma manifest_groups s b d L snap m :
  replicated s b d L → latest_snapshot d s = Ok snap → manifest_of d s = Ok m →
  ∃ groups, manifest_ok b m groups ∧ txs L = concat groups ++ txs (within (after snap) None L).
Proof.
  intros [_ Hv Hk _ _ _ _ _ (sn & l & Hsn & Hsl & _ & _)] Hsn' Hm. rewrite Hsn in Hsn'. injection Hsn' as <-.
  unfold manifest_of in Hm. rewrite Hsn in Hm. cbn [rbind] in Hm. destruct sn as [r|].
  - destruct Hsl as (m' & groups & Hj & Hok & Hcat & _). rewrite Hj in Hm. injection Hm as <-.
    exists groups. split; [done|]. cbn [after map_or]. rewrite (history_split L (sn_through_version r) Hv) at 1.
    by rewrite txs_app, Hcat.
  - injection Hm as <-. exists []. split.
    + split; [|by intros p sr ?%not_elem_of_nil]. split; [constructor|]. intros k. exists DbImage_default.
      cbn [m_segments Manifest_default]. rewrite !take_nil. by split.
    + cbn [after map_or concat app]. by rewrite within_all.
Qed.

Section seal.
Context (s : string) (b : bucket) (d : db) (L : list Envelope) (m : Manifest) (groups : list (list Delta))
  (ds : list Delta) (o : Oracle) (through : Version) (txid_start : Z).
Context (Hs : slash_free s) (Hr : replicated s b d L) (Ho : oracle_ok o) (Hroom : roomy s d)
  (Hlast : env_version <$> last L = Some through) (Hm : manifest_ok b m groups)
  (Htxs : txs L = concat groups ++ ds) (Hds : ds ≠ []) (Hst : b_txid_start (build ds) = Some txid_start)
  (Hfresh : fresh_paths o s m).
Let ltx := into_ltx txid_start (build ds).

(** A database stays replicated while its objects stay in the bucket. *)
Lemma replicated_objects b' :
  (∀ snap, latest_snapshot d s = Ok (Some snap) → from_slice (sn_state snap) = Some m) →
  same_objects b b' (m_segments m) → replicated s b' d L.
Proof.
  intros Hman Hso. pose proof Hr as [? ? ? ? ? ? ? ? (snap & l & Hsn & Hsl & Hl & Hlog)].
  split; try done. exists snap, l. split_and!; [done| |done|done]. destruct snap as [r|]; [|done].
  destruct Hsl as (m' & gs & Hj & [Hok Hret] & Hrest). rewrite (Hman r Hsn) in Hj. injection Hj as <-.
  exists m, gs. split_and!; [by apply Hman| |apply Hrest..]. split; [by apply (segments_views b)|done].
Qed.

Lemma sealed_objects watch opts restart r b' d' :
  seal o watch opts restart s through m ltx b d = (r, b', d') → same_objects b b' (m_segments m).
Proof.
  intros E sr Hsr. destruct Hfresh as [Hf1 Hf2 Hne Hold]. unfold seal in E.
  destruct (Hold (sr_path sr)) as [Hp1 Hp2]; [apply elem_of_app; left; apply list_elem_of_fmap; eauto|].
  destruct (put_ltx _ _ _ b) as [r1 b1] eqn:E1. apply put_ltx_outcome in E1.
  destruct r1 as [p1|e]; [|by injection E as <- <- <-; subst]. destruct E1 as (-> & _ & Ho1).
  destruct (coalesce_segments _ _ _ _ _ _ b1) as [r2 b2] eqn:E2.
  assert (fetch_ltx b2 (sr_path sr) = fetch_ltx b (sr_path sr)) as Hb2.
  { rewrite <-(Ho1 _ Hp1). unfold coalesce_segments in E2.
    destruct (_ <? _)%nat; [|by injection E2 as <- <-].
    destruct (collect_pages _ _ _ _) as [pg|]; [|by injection E2 as <- <-].
    destruct (m_segments m ++ _) as [|first rest]; [by injection E2 as <- <-|].
    destruct (put_ltx (o_ulid o 2) _ _ b1) as [r3 b3] eqn:E3. apply put_ltx_outcome in E3.
    destruct r3 as [p3|e]; injection E2 as <- <-; [|by subst]. destruct E3 as (-> & _ & Ho3). by apply Ho3. }
  destruct r2 as [[segs retire]|e]; [|by injection E as <- <- <-].
  assert (b' = delete_paths (m_retire m) b2) as ->.
  { destruct (publish_snapshot _ _ _ _ _ _ d) as [[[]|e] d1]; [|by injection E].
    destruct (if purge opts then _ else _) as [r4 d4]. by injection E. }
  rewrite <-Hb2. apply delete_paths_get. intros p Hp. by apply (mo_retire _ _ _ Hm).
Qed.

(** The new manifest, after the deletions. *)
Lemma sealed_manifest opts b1 b2 segs retire :
  put_ltx (o_ulid o 1) s ltx b = (Ok (ltx_path s (o_ulid o 1)), b1) →
  coalesce_segments (coalesce_at opts) (o_ulid o 2) s ltx (SegmentRef_of ltx (ltx_path s (o_ulid o 1)))
    (m_segments m ++ [SegmentRef_of ltx (ltx_path s (o_ulid o 1))]) b1 = (Ok (segs, retire), b2) →
  ∃ groups', manifest_ok (delete_paths (m_retire m) b2) (mkManifest segs retire) groups' ∧ concat groups' = txs L.
Proof.
  intros E1 E2. destruct Hfresh as [Hf1 Hf2 Hne Hold]. apply put_ltx_outcome in E1 as (_ & Hnew & Ho1).
  set (p1 := ltx_path s (o_ulid o 1)) in *. set (p2 := ltx_path s (o_ulid o 2)) in *.
  assert (∀ sr, sr ∈ m_segments m → path_from (sr_path sr) ≠ p1 ∧ path_from (sr_path sr) ≠ p2) as Hseg.
  { intros sr Hsr. apply Hold, elem_of_app. left. apply list_elem_of_fmap. eauto. }
  destruct Hm as [Hok Hret]. pose proof (rp_txs _ _ _ _ Hr) as [_ _ Hg]. rewrite Htxs in Hg.
  assert (segments_ok b1 (m_segments m ++ [SegmentRef_of ltx p1]) (groups ++ [ds])) as Hok1.
  { apply (push_segment b); [done| |done|done|by apply Hnew|done]. intros sr Hsr. by apply Ho1, Hseg. }
  destruct (coalesce_outcome (coalesce_at opts) (o_ulid o 2) s (m_segments m) groups ds txid_start p1 b1
    (Ok (segs, retire)) b2) as (Ho2 & groups' & Hok2 & Hcat & Hin & Hret2); [done|by apply Hnew| |done| |done|].
  { intros sr Hsr Heq. apply (proj1 (Hseg sr Hsr)). by rewrite Heq. }
  { intros sr [Hsr | ->%list_elem_of_singleton]%elem_of_app; [by apply Hseg|].
    cbn [SegmentRef_of sr_path]. by rewrite Hf1. }
  exists groups'. split; [|by rewrite Hcat, concat_app, Htxs; cbn [concat]; rewrite app_nil_r].
  split; [|done]. apply (segments_views b2); [|done]. intros sr Hsr. cbn [m_segments] in Hsr.
  apply delete_paths_get. intros p Hp. destruct (Hold p) as [Hp1 Hp2]; [apply elem_of_app; by right|].
  destruct (Hin sr Hsr) as [[Hsr' | ->%list_elem_of_singleton]%elem_of_app | ->].
  - by apply Hret.
  - cbn [SegmentRef_of sr_path]. by rewrite Hf1.
  - fold p2. by rewrite Hf2.
Qed.

Lemma publish_quiet_outcome watch record state r d' :
  publish_snapshot o (λ d, d) watch s record state d = (r, d') →
  (d' = d ∧ ∃ e, r = Err e)
  ∨ d' = db_apply d (render_ws (publish_kws o s record state (durable_sequence d + 1))).
Proof.
  intros E. pose proof (sequence_num s b d L Hr Hroom) as Hq. unfold key_num in Hq. u64_facts.
  destruct r as [[]|e].
  - right. apply publish_Ok in E. by rewrite u64_add_small in E by lia.
  - apply publish_outcome in E as [-> | E]; [by left; eauto|]. right. by rewrite u64_add_small in E by lia.
Qed.

(** Whatever a seal returns, the database is replicated; when it succeeds, its
    snapshot covers everything. *)
Lemma seal_outcome watch opts restart r b' d' :
  (∀ snap, latest_snapshot d s = Ok (Some snap) → from_slice (sn_state snap) = Some m) →
  seal o watch opts restart s through m ltx b d = (r, b', d') →
  replicated s b' d' L
  ∧ ∀ rec, r = Ok rec → rec = Some (checkpoint_record (o_clock o 0) s through)
      ∧ ∃ snap, latest_snapshot d' s = Ok (Some snap) ∧ sn_through_version snap = through.
Proof.
  intros Hman E. pose proof (sealed_objects _ _ _ _ _ _ E) as Hso.
  assert (∀ b', same_objects b b' (m_segments m) → replicated s b' d L) as Hkeep by (intros; by apply replicated_objects).
  unfold seal in E. destruct (put_ltx _ _ _ b) as [r1 b1] eqn:E1.
  destruct r1 as [p1|e]; [|by injection E as <- <- <-; split; [apply Hkeep|]].
  pose proof (put_ltx_outcome _ _ _ _ _ _ E1) as [-> _].
  destruct (coalesce_segments _ _ _ _ _ _ b1) as [r2 b2] eqn:E2.
  destruct r2 as [[segs retire]|e]; [|by injection E as <- <- <-; split; [apply Hkeep|]].
  destruct (sealed_manifest opts b1 b2 segs retire E1 E2) as (groups' & Hm' & Hcat).
  set (b3 := delete_paths (m_retire m) b2) in *.
  set (state := to_vec (mkManifest segs retire)) in *.
  set (record := checkpoint_record (o_clock o 0) s through) in *.
  destruct (publish_snapshot o (λ d, d) watch s record state d) as [rp dp] eqn:Ep.
  pose proof (publish_sealed s b d L o through state Hr Hlast b3 _ groups' (from_to_vec _) Hm' Hcat) as Hsl.
  pose proof (publish_replicated s b d L o through state Hs Hr Ho Hroom Hlast b3 Hsl) as Hrep.
  pose proof (publish_latest s b d L o through state Hs Hr Ho Hroom Hlast) as Hlat.
  apply publish_quiet_outcome in Ep. fold record in Hrep, Hlat.
  destruct rp as [[]|e].
  2: { injection E as <- <- <-. split; [|done]. destruct Ep as [[-> _] | ->]; [by apply Hkeep|exact Hrep]. }
  destruct Ep as [[_ [e ?]] | Ep]; [done|]. rewrite <-Ep in Hrep, Hlat.
  destruct (if purge opts then purge_below s (u64_add through 1) dp else (Ok 0, dp)) as [r4 d4] eqn:E4.
  assert (replicated s b3 d4 L ∧ latest_snapshot d4 s = latest_snapshot dp s) as [Hrep4 Hlat4].
  { destruct (purge opts); [|by injection E4 as <- <-].
    destruct (purge_replicated s b3 dp L _ r4 d4 Hs Hrep Hlat E4) as [? ->]. by rewrite Hlat. }
  injection E as <- <- <-. split; [done|]. intros rec Hrec. apply rbind_Ok in Hrec as (? & _ & Hrec).
  apply rbind_Ok in Hrec as (? & _ & Hrec). injection Hrec as <-. split; [done|].
  eexists. rewrite Hlat4. by split.
Qed.
End seal.
End checkpoints.
