(* ===== verification/DbThms.v ===== *)
(** * Theorems about database handles

    Opening, checkpoints, point-in-time restores, stale handles, and the
    sessions of a database: any sequence of opens, syncs and checkpoints. *)

From S2P Require Import Prelude Text Slate Types Keys Kv Fork Store Batch Append Wf Commit.
From S2P Require Import Appended Ops Purge History Txn Invariant Samples AppendThms ForkThms SnapshotThms.
From S2P Require Import Frames Bucket Wal Sqlite PageThms SqliteThms SealThms.
Local Open Scope Z_scope.

Section handles.
Context `{SlateDbLaws} `{CodecLaws} `{ObjectStoreLaws} `{SqliteCodecLaws}.

(** ** Checkpoints *)

Lemma manifest_json d s m snap :
  manifest_of d s = Ok m → latest_snapshot d s = Ok (Some snap) → from_slice (sn_state snap) = Some m.
Proof.
  intros Hm Hsn. unfold manifest_of in Hm. rewrite Hsn in Hm. cbn [rbind] in Hm.
  destruct (from_slice (sn_state snap)); [|done]. by injection Hm as ->.
Qed.

Lemma within_past L v : StronglySorted version_lt L → env_version <$> last L = Some v → within (v + 1) None L = [].
Proof.
  intros Hs Hl. apply filter_none. intros e He. pose proof (below_next L e Hs He) as Hlt.
  unfold next_version in Hlt. rewrite Hl in Hlt. simpl in Hlt. unfold in_window. simpl.
  rewrite andb_true_r, Z.leb_le. lia.
Qed.

Lemma shipped_plain ds : shipped false ds = ds.
Proof. unfold shipped. destruct (last ds) eqn:El; [done|]. by apply last_None in El. Qed.

Definition is_ok {A} (r : R A) : bool := match r with Ok _ => true | Err _ => false end.

(** What a checkpoint leaves: [envs] are the records its sync, which returned
    if [synced], appended. *)
Definition checkpoint_outcome (s : string) (b : bucket) (L : list Envelope) (ds : list Delta) (synced : bool)
    (r : R (option CompactionRecord)) (h' : Db) (b' : bucket) (d' : db) (envs : list Envelope) : Prop :=
  replicated s b' d' (L ++ envs)
  ∧ match r with
    | Ok None => txs envs = ds ∧ b' = b ∧ handle_ok s h' d' (L ++ envs)
    | Ok (Some record) => txs envs = ds ∧ handle_ok s h' d' (L ++ envs)
        ∧ dh_pending h' = LtxBuilder_default
        ∧ ∃ snap, latest_snapshot d' s = Ok (Some snap)
            ∧ env_version <$> last (L ++ envs) = Some (sn_through_version snap)
            ∧ cr_through_version record = sn_through_version snap
    | Err _ => if synced then txs envs = ds ∧ tracks s h' (L ++ envs) else envs = [] ∨ txs envs = ds
    end.

Lemma checkpoint_ok s b d L oa watch_a wal_file o watch restart opts h r h' b' d' :
  let synced := sync oa quiet watch_a wal_file h d in
  slash_free s → replicated s b d L → handle_ok s h d L → (∀ n, oracle_ok (oa n)) → oracle_ok o →
  roomy s d → roomy s synced.2 → wal_ok wal_file h → sized (captured wal_file h) →
  (∀ m, manifest_of synced.2 s = Ok m → fresh_paths o s m) →
  checkpoint_with oa quiet watch_a wal_file o watch restart opts h b d = (r, h', b', d') →
  ∃ envs, checkpoint_outcome s b L (captured wal_file h) (is_ok synced.1.1) r h' b' d' envs.
Proof.
  intros synced Hs Hr Hh Hoa Ho Hroom Hroom1 Hw Hsz Hfresh E. unfold checkpoint_with in E. subst synced.
  destruct (sync oa quiet watch_a wal_file h d) as [[r1 h1] d1] eqn:Es. cbn [fst snd] in *.
  apply (sync_ok s b d L) in Es; rewrite ?shipped_plain in *; [|done..].
  destruct r1 as [n|e].
  2: { injection E as <- <- <- <-. destruct Es as (_ & _ & _ & [-> | (_ & envs & Ht & Hrep)]).
       - exists []. split; [by rewrite app_nil_r|by left].
       - exists envs. split; [done|]. rewrite shipped_plain in Ht. by right. }
  destruct Es as (_ & _ & _ & envs & Ht & Hrep & Hh1). rewrite shipped_plain in Ht. pose proof (handle_tracks _ _ _ _ Hh1) as Htk. exists envs. set (L' := L ++ envs) in *.
  pose proof Hh1 as [Hn _ Htl (snap & Hsn & Hp)]. rewrite Hn in E.
  destruct (dh_tail h1) as [through|] eqn:Etl; [|by injection E as <- <- <- <-].
  destruct (manifest_of d1 s) as [m|e] eqn:Em; [|by injection E as <- <- <- <-].
  destruct (b_txid_start (dh_pending h1)) as [t|] eqn:Et; [|by injection E as <- <- <- <-].
  destruct (manifest_groups s b d1 L' snap m Hrep Hsn Em) as (groups & Hm & Htx).
  set (ds := txs (within (after snap) None L')) in *. rewrite Hp in *.
  assert (ds ≠ []) as Hds by (intros ->; done).
  destruct (seal _ _ _ _ _ _ _ _ _ _) as [[r2 b2] d2] eqn:Eseal. injection E as <- <- <- <-.
  assert (∀ sn, latest_snapshot d1 s = Ok (Some sn) → from_slice (sn_state sn) = Some m) as Hman
    by (intros sn; by apply manifest_json).
  cbn [with_pending dh_name] in Eseal. rewrite Hn in Eseal.
  destruct (seal_outcome s b d1 L' m groups ds o through t Hs Hrep Ho Hroom1 (eq_sym Htl) Hm Htx Hds Et
    (Hfresh m eq_refl) watch opts restart r2 b2 d2 Hman Eseal) as [Hrep2 Hok]. split; [done|].
  destruct r2 as [rec|e]; [|split; [done|by destruct Htk]]. destruct (Hok rec eq_refl) as (-> & sn & Hsn2 & Hth).
  split_and!; [done| |done|].
  - destruct Hh1 as [Hn1 Him1 Ht1 _]. split; cbn [with_pending dh_name dh_image dh_tail dh_pending]; [done..|].
    exists (Some sn). split; [done|]. cbn [after map_or]. rewrite Hth, within_past; [done|apply Hrep2|exact (eq_sym Htl)].
  - exists sn. split_and!; [done|rewrite Hth; exact (eq_sym Htl)|done].
Qed.

(** C21: a checkpoint by a current handle is transparent: whatever it returns,
    with coalescing and purging as asked and an upload, publication or restart
    failing at any point, a restore still finds every transaction; when it
    publishes, the new snapshot covers the last record, the handle is current
    again and nothing is left pending; when it fails after its sync, the handle
    still shows the stream's image and tail.  The handle it starts from is
    current: its buffered pages are those written since the latest snapshot.
    A handle on which a checkpoint failed after its pages were taken is not
    (what its next checkpoint loses is [failed_checkpoint_loses_pages]): it is
    opened again first.  No other writer commits during the call, and the WAL file is as SQLite writes
    it. *)
Theorem checkpoint_seals s b d L oa watch_a wal_file o watch restart opts h r h' b' d' :
  let synced := sync oa quiet watch_a wal_file h d in
  slash_free s → replicated s b d L → handle_ok s h d L → (∀ n, oracle_ok (oa n)) → oracle_ok o →
  roomy s d → roomy s synced.2 → wal_ok wal_file h → sized (captured wal_file h) →
  (∀ m, manifest_of synced.2 s = Ok m → fresh_paths o s m) →
  checkpoint_with oa quiet watch_a wal_file o watch restart opts h b d = (r, h', b', d') →
  ∃ envs, checkpoint_outcome s b L (captured wal_file h) (is_ok synced.1.1) r h' b' d' envs
    ∧ ∃ im, restore d' (λ _, b') d' s = Ok (im, env_version <$> last (L ++ envs))
        ∧ im ≡ replay DbImage_default (txs L ++ txs envs).
Proof.
  intros synced Hs Hr Hh Hoa Ho Hroom Hroom1 Hw Hsz Hfresh E.
  destruct (checkpoint_ok s b d L oa watch_a wal_file o watch restart opts h r h' b' d') as (envs & Hout); [done..|].
  exists envs. split; [done|]. destruct Hout as [Hrep _].
  destruct (restore_impl_ok s Hs b' d' _ Hrep) as (im & snap & _ & Er & Him). exists im.
  rewrite <-txs_app. split; [|done]. unfold restore. by rewrite Er.
Qed.

(** An in-flight restore survives a concurrent checkpoint: one that read
    the manifest before the checkpoint published its own loads the same image
    although each of its fetches may see the bucket as it was or as the
    checkpoint left it, with the objects it deleted gone. *)
Theorem restore_during_checkpoint s b d L oa watch_a wal_file o watch restart opts h r h' b' d' bs :
  let d1 := (sync oa quiet watch_a wal_file h d).2 in
  slash_free s → replicated s b d L → handle_ok s h d L → (∀ n, oracle_ok (oa n)) →
  roomy s d → wal_ok wal_file h → sized (captured wal_file h) →
  (∀ m, manifest_of d1 s = Ok m → fresh_paths o s m) →
  checkpoint_with oa quiet watch_a wal_file o watch restart opts h b d = (r, h', b', d') →
  (∀ k, bs k = b ∨ bs k = b') →
  restore d1 bs d1 s = restore d1 (λ _, b) d1 s.
Proof.
  intros d1 Hs Hr Hh Hoa Hroom Hw Hsz Hfresh E Hbs. unfold checkpoint_with in E.
  destruct (sync oa quiet watch_a wal_file h d) as [[r1 h1] d1'] eqn:Es. subst d1. cbn [snd] in *. rename d1' into d1.
  assert (b' = b → restore d1 bs d1 s = restore d1 (λ _, b) d1 s) as Hsame.
  { intros ->. unfold restore, restore_impl, restore_base.
    destruct (latest_snapshot d1 s) as [[snap|]|]; [|done..]. cbn [rbind].
    destruct (json _) as [m|]; [|done]. cbn [rbind]. rewrite (load_views bs b 0 0); [done|].
    intros k. by destruct (Hbs k) as [-> | ->]. }
  destruct r1 as [n|e]; [|by injection E as <- <- <- <-; apply Hsame].
  apply (sync_ok s b d L) in Es; [|done..|by rewrite shipped_plain].
  destruct Es as (_ & _ & _ & envs & _ & Hrep & [Hn _ _ (sn & Hsn & Hp)]). rewrite Hn in E.
  destruct (dh_tail h1) as [through|]; [|by injection E as <- <- <- <-; apply Hsame].
  destruct (manifest_of d1 s) as [m|e] eqn:Em; [|by injection E as <- <- <- <-; apply Hsame].
  destruct (b_txid_start (dh_pending h1)) as [t|]; [|by injection E as <- <- <- <-; apply Hsame].
  rewrite Hp in E. cbn [with_pending dh_name] in E. rewrite Hn in E.
  destruct (seal _ _ _ _ _ _ _ _ _ _) as [[r2 b2] d2] eqn:Eseal. injection E as _ _ <- _.
  destruct (manifest_groups s b d1 _ sn m Hrep Hsn Em) as (groups & Hmo & _).
  pose proof (sealed_objects s b d1 m groups _ o through t Hmo (Hfresh m eq_refl) _ _ _ _ _ _ Eseal) as Hso.
  unfold restore, restore_impl, restore_base. rewrite Hsn. destruct sn as [snap|]; [|done]. cbn [rbind].
  rewrite (manifest_json d1 s m snap Em Hsn). cbn [json rbind].
  rewrite (load_views bs b 0 0); [done|]. intros k. by destruct (Hbs k) as [-> | ->].
Qed.

(** ** Opening *)

Lemma fence_replicated watch s token b d L r d' :
  slash_free s → replicated s b d L → fence (λ d, d) watch s token d = (r, d') →
  replicated s b d' L ∧ latest_snapshot d' s = latest_snapshot d s.
Proof.
  intros Hs Hr E. pose proof Hr as [Hwf _ _ _ _ Hbelow _ _ (snap & l & Hsn & Hsl & Hl & Hlog)].
  destruct (fence_keeps _ _ _ _ _ _ Hwf Hs E) as (Hwf' & Hhist & Hsnap).
  assert (∀ k, key_ok k → k ≠ KFence s → db_get d' (render k) = db_get d (render k)) as Hget.
  { by apply (fence_get watch s token d r d'). }
  split; [|by apply Hsnap]. apply (replicated_frame s b b d d' L snap l); [done|done|done| | |by rewrite Hsnap|done|by apply Hhist|done].
  - intros q x Hq Hx. rewrite (Hget (KSnap s q)) in Hx; [|exact (conj Hs Hq)|discriminate].
    specialize (Hbelow q x Hq Hx). unfold durable_sequence, get_be in *. rewrite render_seq in *.
    by rewrite (Hget KSeq).
  - intros k Hk Ha _. apply Hget; [done|]. by intros ->.
Qed.

Lemma to_bytes_empty : to_bytes DbImage_default = Some (file_of DbImage_default).
Proof. reflexivity. Qed.

(** Opening a database rebuilds it: once the fence is set, the handle's
    image is the replay of every replicated transaction, the local file is
    its database file, the handle is current, and the database itself is
    unchanged. *)
Theorem open_restores o watch s b d L info :
  slash_free s → replicated s b d L →
  (txs L ≠ [] → image_ok (replay DbImage_default (txs L))) →
  (fence (λ d, d) watch s (Some (o_ulid o 0)) d).1 = Ok info →
  ∃ h d', open o watch d (λ _, b) d true true s d = (Ok (h, file_of (replay DbImage_default (txs L))), d')
    ∧ dh_token h = o_ulid o 0 ∧ handle_ok s h d' L ∧ replicated s b d' L.
Proof.
  intros Hs Hr Hok Hf. unfold open.
  destruct (fence (λ d, d) watch s (Some (o_ulid o 0)) d) as [r d'] eqn:Ef. simpl in Hf. subst r.
  destruct (fence_replicated _ _ _ _ _ _ _ _ Hs Hr Ef) as [Hr' Hsn'].
  destruct (restore_impl_ok s Hs b d L Hr) as (im & snap & Hsn & -> & Him). cbn [rbind].
  assert (to_bytes im = Some (file_of im)) as ->.
  { destruct (decide (txs L = [])) as [Et|Hne].
    - rewrite Et in Him. cbn in Him. destruct Him as (Hps & Hsz & _ & _). cbn in Hps, Hsz.
      unfold to_bytes, file_of, file_pages. by rewrite Hps, Hsz.
    - apply to_bytes_file. rewrite Him. by apply Hok. }
  rewrite (file_of_proper _ _ Him). cbn [io sql rbind]. eexists _, d'. split_and!; [done|done| |done].
  split; cbn [dh_name dh_image dh_tail dh_pending]; [done..|]. exists snap. by rewrite Hsn'.
Qed.

(** ** Stale handles *)

Lemma stale_replicate o watch ds nf h d tl :
  tail d (dh_name h) = Ok tl →
  (fence_ok d (dh_name h) (Some (dh_token h)) ≠ Ok tt ∨ tail_version <$> tl ≠ dh_tail h) →
  ∃ e, replicate_deltas o quiet watch ds nf h d = (Err e, h, d).
Proof.
  intros Htl Hst. unfold replicate_deltas, append_with_token_lazy.
  destruct (encode_deltas ds) as [evs|e]; [|by exists e]. rewrite commit_appends_quiet.
  destruct (check_batch evs) as [[]|e]; [|by exists e]. unfold append_plan. rewrite Htl. cbn [rbind].
  destruct (fence_ok _ _ _) as [[]|e]; [|by exists e]. cbn [rbind]. destruct Hst as [?|Hst]; [done|].
  assert (expected_matches (expected (dh_tail h)) (tail_version <$> tl) = false) as ->; [|by eexists].
  unfold expected. destruct (dh_tail h) as [v|]; simpl in *; [by apply bool_decide_eq_false_2|].
  destruct tl; [done|]. by destruct Hst.
Qed.

Lemma stale_sync o watch wal_file coalesce h d tl :
  tail d (dh_name h) = Ok tl →
  (fence_ok d (dh_name h) (Some (dh_token h)) ≠ Ok tt ∨ tail_version <$> tl ≠ dh_tail h) →
  ∃ r c, sync_inner o quiet watch wal_file coalesce h d = (r, with_cursor h c, d)
    ∧ match r with Ok n => n = 0%nat ∧ captured wal_file h = [] | Err _ => c = cursor_seen wal_file h end.
Proof.
  intros Htl Hst. unfold captured, cursor_seen, sync_inner. destruct wal_file as [| |file rd].
  - exists (Ok 0%nat), (dh_cursor h). by rewrite with_own_cursor.
  - eexists (Err _), (dh_cursor h). by rewrite with_own_cursor.
  - destruct (header _) as [hd|]; [|exists (Ok 0%nat), (dh_cursor h); rewrite with_own_cursor; by destruct rd].
    destruct rd; cbn [negb]; [|by eexists (Err _), _].
    change (dh_cursor (with_cursor h ?c)) with c. change (dh_image (with_cursor h ?c)) with (dh_image h).
    destruct (capture _ _ _ _) as [ds nf]. cbn [fst]. destruct (last ds) as [newest|] eqn:El.
    + destruct (stale_replicate o watch (if coalesce && (1 <? length ds)%nat then [fold_deltas newest ds] else ds) nf
        (with_cursor h (rewind hd (dh_cursor h))) d tl Htl Hst) as (e & ->). by exists (Err e), (rewind hd (dh_cursor h)).
    + apply last_None in El. subst ds. by eexists (Ok 0%nat), _.
Qed.

(** C27: a handle that another opener fenced out, or whose tail is not the
    stream's, replicates nothing: its sync leaves the store unchanged and moves
    nothing of the handle but the cursor; it fails, and the cursor is then at
    most rewound to a new generation of the file, unless the file has no new
    transaction, when it may return 0.  Nothing else
    commits during the call. *)
Theorem stale_sync_rejected o watch wal_file coalesce h d tl :
  tail d (dh_name h) = Ok tl →
  (fence_ok d (dh_name h) (Some (dh_token h)) ≠ Ok tt ∨ tail_version <$> tl ≠ dh_tail h) →
  ∃ r c, sync_inner o quiet watch wal_file coalesce h d = (r, with_cursor h c, d)
    ∧ match r with Ok n => n = 0%nat ∧ captured wal_file h = [] | Err _ => c = cursor_seen wal_file h end.
Proof. apply stale_sync. Qed.

(** ** Points in time *)

Lemma load_upto_prefix bs i target im segs :
  ∃ k, load_upto bs i target im segs = load_loop bs i im (take k segs)
    ∧ ∀ sr, sr ∈ take k segs → sr_txid_end sr ≤ target.
Proof.
  revert i im. induction segs as [|sr segs IH]; intros i im; cbn [load_upto].
  { exists 0%nat. split; [done|]. by intros sr ?%not_elem_of_nil. }
  destruct (_ || _) eqn:E.
  { exists 0%nat. split; [done|]. by intros x ?%not_elem_of_nil. }
  apply orb_false_iff in E as [_ E%Z.ltb_ge].
  destruct (fetch_ltx (bs i) (sr_path sr)) as [l|e] eqn:Ef.
  - destruct (IH (S i) (merge_ltx im l)) as (k & Hk & Hle). exists (S k). cbn [take load_loop]. rewrite Ef.
    split; [done|]. by intros x [-> | Hx]%elem_of_cons; [|apply Hle].
  - exists 1%nat. cbn [take load_loop]. rewrite Ef. split; [done|]. by intros x ->%list_elem_of_singleton.
Qed.

Lemma filtered_replay (P : Delta → Prop) (p : Delta → bool) `{∀ d, Decision (P d)} i ds :
  (∀ d, p d = true ↔ P d) →
  fold_left (λ i d, if p d then DbImage_apply i d else i) ds i = replay i (filter P ds).
Proof.
  intros Hp. revert i. induction ds as [|d ds IH]; intros i; [done|]. cbn [fold_left]. rewrite filter_cons, IH.
  destruct (p d) eqn:E.
  - by rewrite decide_True by by apply Hp.
  - rewrite decide_False; [done|]. rewrite <-Hp. by rewrite E.
Qed.

Lemma restore_at_fold base target l i bad : decodes l →
  fold_left (restore_at_step base target) (from_parts <$> l) (i, bad)
  = (replay i (filter (λ d, base < d_txid d ≤ target) (txs l)), bad).
Proof.
  intros Hd. revert i. induction Hd as [|e l [ds Hds] Hl IH]; intros i; [done|].
  rewrite fmap_cons. cbn [fold_left]. unfold restore_at_step at 2. rewrite Hds, IH.
  assert (txs (e :: l) = ds ++ txs l) as ->.
  { unfold txs. rewrite fmap_cons. cbn [concat]. unfold deltas_in at 1. by rewrite Hds. }
  rewrite filter_app, replay_app. do 2 f_equal. apply (filtered_replay (λ d, base < d_txid d ≤ target)).
  intros x. rewrite andb_true_iff, Z.ltb_lt, Z.leb_le. done.
Qed.

Lemma sorted_cut ds t : StronglySorted txid_lt ds →
  ds = filter (λ d, d_txid d ≤ t) ds ++ filter (λ d, t < d_txid d) ds.
Proof.
  induction 1 as [|d ds Hs IH Hall]; [done|]. rewrite !filter_cons.
  destruct (decide (d_txid d ≤ t)) as [Hle|Hgt].
  - rewrite decide_False by lia. cbn. by f_equal.
  - rewrite decide_True by lia. rewrite Forall_forall in Hall. unfold txid_lt in Hall.
    rewrite (filter_none (λ d, d_txid d ≤ t)), (filter_all (λ d, t < d_txid d)); [done|..];
      intros x Hx; specialize (Hall x Hx); lia.
Qed.

(** The segments a point-in-time restore loads seal a prefix of the
    transactions, all at or before the target. *)
Lemma point_base s b d L target snap :
  replicated s b d L → latest_snapshot d s = Ok snap →
  ∃ im P Q, (match snap with
      | Some sn => let? m := json (from_slice (sn_state sn)) in load_upto (λ _, b) 0 target DbImage_default (m_segments m)
      | None => Ok DbImage_default end) = Ok im
    ∧ txs L = P ++ Q ∧ im ≡ replay DbImage_default P ∧ Forall (λ d, d_txid d ≤ target) P.
Proof.
  intros Hr Hsn. pose proof Hr as [_ Hv _ _ [Hsort _ _] _ _ _ (snap' & l & Hsn' & Hsl & _ & _)].
  rewrite Hsn in Hsn'. injection Hsn' as <-. destruct snap as [r|].
  2: { exists DbImage_default, [], (txs L). by split_and!; [..|constructor]. }
  destruct Hsl as (m & groups & -> & [[Hrefs Hload] _] & Hcat & _). cbn [json rbind].
  destruct (load_upto_prefix (λ _, b) 0 target DbImage_default (m_segments m)) as (k & -> & Hle).
  destruct (Hload k) as (im & Hl & Him). unfold load in Hl. rewrite Hl.
  exists im, (concat (take k groups)), (concat (drop k groups) ++ txs (within (sn_through_version r + 1) None L)).
  assert (txs L = concat (take k groups) ++ concat (drop k groups) ++ txs (within (sn_through_version r + 1) None L)) as Etx.
  { rewrite (history_split L (sn_through_version r) Hv) at 1. rewrite txs_app, <-Hcat, app_assoc. f_equal.
    by rewrite <-concat_app, take_drop. }
  split_and!; [done|done|done|]. rewrite Etx in Hsort. apply StronglySorted_app in Hsort as (_ & Hsort & _).
  pose proof (Forall2_take _ _ _ k Hrefs) as Hrk. revert Hsort Hle Hrk. clear.
  generalize (take k (m_segments m)) as segs, (take k groups) as gs. intros segs gs Hsort Hle Hr.
  induction Hr as [|sr g segs gs [_ Hend] Hr IH]; [constructor|]. cbn [concat] in *.
  apply StronglySorted_app in Hsort as (_ & Hg & Hgs). apply Forall_app. split.
  - apply Forall_forall. intros x Hx. pose proof (last_txid_max g x Hg Hx) as Hmax. rewrite Hend in Hmax.
    specialize (Hle sr (list_elem_of_here _ _)). simpl in Hmax. lia.
  - apply IH; [done|]. intros x Hx. apply Hle. by right.
Qed.

(** C24: while no record has been purged, a point-in-time restore is exact: it
    rebuilds the replay of the transactions up to the target, from whichever
    segments end by then and the records for the rest; it fails exactly when
    the target is past zero and no transaction has its id, naming the last one
    before it (a target of zero or less gives the empty database). *)
Theorem restore_at_exact s b d L target :
  slash_free s → replicated s b d L → hist d s L →
  let ds := filter (λ x, d_txid x ≤ target) (txs L) in
  let reached := default 0 (d_txid <$> last ds) in
  if target <=? reached
  then ∃ im, restore_at d (λ _, b) d s target = Ok im ∧ im ≡ replay DbImage_default ds
  else restore_at d (λ _, b) d s target = Err (InvalidInput (NotReconstructable target reached)).
Proof.
  intros Hs Hr Hl ds reached. pose proof Hr as [Hwf _ Hk Hd [Hsort _ Hg] _ _ _ (snap & _ & Hsn & _)].
  destruct (point_base s b d L target snap Hr Hsn) as (im & P & Q & Hb & Htx & Him & HP).
  unfold restore_at. rewrite Hsn. cbn [rbind]. rewrite Hb. cbn [rbind]. pose proof KEY_MAX_pos.
  rewrite (fold_history d s L) by (done || unfold key_lim; lia). rewrite within_all by done. cbn [rbind].
  rewrite restore_at_fold by done. cbn [rbind].
  assert (StronglySorted txid_lt P ∧ ∀ x y, x ∈ P → y ∈ Q → d_txid x < d_txid y) as [HsP HPQ].
  { rewrite Htx in Hsort. apply StronglySorted_app in Hsort as (? & ? & _). by split. }
  assert (i_txid im = default 0 (d_txid <$> last P)) as Hbase.
  { destruct Him as (_ & _ & -> & _). rewrite replay_eq. by destruct (last P). }
  assert (Forall (λ d, 0 < d_txid d) (txs L)) as Hpos by apply Hr.
  assert (filter (λ x, i_txid im < d_txid x ≤ target) (txs L) = filter (λ x, d_txid x ≤ target) Q) as ->.
  { rewrite Htx, filter_app, filter_none; [cbn [app]; apply filter_ext_in|].
    - intros y Hy. enough (i_txid im < d_txid y) by lia. rewrite Hbase. destruct (last P) as [x|] eqn:El; simpl.
      + apply HPQ; [by apply last_Some_elem_of|done].
      + rewrite Forall_forall in Hpos. apply Hpos. rewrite Htx. apply elem_of_app. by right.
    - intros x Hx. pose proof (last_txid_max P x HsP Hx). lia. }
  assert (ds = P ++ filter (λ x, d_txid x ≤ target) Q) as Eds.
  { unfold ds. rewrite Htx, filter_app, filter_all; [done|]. by apply Forall_forall. }
  assert (replay im (filter (λ x, d_txid x ≤ target) Q) ≡ replay DbImage_default ds) as Heq.
  { rewrite Eds, replay_app. apply db_replay_equiv; [done|]. destruct Him as (_ & -> & _). rewrite replay_eq.
    rewrite Htx in Hg, Hsort. apply grows_app in Hg as [_ Hg]. apply StronglySorted_app in Hsort as (_ & _ & HsQ).
    rewrite (sorted_cut Q target HsQ) in Hg. apply grows_app in Hg as [Hg _]. by destruct (last P). }
  assert (i_txid (replay im (filter (λ x, d_txid x ≤ target) Q)) = reached) as Hre.
  { destruct Heq as (_ & _ & -> & _). rewrite replay_eq. unfold reached. by destruct (last ds). }
  rewrite Hre. destruct (Z.leb_spec target reached), (Z.ltb_spec reached target); try lia; eauto.
Qed.
End handles.
