(* ===== verification/Sessions.v ===== *)
(** * Sessions of a database

    The abstract database is the list of the transactions it accepted; a
    session is any sequence of opens, syncs and checkpoints of successive
    handles, each kept whatever its calls return.  Every state of a session
    refines the list: a restore returns its replay. *)

From S2P Require Import Prelude Text Slate Types Keys Kv Fork Store Batch Append Wf Commit.
From S2P Require Import Appended Ops Purge History Txn Invariant Samples AppendThms ForkThms SnapshotThms.
From S2P Require Import Frames Bucket Wal Sqlite PageThms SqliteThms SealThms DbThms.
Local Open Scope Z_scope.

Section sessions.
Context `{SlateDbLaws} `{CodecLaws} `{ObjectStoreLaws} `{SqliteCodecLaws}.

(** A stream nothing was written to. *)
Record unused (s : string) (d : db) : Prop := {
  un_wf : wf d;
  un_tail : stream_version d s = Ok None;
  un_hist : hist d s [];
  un_snap : latest_snapshot d s = Ok None;
  un_snaps : snaps_below d s;
  un_writable : writable d s 0;
}.

(** What the environment owes a sync: ULIDs and clocks as documented, room
    for one more batch, and a WAL file as SQLite writes it. *)
Record sync_env (s : string) (o : nat → Oracle) (wal_file : WalFile) (coalesce : bool) (h : Db) (d : db) : Prop := {
  sn_oracle n : oracle_ok (o n);
  sn_room : roomy s d;
  sn_wal : wal_ok wal_file h;
  sn_sizes : sized (shipped coalesce (captured wal_file h));
}.

Record seal_env (s : string) (o : Oracle) (d : db) : Prop := {
  sl_oracle : oracle_ok o;
  sl_room : roomy s d;
  sl_fresh m : manifest_of d s = Ok m → fresh_paths o s m;
}.

(** What has happened to a handle since it was opened: nothing that failed half
    way; a checkpoint that failed after its sync, which may have lost the
    buffered pages; a sync that appended but could not wait, which left the
    image and the tail behind the stream. *)
Inductive standing := Current | Drained | Behind.

(** What a sync adds to the accepted transactions, and what it makes of the
    handle: one that fails and changed the store has appended. *)
Definition accepts (ds : list Delta) (r : R nat) (d d' : db) (st : standing) (new : list Delta) (st' : standing) : Prop :=
  match r with
  | Ok _ => new = ds ∧ st' = st
  | Err _ => (d' = d ∧ new = [] ∧ st' = st) ∨ (d' ≠ d ∧ new = ds ∧ st' = Behind)
  end.

(** [session s h b d acc]: a state reached with the transactions [acc]
    accepted; [h] is the open handle and its standing.  An open that returns
    replaces the handle, one that fails keeps it; a sync may be tried on any
    handle; a checkpoint is made of a handle that is [Current]. *)
Inductive session (s : string) : option (Db * standing) → bucket → db → list Delta → Prop :=
| se_start b d : unused s d → session s None b d []
| se_open h0 b d acc o watch file_ok conn_ok r d' :
    session s h0 b d acc → open o watch d (λ _, b) d file_ok conn_ok s d = (r, d') →
    session s (match r with Ok (h, _) => Some (h, Current) | Err _ => h0 end) b d' acc
| se_sync h st b d acc o watch wal_file coalesce r h' d' new st' :
    session s (Some (h, st)) b d acc → sync_env s o wal_file coalesce h d →
    sync_inner o quiet watch wal_file coalesce h d = (r, h', d') →
    accepts (shipped coalesce (captured wal_file h)) r d d' st new st' →
    session s (Some (h', st')) b d' (acc ++ new)
| se_checkpoint h b d acc oa watch_a wal_file r1 h1 d1 new st1 o watch restart opts r h' b' d' :
    session s (Some (h, Current)) b d acc → sync_env s oa wal_file false h d →
    sync oa quiet watch_a wal_file h d = (r1, h1, d1) → accepts (captured wal_file h) r1 d d1 Current new st1 →
    seal_env s o d1 →
    checkpoint_with oa quiet watch_a wal_file o watch restart opts h b d = (r, h', b', d') →
    session s (Some (h', if is_ok r1 && negb (is_ok r) then Drained else st1)) b' d' (acc ++ new).

(** A handle of the standing [st] when the stream has the records [L]. *)
Definition stands (s : string) (d : db) (L : list Envelope) (h : Db) (st : standing) : Prop :=
  match st with
  | Current => handle_ok s h d L
  | Drained => tracks s h L
  | Behind => ∃ L1 L2, L = L1 ++ L2 ∧ tracks s h L1 ∧ txs L2 ≠ []
  end.

(** The concrete state represents the accepted transactions. *)
Definition represents (s : string) (h : option (Db * standing)) (b : bucket) (d : db) (acc : list Delta) : Prop :=
  ∃ L, txs L = acc ∧ replicated s b d L ∧ from_option (λ '(h, st), stands s d L h st) True h.

Lemma unused_replicated s b d : unused s d → replicated s b d [].
Proof.
  intros [Hwf Ht Hl Hsn Hbelow Hw]. split; try done; try constructor; try constructor.
  exists None, []. by split_and!.
Qed.

Lemma open_outcome o watch file_ok conn_ok s b d L r d' :
  slash_free s → replicated s b d L → open o watch d (λ _, b) d file_ok conn_ok s d = (r, d') →
  replicated s b d' L ∧ latest_snapshot d' s = latest_snapshot d s
  ∧ match r with Ok (h, _) => handle_ok s h d' L | Err _ => True end.
Proof.
  intros Hs Hr E. unfold open in E.
  destruct (fence (λ d, d) watch s (Some (o_ulid o 0)) d) as [rf df] eqn:Ef.
  destruct (fence_replicated _ _ _ _ _ _ _ _ Hs Hr Ef) as [Hr' Hsn']. injection E as <- <-. split_and!; [done..|].
  destruct rf as [info|e]; [|done]. cbn [rbind].
  destruct (restore_impl_ok s Hs b d L Hr) as (im & snap & Hsn & -> & Him). cbn [rbind].
  destruct (to_bytes im) as [file|]; [|done]. destruct file_ok, conn_ok; cbn; try done.
  split; cbn [dh_name dh_image dh_tail dh_pending]; [done..|]. exists snap. by rewrite Hsn'.
Qed.

Lemma accepts_ok ds n d d' st : accepts ds (Ok n) d d' st ds st.
Proof. done. Qed.

Lemma accepts_unknown ds e d d' st : d' ≠ d → accepts ds (Err e) d d' st ds Behind.
Proof. right. done. Qed.

(** A fence leaves the standing of a handle. *)
Lemma stands_ext s d d' L h st :
  latest_snapshot d' s = latest_snapshot d s → stands s d L h st → stands s d' L h st.
Proof. intros Hsn. destruct st; [|done|done]. intros [? ? ? (snap & E & ?)]. split; [done..|]. exists snap. by rewrite Hsn. Qed.

Lemma behind_tail L1 L2 : StronglySorted version_lt (L1 ++ L2) → L2 ≠ [] → env_version <$> last (L1 ++ L2) ≠ env_version <$> last L1.
Proof.
  intros Hs Hne. destruct L2 as [|e L2 _] using rev_ind; [done|]. rewrite app_assoc, last_snoc.
  destruct (last L1) as [x|] eqn:E; [|done]. intros [= Heq]. apply last_Some_elem_of in E.
  assert (version_lt x e) as Hlt by (apply (StronglySorted_app_1_elem_of version_lt L1 (L2 ++ [e])); [done|done|apply elem_of_app; right; by left]).
  unfold version_lt in Hlt. lia.
Qed.

Lemma txs_nonempty L : txs L ≠ [] → L ≠ [].
Proof. intros Hne ->. by apply Hne. Qed.

(** A sync of a handle of any standing. *)
Lemma sync_stands s b d L o watch wal_file coalesce h st r h' d' new st' :
  slash_free s → replicated s b d L → stands s d L h st → sync_env s o wal_file coalesce h d →
  sync_inner o quiet watch wal_file coalesce h d = (r, h', d') →
  accepts (shipped coalesce (captured wal_file h)) r d d' st new st' →
  ∃ envs, txs envs = new ∧ replicated s b d' (L ++ envs) ∧ stands s d' (L ++ envs) h' st'.
Proof.
  intros Hs Hr Hst [Ho Hro Hw Hsz] E Hacc.
  assert (tracks s h L → sync_effect s b L coalesce wal_file h d r h' d') as Heff
    by (intros Ht; by eapply sync_effected).
  assert (d' = d → new = [] → st' = st → stands s d L h' st →
    ∃ envs, txs envs = new ∧ replicated s b d' (L ++ envs) ∧ stands s d' (L ++ envs) h' st') as Hsame.
  { intros -> -> -> Hst'. exists []. by rewrite app_nil_r. }
  assert (tracks s h L → d' ≠ d → (∃ e, r = Err e) → new = shipped coalesce (captured wal_file h) → st' = Behind →
    ∃ envs, txs envs = new ∧ replicated s b d' (L ++ envs) ∧ stands s d' (L ++ envs) h' st') as Hunk.
  { intros Ht Hd [e ->] -> ->. destruct (Heff Ht) as [-> [?|(Hne & envs & Htx & Hrep)]]; [done|]. exists envs. split_and!; [done..|].
    exists L, envs. split_and!; [done|by apply tracks_cursor|by rewrite Htx]. }
  destruct st; cbn [stands] in Hst.
  - pose proof (sync_ok _ _ _ _ _ _ _ _ _ _ _ _ Hs Hr Hst Ho Hro Hw Hsz E) as Hout. destruct r as [n|e].
    + destruct Hacc as [-> ->]. destruct Hout as (_ & _ & _ & envs & ?). by exists envs.
    + destruct Hacc as [(? & ? & ?)|(? & ? & ?)]; [apply Hsame; [done..|apply Hout]|].
      apply Hunk; [by eapply handle_tracks|done|by exists e|done..].
  - specialize (Heff Hst). destruct r as [n|e].
    + destruct Hacc as [-> ->]. destruct Heff as (_ & _ & _ & _ & envs & Htx & Hrep & Htk & _). by exists envs.
    + destruct Hacc as [(? & ? & ?)|(? & ? & ?)]; [apply Hsame; [done..|]|].
      * destruct Heff as [-> _]. by apply tracks_cursor.
      * apply Hunk; [done|done|by exists e|done..].
  - destruct Hst as (L1 & L2 & -> & Htk & Hne). pose proof Htk as [Hn _ Htl].
    pose proof (rp_tail _ _ _ _ Hr) as Hsv. unfold stream_version in Hsv. rewrite <-Hn in Hsv.
    destruct (tail d (dh_name h)) as [tl|] eqn:Et; [|done]. cbn in Hsv. injection Hsv as Hsv.
    destruct (stale_sync o watch wal_file coalesce h d tl Et) as (r' & c & E' & Hres).
    { right. rewrite Hsv, Htl. apply behind_tail; [apply Hr|by apply txs_nonempty]. }
    rewrite E in E'. injection E' as -> -> ->.
    assert (stands s d (L1 ++ L2) (with_cursor h c) Behind) as Hst' by (exists L1, L2; split_and!; [done|by apply tracks_cursor|done]).
    destruct r' as [n|e]; [|destruct Hacc as [(? & ? & ?)|(? & _)]; [by apply Hsame|done]].
    destruct Hacc as [-> ->]. destruct Hres as [_ Hc]. apply Hsame; [done|by rewrite Hc|done|done].
Qed.

(** Every step of a session keeps the representation. *)
Lemma session_represents s h b d acc : slash_free s → session s h b d acc → represents s h b d acc.
Proof.
  intros Hs Hse. induction Hse as [b d Hun|h0 b d acc o watch f c r d' _ (L & Ht & Hr & Hh) E
    |h st b d acc o watch w co r h' d' new st' _ (L & Ht & Hr & Hh) He E Hacc
    |h b d acc oa wa w r1 h1 d1 new st1 o watch re opts r h' b' d' _ (L & Ht & Hr & Hh) He Es Hacc [Ho Hro' Hf] E].
  - exists []. split_and!; [done|by apply unused_replicated|done].
  - destruct (open_outcome _ _ _ _ _ _ _ _ _ _ Hs Hr E) as (Hr' & Hsn & Hh'). exists L. split_and!; [done..|].
    destruct r as [[h file]|]; [done|]. destruct h0 as [[h st]|]; [|done]. by apply (stands_ext s d).
  - destruct (sync_stands _ _ _ _ _ _ _ _ _ _ _ _ _ _ _ Hs Hr Hh He E Hacc) as (envs & <- & Hr' & Hh').
    exists (L ++ envs). by rewrite txs_app, Ht.
  - cbn in Hh. assert (accepts (shipped false (captured w h)) r1 d d1 Current new st1) as Hacc' by by rewrite shipped_plain.
    destruct (sync_stands s b d L oa wa w false h Current r1 h1 d1 new st1 Hs Hr Hh He Es Hacc') as (envs1 & Hnew & Hr1 & Hh1).
    destruct r1 as [n|e]; cbn [is_ok andb].
    2: { unfold checkpoint_with in E. rewrite Es in E. injection E as <- <- <- <-. exists (L ++ envs1). by rewrite txs_app, Ht, Hnew. }
    destruct He as [Hoa Hro Hw Hsz]. rewrite shipped_plain in Hsz. destruct Hacc as [-> ->].
    destruct (checkpoint_ok s b d L oa wa w o watch re opts h r h' b' d') as (envs & Hr' & Hout); rewrite ?Es; [done..|].
    rewrite Es in Hout. exists (L ++ envs). rewrite txs_app, Ht. destruct r as [[rec|]|e]; cbn [is_ok negb].
    + destruct Hout as (-> & Hh' & _). done.
    + destruct Hout as (-> & _ & Hh'). done.
    + destruct Hout as (-> & Hh'). done.
Qed.

(** C12: nothing accepted is lost: after any session of opens, syncs (plain or
    coalesced) and checkpoints with any options, whichever of them fail and at
    whatever point, a restore succeeds and returns the replay of exactly the
    transactions accepted so far, in order.  Handles are kept as their calls
    left them and may go on syncing, with one limit: a checkpoint is made only
    of a handle on which no earlier checkpoint failed after its sync and no
    sync appended without seeing its wait return; such a handle is opened again
    before the next checkpoint ([failed_checkpoint_loses_pages] shows what is
    lost otherwise).  The calls follow one another, on the handle opened last,
    with no other writer in between, and the WAL file is as SQLite writes it. *)
Theorem session_restores s h b d acc :
  slash_free s → session s h b d acc →
  ∃ im v, restore d (λ _, b) d s = Ok (im, v) ∧ im ≡ replay DbImage_default acc.
Proof.
  intros Hs Hse. destruct (session_represents s h b d acc Hs Hse) as (L & <- & Hr & _).
  destruct (restore_impl_ok s Hs b d L Hr) as (im & snap & _ & E & Him). exists im, (env_version <$> last L).
  split; [|done]. unfold restore. by rewrite E.
Qed.

Lemma tracks_txid s h L : tracks s h L → i_txid (dh_image h) = default 0 (d_txid <$> last (txs L)).
Proof. intros [_ (_ & _ & -> & _) _]. apply replay_txid. Qed.

(** C28: transaction ids are a clock: in every state of a session the accepted
    transactions have strictly increasing ids from 1 on.  The open handle shows
    the last of them and the stream's tail, also after syncs and checkpoints
    that failed, with one exception: after a sync that appended and could not
    wait, the handle stays at the transactions before that sync and at a tail
    that is not the stream's, until it is opened again.  The session is as for
    restores: calls follow one another, with no other writer in between. *)
Theorem session_well_formed s h b d acc :
  slash_free s → session s h b d acc →
  StronglySorted txid_lt acc ∧ Forall (λ x, 0 < d_txid x) acc ∧ grows 0 acc
  ∧ ∀ hd st, h = Some (hd, st) →
      match st with
      | Behind => ∃ older newer v, acc = older ++ newer ∧ newer ≠ []
          ∧ i_txid (dh_image hd) = default 0 (d_txid <$> last older) ∧ stream_version d s = Ok v ∧ v ≠ dh_tail hd
      | _ => i_txid (dh_image hd) = default 0 (d_txid <$> last acc) ∧ stream_version d s = Ok (dh_tail hd)
      end.
Proof.
  intros Hs Hse. destruct (session_represents s h b d acc Hs Hse) as (L & <- & Hr & Hh).
  pose proof (rp_txs _ _ _ _ Hr) as [? ? ?]. split_and!; [done..|]. intros hd st ->. cbn in Hh. rewrite (rp_tail _ _ _ _ Hr).
  assert (tracks s hd L → i_txid (dh_image hd) = default 0 (d_txid <$> last (txs L)) ∧ (Ok (env_version <$> last L) : R (option Version)) = Ok (dh_tail hd)) as Htk.
  { intros Ht. split; [by eapply tracks_txid|]. by rewrite (tk_tail _ _ _ Ht). }
  destruct st; [by apply Htk, (handle_tracks _ _ d)|by apply Htk|].
  destruct Hh as (L1 & L2 & -> & Ht & Hne). exists (txs L1), (txs L2), (env_version <$> last (L1 ++ L2)).
  split_and!; [apply txs_app|done|by eapply tracks_txid|done|]. rewrite (tk_tail _ _ _ Ht).
  apply behind_tail; [apply Hr|by apply txs_nonempty].
Qed.
End sessions.
