(* ===== verification/SqliteRuns.v ===== *)
(** * Concrete databases

    Codecs for the SQLite crate, small WAL files, and runs of the handle on
    the in-memory stores, at which the theorems are instantiated. *)

From S2P Require Import Prelude Text Slate Types Keys Kv Fork Store Batch Append Wf Commit.
From S2P Require Import Appended Ops Purge History Txn Invariant Samples AppendThms ForkThms SnapshotThms.
From S2P Require Import Frames Bucket Wal Sqlite PageThms SqliteThms SealThms DbThms Sessions.
Local Open Scope Z_scope.

Module SqliteCodec.
Export SampleCodec SampleBucket.

#[export] Instance frame_eq_dec : EqDecision Frame.
Proof. solve_decision. Defined.
#[export] Instance frame_countable : Countable Frame.
Proof. apply (inj_countable' (λ f, (pgno f, page f)) (λ p, mkFrame p.1 p.2)). by intros []. Defined.

#[export] Instance delta_eq_dec : EqDecision Delta.
Proof. solve_decision. Defined.
#[export] Instance delta_countable : Countable Delta.
Proof.
  apply (inj_countable' (λ d, (d_txid d, d_page_size d, d_db_size d, d_pages d))
    (λ '(a, b, c, x), mkDelta a b c x)). by intros [].
Defined.

#[export] Instance ltx_eq_dec : EqDecision Ltx.
Proof. solve_decision. Defined.
#[export] Instance ltx_countable : Countable Ltx.
Proof.
  apply (inj_countable' (λ l, (l_txid_start l, l_txid_end l, l_page_size l, l_db_size l, l_pages l))
    (λ '(a, b, c, e, x), mkLtx a b c e x)). by intros [].
Defined.

#[export] Instance ref_eq_dec : EqDecision SegmentRef.
Proof. solve_decision. Defined.
#[export] Instance ref_countable : Countable SegmentRef.
Proof.
  apply (inj_countable' (λ l, (sr_path l, sr_txid_start l, sr_txid_end l, sr_page_size l, sr_db_size l))
    (λ '(a, b, c, e, x), mkRef a b c e x)). by intros [].
Defined.

#[export] Instance manifest_eq_dec : EqDecision Manifest.
Proof. solve_decision. Defined.
#[export] Instance manifest_countable : Countable Manifest.
Proof. apply (inj_countable' (λ m, (m_segments m, m_retire m)) (λ p, mkManifest p.1 p.2)). by intros []. Defined.

Definition bin_of_countable T `{Countable T} : Bin T := {|
  bin_serialize x := Some (pos_bytes (encode x));
  bin_deserialize b := decode (bytes_pos b);
|}.

Lemma bin_of_countable_law T `{Countable T} : @BinLaw T (bin_of_countable T).
Proof. split. intros x b [= <-]. simpl. by rewrite bytes_pos_bytes, decode_encode. Qed.

#[export] Instance sample_sqlite : SqliteCodecs := {|
  bin_deltas := bin_of_countable (list Delta);
  bin_ltx := bin_of_countable Ltx;
  serialized_size d := Some (Z.of_nat (28 + length (d_pages d)));
  zstd_encode b := Some b;
  zstd_decode b := Some b;
  json_delta := json_of_countable Delta;
  json_manifest := json_of_countable Manifest;
|}.

#[export] Instance sample_sqlite_laws : SqliteCodecLaws.
Proof.
  split; [apply bin_of_countable_law|apply bin_of_countable_law| |apply json_of_countable_law].
  intros x b [= <-]. done.
Qed.
End SqliteCodec.

Module SqliteRuns.
Export Samples SqliteCodec.

Lemma sample_sized ds : Z.of_nat (length ds) < 1000 → Forall (λ d, Z.of_nat (length (d_pages d)) < 1000) ds → sized ds.
Proof.
  intros Hn Hp. split.
  - apply Forall_forall. intros d _. simpl. lia.
  - assert (sizes ds ≤ 1028 * Z.of_nat (length ds)) as Hs; [|rewrite U64_eq; lia].
    clear Hn. induction Hp as [|d ds Hd Hds IH]; [done|]. unfold sizes in *. cbn [foldr length serialized_size
      sample_sqlite from_option id] in *. lia.
Qed.

(** ** WAL files with pages of two bytes *)

Definition hd1 : Header := mkHeader 2 5 6.
Definition hdr1 : bytes := encode_header 931071618 3007000 0 (replicate 8 x00) hd1.
Definition wf_ (p sz : Z) (x y : byte) : WalFrame := mkWalFrame p sz [x; y] (replicate 8 x00).

(** Three transactions: pages 1, 2 and 1 again. *)
Definition frames1 : list WalFrame := [wf_ 1 1 x01 x01; wf_ 2 2 x02 x02; wf_ 1 2 x03 x03].
Definition wal1 : WalFile := WalBytes (encode_wal hdr1 hd1 (take 1 frames1) []) true.
Definition wal2 : WalFile := WalBytes (encode_wal hdr1 hd1 (take 2 frames1) []) true.
Definition wal3 : WalFile := WalBytes (encode_wal hdr1 hd1 frames1 []) true.

Definition no_db : Db := mkDb "" "" DbImage_default None WalCursor_default LtxBuilder_default.
Definition up : list DbStatus := [mkStatus 1000 false].

(** The database [q]: opened, synced once. *)
Definition opened : R (Db * bytes) * db := open (sample_oracle 10) up mem_empty (λ _, ∅) mem_empty true true "q" mem_empty.
Definition q0 : db := opened.2.
Definition h0 : Db := match opened.1 with Ok (h, _) => h | Err _ => no_db end.
Definition sync1 : R nat * Db * db := sync_inner (orc 20) quiet up wal1 false h0 q0.
Definition q1 : db := sync1.2.
Definition h1 : Db := sync1.1.2.

(** ... and checkpointed into one merged segment, its records purged. *)
Definition merge_and_purge : CheckpointOpts := mkOpts 0 true.
Definition ckpt1 : R (option CompactionRecord) * Db * bucket * db :=
  checkpoint_with (orc 30) quiet up wal1 (sample_oracle 40) up true merge_and_purge h1 ∅ q1.
Definition q2 : db := ckpt1.2.
Definition b2 : bucket := ckpt1.1.2.
Definition h2 : Db := ckpt1.1.1.2.

(** Two more transactions, coalesced. *)
Definition sync3 : R nat * Db * db := sync_inner (orc 50) quiet up wal3 true h2 q2.
Definition q3 : db := sync3.2.
Definition h3 : Db := sync3.1.2.

(** The first sync again, when the wait for durability fails; and the
    database opened again after it. *)
Definition unsure : R nat * Db * db := sync_inner (orc 20) quiet [] wal1 false h0 q0.
Definition qu : db := unsure.2.
Definition hu : Db := unsure.1.2.
Definition reopened : R (Db * bytes) * db := open (sample_oracle 30) up qu (λ _, ∅) qu true true "q" qu.
Definition qr : db := reopened.2.
Definition hr : Db := match reopened.1 with Ok (h, _) => h | Err _ => no_db end.

(** Unfold the names of the runs before what they run. *)
Strategy expand [sync1 q1 h1 ckpt1 q2 b2 h2 sync3 q3 h3 unsure qu hu reopened qr hr].

Lemma unused_empty : unused "q" mem_empty.
Proof.
  split; [apply wf_mem_empty|run| |run|apply no_snaps; run|split; [run|run|]].
  - replace (@nil Envelope) with (vis mem_empty "q") by run. apply hist_root. run.
  - vm_compute. discriminate.
Qed.

Lemma wal_of file h :
  (i_txid (dh_image h) + Z.of_nat (HEADER_LEN + length file) <? 1000000) = true →
  grows (i_db_size (dh_image h)) (captured (WalBytes file true) h) → wal_ok (WalBytes file true) h.
Proof.
  intros Hlt%Z.ltb_lt Hg. split; [|done]. intros f t [= <- _]. rewrite U64_eq. lia.
Qed.

(** The environment of a sync of a concrete file. *)
Ltac sync_env v :=
  split; [apply orc_ok|apply (room_of _ _ v); run
    |apply wal_of; [run|refine (bool_decide_eq_true_1 (grows _ _) _); run]
    |apply sample_sized; [vm_compute; reflexivity
      |refine (bool_decide_eq_true_1 (Forall (λ d, Z.of_nat (length (d_pages d)) < 1000) _) _); run]].

Lemma session0 : session "q" (Some (h0, Current)) ∅ q0 [].
Proof.
  pose proof (se_open "q" None ∅ mem_empty [] (sample_oracle 10) up true true opened.1 q0
    (se_start "q" ∅ mem_empty unused_empty)) as Hs.
  replace (Some (h0, Current)) with (match opened.1 with Ok (h, _) => Some (h, Current) | Err _ => None end) by run.
  apply Hs. run.
Qed.

Lemma env1 : sync_env "q" (orc 20) wal1 false h0 q0.
Proof. sync_env (@None Version). Qed.

Definition acc1 : list Delta := captured wal1 h0.

Lemma sync1_eq : sync_inner (orc 20) quiet up wal1 false h0 q0 = (Ok 1%nat, h1, q1).
Proof. assert (sync1 = (Ok 1%nat, h1, q1)) as E by (unfold h1, q1; apply result3; run). unfold sync1 in E. exact E. Qed.

Lemma ckpt1_eq : checkpoint_with (orc 30) quiet up wal1 (sample_oracle 40) up true merge_and_purge h1 ∅ q1
  = (Ok (Some (mkCompaction "q" 0 0 None 1040)), h2, b2, q2).
Proof.
  assert (ckpt1 = (Ok (Some (mkCompaction "q" 0 0 None 1040)), h2, b2, q2)) as E
    by (unfold h2, b2, q2; apply result4; run). unfold ckpt1 in E. exact E.
Qed.

Lemma sync3_eq : sync_inner (orc 50) quiet up wal3 true h2 q2 = (Ok 2%nat, h3, q3).
Proof. assert (sync3 = (Ok 2%nat, h3, q3)) as E by (unfold h3, q3; apply result3; run). unfold sync3 in E. exact E. Qed.

Lemma acc1_shipped : acc1 = shipped false (captured wal1 h0).
Proof. by rewrite shipped_plain. Qed.

Lemma session1 : session "q" (Some (h1, Current)) ∅ q1 acc1.
Proof.
  rewrite <-(app_nil_l acc1), acc1_shipped.
  exact (se_sync "q" h0 Current ∅ q0 [] (orc 20) up wal1 false (Ok 1%nat) h1 q1 _ Current session0 env1 sync1_eq (accepts_ok _ _ _ _ _)).
Qed.

Lemma env_ckpt1 : sync_env "q" (orc 30) wal1 false h1 q1.
Proof. sync_env (Some 0). Qed.

Lemma fresh1 m : manifest_of (sync (orc 30) quiet up wal1 h1 q1).2 "q" = Ok m → fresh_paths (sample_oracle 40) "q" m.
Proof.
  intros Hm. assert (manifest_of (sync (orc 30) quiet up wal1 h1 q1).2 "q" = Ok Manifest_default) as E by run.
  rewrite E in Hm. injection Hm as <-. split; [run|run| |].
  - intros Heq. vm_compute in Heq. discriminate Heq.
  - intros p Hp. exfalso. exact (not_elem_of_nil p Hp).
Qed.

Lemma seal1 : seal_env "q" (sample_oracle 40) (sync (orc 30) quiet up wal1 h1 q1).2.
Proof. split; [apply sample_oracle_ok|apply (room_of _ _ (Some 0)); run|apply fresh1]. Qed.

Definition acc2 : list Delta := acc1 ++ captured wal1 h1.

Lemma session2 : session "q" (Some (h2, Current)) b2 q2 acc2.
Proof.
  destruct (sync (orc 30) quiet up wal1 h1 q1) as [[r1 hs] ds] eqn:Es.
  assert (r1 = Ok 0%nat) as ->.
  { change r1 with (r1, hs, ds).1.1. rewrite <-Es. run. }
  pose proof seal1 as Hseal. rewrite Es in Hseal.
  exact (se_checkpoint "q" h1 ∅ q1 acc1 (orc 30) up wal1 (Ok 0%nat) hs ds (captured wal1 h1) Current (sample_oracle 40) up true
    merge_and_purge (Ok (Some (mkCompaction "q" 0 0 None 1040))) h2 b2 q2 session1 env_ckpt1 Es (accepts_ok _ _ _ _ _) Hseal ckpt1_eq).
Qed.

Lemma env3 : sync_env "q" (orc 50) wal3 true h2 q2.
Proof. sync_env (Some 0). Qed.

Definition acc3 : list Delta := acc2 ++ shipped true (captured wal3 h2).

Lemma session3 : session "q" (Some (h3, Current)) b2 q3 acc3.
Proof.
  exact (se_sync "q" h2 Current b2 q2 acc2 (orc 50) up wal3 true (Ok 2%nat) h3 q3 _ Current session2 env3 sync3_eq (accepts_ok _ _ _ _ _)).
Qed.

Lemma unsure_eq : sync_inner (orc 20) quiet [] wal1 false h0 q0 = (Err (Backend BackendClosed), hu, qu).
Proof.
  assert (unsure = (Err (Backend BackendClosed), hu, qu)) as E by (unfold hu, qu; apply result3; run). unfold unsure in E. exact E.
Qed.

Lemma unsure_changed : qu ≠ q0.
Proof. intros E. apply (f_equal (λ d, stream_version d "q")) in E. vm_compute in E. discriminate E. Qed.

Lemma session_unsure : session "q" (Some (hu, Behind)) ∅ qu acc1.
Proof.
  rewrite <-(app_nil_l acc1), acc1_shipped.
  exact (se_sync "q" h0 Current ∅ q0 [] (orc 20) [] wal1 false (Err (Backend BackendClosed)) hu qu _ Behind session0 env1 unsure_eq
    (accepts_unknown _ _ _ _ _ unsure_changed)).
Qed.

Lemma session_reopened : session "q" (Some (hr, Current)) ∅ qr acc1.
Proof.
  pose proof (se_open "q" (Some (hu, Behind)) ∅ qu acc1 (sample_oracle 30) up true true reopened.1 qr session_unsure) as Hs.
  replace (Some (hr, Current)) with (match reopened.1 with Ok (h, _) => Some (h, Current) | Err _ => Some (hu, Behind) end) by run.
  apply Hs. run.
Qed.

Lemma free_q : slash_free "q".
Proof. reflexivity. Qed.

(** Evaluated by [vm_compute] only. *)
#[global] Opaque q0 q1 q2 q3 qu qr h0 h1 h2 h3 hu hr b2.
End SqliteRuns.

Import SqliteRuns.

(** ** Instances of the theorems *)

(** A session that coalesces, seals and purges, and one whose sync failed half
    way and whose database was opened again. *)
Lemma session_restores_witness :
  (∃ im v, restore q3 (λ _, b2) q3 "q" = Ok (im, v) ∧ im ≡ replay DbImage_default acc3)
  ∧ ∃ im v, restore qr (λ _, ∅) qr "q" = Ok (im, v) ∧ im ≡ replay DbImage_default acc1.
Proof.
  split.
  - apply (session_restores "q" (Some (h3, Current)) b2 q3 acc3); [apply free_q|apply session3].
  - apply (session_restores "q" (Some (hr, Current)) ∅ qr acc1); [apply free_q|apply session_reopened].
Defined.

Lemma session_well_formed_witness :
  (StronglySorted txid_lt acc3 ∧ i_txid (dh_image h3) = default 0 (d_txid <$> last acc3)
   ∧ stream_version q3 "q" = Ok (dh_tail h3))
  ∧ ∃ older newer v, acc1 = older ++ newer ∧ newer ≠ []
      ∧ i_txid (dh_image hu) = default 0 (d_txid <$> last older) ∧ stream_version qu "q" = Ok v ∧ v ≠ dh_tail hu.
Proof.
  split.
  - destruct (session_well_formed "q" (Some (h3, Current)) b2 q3 acc3 free_q session3) as (Hsort & _ & _ & Hh).
    exact (conj Hsort (Hh h3 Current eq_refl)).
  - destruct (session_well_formed "q" (Some (hu, Behind)) ∅ qu acc1 free_q session_unsure) as (_ & _ & _ & Hh).
    exact (Hh hu Behind eq_refl).
Defined.

Lemma restore_replays_witness :
  ∃ L im, txs L = acc3 ∧ restore q3 (λ _, b2) q3 "q" = Ok (im, env_version <$> last L)
    ∧ im ≡ replay DbImage_default (txs L).
Proof.
  destruct (session_represents "q" (Some (h3, Current)) b2 q3 acc3 free_q session3) as (L & Ht & Hr & _).
  destruct (restore_replays "q" b2 q3 L free_q Hr) as (im & Hi & He).
  exists L, im. exact (conj Ht (conj Hi He)).
Defined.

Lemma sync_replicates_witness :
  ∃ L, txs L = acc2
    ∧ sync_outcome "q" b2 L true wal3 h2 q2 (Ok 2%nat) h3 q3
    ∧ ∀ i, replay i (shipped true (captured wal3 h2)) = replay i (captured wal3 h2).
Proof.
  destruct (session_represents "q" (Some (h2, Current)) b2 q2 acc2 free_q session2) as (L & Ht & Hr & Hh). exists L. split; [exact Ht|].
  destruct env3 as [Ho Hro Hw Hsz].
  apply (sync_replicates "q" b2 q2 L (orc 50) up wal3 true h2 (Ok 2%nat) h3 q3 free_q Hr Hh Ho Hro Hw Hsz sync3_eq).
Defined.

Lemma checkpoint_seals_witness :
  ∃ L envs, checkpoint_outcome "q" ∅ L (captured wal1 h1) true
      (Ok (Some (mkCompaction "q" 0 0 None 1040))) h2 b2 q2 envs
    ∧ ∃ im, restore q2 (λ _, b2) q2 "q" = Ok (im, env_version <$> last (L ++ envs))
        ∧ im ≡ replay DbImage_default (txs L ++ txs envs).
Proof.
  destruct (session_represents "q" (Some (h1, Current)) ∅ q1 acc1 free_q session1) as (L & Ht & Hr & Hh). exists L.
  destruct env_ckpt1 as [Ho Hro Hw Hsz], seal1 as [Ho' Hro' Hf].
  change true with (is_ok (sync (orc 30) quiet up wal1 h1 q1).1.1).
  apply (checkpoint_seals "q" ∅ q1 L (orc 30) up wal1 (sample_oracle 40) up true merge_and_purge h1
    (Ok (Some (mkCompaction "q" 0 0 None 1040))) h2 b2 q2 free_q Hr Hh Ho Ho' Hro Hro' Hw).
  - rewrite shipped_plain in Hsz. exact Hsz.
  - exact Hf.
  - exact ckpt1_eq.
Defined.

Lemma restore_during_checkpoint_witness :
  let d1 := (sync (orc 30) quiet up wal1 h1 q1).2 in
  restore d1 (λ k, if (k =? 0)%nat then ∅ else b2) d1 "q" = restore d1 (λ _, ∅) d1 "q".
Proof.
  destruct (session_represents "q" (Some (h1, Current)) ∅ q1 acc1 free_q session1) as (L & Ht & Hr & Hh).
  destruct env_ckpt1 as [Ho Hro Hw Hsz], seal1 as [Ho' Hro' Hf]. rewrite shipped_plain in Hsz.
  apply (restore_during_checkpoint "q" ∅ q1 L (orc 30) up wal1 (sample_oracle 40) up true merge_and_purge h1
    (Ok (Some (mkCompaction "q" 0 0 None 1040))) h2 b2 q2 _ free_q Hr Hh Ho Hro Hw Hsz Hf).
  - exact ckpt1_eq.
  - intros [|k]; [left|right]; reflexivity.
Defined.

Lemma open_restores_witness :
  ∃ L h d', txs L = acc3
    ∧ open (sample_oracle 60) up q3 (λ _, b2) q3 true true "q" q3
      = (Ok (h, file_of (replay DbImage_default (txs L))), d')
    ∧ dh_token h = o_ulid (sample_oracle 60) 0 ∧ handle_ok "q" h d' L ∧ replicated "q" b2 d' L.
Proof.
  destruct (session_represents "q" (Some (h3, Current)) b2 q3 acc3 free_q session3) as (L & Ht & Hr & _).
  assert (image_ok (replay DbImage_default (txs L))) as Hok.
  { rewrite Ht. split; [vm_compute; reflexivity|]. intros p x Hle Hx.
    assert (map_Forall (λ p x, 0 ≤ p ∧ Z.of_nat (length x) = i_page_size (replay DbImage_default acc3))
      (i_pages (replay DbImage_default acc3))) as Hall
      by (refine (bool_decide_eq_true_1 (map_Forall (λ p x, 0 ≤ p ∧ _) _) _); run).
    exact (Hall p x Hx). }
  destruct (open_restores (sample_oracle 60) up "q" b2 q3 L (mkInfo 1 1 0) free_q Hr (λ _, Hok)) as (h & d' & E).
  - run.
  - exists L, h, d'. exact (conj Ht E).
Defined.

Lemma stale_sync_rejected_witness :
  ∃ r c, sync_inner (orc 70) quiet up wal3 false h1 q3 = (r, with_cursor h1 c, q3)
    ∧ match r with Ok n => n = 0%nat ∧ captured wal3 h1 = [] | Err _ => c = cursor_seen wal3 h1 end.
Proof.
  apply (stale_sync_rejected (orc 70) up wal3 false h1 q3 (Some (mkTail 1 1050))).
  - run.
  - right. vm_compute. discriminate.
Defined.

(** A stream with its records: opened, synced and synced again. *)
Definition sync3b : R nat * Db * db := sync_inner (orc 50) quiet up wal3 false h1 q1.
Definition q3b : db := sync3b.2.
Definition h3b : Db := sync3b.1.2.
Strategy expand [sync3b q3b h3b].

Lemma sync3b_eq : sync_inner (orc 50) quiet up wal3 false h1 q1 = (Ok 2%nat, h3b, q3b).
Proof. assert (sync3b = (Ok 2%nat, h3b, q3b)) as E by (unfold h3b, q3b; apply result3; run). unfold sync3b in E. exact E. Qed.

Lemma env3b : sync_env "q" (orc 50) wal3 false h1 q1.
Proof. sync_env (Some 0). Qed.

Definition acc3b : list Delta := acc1 ++ shipped false (captured wal3 h1).

Lemma session3b : session "q" (Some (h3b, Current)) ∅ q3b acc3b.
Proof.
  exact (se_sync "q" h1 Current ∅ q1 acc1 (orc 50) up wal3 false (Ok 2%nat) h3b q3b _ Current session1 env3b sync3b_eq (accepts_ok _ _ _ _ _)).
Qed.

#[global] Opaque q3b h3b.

Lemma unsealed_hist s (b : bucket) d L :
  slash_free s → replicated s b d L → latest_snapshot d s = Ok None → hist d s L.
Proof.
  intros Hs [Hwf _ Hk _ _ _ _ _ (snap & l & Hsn & _ & Hl & Hlog)] E. rewrite E in Hsn. injection Hsn as <-.
  cbn [after map_or] in Hlog. rewrite within_all in Hlog; [|].
  - rewrite within_all in Hlog by done. by rewrite <-Hlog.
  - apply Forall_forall. intros e He. by apply (hist_num d s l e (wf_shaped _ Hwf)).
Qed.

Lemma restore_at_exact_witness :
  ∃ L im, txs L = acc3b ∧ restore_at q3b (λ _, ∅) q3b "q" 2 = Ok im
    ∧ im ≡ replay DbImage_default (filter (λ x, d_txid x ≤ 2) (txs L)).
Proof.
  destruct (session_represents "q" (Some (h3b, Current)) ∅ q3b acc3b free_q session3b) as (L & Ht & Hr & _).
  assert (latest_snapshot q3b "q" = Ok None) as Hn by run.
  pose proof (restore_at_exact "q" ∅ q3b L 2 free_q Hr (unsealed_hist "q" ∅ q3b L free_q Hr Hn)) as E.
  cbv zeta in E. rewrite Ht in E. replace (2 <=? _) with true in E by run.
  destruct E as (im & E & Hi). exists L, im. rewrite Ht. exact (conj eq_refl (conj E Hi)).
Defined.

(** ** Pure parts *)

Definition hd512 : Header := mkHeader 512 7 8.
Definition page512 (x : byte) : bytes := replicate 512 x.
Definition txs512 : list WalTx :=
  [mkTx [mkWalFrame 2 0 (page512 x02) (replicate 8 x00)] (mkWalFrame 1 2 (page512 x01) (replicate 8 x00))].
Definition open512 : list WalFrame := [mkWalFrame 3 0 (page512 x03) (replicate 8 x00)].

Lemma frame512 p sz x : 0 ≤ p < 100 → 0 ≤ sz < 100 → frame_ok hd512 (mkWalFrame p sz (page512 x) (replicate 8 x00)).
Proof. intros Hp Hsz. split; cbn [f_pgno f_db_size f_data f_checksum]; unfold u32_ok, U32; [lia|lia|apply length_replicate|reflexivity]. Qed.

Lemma capture_exact_witness :
  let hdr := encode_header 931071618 3007000 1 (replicate 8 x00) hd512 in
  let file := encode_wal hdr hd512 ([] ++ concat (tx_frames <$> txs512) ++ open512) [x00] in
  header (take HEADER_LEN file) = Some hd512
  ∧ capture file hd512 0 41 = (deltas_from hd512 41 txs512, 2%nat).
Proof.
  assert (header_ok hd512) as Hh by (split; unfold u32_ok, U32; simpl; lia).
  apply (capture_exact hd512 Hh 931071618 3007000 1 (replicate 8 x00) [] txs512 open512 [x00] 41).
  - left.
  - reflexivity.
  - constructor.
  - constructor; [|constructor]. split; cbn [tx_body tx_commit f_db_size]; [|apply frame512; lia|discriminate].
    constructor; [|constructor]. split; [apply frame512; lia|reflexivity].
  - constructor; [|constructor]. split; [apply frame512; lia|reflexivity].
  - run.
Defined.

Lemma deltas_roundtrip_witness :
  ∃ chunks, collect (delta_events ∘ from_parts
      <$> [mkEnvelope "i" "txb" 0 1 (pos_bytes (encode acc3b)) [] 5]) = Ok chunks
    ∧ concat chunks = acc3b ∧ Forall chunk_ok chunks.
Proof.
  apply (deltas_roundtrip acc3b [NewEvent_new TXB (pos_bytes (encode acc3b))]).
  - apply sample_sized; [vm_compute; reflexivity|].
    refine (bool_decide_eq_true_1 (Forall (λ d, Z.of_nat (length (d_pages d)) < 1000) _) _). run.
  - run.
  - reflexivity.
Defined.

Definition image2 : DbImage := mkImage 2 3 5 (<[1 := [x01; x02]]> (<[3 := [x05; x06]]> (<[4 := [x07]]> ∅))).

Lemma to_bytes_exact_witness :
  ∃ out, to_bytes image2 = Some out ∧ length out = 6%nat
    ∧ ∀ p, 1 ≤ p ≤ 3 → take 2 (drop (Z.to_nat (p - 1) * 2) out) = default (blank image2) (i_pages image2 !! p).
Proof.
  apply (to_bytes_exact image2); [|discriminate]. split; [reflexivity|]. intros p x Hle Hx.
  assert (map_Forall (λ p x, p ≤ 3 → 0 ≤ p ∧ Z.of_nat (length x) = 2) (i_pages image2)) as Hall
    by (refine (bool_decide_eq_true_1 (map_Forall (λ p x, p ≤ 3 → 0 ≤ p ∧ _) _) _); run).
  exact (Hall p x Hx Hle).
Defined.
