(* ===== verification/SqliteFaults.v ===== *)
(** * Runs of the SQLite crate that lose or miss data

    Concrete runs, and one general statement, of what the handle does when an
    upload fails, when history has been purged, and when a transaction is
    larger than a record. *)

From S2P Require Import Prelude Text Slate Types Keys Kv Fork Store Batch Append Wf Commit.
From S2P Require Import Appended Ops Purge History Txn Invariant Samples AppendThms ForkThms SnapshotThms.
From S2P Require Import Frames Bucket Wal Sqlite PageThms SqliteThms SealThms DbThms Sessions SqliteRuns.
Local Open Scope Z_scope.
Import SqliteRuns.

(** The pages of a restored image. *)
Definition pages_of (r : R (DbImage * option Version)) : option Pages :=
  match r with Ok (im, _) => Some (i_pages im) | Err _ => None end.

(** ** A failed upload

    [checkpoint_with] takes the pending fold before it uploads it.  When the
    upload fails the fold is gone: the next checkpoint publishes a manifest
    that covers the stream's tail and lacks the pages of the first. *)

Module FlakyBucket.
(** Uploads fail while the flag is set. *)
#[local] Instance flaky : ObjectStore := {|
  bucket := bool * gmap string bytes;
  bucket_get b k := b.2 !! k;
  bucket_put b k v := if b.1 then None else Some (false, <[k := v]> b.2);
  bucket_delete b k := (b.1, delete k b.2);
  path_from s := s;
|}.

Definition failed : R (option CompactionRecord) * Db * bucket * db :=
  checkpoint_with (orc 30) quiet up wal1 (sample_oracle 40) up true CheckpointOpts_default h1 (true, ∅) q1.
Definition retried : R (option CompactionRecord) * Db * bucket * db :=
  checkpoint_with (orc 50) quiet up wal2 (sample_oracle 60) up true CheckpointOpts_default
    failed.1.1.2 (false, ∅) failed.2.

Theorem failed_checkpoint_loses_pages :
  failed.1.1.1 = Err (InvalidInput BucketIo) ∧ is_ok retried.1.1.1 = true
  ∧ i_pages (dh_image retried.1.1.2) !! 1 = Some [x01; x01]
  ∧ pages_of (restore retried.2 (λ _, retried.1.2) retried.2 "q") ≫= lookup 1 = None.
Proof. split_and!; run. Qed.
End FlakyBucket.

(** ** Purged history

    [q1] has transaction 1, which wrote page 1.  A checkpoint purges its
    record; transactions 2 and 3 follow, and a second checkpoint merges all
    three into one segment.  Nothing then holds transaction 1 alone: a restore
    at transaction 2 applies transaction 2 to an empty image and succeeds. *)

Definition purged1 : R (option CompactionRecord) * Db * bucket * db :=
  checkpoint_with (orc 30) quiet up wal1 (sample_oracle 40) up true (mkOpts 8 true) h1 ∅ q1.
Definition merged3 : R (option CompactionRecord) * Db * bucket * db :=
  checkpoint_with (orc 50) quiet up wal3 (sample_oracle 60) up true (mkOpts 0 false)
    purged1.1.1.2 purged1.1.2 purged1.2.

Theorem restore_at_misses_purged :
  is_ok purged1.1.1.1 = true ∧ is_ok merged3.1.1.1 = true
  ∧ rmap (λ im, (i_txid im, i_pages im !! 1, i_pages im !! 2))
      (restore_at merged3.2 (λ _, merged3.1.2) merged3.2 "q" 2) = Ok (2, None, Some [x02; x02]).
Proof. split_and!; run. Qed.

(** ** A restore that races a purge

    The restore reads the first manifest (transaction 1); the writer then
    replicates transaction 2, seals it, purges its record and replicates
    transaction 3; the restore folds what is left after its manifest. *)

Definition step2 : R (option CompactionRecord) * Db * bucket * db :=
  checkpoint_with (orc 50) quiet up wal2 (sample_oracle 60) up true (mkOpts 8 true)
    purged1.1.1.2 purged1.1.2 purged1.2.
Definition step3 : R nat * Db * db := sync (orc 70) quiet up wal3 step2.1.1.2 step2.2.

Theorem restore_races_purge :
  is_ok step2.1.1.1 = true ∧ is_ok step3.1.1 = true
  ∧ rmap (λ r : DbImage * option Version, (i_txid r.1, i_pages r.1 !! 2, r.2))
      (restore purged1.2 (λ _, step2.1.2) step3.2 "q") = Ok (3, None, Some 2)
  ∧ i_pages (dh_image step3.1.2) !! 2 = Some [x02; x02].
Proof. split_and!; run. Qed.

(** ** A sync that could not wait

    The batch is appended, the wait for durability fails, and the handle does
    not move: the same sync again is a version conflict. *)

Theorem sync_retry_conflicts :
  unsure.1.1 = Err (Backend BackendClosed)
  ∧ (sync (orc 30) quiet up wal1 unsure.1.2 unsure.2).1.1 = Err (VersionConflict "q" NoStream (Some 0)).
Proof. split; run. Qed.

(** ** Deletions before the manifest that allows them is durable *)

Definition coalesced1 : R (option CompactionRecord) * Db * bucket * db :=
  checkpoint_with (orc 30) quiet up wal1 (sample_oracle 40) up true (mkOpts 0 false) h1 ∅ q1.
Definition unsure2 : R (option CompactionRecord) * Db * bucket * db :=
  checkpoint_with (orc 50) quiet up wal2 (sample_oracle 60) [] true (mkOpts 8 false)
    coalesced1.1.1.2 coalesced1.1.2 coalesced1.2.

Theorem retired_before_durable :
  is_ok coalesced1.1.1.1 = true ∧ unsure2.1.1.1 = Err (Backend BackendClosed)
  ∧ rmap m_retire (manifest_of coalesced1.2 "q") = Ok ["ltx/q/01234567890000000000000041"]
  ∧ is_some (bucket_get coalesced1.1.2 "ltx/q/01234567890000000000000041") = true
  ∧ bucket_get unsure2.1.2 "ltx/q/01234567890000000000000041" = None.
Proof. split_and!; run. Qed.

(** ** Transactions larger than a record *)

Section oversized.
Context `{SlateDb} `{Codecs} `{SqliteCodecs}.

(** One delta is one event whatever its size; a transaction whose packed
    form is over [MAX_RECORD_BYTES] can never be replicated. *)
Theorem oversized_transaction_rejected o watch x nf h d n b :
  serialized_size x = Some n → pack [x] = Ok b → MAX_RECORD_BYTES < Z.of_nat (length b) →
  replicate_deltas o quiet watch [x] nf h d
  = (Err (InvalidInput (RecordTooLarge (Z.of_nat (length b)))), h, d).
Proof.
  intros Hn Hp Hlt. unfold replicate_deltas, encode_deltas. cbn [encode_loop]. rewrite Hn. cbn [codec rbind].
  rewrite andb_false_r. cbn [encode_loop app]. unfold txb_event. rewrite Hp. cbn [rbind].
  unfold append_with_token_lazy, commit_appends, check_batch. cbn [length List.find ne_data NewEvent_new].
  apply Z.ltb_lt in Hlt. by rewrite Hlt.
Qed.
End oversized.
