(* ===== verification/Btree.v ===== *)
(** * Ordered maps and path prefixes

    [BTreeMap<String, V>] is a finite map with an iteration in key order, and
    [range(prefix..).take_while(starts_with)] the keys that extend a prefix;
    what the filesystem code uses of them. *)

From S2P Require Import Prelude Text.

Section btree.
Context {V : Type}.
Implicit Types m : gmap string V.

Definition key_le (x y : string * V) : Prop := str_le x.1 y.1.

#[global] Instance key_le_dec : RelDecision key_le.
Proof. intros x y. unfold key_le. apply _. Defined.

#[global] Instance key_le_transitive : Transitive key_le.
Proof.
  intros [k1 v1] [k2 v2] [k3 v3]. unfold key_le, str_le; simpl. rewrite !str_leb_lt_eq.
  intros [H1 | ->] [H2 | ->]; eauto. left. by trans k2.
Qed.

#[global] Instance key_le_total : Total key_le.
Proof.
  intros [k1 v1] [k2 v2]. unfold key_le, str_le; simpl. rewrite !str_leb_lt_eq.
  destruct (str_lt_total k1 k2) as [? | [-> | ?]]; auto.
Qed.

(** [BTreeMap::iter] *)
Definition btree_iter m : list (string * V) := merge_sort key_le (map_to_list m).

(** [BTreeMap::keys] *)
Definition btree_keys m : list string := (btree_iter m).*1.

Fixpoint take_while {A} (f : A → bool) (l : list A) : list A :=
  match l with
  | [] => []
  | x :: l => if f x then x :: take_while f l else []
  end.

(** [map.range(prefix..).take_while(|(p, _)| p.starts_with(&prefix))], keys. *)
Definition range_prefix m (prefix : string) : list string :=
  take_while (starts_with prefix) (filter (λ p, str_leb prefix p = true) (btree_keys m)).

Lemma btree_iter_elem m k v : (k, v) ∈ btree_iter m ↔ m !! k = Some v.
Proof. unfold btree_iter. by rewrite merge_sort_Permutation, elem_of_map_to_list. Qed.

Lemma btree_keys_elem m k : k ∈ btree_keys m ↔ is_Some (m !! k).
Proof.
  unfold btree_keys. rewrite list_elem_of_fmap. split.
  - intros ([k' v] & -> & Hin). apply btree_iter_elem in Hin. by exists v.
  - intros [v Hv]. exists (k, v). by rewrite btree_iter_elem.
Qed.

Lemma btree_keys_NoDup m : NoDup (btree_keys m).
Proof. unfold btree_keys, btree_iter. rewrite merge_sort_Permutation. apply NoDup_fst_map_to_list. Qed.

Lemma btree_keys_sorted m : StronglySorted str_lt (btree_keys m).
Proof.
  pose proof (btree_keys_NoDup m) as Hnd. unfold btree_keys in *.
  pose proof (StronglySorted_merge_sort key_le (map_to_list m)) as Hs. fold (btree_iter m) in Hs.
  induction (btree_iter m) as [|[k v] l IH]; [constructor|]. rewrite fmap_cons in Hnd |- *.
  apply NoDup_cons in Hnd as [Hk Hnd]. apply StronglySorted_inv in Hs as [Hs Hall].
  constructor; [by apply IH|]. rewrite Forall_fmap, Forall_forall in *. intros [k' v'] Hin. simpl.
  specialize (Hall _ Hin). unfold key_le, str_le in Hall. simpl in Hall.
  apply str_leb_lt_eq in Hall as [? | ->]; [done|]. exfalso. apply Hk, list_elem_of_fmap. by exists (k', v').
Qed.
End btree.

(** ** Prefix ranges *)

(** Strings that extend a prefix are contiguous in the order. *)
Lemma prefix_convex p x r : str_le p x → str_lt x (p +:+ r) → starts_with p x = true.
Proof.
  unfold str_le, str_lt. rewrite starts_with_true. revert x.
  induction p as [|c p IH]; intros x Hle Hlt; [by exists x|].
  destruct x as [|c' x]; [done|]. unfold str_leb in Hle. rewrite negb_true_iff in Hle.
  change (String c p +:+ r) with (String c (p +:+ r)) in Hlt.
  rewrite str_ltb_cons in Hle, Hlt.
  rewrite orb_false_iff, andb_false_iff, N.ltb_ge, N.eqb_neq in Hle.
  rewrite orb_true_iff, andb_true_iff, N.ltb_lt, N.eqb_eq in Hlt.
  destruct Hle as [Hge Hle], Hlt as [Hlt | [Heq Hlt]]; [lia|]. destruct Hle as [Hle|Hle]; [done|].
  destruct (IH x) as [t ->]; [unfold str_leb; by rewrite Hle|done|].
  assert (c' = c) as ->; [|by exists t].
  by rewrite <-(ascii_N_embedding c'), Heq, ascii_N_embedding.
Qed.

Lemma prefix_ge p r : str_leb p (p +:+ r) = true.
Proof.
  rewrite <-(str_app_nil_r p) at 1. rewrite str_leb_app_cancel. by destruct r.
Qed.

(** The range of a prefix holds exactly the keys that extend it. *)
Lemma take_while_prefix p l :
  StronglySorted str_lt l → Forall (λ x, str_leb p x = true) l →
  take_while (starts_with p) l = filter (λ x, starts_with p x = true) l.
Proof.
  induction l as [|x l IH]; intros Hs Hf; [done|]. apply StronglySorted_inv in Hs as [Hs Hx].
  apply Forall_cons in Hf as [Hp Hf]. cbn [take_while]. rewrite filter_cons.
  destruct (starts_with p x) eqn:E; [rewrite decide_True by done; by rewrite IH|].
  rewrite decide_False by done. symmetry. apply filter_none. intros y Hy Hpy.
  rewrite Forall_forall in Hx. specialize (Hx y Hy). apply starts_with_true in Hpy as [r ->].
  by rewrite (prefix_convex p x r) in E.
Qed.

Lemma range_prefix_eq {V} (m : gmap string V) p :
  range_prefix m p = filter (λ x, starts_with p x = true) (btree_keys m).
Proof.
  unfold range_prefix. rewrite take_while_prefix.
  - rewrite list_filter_filter. apply filter_ext_in. intros x _. split; [by intros [? ?]|].
    intros Hx. split; [done|]. apply starts_with_true in Hx as [r ->]. apply prefix_ge.
  - apply StronglySorted_filter, btree_keys_sorted.
  - apply Forall_forall. by intros x [? _]%list_elem_of_filter.
Qed.

Lemma range_prefix_elem {V} (m : gmap string V) p q :
  q ∈ range_prefix m p ↔ starts_with p q = true ∧ is_Some (m !! q).
Proof. by rewrite range_prefix_eq, list_elem_of_filter, btree_keys_elem. Qed.

(** ** Paths *)

(** [path] is an ancestor of [q]. *)
Definition below (path q : string) : bool := starts_with (path +:+ "/") q.

Lemma below_iff p q : below p q = true ↔ ∃ r, q = p +:+ "/" +:+ r.
Proof.
  unfold below. rewrite starts_with_true. split; intros [r ->]; exists r; by rewrite str_app_assoc.
Qed.

Lemma below_trans p q r : below p q = true → below q r = true → below p r = true.
Proof.
  rewrite !below_iff. intros [a ->] [b ->]. exists (a +:+ "/" +:+ b). by rewrite !str_app_assoc.
Qed.

Lemma below_lt p q : below p q = true → str_lt p q.
Proof.
  rewrite below_iff. intros [r ->]. unfold str_lt. rewrite <-(str_app_nil_r p) at 1.
  by rewrite str_ltb_app_cancel.
Qed.

Lemma below_ne p q : below p q = true → p ≠ q.
Proof. intros H ->. apply below_lt in H. by apply irreflexivity in H; [|apply _]. Qed.

(** Two ancestors of a path are on one line. *)
Lemma below_line p q r :
  below p r = true → below q r = true → p = q ∨ below p q = true ∨ below q p = true.
Proof.
  rewrite !below_iff. intros [a ->] [b E]. revert q E.
  induction p as [|c p IH]; intros [|c' q] E; [by left|right; left|right; right|].
  - change ("/" +:+ a = String c' q +:+ "/" +:+ b) in E. simpl in E. injection E as <- E.
    exists q. done.
  - change (String c p +:+ "/" +:+ a = "/" +:+ b) in E. simpl in E. injection E as -> E.
    exists p. done.
  - rewrite !str_app_cons in E. injection E as <- E.
    destruct (IH q E) as [-> | [[x ->] | [x ->]]]; [by left|right; left|right; right]; by exists x.
Qed.
