(* ===== verification/Image.v ===== *)
(** * Volume images ([landslide-fuse/src/lib.rs])

    The node tree of a filesystem volume, the deltas committed to its stream,
    and the segments of a checkpoint.  [NodeMeta::file] and its siblings read
    the clock, so applying a delta takes the time it is applied at. *)

From S2P Require Import Prelude Text Types Btree.
Local Open Scope Z_scope.

Record NodeMeta := mkMeta {
  mode : Z;
  uid : Z;
  gid : Z;
  mtime_ms : Z;
  xattrs : gmap string bytes;
}.

Definition NodeMeta_file (now : Z) : NodeMeta := mkMeta 420 0 0 now ∅.
Definition NodeMeta_dir (now : Z) : NodeMeta := mkMeta 493 0 0 now ∅.
Definition NodeMeta_symlink (now : Z) : NodeMeta := mkMeta 511 0 0 now ∅.

Record BlockRef := mkBlock { block_hash : string; block_len : Z }.

Inductive Content :=
| Inline (b : bytes)
| Blocks (blocks : list BlockRef) (size : Z).

Inductive Node :=
| File (content : Content) (meta : NodeMeta)
| Dir (meta : NodeMeta)
| Symlink (target : string) (meta : NodeMeta).

(** [Content::len] *)
Definition content_len (c : Content) : Z :=
  match c with
  | Inline b => Z.of_nat (length b)
  | Blocks _ size => size
  end.

Inductive Data :=
| DInline (b : bytes)
| DBlocks (blocks : list BlockRef).

Definition CHUNK : Z := 1024 * 1024.

Inductive Delta :=
| DWrite (path : string) (offset : Z) (data : Data)
| DMkdir (path : string)
| DRemove (path : string)
| DRename (from to : string)
| DSymlink (path target : string)
| DSetAttr (path : string) (mode uid gid mtime_ms : option Z)
| DSetXattr (path name : string) (value : option bytes).

Record Segment := mkSegment { entries : gmap string (option Node) }.

Record Manifest := mkManifest { segments : list string }.

(** [FsImage]: its [nodes]. *)
Abbreviation FsImage := (gmap string Node).

Definition node_meta (n : Node) : NodeMeta :=
  match n with
  | File _ meta | Dir meta | Symlink _ meta => meta
  end.

Definition with_meta (n : Node) (meta : NodeMeta) : Node :=
  match n with
  | File content _ => File content meta
  | Dir _ => Dir meta
  | Symlink target _ => Symlink target meta
  end.

(** [FsImage::meta_of] *)
Definition meta_of (image : FsImage) (path : string) : option NodeMeta := node_meta <$> image !! path.

(** A mutation through [FsImage::meta_mut]; nothing without a node. *)
Definition meta_mut (image : FsImage) (path : string) (f : NodeMeta → NodeMeta) : FsImage :=
  match image !! path with
  | Some n => <[path := with_meta n (f (node_meta n))]> image
  | None => image
  end.

(** The extent splice: [resize] with zeroes up to the end of the extent, then
    [copy_from_slice]. *)
Definition splice (c : bytes) (offset : nat) (data : bytes) : bytes :=
  let stop := (offset + length data)%nat in
  let c := if (length c <? stop)%nat then c ++ replicate (stop - length c) x00 else c in
  firstn offset c ++ data ++ skipn stop c.

Definition blocks_size (blocks : list BlockRef) : Z :=
  fold_left (λ n b, u64_add n (block_len b)) blocks 0.

(** [image.retain(|p, _| !p.starts_with(&format!("{path}/")))] after removing
    [path] itself. *)
Definition remove_tree (image : FsImage) (path : string) : FsImage :=
  filter (λ kv, starts_with (path +:+ "/") kv.1 = false) (delete path image).

(** The move of one path in [Rename]. *)
Definition move_path (prefix to : string) (image : FsImage) (p : string) : FsImage :=
  match image !! p with
  | Some node => <[to +:+ "/" +:+ drop_chars (String.length prefix) p := node]> (delete p image)
  | None => image
  end.

Definition set_attr (mode' uid' gid' mtime' : option Z) (m : NodeMeta) : NodeMeta :=
  {| mode := default (mode m) mode'; uid := default (uid m) uid'; gid := default (gid m) gid';
     mtime_ms := default (mtime_ms m) mtime'; xattrs := xattrs m |}.

Definition set_xattr (name : string) (value : option bytes) (m : NodeMeta) : NodeMeta :=
  {| mode := mode m; uid := uid m; gid := gid m; mtime_ms := mtime_ms m;
     xattrs := match value with
               | Some v => <[name := v]> (xattrs m)
               | None => delete name (xattrs m)
               end |}.

(** The node an inline write splices into. *)
Definition inline_base (now : Z) (n : option Node) : bytes * NodeMeta :=
  match n with
  | Some (File (Inline b) meta) => (b, meta)
  | _ => ([], NodeMeta_file now)
  end.

(** [FsImage::apply] *)
Definition FsImage_apply (now : Z) (image : FsImage) (d : Delta) : FsImage :=
  match d with
  | DWrite path _ (DBlocks blocks) =>
      let meta := default (NodeMeta_file now) (meta_of image path) in
      <[path := File (Blocks blocks (blocks_size blocks)) meta]> image
  | DWrite path offset (DInline data) =>
      let '(c, meta) := inline_base now (image !! path) in
      <[path := File (Inline (splice c (Z.to_nat offset) data)) meta]> (delete path image)
  | DMkdir path =>
      match image !! path with
      | Some _ => image
      | None => <[path := Dir (NodeMeta_dir now)]> image
      end
  | DRemove path => remove_tree image path
  | DRename from to =>
      let image := match image !! from with
                   | Some node => <[to := node]> (delete from image)
                   | None => image
                   end in
      let prefix := from +:+ "/" in
      fold_left (move_path prefix to) (range_prefix image prefix) image
  | DSymlink path target => <[path := Symlink target (NodeMeta_symlink now)]> image
  | DSetAttr path mode uid gid mtime_ms => meta_mut image path (set_attr mode uid gid mtime_ms)
  | DSetXattr path name value => meta_mut image path (set_xattr name value)
  end.

(** [FsImage::merge_segment]: the entries in path order. *)
Definition merge_entry (image : FsImage) (e : string * option Node) : FsImage :=
  match e.2 with
  | Some node => <[e.1 := node]> image
  | None => remove_tree image e.1
  end.

Definition merge_segment (image : FsImage) (seg : Segment) : FsImage :=
  fold_left merge_entry (btree_iter (entries seg)) image.

(** ** Checkpoint folds ([landslide-fuse/src/store.rs], [DeltaImage]) *)

Record DeltaImage := mkDeltaImage { d_entries : gmap string (option Node); live : FsImage }.

Definition descendants (s : DeltaImage) (prefix : string) : list string :=
  filter (λ p, starts_with prefix p = true) (btree_keys (live s)).

(** The entries a rename writes for one descendant. *)
Definition move_entry (live : FsImage) (from to : string) (es : gmap string (option Node)) (p : string) :
    gmap string (option Node) :=
  match live !! p with
  | Some node =>
      <[to +:+ "/" +:+ drop_chars (String.length from + 1) p := Some node]> (<[p := None]> es)
  | None => es
  end.

Definition delta_path (d : Delta) : string :=
  match d with
  | DWrite path _ _ | DMkdir path | DSetAttr path _ _ _ _ | DSetXattr path _ _ | DSymlink path _
  | DRemove path => path
  | DRename from _ => from
  end.

(** [DeltaImage::apply] *)
Definition DeltaImage_apply (now : Z) (s : DeltaImage) (d : Delta) : DeltaImage :=
  match d with
  | DRemove path =>
      let es := <[path := None]> (d_entries s) in
      let es := fold_left (λ es p, <[p := None]> es) (descendants s (path +:+ "/")) es in
      mkDeltaImage es (FsImage_apply now (live s) d)
  | DRename from to =>
      let es := <[from := None]> (d_entries s) in
      let es := match live s !! from with Some node => <[to := Some node]> es | None => es end in
      let es := fold_left (move_entry (live s) from to) (descendants s (from +:+ "/")) es in
      mkDeltaImage es (FsImage_apply now (live s) d)
  | _ =>
      let live := FsImage_apply now (live s) d in
      let path := delta_path d in
      mkDeltaImage (match live !! path with
                    | Some node => <[path := Some node]> (d_entries s)
                    | None => d_entries s
                    end) live
  end.

(** ** Decidable equality *)

#[global] Instance meta_eq_dec : EqDecision NodeMeta.
Proof. solve_decision. Defined.
#[global] Instance block_eq_dec : EqDecision BlockRef.
Proof. solve_decision. Defined.
#[global] Instance content_eq_dec : EqDecision Content.
Proof. solve_decision. Defined.
#[global] Instance node_eq_dec : EqDecision Node.
Proof. solve_decision. Defined.
#[global] Instance data_eq_dec : EqDecision Data.
Proof. solve_decision. Defined.
#[global] Instance delta_eq_dec : EqDecision Delta.
Proof. solve_decision. Defined.
