(* ===== verification/ImageThms.v ===== *)
(** * Images, renames and checkpoint segments

    What deltas do to the node at a path, and that the segment a checkpoint
    folds out of a range of deltas, merged into the image before the range,
    gives the image after it. *)

From S2P Require Import Prelude Text Types Btree Image.
Local Open Scope Z_scope.

(** ** Lookups *)

Lemma remove_tree_lookup m p q :
  remove_tree m p !! q = if bool_decide (q = p) || below p q then None else m !! q.
Proof.
  unfold remove_tree. rewrite map_lookup_filter. fold (below p q).
  destruct (decide (q = p)) as [->|Hne].
  - rewrite bool_decide_eq_true_2 by done. by rewrite lookup_delete_eq.
  - rewrite bool_decide_eq_false_2, lookup_delete_ne by done. simpl. unfold below.
    destruct (m !! q) as [n|]; simpl; [|by destruct (starts_with _ q)].
    destruct (starts_with (p +:+ "/") q); [by rewrite option_guard_False|by rewrite option_guard_True].
Qed.

(** Neither path is the other or an ancestor of it: what a filesystem
    requires of a rename. *)
Definition apart (from to : string) : Prop := from ≠ to ∧ below from to = false ∧ below to from = false.

#[global] Instance apart_dec from to : Decision (apart from to).
Proof. unfold apart. apply _. Defined.

(** Where a path below [from] goes. *)
Definition moved (from to p : string) : string :=
  to +:+ "/" +:+ drop_chars (String.length (from +:+ "/")) p.

Lemma moved_below from to r : moved from to (from +:+ "/" +:+ r) = to +:+ "/" +:+ r.
Proof. unfold moved. rewrite <-(str_app_assoc from). by rewrite drop_chars_app. Qed.

Lemma moved_inj from to p q :
  below from p = true → below from q = true → moved from to p = moved from to q → p = q.
Proof.
  rewrite !below_iff. intros [a ->] [b ->]. rewrite !moved_below. intros E%str_app_inj_l%str_app_inj_l.
  by rewrite E.
Qed.

Lemma moved_outside from to p : apart from to → below from p = true →
  moved from to p ≠ from ∧ below from (moved from to p) = false.
Proof.
  intros (Hne & Hft & Htf) [r ->]%below_iff. rewrite moved_below.
  assert (below to (to +:+ "/" +:+ r) = true) as Hb by (apply below_iff; by exists r).
  split; [intros E; rewrite E in Hb; congruence|]. destruct (below from (to +:+ "/" +:+ r)) eqn:E; [|done].
  destruct (below_line _ _ _ E Hb) as [? | [? | ?]]; congruence.
Qed.

(** A run of writes to distinct new places. *)
Lemma fold_moves {A B} (g : string → string) (val : string → option A)
    (step : gmap string B → string → gmap string B) (gone : option B) (put : A → B) L m q :
  NoDup L → (∀ p, p ∈ L → is_Some (val p)) →
  (∀ p p', p ∈ L → p' ∈ L → g p = g p' → p = p') → (∀ p, p ∈ L → g p ∉ L) →
  (∀ m' p n, p ∈ L → val p = Some n → (m' !! p = m !! p) →
     step m' p !! p = gone ∧ step m' p !! g p = Some (put n) ∧
     ∀ x, x ≠ p → x ≠ g p → step m' p !! x = m' !! x) →
  (q ∈ L → fold_left step L m !! q = gone)
  ∧ (∀ p n, p ∈ L → q = g p → val p = Some n → fold_left step L m !! q = Some (put n))
  ∧ (q ∉ L → (∀ p, p ∈ L → q ≠ g p) → fold_left step L m !! q = m !! q).
Proof.
  intros Hnd Hval Hinj Hout Hstep.
  (* Generalised to a suffix [L2] of the list run from a state that agrees on it. *)
  assert (∀ L2 m2, NoDup L2 → (∀ p, p ∈ L2 → p ∈ L) → (∀ p, p ∈ L2 → m2 !! p = m !! p) →
    (q ∈ L2 → fold_left step L2 m2 !! q = gone)
    ∧ (∀ p n, p ∈ L2 → q = g p → val p = Some n → fold_left step L2 m2 !! q = Some (put n))
    ∧ (q ∉ L2 → (∀ p, p ∈ L2 → q ≠ g p) → fold_left step L2 m2 !! q = m2 !! q)) as Hgen.
  { induction L2 as [|p L2 IH]; intros m2 Hnd2 Hsub Hm2; simpl.
    { split_and!; [by intros ?%not_elem_of_nil|by intros ? ? ?%not_elem_of_nil|done]. }
    apply NoDup_cons in Hnd2 as [Hp Hnd2].
    assert (p ∈ L) as HpL by (apply Hsub; by left). destruct (Hval p HpL) as [n Hn].
    destruct (Hstep m2 p n HpL Hn (Hm2 p ltac:(by left))) as (H1 & H2 & H3).
    assert (∀ x, x ∈ L2 → step m2 p !! x = m2 !! x) as Hrest.
    { intros x Hx. apply H3; [intros ->; done|]. intros ->. apply (Hout p HpL), Hsub. by right. }
    destruct (IH (step m2 p)) as (I1 & I2 & I3); [done|intros; apply Hsub; by right| |].
    { intros x Hx. rewrite Hrest by done. apply Hm2. by right. }
    assert (∀ p', p' ∈ L2 → p ≠ g p') as Hpg.
    { intros p' Hp' E. apply (Hout p'); [apply Hsub; by right|]. by rewrite <-E. }
    split_and!.
    - intros [-> | Hq]%elem_of_cons; [|by apply I1]. by rewrite I3.
    - intros p' n' [-> | Hp']%elem_of_cons -> Hn'; [|by apply (I2 p')].
      rewrite Hn in Hn'. injection Hn' as <-. rewrite I3; [done| |].
      + intros Hin. apply (Hout p HpL), Hsub. by right.
      + intros p' Hp' E. apply Hp. rewrite (Hinj p p'); [done|done|apply Hsub; by right|done].
    - intros Hq Hg. rewrite elem_of_cons in Hq. rewrite I3; [|tauto|intros; apply Hg; by right].
      apply H3; [tauto|]. apply Hg. by left. }
  apply Hgen; auto.
Qed.

(** ** Merging a segment *)

(** A path with a tombstoned ancestor. *)
Definition buried (es : gmap string (option Node)) (q : string) : bool :=
  existsb (λ e, bool_decide (e.2 = None) && below e.1 q) (btree_iter es).

Lemma buried_iff es q : buried es q = true ↔ ∃ t, es !! t = Some None ∧ below t q = true.
Proof.
  unfold buried. rewrite existsb_exists. split.
  - intros ([t o] & Hin & H). simpl in H. apply andb_true_iff in H as [Ho Hb].
    apply bool_decide_eq_true in Ho as ->. exists t. split; [|done].
    by apply btree_iter_elem, list_elem_of_In.
  - intros (t & Ht & Hb). exists (t, None). rewrite <-list_elem_of_In, btree_iter_elem. simpl.
    by rewrite Hb.
Qed.

Lemma merge_fold_lookup l m q :
  StronglySorted str_lt l.*1 →
  fold_left merge_entry l m !! q =
    match list_find (λ e, e.1 = q) l with
    | Some (_, (_, o)) => o
    | None => if existsb (λ e, bool_decide (e.2 = None) && below e.1 q) l then None else m !! q
    end.
Proof.
  revert m. induction l as [|[k o] l IH]; intros m Hs; [done|]. rewrite fmap_cons in Hs.
  apply StronglySorted_inv in Hs as [Hs Hall]. cbn [fold_left list_find fst existsb snd].
  rewrite IH by done. destruct (decide (k = q)) as [->|Hne].
  - assert (list_find (λ e, e.1 = q) l = None) as ->.
    { apply list_find_None, Forall_forall. intros [k' o'] Hin E. simpl in E. subst k'.
      rewrite Forall_forall in Hall. apply (irreflexivity str_lt q), Hall, list_elem_of_fmap.
      by exists (q, o'). }
    assert (existsb (λ e, bool_decide (e.2 = None) && below e.1 q) l = false) as ->.
    { apply existsb_false. intros [k' o'] Hin. simpl. apply andb_false_iff. right.
      destruct (below k' q) eqn:E; [|done]. apply below_lt in E. rewrite Forall_forall in Hall.
      specialize (Hall k'). rewrite list_elem_of_fmap in Hall.
      destruct (irreflexivity str_lt k'). trans q; [done|]. apply Hall. by exists (k', o'). }
    unfold merge_entry. simpl. destruct o as [n|]; [by rewrite lookup_insert_eq|].
    by rewrite remove_tree_lookup, bool_decide_eq_true_2.
  - destruct (list_find (λ e, e.1 = q) l) as [[i [k' o']]|]; [done|]. simpl.
    destruct (existsb _ l); [by rewrite orb_true_r|]. rewrite orb_false_r.
    unfold merge_entry. simpl. destruct o as [n|]; [by rewrite lookup_insert_ne|].
    rewrite remove_tree_lookup, bool_decide_eq_false_2 by congruence. simpl.
    by destruct (below k q).
Qed.

(** An entry wins at its path; elsewhere a tombstoned ancestor removes. *)
Lemma merge_lookup m es q :
  merge_segment m (mkSegment es) !! q =
    match es !! q with
    | Some o => o
    | None => if buried es q then None else m !! q
    end.
Proof.
  unfold merge_segment. simpl. rewrite merge_fold_lookup by apply btree_keys_sorted.
  fold (buried es q). destruct (list_find _ _) as [[i [k o]]|] eqn:E.
  - apply list_find_Some in E as (Hi & Hk & _). simpl in Hk. subst k.
    apply list_elem_of_lookup_2, btree_iter_elem in Hi. by rewrite Hi.
  - destruct (es !! q) as [o|] eqn:Eq; [|done]. apply list_find_None in E.
    rewrite Forall_forall in E. destruct (E (q, o)); [by apply btree_iter_elem|done].
Qed.

(** ** Renames *)

(** [n] moves to [q] when [from] is renamed to [to]. *)
Definition arrives (m : FsImage) (from to q : string) (n : Node) : Prop :=
  ∃ p, m !! p = Some n ∧ (p = from ∧ q = to ∨ below from p = true ∧ q = moved from to p).

Definition leaves (from q : string) : Prop := q = from ∨ below from q = true.

Section rename.
Context (m : FsImage) (from to : string) (Hapart : apart from to).

Lemma descendants_elem p : p ∈ descendants (mkDeltaImage ∅ m) (from +:+ "/") ↔
  below from p = true ∧ is_Some (m !! p).
Proof. unfold descendants. by rewrite list_elem_of_filter, btree_keys_elem. Qed.

Lemma descendants_NoDup : NoDup (descendants (mkDeltaImage ∅ m) (from +:+ "/")).
Proof. apply NoDup_filter, btree_keys_NoDup. Qed.

Lemma moved_not_to p : below from p = true → moved from to p ≠ to.
Proof.
  intros [r ->]%below_iff. rewrite moved_below. intros E.
  apply (below_ne to (to +:+ "/" +:+ r)); [|done]. apply below_iff. by exists r.
Qed.

Lemma arrives_or_not q : (∃ n, arrives m from to q n) ∨ ∀ n, ¬ arrives m from to q n.
Proof.
  destruct (decide (q = to ∧ is_Some (m !! from))) as [[-> [n Hn]]|Hto].
  { left. exists n, from. auto. }
  destruct (decide (Exists (λ p, q = moved from to p) (descendants (mkDeltaImage ∅ m) (from +:+ "/"))))
    as [Hex|Hex].
  - apply Exists_exists in Hex as (p & [Hb [n Hn]]%descendants_elem & ->). left. exists n, p. auto.
  - right. intros n (p & Hp & [[-> ->] | [Hb ->]]); [apply Hto; eauto|].
    apply Hex, Exists_exists. exists p. rewrite descendants_elem. eauto.
Qed.

Lemma arrives_stays q n : arrives m from to q n → ¬ leaves from q.
Proof.
  intros (p & Hp & [[-> ->] | [Hb ->]]) [E|E].
  - by destruct Hapart.
  - destruct Hapart as (_ & ? & _). congruence.
  - by apply (moved_outside from to p Hapart Hb).
  - destruct (moved_outside from to p Hapart Hb). congruence.
Qed.

Lemma arrives_unique q n n' : arrives m from to q n → arrives m from to q n' → n = n'.
Proof.
  intros (p & Hp & [[-> ->] | [Hb ->]]) (p' & Hp' & [[-> E] | [Hb' E]]); [congruence| | |].
  - by destruct (moved_not_to p' Hb').
  - by destruct (moved_not_to p Hb).
  - apply moved_inj in E; [congruence|done..].
Qed.

(** The moves of a rename do not run into each other. *)
Lemma moves_apart (L : list string) :
  (∀ p, p ∈ L ↔ below from p = true ∧ is_Some (m !! p)) →
  (∀ p, p ∈ L → is_Some (m !! p))
  ∧ (∀ p p', p ∈ L → p' ∈ L → moved from to p = moved from to p' → p = p')
  ∧ (∀ p, p ∈ L → moved from to p ∉ L).
Proof.
  intros HL. split_and!.
  - by intros p [_ ?]%HL.
  - intros p p' [? _]%HL [? _]%HL. by apply moved_inj.
  - intros p [Hb _]%HL [Hb' _]%HL. destruct (moved_outside from to p) as [_ ?]; [done|done|congruence].
Qed.

(** The image after the rename. *)
Lemma rename_lookup now q :
  (leaves from q → FsImage_apply now m (DRename from to) !! q = None)
  ∧ (∀ n, arrives m from to q n → FsImage_apply now m (DRename from to) !! q = Some n)
  ∧ (¬ leaves from q → (∀ n, ¬ arrives m from to q n) →
     FsImage_apply now m (DRename from to) !! q = m !! q).
Proof.
  destruct Hapart as (Hne & Hft & Htf). cbn [FsImage_apply].
  set (m0 := match m !! from with Some node => <[to:=node]> (delete from m) | None => m end).
  assert (∀ x, x ≠ from → x ≠ to → m0 !! x = m !! x) as Hm0.
  { intros x Hx1 Hx2. subst m0. destruct (m !! from); [|done].
    by rewrite lookup_insert_ne, lookup_delete_ne. }
  assert (m0 !! from = None) as Hfrom.
  { subst m0. destruct (m !! from) eqn:E; [|done]. by rewrite lookup_insert_ne, lookup_delete_eq. }
  assert (∀ p, below from p = true → m0 !! p = m !! p) as Hbel.
  { intros p Hp. apply Hm0; [apply not_eq_sym; by apply below_ne|]. intros ->. congruence. }
  set (L := range_prefix m0 (from +:+ "/")).
  assert (∀ p, p ∈ L ↔ below from p = true ∧ is_Some (m !! p)) as HL.
  { intros p. unfold L. rewrite range_prefix_elem. fold (below from p). split; intros [Hb Hp];
      rewrite Hbel in * by done; done. }
  destruct (moves_apart L HL) as (C1 & C2 & C3).
  destruct (fold_moves (moved from to) (λ p, m !! p) (move_path (from +:+ "/") to) None id L m0 q)
    as (H1 & H2 & H3).
  - unfold L. rewrite range_prefix_eq. apply NoDup_filter, btree_keys_NoDup.
  - done.
  - done.
  - done.
  - intros m' p n [Hb _]%HL Hn Hm'. rewrite Hbel, Hn in Hm' by done. unfold move_path. rewrite Hm'.
    fold (moved from to p). destruct (moved_outside from to p) as [_ Ho]; [done|done|].
    assert (moved from to p ≠ p) by congruence. split_and!.
    + by rewrite lookup_insert_ne, lookup_delete_eq.
    + by rewrite lookup_insert_eq.
    + intros x ? ?. by rewrite lookup_insert_ne, lookup_delete_ne.
  - split_and!.
    + intros Hq. destruct (decide (q ∈ L)) as [Hin|Hin]; [by apply H1|]. rewrite H3; [|done|].
      * destruct Hq as [-> | Hq]; [done|]. rewrite Hbel by done. destruct (m !! q) eqn:E; [|done].
        destruct Hin. apply HL. by rewrite E.
      * intros p [Hb _]%HL ->. destruct (moved_outside from to p) as [? ?]; [done|done|].
        destruct Hq; congruence.
    + intros n (p & Hp & [[-> ->] | [Hb ->]]).
      * rewrite H3; [|intros [? _]%HL; congruence|].
        { subst m0. rewrite Hp. by rewrite lookup_insert_eq. }
        intros p [Hb _]%HL E. by destruct (moved_not_to p Hb).
      * apply (H2 p n); [|done|done]. apply HL. by rewrite Hp.
    + intros Hl Ha. assert (q ≠ from ∧ below from q ≠ true) as [Hq1 Hq2] by (unfold leaves in Hl; tauto).
      rewrite H3; [|by intros [? _]%HL|].
      * destruct (decide (q = to)) as [->|Hqt]; [|by apply Hm0]. subst m0.
        destruct (m !! from) as [n|] eqn:E; [|done]. destruct (Ha n). exists from. auto.
      * intros p [Hb [n Hn]]%HL ->. apply (Ha n). exists p. auto.
Qed.

(** The entries a checkpoint records for it. *)
Lemma rename_entries now es q :
  let es' := d_entries (DeltaImage_apply now (mkDeltaImage es m) (DRename from to)) in
  (q = from ∨ below from q = true ∧ is_Some (m !! q) → es' !! q = Some None)
  ∧ (∀ n, arrives m from to q n → es' !! q = Some (Some n))
  ∧ (q ≠ from → ¬ (below from q = true ∧ is_Some (m !! q)) → (∀ n, ¬ arrives m from to q n) →
     es' !! q = es !! q).
Proof.
  destruct Hapart as (Hne & Hft & Htf). cbn [DeltaImage_apply d_entries live].
  set (es1 := <[from:=None]> es).
  set (es2 := match m !! from with Some node => <[to:=Some node]> es1 | None => es1 end).
  assert (∀ x, x ≠ from → x ≠ to → es2 !! x = es !! x) as He2.
  { intros x Hx1 Hx2. subst es2 es1. destruct (m !! from); by rewrite ?lookup_insert_ne. }
  assert (es2 !! from = Some None) as Hfrom.
  { subst es2 es1. destruct (m !! from); by rewrite ?(lookup_insert_ne _ to), lookup_insert_eq. }
  change (descendants (mkDeltaImage es m) (from +:+ "/")) with (descendants (mkDeltaImage ∅ m) (from +:+ "/")).
  set (L := descendants (mkDeltaImage ∅ m) (from +:+ "/")).
  assert (∀ p, p ∈ L ↔ below from p = true ∧ is_Some (m !! p)) as HL by apply descendants_elem.
  assert (∀ p, below from p = true → p ≠ from ∧ p ≠ to) as Hbne.
  { intros p Hp. split; [apply not_eq_sym; by apply below_ne|]. intros ->. congruence. }
  destruct (moves_apart L HL) as (C1 & C2 & C3).
  destruct (fold_moves (moved from to) (λ p, m !! p) (move_entry m from to) (Some None) Some L es2 q)
    as (H1 & H2 & H3).
  - apply descendants_NoDup.
  - done.
  - done.
  - done.
  - intros es' p n [Hb _]%HL Hn _. unfold move_entry. rewrite Hn.
    replace (String.length from + 1)%nat with (String.length (from +:+ "/")) by by rewrite str_length_app.
    fold (moved from to p). destruct (moved_outside from to p) as [_ Ho]; [done|done|].
    assert (moved from to p ≠ p) by congruence. split_and!.
    + by rewrite lookup_insert_ne, lookup_insert_eq.
    + by rewrite lookup_insert_eq.
    + intros x ? ?. by rewrite !lookup_insert_ne.
  - split_and!.
    + intros [-> | [Hb Hq]]; [|apply H1; by apply HL]. rewrite H3; [done|intros [? _]%HL; by apply below_ne in H|].
      intros p [Hb _]%HL E. by destruct (moved_outside from to p) as [? _].
    + intros n (p & Hp & [[-> ->] | [Hb ->]]).
      * rewrite H3; [|intros [? _]%HL; congruence|].
        { subst es2. rewrite Hp. by rewrite lookup_insert_eq. }
        intros p [Hb _]%HL E. by destruct (moved_not_to p Hb).
      * apply (H2 p n); [|done|done]. apply HL. by rewrite Hp.
    + intros Hq1 Hq2 Ha. rewrite H3; [|by rewrite HL|].
      * destruct (decide (q = to)) as [->|Hqt]; [|by apply He2]. subst es2 es1.
        destruct (m !! from) as [n|] eqn:E; [|by rewrite lookup_insert_ne]. destruct (Ha n). exists from. auto.
      * intros p [Hb [n Hn]]%HL ->. apply (Ha n). exists p. auto.
Qed.
End rename.

(** ** Checkpoint folds *)

(** The renames of a delta are those a filesystem allows. *)
Definition tidy (d : Delta) : Prop :=
  match d with
  | DRename from to => apart from to
  | _ => True
  end.

#[global] Instance tidy_dec d : Decision (tidy d).
Proof. destruct d; simpl; apply _. Defined.

(** What the entries say of the running image: they hold its nodes, the rest
    is as in the base, and nothing live hides below a tombstone without an
    entry of its own. *)
Record covers (base : FsImage) (s : DeltaImage) : Prop := {
  covers_entry q o : d_entries s !! q = Some o → live s !! q = o;
  covers_base q : d_entries s !! q = None → live s !! q = base !! q;
  covers_grave t q : d_entries s !! t = Some None → below t q = true → is_Some (live s !! q) →
    is_Some (d_entries s !! q);
}.

Lemma covers_merge base s : covers base s → merge_segment base (mkSegment (d_entries s)) = live s.
Proof.
  intros [H1 H2 H3]. apply map_eq. intros q. rewrite merge_lookup.
  destruct (d_entries s !! q) as [o|] eqn:E; [by rewrite (H1 q o)|].
  destruct (buried (d_entries s) q) eqn:Eb; [|by rewrite H2].
  apply buried_iff in Eb as (t & Ht & Hb). destruct (live s !! q) as [n|] eqn:El; [|done].
  destruct (H3 t q Ht Hb) as [o Ho]; [by rewrite El|congruence].
Qed.

(** A step that changes only paths it records keeps [covers]. *)
Lemma covers_step base s s' :
  covers base s →
  (∀ q, (d_entries s' !! q = Some (live s' !! q))
     ∨ (d_entries s' !! q = d_entries s !! q ∧ live s' !! q = live s !! q)) →
  (∀ t q, d_entries s' !! t = Some None → d_entries s !! t ≠ Some None → below t q = true →
     is_Some (live s' !! q) → is_Some (d_entries s' !! q)) →
  covers base s'.
Proof.
  intros [H1 H2 H3] Hq Hnew. split.
  - intros q o. destruct (Hq q) as [-> | [-> ->]]; [congruence|apply H1].
  - intros q. destruct (Hq q) as [-> | [-> ->]]; [done|apply H2].
  - intros t q Ht Hb Hl. destruct (decide (d_entries s !! t = Some None)) as [Hold|Hold]; [|by eapply Hnew].
    destruct (Hq q) as [-> | [-> E]]; [done|]. rewrite E in Hl. by apply (H3 t).
Qed.

Lemma bury_lookup {A} (L : list string) (es : gmap string (option A)) q :
  fold_left (λ es p, <[p := None]> es) L es !! q = if decide (q ∈ L) then Some None else es !! q.
Proof.
  revert es. induction L as [|p L IH]; intros es; cbn [fold_left].
  { rewrite decide_False by apply not_elem_of_nil. done. }
  rewrite IH. destruct (decide (q ∈ L)); [by rewrite decide_True by by right|].
  destruct (decide (q = p)) as [->|Hne].
  - by rewrite lookup_insert_eq, decide_True by by left.
  - rewrite lookup_insert_ne, decide_False by (done || rewrite elem_of_cons; tauto). done.
Qed.

(** The deltas other than removals and renames touch one path. *)
Lemma local_apply now m d q :
  (∀ p, d ≠ DRemove p) → (∀ from to, d ≠ DRename from to) →
  (q ≠ delta_path d → FsImage_apply now m d !! q = m !! q)
  ∧ (FsImage_apply now m d !! delta_path d = None → m !! delta_path d = None).
Proof.
  intros Hr Hn. destruct d as [p off [b|b]|p|p|f t|p t|p a1 a2 a3 a4|p n v]; cbn [FsImage_apply delta_path].
  - destruct (inline_base now (m !! p)) as [c meta]. rewrite lookup_insert_eq.
    split; [|done]. intros. by rewrite lookup_insert_ne, lookup_delete_ne.
  - rewrite lookup_insert_eq. split; [|done]. intros. by rewrite lookup_insert_ne.
  - destruct (m !! p) eqn:E; [by rewrite E|]. rewrite lookup_insert_eq. split; [|done].
    intros. by rewrite lookup_insert_ne.
  - by destruct (Hr p).
  - by destruct (Hn f t).
  - rewrite lookup_insert_eq. split; [|done]. intros. by rewrite lookup_insert_ne.
  - unfold meta_mut. destruct (m !! p) eqn:E; [|done]. rewrite lookup_insert_eq. split; [|done].
    intros. by rewrite lookup_insert_ne.
  - unfold meta_mut. destruct (m !! p) eqn:E; [|done]. rewrite lookup_insert_eq. split; [|done].
    intros. by rewrite lookup_insert_ne.
Qed.

Lemma live_apply now s d : live (DeltaImage_apply now s d) = FsImage_apply now (live s) d.
Proof. by destruct d. Qed.

Lemma covers_local now base s d :
  (∀ p, d ≠ DRemove p) → (∀ from to, d ≠ DRename from to) →
  covers base s → covers base (DeltaImage_apply now s d).
Proof.
  intros Hr Hn Hc. pose proof (λ q, local_apply now (live s) d q Hr Hn) as Hl.
  assert (DeltaImage_apply now s d = mkDeltaImage
    (match FsImage_apply now (live s) d !! delta_path d with
     | Some node => <[delta_path d := Some node]> (d_entries s)
     | None => d_entries s
     end) (FsImage_apply now (live s) d)) as ->.
  { destruct d; try done; [by destruct (Hr path)|by destruct (Hn from to)]. }
  destruct (FsImage_apply now (live s) d !! delta_path d) as [n|] eqn:E; apply (covers_step base s); simpl.
  - done.
  - intros q. destruct (decide (q = delta_path d)) as [->|Hq]; [left; by rewrite lookup_insert_eq, E|].
    right. rewrite lookup_insert_ne by done. split; [done|by apply Hl].
  - intros t q. destruct (decide (t = delta_path d)) as [->|Ht]; [by rewrite lookup_insert_eq|].
    by rewrite lookup_insert_ne.
  - done.
  - intros q. right. split; [done|]. destruct (decide (q = delta_path d)) as [->|Hq]; [|by apply Hl].
    rewrite E. symmetry. by apply (Hl "").
  - done.
Qed.

Lemma covers_remove now base s p : covers base s → covers base (DeltaImage_apply now s (DRemove p)).
Proof.
  intros Hc. cbn [DeltaImage_apply FsImage_apply].
  set (L := descendants s (p +:+ "/")).
  assert (∀ q, q ∈ L ↔ below p q = true ∧ is_Some (live s !! q)) as HL.
  { intros q. unfold L, descendants. by rewrite list_elem_of_filter, btree_keys_elem. }
  apply (covers_step base s); simpl; [done| |].
  - intros q. rewrite bury_lookup, remove_tree_lookup.
    destruct (decide (q ∈ L)) as [[Hb _]%HL|Hq]; [left; by rewrite Hb, orb_true_r|].
    destruct (decide (q = p)) as [->|Hne]; [left; by rewrite lookup_insert_eq, bool_decide_eq_true_2|].
    right. rewrite lookup_insert_ne, bool_decide_eq_false_2 by done. simpl. split; [done|].
    destruct (below p q) eqn:Hb; [|done]. destruct (live s !! q) eqn:El; [|done].
    destruct Hq. apply HL. by rewrite El.
  - intros t q. rewrite bury_lookup, remove_tree_lookup. intros Ht Hold Hb Hl.
    assert (below p q = true) as Hpq; [|rewrite Hpq, orb_true_r in Hl; by destruct Hl].
    destruct (decide (t ∈ L)) as [[Ht' _]%HL|_]; [by apply (below_trans p t)|].
    destruct (decide (t = p)) as [->|Hne]; [done|]. by rewrite lookup_insert_ne in Ht.
Qed.

Lemma covers_rename now base s from to :
  apart from to → covers base s → covers base (DeltaImage_apply now s (DRename from to)).
Proof.
  intros Ha Hc. destruct s as [es m].
  pose proof (rename_entries m from to Ha now es) as He. cbv zeta in He.
  pose proof (rename_lookup m from to Ha now) as Hl.
  pose proof (live_apply now (mkDeltaImage es m) (DRename from to)) as Hlive'.
  cbn [live] in Hlive'. set (s' := DeltaImage_apply now (mkDeltaImage es m) (DRename from to)) in *.
  apply (covers_step base (mkDeltaImage es m)); [done| |]; rewrite Hlive'; cbn [live d_entries].
  - intros q. destruct (He q) as (E1 & E2 & E3), (Hl q) as (L1 & L2 & L3).
    destruct (arrives_or_not m from to q) as [[n Hn]|Hno]; [left; by rewrite (E2 n), (L2 n)|].
    destruct (decide (q = from)) as [->|Hne]; [left; rewrite E1, L1 by (by left); done|].
    destruct (below from q) eqn:Hb; [|right; rewrite E3, L3; [done|intros [? | ?]; congruence|done|done|intros [? _]; congruence|done]].
    rewrite L1 by by right. destruct (m !! q) as [n|] eqn:Eq; [left; rewrite E1 by (right; eauto); done|].
    right. rewrite E3; [done|done| |done]. by intros [_ [? ?]].
  - intros t q Ht Hold Hb Hlive. destruct (He t) as (E1 & E2 & E3).
    assert (leaves from t) as Hlv.
    { destruct (arrives_or_not m from to t) as [[n Hn]|Hno]; [rewrite (E2 n Hn) in Ht; done|].
      unfold leaves. destruct (decide (t = from)); [by left|]. destruct (below from t) eqn:Hbt; [by right|].
      rewrite E3 in Ht; [done|done|intros [? _]; congruence|done]. }
    destruct (Hl q) as (L1 & _). rewrite L1 in Hlive; [by destruct Hlive|]. right.
    destruct Hlv as [-> | Hlv]; [done|by apply (below_trans from t)].
Qed.

Lemma covers_apply now base s d : tidy d → covers base s → covers base (DeltaImage_apply now s d).
Proof.
  intros Ht Hc. destruct d; try (apply covers_local; done);
    [by apply covers_remove|by apply covers_rename].
Qed.

(** Deltas with the times they are applied at. *)
Definition replay_deltas (image : FsImage) (ds : list (Z * Delta)) : FsImage :=
  fold_left (λ image d, FsImage_apply d.1 image d.2) ds image.

Definition checkpoint_fold (base : FsImage) (ds : list (Z * Delta)) : DeltaImage :=
  fold_left (λ s d, DeltaImage_apply d.1 s d.2) ds (mkDeltaImage ∅ base).

Lemma covers_fold base s ds :
  Forall (λ d, tidy d.2) ds → covers base s →
  covers base (fold_left (λ s d, DeltaImage_apply d.1 s d.2) ds s)
  ∧ live (fold_left (λ s d, DeltaImage_apply d.1 s d.2) ds s) = replay_deltas (live s) ds.
Proof.
  intros Hds. revert s. induction Hds as [|[t d] ds Hd Hds IH]; intros s Hc; [done|]. simpl.
  destruct (IH (DeltaImage_apply t s d)) as [? E]; [by apply covers_apply|]. split; [done|].
  rewrite E. unfold replay_deltas at 2. simpl. by rewrite live_apply.
Qed.

Lemma covers_init base : covers base (mkDeltaImage ∅ base).
Proof. split; simpl; intros *; rewrite ?lookup_empty; done. Qed.

Lemma checkpoint_fold_merge base ds :
  Forall (λ d, tidy d.2) ds →
  merge_segment base (mkSegment (d_entries (checkpoint_fold base ds))) = replay_deltas base ds.
Proof.
  intros Hds. destruct (covers_fold base (mkDeltaImage ∅ base) ds Hds (covers_init base)) as [Hc E].
  unfold checkpoint_fold. by rewrite (covers_merge _ _ Hc), E.
Qed.

(** ** Images up to modification times

    A replay at another time stamps other times on the nodes it creates: two
    images are equivalent when they differ in modification times only. *)

Definition no_mtime (n : Node) : Node :=
  with_meta n (mkMeta (mode (node_meta n)) (uid (node_meta n)) (gid (node_meta n)) 0 (xattrs (node_meta n))).

#[global] Instance node_equiv : Equiv Node := λ n1 n2, no_mtime n1 = no_mtime n2.

#[global] Instance node_equivalence : Equivalence (≡@{Node}).
Proof. unfold equiv, node_equiv. split; [done|by intros x y ?|intros x y z; congruence]. Qed.

Lemma with_meta_equiv n1 n2 f :
  (∀ m, (∀ t, f (mkMeta (mode m) (uid m) (gid m) t (xattrs m)) =
     mkMeta (mode (f m)) (uid (f m)) (gid (f m)) (mtime_ms (f (mkMeta (mode m) (uid m) (gid m) t (xattrs m))))
       (xattrs (f m)))) →
  n1 ≡ n2 → with_meta n1 (f (node_meta n1)) ≡ with_meta n2 (f (node_meta n2)).
Proof.
  intros Hf. unfold equiv, node_equiv, no_mtime.
  assert (∀ m1 m2, mkMeta (mode m1) (uid m1) (gid m1) 0 (xattrs m1) = mkMeta (mode m2) (uid m2) (gid m2) 0 (xattrs m2) →
    mkMeta (mode (f m1)) (uid (f m1)) (gid (f m1)) 0 (xattrs (f m1))
    = mkMeta (mode (f m2)) (uid (f m2)) (gid (f m2)) 0 (xattrs (f m2))) as Hm.
  { intros [a1 a2 a3 a4 a5] [b1 b2 b3 b4 b5]. simpl. intros [= -> -> -> ->].
    pose proof (Hf (mkMeta b1 b2 b3 b4 b5) a4) as E. simpl in E. rewrite E. simpl. done. }
  destruct n1 as [c1 m1|m1|t1 m1], n2 as [c2 m2|m2|t2 m2]; cbn [with_meta node_meta]; intros E; try discriminate E;
    injection E; intros; f_equal; try done; apply Hm; congruence.
Qed.

Lemma btree_keys_equiv (m1 m2 : FsImage) : m1 ≡ m2 → btree_keys m1 = btree_keys m2.
Proof.
  intros E. apply (StronglySorted_ext str_lt); [apply btree_keys_sorted..|]. intros k.
  rewrite !btree_keys_elem. specialize (E k). by rewrite E.
Qed.

#[global] Instance move_path_proper p to : Proper ((≡@{FsImage}) ==> (=) ==> (≡)) (move_path p to).
Proof.
  intros m1 m2 E q ? <-. unfold move_path. pose proof (E q) as Eq.
  destruct (m1 !! q) as [n1|], (m2 !! q) as [n2|]; [|by inversion Eq..|done].
  apply (inj Some) in Eq. by rewrite Eq, E.
Qed.

Lemma moves_equiv pre to L i1 i2 :
  i1 ≡ i2 → fold_left (move_path pre to) L i1 ≡ fold_left (move_path pre to) L i2.
Proof.
  revert i1 i2. induction L as [|q L IH]; intros i1 i2 Ei; simpl; [done|]. apply IH. by rewrite Ei.
Qed.

#[global] Instance remove_tree_proper : Proper ((≡) ==> (=) ==> (≡)) remove_tree.
Proof.
  intros m1 m2 E p ? <-. intros q. rewrite !remove_tree_lookup. destruct (_ || _); [done|apply E].
Qed.

#[global] Instance merge_segment_proper : Proper ((≡) ==> (=) ==> (≡)) merge_segment.
Proof.
  intros m1 m2 E seg ? <-. unfold merge_segment. revert m1 m2 E.
  induction (btree_iter (entries seg)) as [|[p [n|]] l IH]; intros m1 m2 E; simpl; [done|..]; apply IH;
    unfold merge_entry; simpl; by rewrite E.
Qed.

Lemma inline_equiv t1 t2 o1 o2 :
  o1 ≡ o2 → (inline_base t1 o1).1 = (inline_base t2 o2).1
    ∧ ∀ c, File c (inline_base t1 o1).2 ≡ File c (inline_base t2 o2).2.
Proof.
  intros E. destruct o1 as [n1|], o2 as [n2|]; [|by inversion E..|done].
  apply (inj Some) in E. unfold equiv, node_equiv, no_mtime in E |- *.
  destruct n1 as [[b1|l1 s1] m1|m1|t1' m1], n2 as [[b2|l2 s2] m2|m2|t2' m2]; cbn in E |- *;
    try discriminate E; try done.
  injection E as -> ? ? ? ?. split; [done|]. intros c. congruence.
Qed.

Lemma apply_equiv t1 t2 m1 m2 d : m1 ≡ m2 → FsImage_apply t1 m1 d ≡ FsImage_apply t2 m2 d.
Proof.
  intros E. destruct d as [p off [b|b]|p|p|f t|p t|p a1 a2 a3 a4|p n v]; cbn [FsImage_apply].
  - destruct (inline_equiv t1 t2 _ _ (E p)) as [Hc Hm].
    destruct (inline_base t1 (m1 !! p)) as [c1 meta1], (inline_base t2 (m2 !! p)) as [c2 meta2].
    simpl in Hc. subst c2. simpl in Hm. by rewrite (Hm _), E.
  - assert (∀ c, File c (default (NodeMeta_file t1) (meta_of m1 p)) ≡ File c (default (NodeMeta_file t2) (meta_of m2 p)))
      as Hm; [|by rewrite (Hm _), E].
    intros c. unfold meta_of. pose proof (E p) as Ep.
    destruct (m1 !! p) as [n1|], (m2 !! p) as [n2|]; [|by inversion Ep..|done].
    apply (inj Some) in Ep. unfold equiv, node_equiv, no_mtime in Ep |- *.
    destruct n1, n2; cbn in Ep |- *; try discriminate Ep; congruence.
  - pose proof (E p) as Ep. destruct (m1 !! p) as [n1|], (m2 !! p) as [n2|]; [done|by inversion Ep..|].
    by apply insert_proper.
  - by rewrite E.
  - set (i1 := match m1 !! f with Some node => <[t:=node]> (delete f m1) | None => m1 end).
    set (i2 := match m2 !! f with Some node => <[t:=node]> (delete f m2) | None => m2 end).
    assert (i1 ≡ i2) as Ei.
    { subst i1 i2. pose proof (E f) as Ef. destruct (m1 !! f) as [n1|], (m2 !! f) as [n2|]; [|by inversion Ef..|done].
      apply (inj Some) in Ef. by rewrite Ef, E. }
    assert (range_prefix i1 (f +:+ "/") = range_prefix i2 (f +:+ "/")) as ->.
    { unfold range_prefix. by rewrite (btree_keys_equiv i1 i2). }
    by apply moves_equiv.
  - by apply insert_proper.
  - unfold meta_mut. pose proof (E p) as Ep. destruct (m1 !! p) as [n1|], (m2 !! p) as [n2|]; [|by inversion Ep..|done].
    apply (inj Some) in Ep. rewrite (with_meta_equiv n1 n2 (set_attr a1 a2 a3 a4) ltac:(done) Ep). by rewrite E.
  - unfold meta_mut. pose proof (E p) as Ep. destruct (m1 !! p) as [n1|], (m2 !! p) as [n2|]; [|by inversion Ep..|done].
    apply (inj Some) in Ep. rewrite (with_meta_equiv n1 n2 (set_xattr n v) ltac:(done) Ep). by rewrite E.
Qed.

Lemma replay_equiv ds1 ds2 m1 m2 :
  ds1.*2 = ds2.*2 → m1 ≡ m2 → replay_deltas m1 ds1 ≡ replay_deltas m2 ds2.
Proof.
  revert ds2 m1 m2. induction ds1 as [|[t1 d1] ds1 IH]; intros [|[t2 d2] ds2] m1 m2 Hd E; try discriminate Hd; [done|].
  rewrite !fmap_cons in Hd. injection Hd as Hh Hd. simpl in Hh. subst d2. unfold replay_deltas. simpl.
  apply IH; [done|by apply apply_equiv].
Qed.

(** A checkpoint is faithful: the segment folded out of a range of deltas,
    merged in path order into the image before the range, gives the image that
    replaying the deltas gives, whenever either is done (up to the times
    stamped on created nodes), for deltas whose renames are not between a path
    and its own ancestor. *)
Theorem segment_replays base base' ds ds' :
  Forall (λ d, tidy d.2) ds → ds.*2 = ds'.*2 → base ≡ base' →
  merge_segment base (mkSegment (d_entries (checkpoint_fold base ds))) ≡ replay_deltas base' ds'.
Proof. intros Hds Hd Hb. rewrite checkpoint_fold_merge by done. by apply replay_equiv. Qed.

(** ** Instances *)

(** A directory with a file, then the file is rewritten and the directory
    renamed. *)
Definition image1 : FsImage :=
  {[ "/a" := Dir (NodeMeta_dir 1); "/a/f" := File (Inline [x01; x02]) (NodeMeta_file 1);
     "/b" := Dir (NodeMeta_dir 1) ]}.
Definition deltas1 : list Delta :=
  [DWrite "/a/f" 1 (DInline [x03; x04]); DRename "/a" "/c"; DRemove "/b"; DMkdir "/b"; DSymlink "/a" "/c/f"].

Lemma segment_replays_witness :
  merge_segment image1 (mkSegment (d_entries (checkpoint_fold image1 ((λ d, (2, d)) <$> deltas1))))
    ≡ replay_deltas image1 ((λ d, (3, d)) <$> deltas1).
Proof.
  apply (segment_replays image1 image1 ((λ d, (2, d)) <$> deltas1) ((λ d, (3, d)) <$> deltas1));
    [refine (bool_decide_eq_true_1 (Forall (λ d, tidy d.2) _) _); vm_compute; reflexivity|reflexivity|reflexivity].
Defined.

(** ** Where replay and checkpoint part

    Renaming a directory onto its own ancestor: the replay moves a node twice,
    over another one, where the segment moves each node once. *)

Definition image2 : FsImage :=
  {[ "/a/a/a/f" := File (Inline [x01]) (NodeMeta_file 1); "/a/a/f" := File (Inline [x02]) (NodeMeta_file 1) ]}.

Theorem nested_rename_parts :
  let ds := [(2, DRename "/a/a" "/a")] in
  replay_deltas image2 ds = {[ "/a/f" := File (Inline [x01]) (NodeMeta_file 1) ]}
  ∧ merge_segment image2 (mkSegment (d_entries (checkpoint_fold image2 ds)))
    = {[ "/a/f" := File (Inline [x02]) (NodeMeta_file 1) ]}.
Proof. split; vm_compute; reflexivity. Qed.
