(* ===== verification/Volume.v ===== *)
(** * Volumes ([landslide-fuse/src/store.rs])

    A mounted volume over the event store and an object store ("bucket").
    The object store is a parameter; [self.store] is the store state [d], and
    the clock is the argument [clk]: the time the delta of a version is
    applied at. *)

From S2P Require Import Prelude Text Slate Types Keys Kv Fork Store Bucket Btree Image.
Local Open Scope Z_scope.

(** JSON of the types of this crate, and SHA-256 in hexadecimal. *)
Class FuseCodecs := {
  #[global] codec_delta :: Json Delta;
  #[global] codec_segment :: Json Segment;
  #[global] codec_manifest :: Json Manifest;
  sha256_hex : bytes → string;
}.

Class FuseCodecLaws `{FuseCodecs} : Prop := {
  #[global] codec_delta_law :: JsonLaw Delta;
  #[global] codec_segment_law :: JsonLaw Segment;
  #[global] codec_manifest_law :: JsonLaw Manifest;
}.

(** The block cache. *)
Abbreviation Cache := (gmap string bytes).

Record Volume := mkVolume {
  vol : string;
  token : string;
  image : FsImage;
  v_tail : option Version;
  pending : list Delta;
  v_blocks : Cache;
}.

Section volume.
Context `{SlateDb} `{Codecs} `{ObjectStore} `{FuseCodecs}.

Definition json {A} (o : option A) : R A :=
  match o with Some a => Ok a | None => Err Encoding end.

(** [expected] *)
Definition expected_tail (tail : option Version) : ExpectedVersion := map_or NoStream Exact tail.

(** [record] *)
Definition snapshot_record (now : Z) (vol : string) (through_version : Version) : CompactionRecord :=
  mkCompaction vol through_version 0 None now.

(** ** Content reads *)

Definition block_path (hash : string) : string := path_from ("blocks/" +:+ hash).

Definition fetch_block (b : bucket) (blocks : Cache) (hash : string) : R bytes * Cache :=
  match blocks !! hash with
  | Some x => (Ok x, blocks)
  | None =>
      match io (bucket_get b (block_path hash)) with
      | Ok x => (Ok x, <[hash := x]> blocks)
      | Err e => (Err e, blocks)
      end
  end.

(** [&b[lo.min(b.len())..hi.min(b.len())]]: inverted bounds panic. *)
Definition slice (b : bytes) (lo hi : Z) : option bytes :=
  let lo := Z.min lo (Z.of_nat (length b)) in
  let hi := Z.min hi (Z.of_nat (length b)) in
  if lo <=? hi then Some (take (Z.to_nat (hi - lo)) (drop (Z.to_nat lo) b)) else None.

(** The loop over the blocks of a file; [pos] is the start of the next one. *)
Fixpoint read_blocks (b : bucket) (blocks : Cache) (refs : list BlockRef) (pos offset stop : Z)
    (out : bytes) : R bytes * Cache :=
  match refs with
  | [] => (Ok out, blocks)
  | block :: refs =>
      let bstart := pos in
      let bend := u64_add pos (block_len block) in
      if bend <=? offset then read_blocks b blocks refs bend offset stop out
      else if stop <=? bstart then (Ok out, blocks)
      else
        match fetch_block b blocks (block_hash block) with
        | (Err e, blocks) => (Err e, blocks)
        | (Ok x, blocks) =>
            match slice x (saturating_sub offset bstart) (Z.min stop bend - bstart) with
            | None => (Err (Panicked "read_content"), blocks)
            | Some s => read_blocks b blocks refs bend offset stop (out ++ s)
            end
        end
  end.

Definition read_content (b : bucket) (blocks : Cache) (content : Content) (offset len : Z) :
    R bytes * Cache :=
  match content with
  | Inline x =>
      let s := Z.min offset (Z.of_nat (length x)) in
      (match slice x s (u64_add s len) with
       | Some r => Ok r
       | None => Err (Panicked "read_content")
       end, blocks)
  | Blocks refs _ => read_blocks b blocks refs 0 offset (u64_add offset len) []
  end.

Definition read_file_range (im : FsImage) (b : bucket) (blocks : Cache) (path : string) (offset len : Z) :
    R (option bytes) * Cache :=
  match im !! path with
  | Some (File content _) =>
      let '(r, blocks) := read_content b blocks content offset len in (rmap Some r, blocks)
  | _ => (Ok None, blocks)
  end.

Definition read_file (im : FsImage) (b : bucket) (blocks : Cache) (path : string) :
    R (option bytes) * Cache :=
  match im !! path with
  | Some (File content _) =>
      let '(r, blocks) := read_content b blocks content 0 (content_len content) in (rmap Some r, blocks)
  | _ => (Ok None, blocks)
  end.

(** ** Mounting *)

Fixpoint load_loop (b : bucket) (im : FsImage) (paths : list string) : R FsImage :=
  match paths with
  | [] => Ok im
  | p :: paths =>
      let? x := io (bucket_get b (path_from p)) in
      let? seg := json (from_slice x) in
      load_loop b (merge_segment im seg) paths
  end.

Definition load_segments (b : bucket) (manifest_bytes : bytes) : R FsImage :=
  let? manifest := json (from_slice manifest_bytes) in
  load_loop b ∅ (segments manifest).

(** The closure of the folds: an event that is not a delta is skipped. *)
Definition apply_event (clk : Version → Z) (im : FsImage) (e : Event) : FsImage :=
  match from_slice (ev_data e) with
  | Some delta => FsImage_apply (clk (ev_version e)) im delta
  | None => im
  end.

(** The latest checkpoint: its image and the first version after it. *)
Definition checkpoint_base (b : bucket) (vol : string) (d : db) : R (FsImage * Version) :=
  let? snap := latest_snapshot d vol in
  match snap with
  | Some s => let? im := load_segments b (sn_state s) in Ok (im, u64_add (sn_through_version s) 1)
  | None => Ok (∅, 0)
  end.

Definition mount (o : Oracle) (clk : Version → Z) (watch : list DbStatus) (b : bucket) (vol : string)
    (d : db) : R Volume * db :=
  let token := o_ulid o 0 in
  let '(r, d) := fence (λ d, d) watch vol (Some token) d in
  (let? _ := r in
   let? (im, from) := checkpoint_base b vol d in
   let? (im, tail) := fold d vol (Included from, Unbounded) im (apply_event clk) in
   Ok (mkVolume vol token im tail [] ∅), d).

(** ** Mutations *)

Definition mutate (now : Z) (v : Volume) (delta : Delta) : Volume :=
  mkVolume (vol v) (token v) (FsImage_apply now (image v) delta) (v_tail v) (pending v ++ [delta])
    (v_blocks v).

Definition write_file (now : Z) (v : Volume) (path : string) (offset : Z) (data : bytes) : Volume :=
  mutate now v (DWrite path offset (DInline data)).

Definition with_cache (v : Volume) (blocks : Cache) : Volume :=
  mkVolume (vol v) (token v) (image v) (v_tail v) (pending v) blocks.

Definition Volume_read_file (b : bucket) (v : Volume) (path : string) : R (option bytes) * Volume :=
  let '(r, blocks) := read_file (image v) b (v_blocks v) path in (r, with_cache v blocks).

Definition Volume_read_file_range (b : bucket) (v : Volume) (path : string) (offset len : Z) :
    R (option bytes) * Volume :=
  let '(r, blocks) := read_file_range (image v) b (v_blocks v) path offset len in (r, with_cache v blocks).

(** [Vec::resize] with zeroes. *)
Definition resize (c : bytes) (size : nat) : bytes :=
  take size c ++ replicate (size - length c) x00.

Definition truncate (now : Z) (b : bucket) (v : Volume) (path : string) (size : Z) : R unit * Volume :=
  match Volume_read_file b v path with
  | (Err e, v) => (Err e, v)
  | (Ok content, v) =>
      let c := resize (default [] content) (Z.to_nat size) in
      let v := mutate now v (DRemove path) in
      (Ok tt, mutate now v (DWrite path 0 (DInline c)))
  end.

(** ** Commit *)

(** [content.chunks(n)] *)
Fixpoint chunks_upto (fuel n : nat) (c : bytes) : list bytes :=
  match fuel, c with
  | S fuel, _ :: _ => take n c :: chunks_upto fuel n (drop n c)
  | _, _ => []
  end.
Definition chunks (n : nat) (c : bytes) : list bytes := chunks_upto (length c) n c.

Definition chunk_block (chunk : bytes) : BlockRef :=
  mkBlock (sha256_hex chunk) (Z.of_nat (length chunk)).

(** The chunks of one file that are not in the bucket yet. *)
Definition missing_chunks (b : bucket) (cs : list bytes) : list (string * bytes) :=
  omap (λ chunk, let hash := sha256_hex chunk in
                 match bucket_get b (block_path hash) with
                 | Some _ => None
                 | None => Some (hash, chunk)
                 end) cs.

(** The loop of [commit] over the pending deltas: the uploads and the deltas
    to append; [chunked] holds the paths replaced so far. *)
Fixpoint upgrade_loop (b : bucket) (im : FsImage) (chunked : gset string) (ds : list Delta) :
    list (string * bytes) * list Delta :=
  match ds with
  | [] => ([], [])
  | DWrite path off data :: ds =>
      if bool_decide (path ∈ chunked) then upgrade_loop b im chunked ds
      else
        match im !! path with
        | Some (File (Inline content) _) =>
            if Z.of_nat (length content) <=? CHUNK then
              let '(uploads, upgraded) := upgrade_loop b im chunked ds in
              (uploads, DWrite path off data :: upgraded)
            else
              let cs := chunks (Z.to_nat CHUNK) content in
              let '(uploads, upgraded) := upgrade_loop b im ({[path]} ∪ chunked) ds in
              (missing_chunks b cs ++ uploads,
               DWrite path 0 (DBlocks (chunk_block <$> cs)) :: upgraded)
        | _ =>
            let '(uploads, upgraded) := upgrade_loop b im chunked ds in
            (uploads, DWrite path off data :: upgraded)
        end
  | d :: ds =>
      let '(uploads, upgraded) := upgrade_loop b im chunked ds in (uploads, d :: upgraded)
  end.

Fixpoint upload_all (b : bucket) (uploads : list (string * bytes)) : R unit * bucket :=
  match uploads with
  | [] => (Ok tt, b)
  | (hash, x) :: uploads =>
      match bucket_put b (block_path hash) x with
      | Some b => upload_all b uploads
      | None => (Err (InvalidInput BucketIo), b)
      end
  end.

Definition is_block_write (d : Delta) : bool :=
  match d with DWrite _ _ (DBlocks _) => true | _ => false end.

(** The image after the upgrade: block writes are applied again. *)
Definition upgraded_image (now : Z) (im : FsImage) (upgraded : list Delta) : FsImage :=
  fold_left (λ im d, if is_block_write d then FsImage_apply now im d else im) upgraded im.

Definition delta_event (d : Delta) : NewEvent := NewEvent_new "delta" (to_vec d).

Definition Volume_commit (o : nat → Oracle) (interf : nat → db → db) (now : Z) (v : Volume)
    (b : bucket) (d : db) : R unit * Volume * bucket * db :=
  match pending v with
  | [] => (Ok tt, v, b, d)
  | _ =>
      let '(uploads, upgraded) := upgrade_loop b (image v) ∅ (pending v) in
      match upload_all b uploads with
      | (Err e, b) => (Err e, v, b, d)
      | (Ok _, b) =>
          let im := upgraded_image now (image v) upgraded in
          match append_with_token o interf (vol v) (token v) (expected_tail (v_tail v))
                  (delta_event <$> upgraded) d with
          | (Err e, d) => (Err e, mkVolume (vol v) (token v) im (v_tail v) (pending v) (v_blocks v), b, d)
          | (Ok info, d) =>
              (Ok tt, mkVolume (vol v) (token v) im (Some (last_version info)) [] (v_blocks v), b, d)
          end
      end
  end.

(** ** Checkpoint *)

Definition apply_delta_event (clk : Version → Z) (s : DeltaImage) (e : Event) : DeltaImage :=
  match from_slice (ev_data e) with
  | Some delta => DeltaImage_apply (clk (ev_version e)) s delta
  | None => s
  end.

Definition segment_path (vol ulid : string) : string :=
  path_from ("segments/" +:+ vol +:+ "/" +:+ ulid).

(** [checkpoint] after its [commit]; [o] draws the ULID of the segment, the
    time of the record and the ULID of the journal entry. *)
Definition publish_checkpoint (o : Oracle) (clk : Version → Z) (watch : list DbStatus) (vol : string)
    (through : Version) (b : bucket) (d : db) : R CompactionRecord * bucket * db :=
  match (let? (base, from) := checkpoint_base b vol d in
         let? (s, _) := fold d vol (Included from, Unbounded) (mkDeltaImage ∅ base) (apply_delta_event clk) in
         Ok (mkSegment (d_entries s))) with
  | Err e => (Err e, b, d)
  | Ok seg =>
      let seg_path := segment_path vol (o_ulid o 1) in
      match bucket_put b seg_path (to_vec seg) with
      | None => (Err (InvalidInput BucketIo), b, d)
      | Some b =>
          match (let? snap := latest_snapshot d vol in
                 match snap with
                 | Some s => json (from_slice (sn_state s))
                 | None => Ok (mkManifest [])
                 end) with
          | Err e => (Err e, b, d)
          | Ok manifest =>
              let manifest := mkManifest (segments manifest ++ [seg_path]) in
              let record := snapshot_record (now_ms (o_clock o 0)) vol through in
              let '(r, d) := publish_snapshot o (λ d, d) watch vol record (to_vec manifest) d in
              (let? _ := r in Ok record, b, d)
          end
      end
  end.

Definition checkpoint (oa : nat → Oracle) (interf : nat → db → db) (o : Oracle) (now : Z)
    (clk : Version → Z) (watch : list DbStatus) (v : Volume) (b : bucket) (d : db) :
    R CompactionRecord * Volume * bucket * db :=
  match Volume_commit oa interf now v b d with
  | (Err e, v, b, d) => (Err e, v, b, d)
  | (Ok _, v, b, d) =>
      match v_tail v with
      | None => (Err (InvalidInput NothingToCheckpoint), v, b, d)
      | Some through =>
          let '(r, b, d) := publish_checkpoint o clk watch (vol v) through b d in (r, v, b, d)
      end
  end.

(** [Volume::tail] *)
Definition volume_tail (v : Volume) (d : db) : R (option Version) := stream_version d (vol v).
End volume.
