(* ===== verification/FuseSamples.v ===== *)
(** * Concrete volumes

    An in-memory object store and codecs, at which the theorems about volumes
    are instantiated. *)

From S2P Require Import Prelude Text Slate Types Keys Kv Fork Store Bucket Btree Image Volume.
Local Open Scope Z_scope.

Module FuseSamples.
Export SampleCodec.

#[export] Instance meta_countable : Countable NodeMeta.
Proof.
  apply (inj_countable' (λ m, (mode m, uid m, gid m, mtime_ms m, xattrs m))
    (λ '(a, b, c, t, x), mkMeta a b c t x)). by intros [].
Defined.

#[export] Instance block_countable : Countable BlockRef.
Proof. apply (inj_countable' (λ b, (block_hash b, block_len b)) (λ '(h, n), mkBlock h n)). by intros []. Defined.

#[export] Instance content_countable : Countable Content.
Proof.
  apply (inj_countable' (λ c, match c with Inline b => inl b | Blocks l n => inr (l, n) end)
    (λ x, match x with inl b => Inline b | inr (l, n) => Blocks l n end)). by intros [].
Defined.

#[export] Instance node_countable : Countable Node.
Proof.
  apply (inj_countable' (λ n, match n with
      | File c m => inl (inl (c, m)) | Dir m => inl (inr m) | Symlink t m => inr (t, m) end)
    (λ x, match x with
      | inl (inl (c, m)) => File c m | inl (inr m) => Dir m | inr (t, m) => Symlink t m end)). by intros [].
Defined.

#[export] Instance data_countable : Countable Data.
Proof.
  apply (inj_countable' (λ c, match c with DInline b => inl b | DBlocks l => inr l end)
    (λ x, match x with inl b => DInline b | inr l => DBlocks l end)). by intros [].
Defined.

#[export] Instance delta_countable : Countable Delta.
Proof.
  apply (inj_countable' (λ d, match d with
      | DWrite p o x => inl (inl (inl (p, o, x)))
      | DMkdir p => inl (inl (inr p))
      | DRemove p => inl (inr (inl p))
      | DRename f t => inl (inr (inr (f, t)))
      | DSymlink p t => inr (inl (p, t))
      | DSetAttr p a b c t => inr (inr (inl (p, a, b, c, t)))
      | DSetXattr p n v => inr (inr (inr (p, n, v)))
      end)
    (λ x, match x with
      | inl (inl (inl (p, o, x))) => DWrite p o x
      | inl (inl (inr p)) => DMkdir p
      | inl (inr (inl p)) => DRemove p
      | inl (inr (inr (f, t))) => DRename f t
      | inr (inl (p, t)) => DSymlink p t
      | inr (inr (inl (p, a, b, c, t))) => DSetAttr p a b c t
      | inr (inr (inr (p, n, v))) => DSetXattr p n v
      end)). by intros [].
Defined.

#[export] Instance segment_eq_dec : EqDecision Segment.
Proof. solve_decision. Defined.
#[export] Instance segment_countable : Countable Segment.
Proof. apply (inj_countable' entries mkSegment). by intros []. Defined.

#[export] Instance manifest_eq_dec : EqDecision Manifest.
Proof. solve_decision. Defined.
#[export] Instance manifest_countable : Countable Manifest.
Proof. apply (inj_countable' segments mkManifest). by intros []. Defined.

#[export] Instance sample_fuse_codecs : FuseCodecs := {|
  codec_delta := json_of_countable Delta;
  codec_segment := json_of_countable Segment;
  codec_manifest := json_of_countable Manifest;
  sha256_hex b := string_of_list_byte b;
|}.

#[export] Instance sample_fuse_laws : FuseCodecLaws.
Proof. split; apply json_of_countable_law. Qed.

Export SampleBucket.
End FuseSamples.
