(* ===== verification/VolumeThms.v ===== *)
(** * Theorems about volumes

    Range reads over content-addressed blocks, and that mounting through
    checkpoints reconstructs the image of a full replay. *)

From S2P Require Import Prelude Text Slate Types Keys Kv Fork Store Batch Append Wf Commit.
From S2P Require Import Appended Ops Purge History Txn Invariant Samples ForkThms SnapshotThms.
From S2P Require Import Frames Bucket Btree Image ImageThms Volume FuseSamples.
Local Open Scope Z_scope.

(** ** Content reads *)

Section content.
Context `{ObjectStore}.

(** The blocks [refs] hold the pieces [cs] of a file. *)
Definition holds (b : bucket) (refs : list BlockRef) (cs : list bytes) : Prop :=
  Forall2 (λ r c, bucket_get b (block_path (block_hash r)) = Some c
                  ∧ block_len r = Z.of_nat (length c)) refs cs.

(** The cache holds what the bucket does. *)
Definition cached (b : bucket) (cache : Cache) : Prop :=
  ∀ h x, cache !! h = Some x → bucket_get b (block_path h) = Some x.

Lemma fetch_cached b cache h c :
  cached b cache → bucket_get b (block_path h) = Some c →
  ∃ cache', fetch_block b cache h = (Ok c, cache') ∧ cached b cache'.
Proof.
  intros Hc Hb. unfold fetch_block. destruct (cache !! h) as [x|] eqn:E.
  - exists cache. split; [|done]. apply Hc in E. congruence.
  - rewrite Hb. simpl. eexists. split; [done|]. intros h' x. destruct (decide (h' = h)) as [->|Hne].
    + rewrite lookup_insert_eq. by intros [= <-].
    + rewrite lookup_insert_ne by done. apply Hc.
Qed.

Lemma slice_window c lo hi : 0 ≤ lo ≤ hi → lo ≤ Z.of_nat (length c) →
  slice c lo hi = Some (take (Z.to_nat (hi - lo)) (drop (Z.to_nat lo) c)).
Proof.
  intros Hlo Hl. unfold slice. rewrite (Z.min_l lo) by done.
  destruct (Z.leb_spec lo (Z.min hi (Z.of_nat (length c)))); [|lia]. f_equal.
  destruct (Z.leb_spec hi (Z.of_nat (length c))) as [Hh|Hh]; [by rewrite Z.min_l|].
  rewrite Z.min_r by lia. rewrite !take_ge; [done|rewrite length_drop; lia..].
Qed.

(** The part of [cs], which starts at [pos], in the window. *)
Definition window (cs : list bytes) (pos offset stop : Z) : bytes :=
  take (Z.to_nat (stop - Z.max pos offset)) (drop (Z.to_nat (offset - pos)) (concat cs)).

Lemma read_blocks_window b refs cs cache pos offset stop out :
  holds b refs cs → cached b cache → 0 ≤ pos → 0 ≤ offset ≤ stop →
  pos + Z.of_nat (length (concat cs)) < U64 →
  ∃ cache', read_blocks b cache refs pos offset stop out = (Ok (out ++ window cs pos offset stop), cache')
    ∧ cached b cache'.
Proof.
  intros Hh. revert cache pos out. induction Hh as [|r c refs cs [Hget Hlen] Hh IH];
    intros cache pos out Hc Hpos Hoff Hu; cbn [read_blocks].
  { exists cache. split; [|done]. unfold window. simpl. by rewrite drop_nil, take_nil, app_nil_r. }
  cbn [concat] in Hu. rewrite length_app in Hu. rewrite Hlen, u64_add_small by lia.
  set (n := Z.of_nat (length c)) in *.
  destruct (Z.leb_spec (pos + n) offset) as [Hle|Hgt].
  { destruct (IH cache (pos + n) out) as (cache' & -> & Hc'); [done|lia|done|lia|].
    exists cache'. split; [|done]. do 2 f_equal. unfold window. cbn [concat].
    rewrite drop_app_ge by (subst n; lia).
    replace (Z.max (pos + n) offset) with (Z.max pos offset) by lia.
    replace (Z.to_nat (offset - pos) - length c)%nat with (Z.to_nat (offset - (pos + n))) by (subst n; lia).
    done. }
  destruct (Z.leb_spec stop pos) as [Hs|Hs].
  { exists cache. split; [|done]. unfold window. replace (Z.to_nat (stop - Z.max pos offset)) with O by lia.
    by rewrite take_0, app_nil_r. }
  destruct (fetch_cached b cache (block_hash r) c Hc Hget) as (cache1 & -> & Hc1).
  unfold saturating_sub. rewrite slice_window by (subst n; lia).
  destruct (IH cache1 (pos + n) (out ++ take (Z.to_nat (Z.min stop (pos + n) - pos - Z.max 0 (offset - pos)))
    (drop (Z.to_nat (Z.max 0 (offset - pos))) c))) as (cache' & -> & Hc'); [done|lia|done|lia|].
  exists cache'. split; [|done]. rewrite <-app_assoc. do 3 f_equal. unfold window. cbn [concat].
  replace (Z.to_nat (offset - (pos + n))) with O by lia. rewrite drop_0.
  replace (Z.to_nat (offset - pos)) with (Z.to_nat (Z.max 0 (offset - pos))) by lia.
  set (lo := Z.max 0 (offset - pos)) in *. rewrite drop_app_le by (subst n; lia).
  rewrite take_app. f_equal.
  - destruct (Z.leb_spec stop (pos + n)) as [Hsb|Hsb]; [f_equal; subst lo; lia|].
    rewrite !take_ge; [done|rewrite length_drop; subst lo n; lia..].
  - f_equal. rewrite length_drop. subst lo n. lia.
Qed.

(** The bytes of a file. *)
Definition file_bytes (b : bucket) (ct : Content) (c : bytes) : Prop :=
  match ct with
  | Inline x => x = c
  | Blocks refs size => ∃ cs, holds b refs cs ∧ concat cs = c ∧ size = Z.of_nat (length c)
  end.

Lemma read_blocks_range b cache refs size cs offset len :
  holds b refs cs → cached b cache → 0 ≤ offset → 0 ≤ len → offset + len < U64 →
  Z.of_nat (length (concat cs)) < U64 →
  ∃ cache', read_content b cache (Blocks refs size) offset len
      = (Ok (take (Z.to_nat len) (drop (Z.to_nat offset) (concat cs))), cache')
    ∧ cached b cache'.
Proof.
  intros Hh Hc Ho Hl Hol Hu. unfold read_content. rewrite u64_add_small by lia.
  destruct (read_blocks_window b refs cs cache 0 offset (offset + len) []) as (cache' & -> & Hc');
    [done|done|lia|lia|lia|]. exists cache'. split; [|done]. do 2 f_equal. unfold window.
  rewrite Z.max_r by lia. replace (offset + len - offset) with len by lia.
  by replace (offset - 0) with offset by lia.
Qed.
Lemma read_bytes b cache ct c offset len :
  file_bytes b ct c → cached b cache → 0 ≤ offset → 0 ≤ len → offset + len < U64 →
  Z.of_nat (length c) < U64 →
  ∃ cache', read_content b cache ct offset len = (Ok (take (Z.to_nat len) (drop (Z.to_nat offset) c)), cache')
    ∧ cached b cache'.
Proof.
  destruct ct as [x|refs size]; [|intros (cs & Hh & <- & _); by apply read_blocks_range].
  intros -> Hc Ho Hl Hol Hu. exists cache. split; [|done]. unfold read_content. f_equal.
  destruct (Z.leb_spec offset (Z.of_nat (length c))) as [Hle|Hgt].
  - rewrite Z.min_l, u64_add_small, slice_window by lia. do 4 f_equal. lia.
  - rewrite Z.min_r by lia. unfold slice. rewrite Z.min_id.
    assert (Z.of_nat (length c) ≤ u64_add (Z.of_nat (length c)) len) as Hge by (rewrite u64_add_small; lia).
    rewrite (Z.min_r (u64_add _ _)) by done. rewrite Z.leb_refl, Z.sub_diag. simpl.
    rewrite (drop_ge c (Z.to_nat offset)) by lia. by rewrite take_nil.
Qed.

(** A range read of a block-backed file returns exactly the bytes of the
    range, cut at the end of the file, from whichever blocks are cached or
    fetched, and leaves the cache consistent with the bucket. *)
Theorem read_content_range b cache refs size cs offset len :
  holds b refs cs → cached b cache → 0 ≤ offset → 0 ≤ len → offset + len < U64 →
  Z.of_nat (length (concat cs)) < U64 →
  ∃ cache', read_content b cache (Blocks refs size) offset len
      = (Ok (take (Z.to_nat len) (drop (Z.to_nat offset) (concat cs))), cache')
    ∧ cached b cache'.
Proof. apply read_blocks_range. Qed.
End content.

Section volume_laws.
Context `{SlateDbLaws} `{CodecLaws} `{ObjectStoreLaws} `{FuseCodecLaws}.

(** ** Replays *)

(** The deltas of a history, at the times [clk] gives them. *)
Definition timed (clk : Version → Z) (l : list Envelope) : list (Z * Delta) :=
  omap (λ e, (λ d, (clk (env_version e), d)) <$> from_slice (env_data e)) l.

Definition replay_log (clk : Version → Z) (l : list Envelope) : FsImage := replay_deltas ∅ (timed clk l).

Lemma timed_app clk l1 l2 : timed clk (l1 ++ l2) = timed clk l1 ++ timed clk l2.
Proof. apply omap_app. Qed.

Lemma timed_deltas clk clk' l : (timed clk l).*2 = (timed clk' l).*2.
Proof.
  induction l as [|e l IH]; [done|]. unfold timed in *. cbn [omap list_omap].
  destruct (from_slice (env_data e)); simpl; [f_equal|]; exact IH.
Qed.

Lemma fold_apply_event clk im l :
  fold_left (apply_event clk) (from_parts <$> l) im = replay_deltas im (timed clk l).
Proof.
  revert im. induction l as [|e l IH]; intros im; [done|]. unfold timed. cbn [omap list_omap fmap list_fmap fold_left].
  rewrite IH. unfold apply_event. simpl. by destruct (from_slice (env_data e)).
Qed.

Lemma fold_delta_event clk s l :
  fold_left (apply_delta_event clk) (from_parts <$> l) s
  = fold_left (λ s d, DeltaImage_apply d.1 s d.2) (timed clk l) s.
Proof.
  revert s. induction l as [|e l IH]; intros s; [done|]. unfold timed. cbn [omap list_omap fmap list_fmap fold_left].
  rewrite IH. unfold apply_delta_event. simpl. by destruct (from_slice (env_data e)).
Qed.

(** The latest checkpoint of a volume, if any, loads to the replay of the
    history it covers. *)
Definition faithful (b : bucket) (d : db) (vol : string) (l : list Envelope) : Prop :=
  ∀ r, latest_snapshot d vol = Ok (Some r) →
    ∃ im, load_segments b (sn_state r) = Ok im
      ∧ ∀ clk, im ≡ replay_log clk (upto (sn_through_version r) l).

Lemma base_replay b vol d l :
  wf d → slash_free vol → hist d vol l → StronglySorted version_lt l → faithful b d vol l →
  ∃ im from early, checkpoint_base b vol d = Ok (im, from) ∧ key_lim from
    ∧ l = early ++ within from None l ∧ ∀ clk, im ≡ replay_log clk early.
Proof.
  intros Hwf Hs Hl Hsort Hf. unfold checkpoint_base.
  destruct (snapshot_shaped d vol (wf_shaped _ Hwf) Hs) as ([r|] & Hr & Hn); rewrite Hr; cbn [rbind].
  - destruct (Hf r Hr) as (im & -> & Him). cbn [rbind from_option] in *.
    eexists im, _, (upto (sn_through_version r) l). split_and!; [done|..|done];
      unfold key_num in Hn; u64_norm; [unfold key_lim; lia|by apply history_split].
  - exists ∅, 0, []. pose proof KEY_MAX_pos. split_and!; [done|unfold key_lim; lia| |done].
    symmetry. apply filter_all. intros e He.
    destruct (hist_num d vol l e (wf_shaped _ Hwf) Hs Hl He) as [Hv _].
    unfold in_window. simpl. rewrite andb_true_r. by apply Z.leb_le.
Qed.

Lemma replay_log_app clk clk' early l im :
  im ≡ replay_log clk' early → replay_deltas im (timed clk l) ≡ replay_log clk' (early ++ l).
Proof.
  intros Him. unfold replay_log. rewrite timed_app. unfold replay_deltas at 2. rewrite fold_left_app.
  apply replay_equiv; [apply timed_deltas|done].
Qed.

Lemma mount_ok o clk watch b s d l info :
  wf d → slash_free s → hist d s l → StronglySorted version_lt l → faithful b d s l →
  (fence (λ d, d) watch s (Some (o_ulid o 0)) d).1 = Ok info →
  ∃ v d', mount o clk watch b s d = (Ok v, d') ∧ hist d' s l ∧ wf d'
    ∧ pending v = [] ∧ token v = o_ulid o 0 ∧ ∀ clk', image v ≡ replay_log clk' l.
Proof.
  intros Hwf Hs Hl Hsort Hf Hfence. unfold mount.
  destruct (fence (λ d, d) watch s (Some (o_ulid o 0)) d) as [r d'] eqn:Ef. simpl in Hfence. subst r.
  destruct (fence_keeps _ _ _ _ _ _ Hwf Hs Ef) as (Hwf' & Hhist & Hsnap). specialize (Hhist s l Hs Hl).
  assert (faithful b d' s l) as Hf' by (intros r Hr; apply Hf; by rewrite <-Hsnap).
  destruct (base_replay b s d' l Hwf' Hs Hhist Hsort Hf') as (im & from & early & Hb & Hlim & Hsplit & Him).
  cbn [rbind]. rewrite Hb. cbn [rbind]. rewrite (fold_history d' s l) by done. cbn [rbind].
  eexists _, d'. split_and!; [done..|]. intros clk'. simpl. rewrite fold_apply_event.
  rewrite Hsplit at 2. by apply replay_log_app.
Qed.

(** Mounting reconstructs the volume: once its fence is set, [mount]
    succeeds, its image is the replay of the stream's whole history (up to
    the times stamped on created nodes) although only the deltas after the
    latest checkpoint are read, and the stream itself is unchanged. *)
Theorem mount_replays o clk watch b s d l info :
  wf d → slash_free s → hist d s l → StronglySorted version_lt l → faithful b d s l →
  (fence (λ d, d) watch s (Some (o_ulid o 0)) d).1 = Ok info →
  ∃ v d', mount o clk watch b s d = (Ok v, d') ∧ hist d' s l ∧ wf d'
    ∧ pending v = [] ∧ token v = o_ulid o 0 ∧ ∀ clk', image v ≡ replay_log clk' l.
Proof. apply mount_ok. Qed.

(** *** Checkpoints *)

Lemma load_loop_app b im p1 p2 :
  load_loop b im (p1 ++ p2) = rbind (load_loop b im p1) (λ im, load_loop b im p2).
Proof.
  revert im. induction p1 as [|p p1 IH]; intros im; [done|]. cbn [app load_loop].
  destruct (io (bucket_get b (path_from p))) as [x|]; [|done]. cbn [rbind].
  destruct (json (from_slice x)) as [seg|]; [|done]. apply IH.
Qed.

Lemma load_loop_put b b' k v im paths :
  bucket_put b k v = Some b' → (∀ p, p ∈ paths → path_from p ≠ k) →
  load_loop b' im paths = load_loop b im paths.
Proof.
  intros Hput. revert im. induction paths as [|p paths IH]; intros im Hp; [done|]. cbn [load_loop].
  rewrite (bucket_get_put _ _ _ _ Hput), decide_False by (apply Hp; by left).
  destruct (io (bucket_get b (path_from p))) as [x|]; [|done]. cbn [rbind].
  destruct (json (from_slice x)) as [seg|]; [|done]. apply IH. intros q Hq. apply Hp. by right.
Qed.

(** The manifest of the latest checkpoint. *)
Definition manifest_of (d : db) (s : string) : R Manifest :=
  let? snap := latest_snapshot d s in
  match snap with
  | Some r => json (from_slice (sn_state r))
  | None => Ok (mkManifest [])
  end.

(** What a fresh ULID gives: the path of the new segment survives being
    parsed again and is not one of the manifest's. *)
Definition fresh_segment (d : db) (s path : string) : Prop :=
  path_from path = path ∧ ∀ m p, manifest_of d s = Ok m → p ∈ segments m → path_from p ≠ path.

Lemma base_manifest b s d im from :
  checkpoint_base b s d = Ok (im, from) → ∃ m, manifest_of d s = Ok m ∧ load_loop b ∅ (segments m) = Ok im.
Proof.
  unfold checkpoint_base, manifest_of. destruct (latest_snapshot d s) as [[r|]|]; [|by intros [= <- <-]; eexists|done].
  cbn [rbind]. unfold load_segments. destruct (json (from_slice (sn_state r))) as [m|]; [|done]. cbn [rbind].
  destruct (load_loop b ∅ (segments m)) as [im'|] eqn:E; [|done]. intros [= <- <-]. by exists m.
Qed.

(** C29: checkpointing is transparent: a published checkpoint leaves the
    stream's history as it was, becomes its latest snapshot, and loads, from
    the segments of all checkpoints so far, to the replay of that whole
    history; so a later mount reads none of it.  This is for a volume whose
    latest checkpoint, if any, is faithful already, whose deltas rename nothing
    under itself or over one of its ancestors ([nested_rename_parts]), and while
    the sequence counter has not moved back below a snapshot key of the stream
    ([sequence_moves_back]); the new segment's path is fresh,
    the versions of the history increase, and nothing else commits meanwhile. *)
Theorem checkpoint_faithful o clk watch s through b d l record b' d' :
  wf d → slash_free s → oracle_ok o → hist d s l → StronglySorted version_lt l → faithful b d s l →
  snaps_below d s → key_num (durable_sequence d + 1) → env_version <$> last l = Some through →
  Forall (λ d, tidy d.2) (timed clk l) → fresh_segment d s (segment_path s (o_ulid o 1)) →
  publish_checkpoint o clk watch s through b d = (Ok record, b', d') →
  wf d' ∧ hist d' s l ∧ (∃ r, latest_snapshot d' s = Ok (Some r) ∧ sn_through_version r = through)
  ∧ faithful b' d' s l.
Proof.
  intros Hwf Hs Ho Hl Hsort Hf Hbelow Hseq Hlast Htidy [Hpath Hfresh] E. unfold publish_checkpoint in E.
  destruct (base_replay b s d l Hwf Hs Hl Hsort Hf) as (im & from & early & Hb & Hlim & Hsplit & Him).
  rewrite Hb in E. cbn [rbind] in E. rewrite (fold_history d s l) in E by done. cbn [rbind] in E.
  rewrite fold_delta_event in E. fold (checkpoint_fold im (timed clk (within from None l))) in E.
  set (seg := mkSegment (d_entries (checkpoint_fold im (timed clk (within from None l))))) in E.
  set (path := segment_path s (o_ulid o 1)) in *.
  destruct (bucket_put b path (to_vec seg)) as [b1|] eqn:Eput; [|done].
  destruct (base_manifest _ _ _ _ _ Hb) as (m & Hm & Hload). fold (manifest_of d s) in E. rewrite Hm in E.
  set (rec := snapshot_record _ s through) in E. set (state := to_vec (mkManifest (segments m ++ [path]))) in E.
  destruct (publish_snapshot o (λ d, d) watch s rec state d) as [[[]|] d1] eqn:Ep; [|done].
  injection E as <- <- <-. apply publish_Ok in Ep.
  pose proof (last_num d s l through Hwf Hs Hl Hlast) as Hth.
  rewrite u64_add_small in Ep by (unfold key_num in Hseq; u64_facts; lia).
  pose proof (published_wf d o s rec state Hwf Hs Ho Hth Hseq) as Hwf1.
  pose proof (published_hist d o s rec state Hwf Hs Ho Hth Hseq s l Hs Hl) as Hl1.
  pose proof (published_latest d o s rec state Hwf Hs Ho Hth Hseq Hbelow) as Hsn1.
  rewrite <-Ep in Hwf1, Hl1, Hsn1. split_and!; [done|done|by eexists|].
  intros r Hr. rewrite Hsn1 in Hr. injection Hr as <-. cbn [sn_state sn_through_version].
  change (cr_through_version rec) with through. rewrite (upto_last l through) by done.
  exists (merge_segment im seg). split.
  - unfold load_segments, state. rewrite from_to_vec. cbn [json rbind segments]. rewrite load_loop_app.
    rewrite (load_loop_put b b1 path (to_vec seg)) by (done || by intros p; apply Hfresh).
    rewrite Hload. cbn [rbind load_loop]. rewrite Hpath, (bucket_get_put _ _ _ _ Eput), decide_True by done.
    cbn [io rbind]. rewrite from_to_vec. done.
  - intros clk'. rewrite Hsplit. unfold seg. rewrite checkpoint_fold_merge; [by apply replay_log_app|].
    rewrite Hsplit, timed_app in Htidy. by apply Forall_app in Htidy as [_ ?].
Qed.
End volume_laws.

(** ** Instances *)

Import Samples FuseSamples.

(** A volume [v], mounted and written once. *)
Definition mount0 : R Volume * db := mount (sample_oracle 10) (λ _, 7) [mkStatus 9 false] ∅ "v" mem_empty.
Definition dm0 : db := mount0.2.
Definition no_volume : Volume := mkVolume "" "" ∅ None [] ∅.
Definition opened (r : R Volume * db) : Volume := match r.1 with Ok v => v | Err _ => no_volume end.

Definition written : Volume :=
  write_file 8 (mutate 8 (opened mount0) (DMkdir "/a")) "/a/f" 0 [x68; x69].
Definition commit1 : R unit * Volume * bucket * db := Volume_commit (orc 20) quiet 9 written ∅ dm0.
Definition dm1 : db := commit1.2.

Lemma dm0_wf : wf dm0.
Proof.
  eapply (wf_fence (λ d, d) [mkStatus 9 false] "v" (Some (o_ulid (sample_oracle 10) 0)) mem_empty
    (fence (λ d, d) [mkStatus 9 false] "v" (Some (o_ulid (sample_oracle 10) 0)) mem_empty).1);
    [apply wf_mem_empty|reflexivity|apply wf_mem_empty|]. unfold dm0, mount0, mount.
  by destruct (fence _ _ _ _ _) as [r d'].
Qed.

Lemma dm1_wf : wf dm1.
Proof.
  eapply (wf_append (orc 20) quiet "v" NoStream None (Some (token written)) (delta_event <$> pending written)
    true dm0 (append_with_token_lazy (orc 20) quiet "v" (token written) NoStream
      (delta_event <$> pending written) true dm0).1);
    [reflexivity|apply orc_ok|apply quiet_wf, dm0_wf| |].
  - assert (dm1 = (append_with_token_lazy (orc 20) quiet "v" (token written) NoStream
      (delta_event <$> pending written) true dm0).2) as -> by run.
    apply surjective_pairing.
  - intros tk Htk. assert (tk = mkTicket (mkInfo 0 1 1) 2) as ->.
    { apply (f_equal (λ r, match r with Ok t => t | Err _ => tk end)) in Htk.
      rewrite <-Htk. vm_compute. reflexivity. }
    split; small.
Qed.

#[global] Opaque dm0 dm1.

Lemma dm1_hist : hist dm1 "v" (vis dm1 "v").
Proof. apply hist_root. run. Qed.

Lemma dm1_sorted : StronglySorted version_lt (vis dm1 "v").
Proof. apply StronglySorted_filter, log_sorted; [apply dm1_wf|reflexivity]. Qed.

Lemma dm1_no_snapshot : latest_snapshot dm1 "v" = Ok None.
Proof. run. Qed.

Lemma dm1_faithful : faithful (∅ : bucket) dm1 "v" (vis dm1 "v").
Proof. intros r Hr. rewrite dm1_no_snapshot in Hr. discriminate Hr. Qed.

Lemma mount_replays_witness :
  ∃ v d', mount (sample_oracle 30) (λ _, 11) [mkStatus 9 false] ∅ "v" dm1 = (Ok v, d')
    ∧ hist d' "v" (vis dm1 "v") ∧ wf d' ∧ pending v = [] ∧ token v = o_ulid (sample_oracle 30) 0
    ∧ ∀ clk', image v ≡ replay_log clk' (vis dm1 "v").
Proof.
  apply (mount_replays (sample_oracle 30) (λ _, 11) [mkStatus 9 false] ∅ "v" dm1 (vis dm1 "v") (mkInfo 1 1 0));
    [apply dm1_wf|reflexivity|apply dm1_hist|apply dm1_sorted|apply dm1_faithful|run].
Defined.

Definition check1 : R CompactionRecord * bucket * db :=
  publish_checkpoint (sample_oracle 40) (λ _, 12) [mkStatus 9 false] "v" 1 ∅ dm1.

Lemma checkpoint_faithful_witness :
  wf check1.2 ∧ hist check1.2 "v" (vis dm1 "v")
  ∧ (∃ r, latest_snapshot check1.2 "v" = Ok (Some r) ∧ sn_through_version r = 1)
  ∧ faithful check1.1.2 check1.2 "v" (vis dm1 "v").
Proof.
  apply (checkpoint_faithful (sample_oracle 40) (λ _, 12) [mkStatus 9 false] "v" 1 ∅ dm1 (vis dm1 "v")
    (mkCompaction "v" 1 0 None 1040));
    [apply dm1_wf|reflexivity|apply sample_oracle_ok|apply dm1_hist|apply dm1_sorted|apply dm1_faithful
    |apply no_snaps; run|small|run|refine (bool_decide_eq_true_1 (Forall (λ d, tidy d.2) _) _); run| |run].
  split; [reflexivity|]. intros m p Hm Hp. assert (manifest_of dm1 "v" = Ok (mkManifest [])) as E by run.
  rewrite E in Hm. injection Hm as <-. exfalso. exact (not_elem_of_nil p Hp).
Defined.

Lemma read_content_range_witness :
  let b : bucket := <["blocks/h1" := [x01; x02; x03]]> (<["blocks/h2" := [x04; x05]]> ∅) in
  ∃ cache', read_content b ∅ (Blocks [mkBlock "h1" 3; mkBlock "h2" 2] 5) 2 2
      = (Ok [x03; x04], cache') ∧ cached b cache'.
Proof.
  intros b. apply (read_content_range b ∅ [mkBlock "h1" 3; mkBlock "h2" 2] 5 [[x01; x02; x03]; [x04; x05]] 2 2);
    [repeat constructor|intros h x Hx; by rewrite lookup_empty in Hx|lia|lia|rewrite U64_eq; lia|rewrite U64_eq; simpl; lia].
Defined.

(** ** Remounts

    A mount right after a checkpoint folds no delta, so its tail is unknown
    and its next commit expects an empty stream. *)

Definition remount : R Volume * db :=
  mount (sample_oracle 50) (λ _, 13) [mkStatus 9 false] check1.1.2 "v" check1.2.

Theorem remount_cannot_commit :
  map_or None v_tail (match remount.1 with Ok v => Some v | Err _ => None end) = None
  ∧ (Volume_commit (orc 60) quiet 14 (write_file 14 (opened remount) "/a/f" 0 [x21]) check1.1.2 remount.2).1.1.1
    = Err (VersionConflict "v" NoStream (Some 1)).
Proof. split; run. Qed.

(** ** Truncation

    [truncate] removes the file and writes it again: the new content has the
    requested size, but mode, owner and extended attributes are reset. *)

Definition private : Volume := mutate 9 written (DSetAttr "/a/f" (Some 384) (Some 1000) None None).

Theorem truncate_drops_metadata :
  mode <$> meta_of (image private) "/a/f" = Some 384
  ∧ image (truncate 10 (∅ : bucket) private "/a/f" 1).2 !! "/a/f"
    = Some (File (Inline [x68]) (NodeMeta_file 10)).
Proof. split; run. Qed.

(** ** Chunked commits

    An inline write into a block-backed file starts from an empty file: the
    file's content and metadata are lost.  A mutation after a commit that
    chunked the file does exactly that. *)

Definition blocky : FsImage :=
  {[ "/big" := File (Blocks [mkBlock "h" 3] 3) (mkMeta 384 1000 0 5 ∅) ]}.

Theorem splice_discards_blocks :
  FsImage_apply 9 blocky (DWrite "/big" 3 (DInline [x01]))
    = {[ "/big" := File (Inline [x00; x00; x00; x01]) (NodeMeta_file 9) ]}.
Proof. run. Qed.
