(* ===== verification/CommitThms.v ===== *)
(** * Commits of a volume

    [Volume::commit] replaces the writes of a large file by one write of
    content-addressed blocks.  Replaying the deltas it appends gives the image
    it leaves: a mount after a commit sees what the committing process saw. *)

From S2P Require Import Prelude Text Slate Types Keys Kv Fork Store Batch Append Wf Commit.
From S2P Require Import Appended Ops Purge History Txn Invariant Samples AppendThms ForkThms SnapshotThms.
From S2P Require Import Frames Bucket Btree Image ImageThms Volume FuseSamples VolumeThms.
Local Open Scope Z_scope.

(** ** Replays of upgraded deltas *)

(** A delta that moves, removes or replaces nothing at [p]. *)
Definition keeps (p : string) (d : Delta) : bool :=
  match d with
  | DRemove q => negb (String.eqb p q) && negb (below q p)
  | DRename from to =>
      negb (String.eqb p from) && negb (below from p) && negb (String.eqb p to) && negb (below to p)
  | DSymlink q _ => negb (String.eqb p q)
  | _ => true
  end.

Definition inline_file (n : option Node) : bool :=
  match n with Some (File (Inline _) _) => true | _ => false end.

Section upgrade.
Context `{ObjectStore} `{FuseCodecs}.

(** The image the commit chunks. *)
Context (im : FsImage).

Definition big (p : string) : bool :=
  match im !! p with
  | Some (File (Inline c) _) => CHUNK <? Z.of_nat (length c)
  | _ => false
  end.

Definition final_refs (p : string) : list BlockRef :=
  match im !! p with
  | Some (File (Inline c) _) => chunk_block <$> chunks (Z.to_nat CHUNK) c
  | _ => []
  end.

(** The files of [C] by their blocks. *)
Definition blocked (refs : list BlockRef) (n : Node) : Node :=
  match n with
  | File _ meta => File (Blocks refs (blocks_size refs)) meta
  | _ => n
  end.

Definition up (C : gset string) (m : FsImage) : FsImage :=
  map_imap (λ p n, Some (if bool_decide (p ∈ C) then blocked (final_refs p) n else n)) m.

(** The paths chunked after a delta. *)
Definition chunked_by (C : gset string) (d : Delta) : gset string :=
  match d with
  | DWrite p _ _ => if big p then {[p]} ∪ C else C
  | _ => C
  end.

(** Deltas a commit may chunk: they are written inline, the first write of a
    large file finds an inline file or nothing, and no later delta moves,
    removes or replaces that file. *)
Fixpoint calm (C : gset string) (m : FsImage) (ds : list Delta) : bool :=
  match ds with
  | [] => true
  | d :: ds =>
      bool_decide (set_Forall (λ p, keeps p d = true) C)
      && match d with
         | DWrite p _ (DInline _) => negb (big p) || inline_file (m !! p) || negb (is_some (m !! p))
         | DWrite _ _ (DBlocks _) => false
         | _ => true
         end
      && calm (chunked_by C d) (FsImage_apply 0 m d) ds
  end.

Definition all_inline (C : gset string) (m : FsImage) : Prop := ∀ p, p ∈ C → inline_file (m !! p) = true.

Lemma up_lookup C m q :
  up C m !! q = (λ n, if bool_decide (q ∈ C) then blocked (final_refs q) n else n) <$> m !! q.
Proof. unfold up. rewrite map_lookup_imap. by destruct (m !! q). Qed.

Lemma up_other C m q : q ∉ C → up C m !! q = m !! q.
Proof. intros Hq. rewrite up_lookup, bool_decide_eq_false_2 by done. by destruct (m !! q). Qed.

Lemma up_empty m : up ∅ m = m.
Proof. apply map_eq. intros q. apply up_other. set_solver. Qed.

Lemma up_insert C m p n : p ∉ C → up C (<[p := n]> m) = <[p := n]> (up C m).
Proof.
  intros Hp. apply map_eq. intros q. destruct (decide (q = p)) as [->|Hne].
  - by rewrite up_other, !lookup_insert_eq.
  - by rewrite lookup_insert_ne, !up_lookup, lookup_insert_ne.
Qed.

Lemma up_delete C m p : up C (delete p m) = delete p (up C m).
Proof.
  apply map_eq. intros q. destruct (decide (q = p)) as [->|Hne].
  - by rewrite up_lookup, !lookup_delete_eq.
  - by rewrite lookup_delete_ne, !up_lookup, lookup_delete_ne.
Qed.

Lemma up_keys C m : btree_keys (up C m) = btree_keys m.
Proof.
  apply (StronglySorted_ext str_lt); [apply btree_keys_sorted..|]. intros k.
  rewrite !btree_keys_elem, up_lookup, !fmap_is_Some. done.
Qed.

Lemma up_move C pre to m q : q ∉ C → to +:+ "/" +:+ drop_chars (String.length pre) q ∉ C →
  move_path pre to (up C m) q = up C (move_path pre to m q).
Proof.
  intros Hq Ht. unfold move_path. rewrite up_other by done. destruct (m !! q); [|done].
  by rewrite up_insert, up_delete.
Qed.

Lemma up_moves C from to L m :
  (∀ q, q ∈ L → below from q = true) → (∀ p, p ∈ C → below from p = false ∧ below to p = false) →
  fold_left (move_path (from +:+ "/") to) L (up C m) = up C (fold_left (move_path (from +:+ "/") to) L m).
Proof.
  intros HL HC. revert m. induction L as [|q L IH]; intros m; [done|]. simpl.
  rewrite up_move, IH; [done|by intros; apply HL; right|..].
  - intros Hq. destruct (HC q Hq) as [E _]. rewrite HL in E by by left. done.
  - intros [_ E]%HC. assert (below to (to +:+ "/" +:+ drop_chars (String.length (from +:+ "/")) q) = true) as Eb;
      [apply below_iff; by eexists|congruence].
Qed.

Lemma up_rename C now m from to : (∀ p, p ∈ C → keeps p (DRename from to) = true) →
  FsImage_apply now (up C m) (DRename from to) = up C (FsImage_apply now m (DRename from to)).
Proof.
  intros HC.
  assert (∀ p, p ∈ C → p ≠ from ∧ p ≠ to ∧ below from p = false ∧ below to p = false) as HC'.
  { intros p Hp. specialize (HC p Hp). simpl in HC. rewrite !andb_true_iff, !negb_true_iff, !String.eqb_neq in HC.
    tauto. }
  cbn [FsImage_apply]. rewrite (up_other C m from) by (intros ?%HC'; tauto).
  set (i := match m !! from with Some node => <[to:=node]> (delete from m) | None => m end).
  replace (match m !! from with Some node => <[to:=node]> (delete from (up C m)) | None => up C m end) with (up C i).
  2: { subst i. destruct (m !! from); [|done]. rewrite up_insert, up_delete; [done|]. intros ?%HC'. tauto. }
  unfold range_prefix at 1. rewrite up_keys. fold (range_prefix i (from +:+ "/")). apply up_moves.
  - intros q Hq%range_prefix_elem. apply Hq.
  - intros p Hp%HC'. tauto.
Qed.

Lemma up_meta C m p f :
  meta_mut (up C m) p f = up C (meta_mut m p f).
Proof.
  unfold meta_mut. rewrite up_lookup. destruct (m !! p) as [n|] eqn:E; [|done]. cbn [fmap option_fmap option_map].
  apply map_eq. intros q. destruct (decide (q = p)) as [->|Hne].
  - rewrite lookup_insert_eq, up_lookup, lookup_insert_eq. simpl. by destruct (bool_decide _), n.
  - by rewrite lookup_insert_ne, !up_lookup, lookup_insert_ne.
Qed.

Lemma apply_up C now m d :
  all_inline C m → set_Forall (λ p, keeps p d = true) C →
  match d with DWrite p _ (DInline _) => p ∉ C | DWrite _ _ (DBlocks _) => False | _ => True end →
  FsImage_apply now (up C m) d = up C (FsImage_apply now m d).
Proof.
  intros Hin Hk Hd. destruct d as [p off [x|x]|p|p|f t|p t|p a1 a2 a3 a4|p n v]; try done.
  - cbn [FsImage_apply]. rewrite up_other by done. destruct (inline_base now (m !! p)).
    by rewrite up_insert, up_delete.
  - cbn [FsImage_apply]. rewrite up_lookup. destruct (m !! p) as [n|] eqn:E; [done|]. simpl.
    rewrite up_insert; [done|]. intros Hp%Hin. by rewrite E in Hp.
  - apply map_eq. intros q. cbn [FsImage_apply]. rewrite up_lookup, !remove_tree_lookup, up_lookup.
    by destruct (_ || _).
  - by apply up_rename.
  - cbn [FsImage_apply]. rewrite up_insert; [done|]. intros E%Hk. simpl in E.
    by rewrite String.eqb_refl in E.
  - apply up_meta.
  - apply up_meta.
Qed.

Lemma up_first C now m p off x :
  p ∉ C → inline_file (m !! p) || negb (is_some (m !! p)) = true →
  FsImage_apply now (up C m) (DWrite p 0 (DBlocks (final_refs p)))
  = up ({[p]} ∪ C) (FsImage_apply now m (DWrite p off (DInline x))).
Proof.
  intros Hp Hn. apply map_eq. intros q. cbn [FsImage_apply]. unfold meta_of. rewrite up_other by done.
  destruct (inline_base now (m !! p)) as [c meta] eqn:E.
  assert (default (NodeMeta_file now) (node_meta <$> m !! p) = meta) as ->.
  { by destruct (m !! p) as [[[]| |]|]; injection E. }
  destruct (decide (q = p)) as [->|Hne].
  - rewrite up_lookup, !lookup_insert_eq, bool_decide_eq_true_2 by set_solver. done.
  - rewrite lookup_insert_ne, !up_lookup, lookup_insert_ne, lookup_delete_ne by done.
    rewrite (bool_decide_ext (q ∈ {[p]} ∪ C) (q ∈ C)); [done|]. rewrite elem_of_union, elem_of_singleton. tauto.
Qed.

Lemma up_again C now m p off x : p ∈ C → all_inline C m →
  up C (FsImage_apply now m (DWrite p off (DInline x))) = up C m.
Proof.
  intros Hp Hin. specialize (Hin p Hp). destruct (m !! p) as [[[c|] meta| |]|] eqn:E; try done.
  apply map_eq. intros q. cbn [FsImage_apply]. rewrite E. simpl. destruct (decide (q = p)) as [->|Hne].
  - rewrite !up_lookup, lookup_insert_eq, E, bool_decide_eq_true_2 by done. done.
  - by rewrite !up_lookup, lookup_insert_ne, lookup_delete_ne.
Qed.

Lemma moves_keep from to L m p :
  p ≠ to → below from p = false → below to p = false → (∀ q, q ∈ L → below from q = true) →
  fold_left (move_path (from +:+ "/") to) L m !! p = m !! p.
Proof.
  intros Ht Hf Hb HL. revert m. induction L as [|q L IH]; intros m; [done|]. simpl.
  rewrite IH by (intros; apply HL; by right). unfold move_path. destruct (m !! q) as [n|]; [|done].
  rewrite lookup_insert_ne, lookup_delete_ne; [done|..].
  - intros ->. rewrite HL in Hf by by left. done.
  - intros <-. assert (below to (to +:+ "/" +:+ drop_chars (String.length (from +:+ "/")) q) = true) as Eb;
      [apply below_iff; by eexists|congruence].
Qed.

(** What a delta that keeps [p] leaves there, when it writes elsewhere. *)
Lemma keeps_inline now m p d : keeps p d = true → inline_file (m !! p) = true →
  (∀ q off x, d ≠ DWrite q off (DBlocks x)) → inline_file (FsImage_apply now m d !! p) = true.
Proof.
  intros Hk Hin Hd. destruct d as [q off [x|x]|q|q|f t|q t|q a1 a2 a3 a4|q n v]; cbn [FsImage_apply]; simpl in Hk.
  - destruct (inline_base now (m !! q)). destruct (decide (p = q)) as [->|Hne];
      [by rewrite lookup_insert_eq|by rewrite lookup_insert_ne, lookup_delete_ne].
  - by edestruct Hd.
  - destruct (m !! q) eqn:E; [done|]. rewrite lookup_insert_ne; [done|]. intros ->. by rewrite E in Hin.
  - rewrite remove_tree_lookup. apply andb_true_iff in Hk as [Hk1 Hk2].
    rewrite negb_true_iff, String.eqb_neq in Hk1. rewrite negb_true_iff in Hk2.
    by rewrite bool_decide_eq_false_2, Hk2.
  - rewrite !andb_true_iff, !negb_true_iff, !String.eqb_neq in Hk. destruct Hk as [[[H1 H2] H3] H4].
    rewrite moves_keep; [|done..|intros y Hy%range_prefix_elem; apply Hy].
    destruct (m !! f); [|done]. by rewrite lookup_insert_ne, lookup_delete_ne.
  - rewrite negb_true_iff, String.eqb_neq in Hk. by rewrite lookup_insert_ne.
  - unfold meta_mut. destruct (m !! q) as [n|] eqn:E; [|done]. destruct (decide (p = q)) as [->|Hne];
      [rewrite lookup_insert_eq; rewrite E in Hin; by destruct n|by rewrite lookup_insert_ne].
  - unfold meta_mut. destruct (m !! q) as [n'|] eqn:E; [|done]. destruct (decide (p = q)) as [->|Hne];
      [rewrite lookup_insert_eq; rewrite E in Hin; by destruct n'|by rewrite lookup_insert_ne].
Qed.

Lemma calm_inline C m d ds : calm C m (d :: ds) = true → all_inline C m →
  all_inline (chunked_by C d) (FsImage_apply 0 m d).
Proof.
  simpl. rewrite !andb_true_iff, bool_decide_eq_true. intros [[Hk Hd] _] Hin p Hp.
  assert (∀ q off x, d ≠ DWrite q off (DBlocks x)) as Hnb by (intros q off x ->; done).
  destruct (decide (p ∈ C)) as [HC|HC]; [by apply keeps_inline; [apply Hk|apply Hin|]|].
  destruct d as [q off [x|x]|q|q|f t|q t|q a1 a2 a3 a4|q n v]; simpl in Hp; try done.
  destruct (big q); [|done]. apply elem_of_union in Hp as [->%elem_of_singleton|?]; [|done].
  cbn [FsImage_apply]. destruct (inline_base 0 (m !! q)). by rewrite lookup_insert_eq.
Qed.

Lemma upgrade_loop_write b C p off x ds :
  upgrade_loop b im C (DWrite p off x :: ds) =
    if bool_decide (p ∈ C) then upgrade_loop b im C ds
    else if big p then
      ((match im !! p with
        | Some (File (Inline c) _) => missing_chunks b (chunks (Z.to_nat CHUNK) c)
        | _ => []
        end) ++ (upgrade_loop b im ({[p]} ∪ C) ds).1,
       DWrite p 0 (DBlocks (final_refs p)) :: (upgrade_loop b im ({[p]} ∪ C) ds).2)
    else ((upgrade_loop b im C ds).1, DWrite p off x :: (upgrade_loop b im C ds).2).
Proof.
  cbn [upgrade_loop]. unfold big, final_refs. destruct (bool_decide (p ∈ C)); [done|].
  destruct (upgrade_loop b im C ds) as [u1 g1], (upgrade_loop b im ({[p]} ∪ C) ds) as [u2 g2].
  destruct (im !! p) as [[[c|] meta| |]|]; try done. rewrite Z.ltb_antisym.
  by destruct (Z.of_nat (length c) <=? CHUNK).
Qed.

Lemma upgrade_loop_other b C d ds : (∀ p off x, d ≠ DWrite p off x) →
  upgrade_loop b im C (d :: ds) = ((upgrade_loop b im C ds).1, d :: (upgrade_loop b im C ds).2).
Proof.
  intros Hd. destruct d; cbn [upgrade_loop]; try by destruct (upgrade_loop b im C ds). by edestruct Hd.
Qed.

Definition replay0 (m : FsImage) (ds : list Delta) : FsImage := fold_left (FsImage_apply 0) ds m.

Lemma upgraded_writes now C p : p ∉ C → big p = true →
  FsImage_apply now (up C im) (DWrite p 0 (DBlocks (final_refs p))) = up ({[p]} ∪ C) im.
Proof.
  intros Hp Hbig. apply map_eq. intros q. cbn [FsImage_apply]. unfold meta_of. rewrite up_other by done.
  unfold big in Hbig. destruct (im !! p) as [[[c|] meta| |]|] eqn:E; try done. simpl.
  destruct (decide (q = p)) as [->|Hne].
  - by rewrite up_lookup, lookup_insert_eq, bool_decide_eq_true_2, E by set_solver.
  - rewrite lookup_insert_ne, !up_lookup by done.
    rewrite (bool_decide_ext (q ∈ {[p]} ∪ C) (q ∈ C)); [done|]. rewrite elem_of_union, elem_of_singleton. tauto.
Qed.

Lemma chunked_again C p off x : p ∈ C → chunked_by C (DWrite p off x) = C.
Proof. intros Hp. simpl. destruct (big p); [|done]. by apply subseteq_union_1_L, singleton_subseteq_l. Qed.

(** The deltas of a commit rebuild the image with its large files chunked. *)
Lemma upgrade_replays b ds C m :
  all_inline C m → calm C m ds = true →
  replay0 (up C m) (upgrade_loop b im C ds).2 = up (fold_left chunked_by ds C) (replay0 m ds).
Proof.
  revert C m. induction ds as [|d ds IH]; intros C m Hin Hc; [done|].
  pose proof (calm_inline _ _ _ _ Hc Hin) as Hin'. pose proof Hc as Hc'.
  simpl in Hc'. rewrite !andb_true_iff, bool_decide_eq_true in Hc'. destruct Hc' as [[Hk Hd] Hrest].
  specialize (IH _ _ Hin' Hrest). change (replay0 m (d :: ds)) with (replay0 (FsImage_apply 0 m d) ds).
  cbn [fold_left]. destruct d as [p off [x|x]|p|p|f t|p t|p a1 a2 a3 a4|p n v]; try done;
    try (rewrite upgrade_loop_other by done; unfold replay0 in *; cbn [snd fold_left]; by rewrite apply_up).
  rewrite upgrade_loop_write. destruct (decide (p ∈ C)) as [HC|HC].
  - rewrite bool_decide_eq_true_2 by done. rewrite chunked_again in * by done. by rewrite up_again in IH.
  - rewrite bool_decide_eq_false_2 by done. cbn [chunked_by] in *. unfold replay0 in *.
    destruct (big p) eqn:Hbig; cbn [snd fold_left].
    + by rewrite (up_first C 0 m p off x).
    + by rewrite apply_up.
Qed.

Definition no_blocks (d : Delta) : bool := negb (is_block_write d).

Lemma calm_no_blocks C m ds : calm C m ds = true → Forall (λ d, no_blocks d = true) ds.
Proof.
  revert C m. induction ds as [|d ds IH]; intros C m Hc; [done|]. simpl in Hc.
  rewrite !andb_true_iff in Hc. destruct Hc as [[_ Hd] Hr]. constructor; [|by eapply IH].
  by destruct d as [p off [x|x]| | | | | |].
Qed.

(** ... and so does the commit, which uploads the chunks. *)
Lemma upgrade_shape b now ds C :
  Forall (λ d, no_blocks d = true) ds →
  upgraded_image now (up C im) (upgrade_loop b im C ds).2 = up (fold_left chunked_by ds C) im
  ∧ (∀ p, p ∈ fold_left chunked_by ds C → p ∉ C → ∃ c meta, im !! p = Some (File (Inline c) meta)
      ∧ missing_chunks b (chunks (Z.to_nat CHUNK) c) ⊆ (upgrade_loop b im C ds).1)
  ∧ Forall (λ u, u.1 = sha256_hex u.2) (upgrade_loop b im C ds).1.
Proof.
  intros Hd. revert C. induction Hd as [|d ds Hd Hds IH]; intros C; [done|]. cbn [fold_left].
  destruct d as [p off x|p|p|f t|p t|p a1 a2 a3 a4|p n v];
    try (rewrite upgrade_loop_other by done; exact (IH C)).
  rewrite upgrade_loop_write. destruct (decide (p ∈ C)) as [HC|HC].
  - rewrite bool_decide_eq_true_2 by done. rewrite chunked_again by done. exact (IH C).
  - rewrite bool_decide_eq_false_2 by done. cbn [chunked_by].
    destruct (big p) eqn:Hbig; cbn [fst snd]; unfold upgraded_image in *; cbn [fold_left is_block_write].
    2: { destruct x as [x|x]; [|done]. exact (IH C). }
    destruct (IH ({[p]} ∪ C)) as (IH1 & IH2 & IH3).
    rewrite upgraded_writes by done. split_and!; [exact IH1|..].
    + intros q Hq HqC. destruct (decide (q = p)) as [->|Hne].
      * unfold big in Hbig. destruct (im !! p) as [[[c|] meta| |]|]; try done. exists c, meta.
        split; [done|]. intros u Hu. apply elem_of_app. by left.
      * destruct (IH2 q Hq) as (c & meta & Hc & Hsub); [by rewrite elem_of_union, elem_of_singleton; intros [?|?]|].
        exists c, meta. split; [done|]. intros u Hu. apply elem_of_app. right. by apply Hsub.
    + apply Forall_app. split; [|done]. destruct (im !! p) as [[[c|] meta| |]|]; try done.
      apply Forall_forall. intros u Hu. unfold missing_chunks in Hu. apply list_elem_of_omap in Hu as (y & _ & Hy).
      destruct (bucket_get b _); [done|]. by injection Hy as <-.
Qed.
End upgrade.

(** ** Volumes in the store *)

Section durable.
Context `{SlateDbLaws} `{CodecLaws} `{ObjectStoreLaws} `{FuseCodecLaws}.

(** The image of a history. *)
Definition logged (l : list Envelope) : FsImage := replay_log (λ _, 0) l.

Lemma logged_clk clk l : replay_log clk l ≡ logged l.
Proof. apply replay_equiv; [apply timed_deltas|done]. Qed.

(** The store and the bucket hold the volume whose stream was given [l]. *)
Record stored (b : bucket) (d : db) (s : string) (l : list Envelope) : Prop := {
  sv_wf : wf d;
  sv_stream : slash_free s;
  sv_hist : hist d s l;
  sv_sorted : StronglySorted version_lt l;
  sv_faithful : faithful b d s l;
  sv_covers r : latest_snapshot d s = Ok (Some r) → sn_through_version r < next_version l;
  sv_segments r m p h : latest_snapshot d s = Ok (Some r) → from_slice (sn_state r) = Some m →
    p ∈ segments m → path_from p ≠ block_path h;
  sv_writable : writable d s (next_version l);
  sv_tail : stream_version d s = Ok (env_version <$> last l);
}.

Lemma upload_other us b b' k : upload_all b us = (Ok tt, b') → (∀ h, k ≠ block_path h) →
  bucket_get b' k = bucket_get b k.
Proof.
  revert b. induction us as [|[h x] us IH]; intros b E Hk; [by injection E as ->|]. simpl in E.
  destruct (bucket_put b (block_path h) x) as [b1|] eqn:Eput; [|done].
  rewrite (IH b1 E Hk), (bucket_get_put _ _ _ _ Eput). by rewrite decide_False.
Qed.

Lemma load_loop_ext b b' im paths :
  (∀ p, p ∈ paths → bucket_get b' (path_from p) = bucket_get b (path_from p)) →
  load_loop b' im paths = load_loop b im paths.
Proof.
  revert im. induction paths as [|p paths IH]; intros im Hp; [done|]. cbn [load_loop].
  rewrite Hp by by left. destruct (io (bucket_get b (path_from p))) as [x|]; [|done]. cbn [rbind].
  destruct (json (from_slice x)) as [seg|]; [|done]. apply IH. intros q Hq. apply Hp. by right.
Qed.

Lemma stored_bucket b b' d s l :
  (∀ k, (∀ h, k ≠ block_path h) → bucket_get b' k = bucket_get b k) → stored b d s l → stored b' d s l.
Proof.
  intros Hb [Hwf Hs Hl Hsort Hf Hcov Hseg Hw Ht]. split; try done. intros r Hr.
  destruct (Hf r Hr) as (im & Him & Hre). exists im. split; [|done]. revert Him. unfold load_segments.
  destruct (from_slice (sn_state r)) as [m|] eqn:Em; [|done]. cbn [json rbind].
  rewrite (load_loop_ext b b'); [done|]. intros p Hp. apply Hb. intros h. by apply (Hseg r m).
Qed.

(** The records of a batch of deltas replay as them. *)
Lemma batch_deltas clk ds envs : payload <$> envs = delta_event <$> ds → (timed clk envs).*2 = ds.
Proof.
  revert ds. induction envs as [|e envs IH]; intros [|x ds] E; try discriminate E; [done|].
  rewrite !fmap_cons in E. injection E as _ Ee _ E. unfold timed. cbn [omap list_omap].
  rewrite Ee.
  rewrite from_to_vec. simpl. f_equal. by apply IH.
Qed.

Lemma next_mono l envs : StronglySorted version_lt envs → (∀ e, e ∈ envs → next_version l ≤ env_version e) →
  next_version l ≤ next_version (l ++ envs).
Proof.
  intros _ Ha. destruct envs as [|x envs _] using rev_ind; [by rewrite app_nil_r|].
  unfold next_version at 2. rewrite app_assoc, last_snoc. simpl.
  assert (next_version l ≤ env_version x); [apply Ha, elem_of_app; right; by left|lia].
Qed.

(** An append to a stored volume. *)
Lemma append_stored b d s l o expd tok evs idx d' info :
  stored b d s l → oracle_ok o → roomy s d → check_batch evs = Ok tt →
  takes_effect d d' o (durable_sequence d) s expd None tok evs idx info →
  ∃ envs, stored b d' s (l ++ envs) ∧ payload <$> envs = evs.
Proof.
  intros [Hwf Hs Hl Hsort Hf Hcov Hseg Hw Ht] Ho [Hr1 _] Hb Heff. specialize (Hr1 _ Ht).
  assert (0 ≤ next_version l) as Hpos.
  { apply nums_next, Forall_forall. intros e He. by apply (hist_num d s l e (wf_shaped _ Hwf)). }
  pose proof (effect_fits _ _ _ _ _ _ _ _ _ _ l Hb Heff Ht Hpos Hr1) as Hfits.
  destruct (append_own d d' o s expd tok evs idx info Hwf Hs Ho Hb Heff Hfits) as (tv & envs & Htv & Hoa).
  rewrite Ht in Htv. injection Htv as <-. destruct Hoa as [_ Hpay Hne Hsort' Hafter Hlast Htail Hwf' Hget Hhist].
  change (map_or 0 _ _) with (next_version l) in Hafter. change (map_or 0 _ _) with (next_version l) in Hhist.
  pose proof (append_snapshot d d' o s expd tok evs idx info Hwf Hs Ho Hb Heff Hfits s Hs) as Hss.
  pose proof (next_mono l envs Hsort' Hafter) as Hmono. exists envs. split; [|done].
  destruct (guards_frame d d' s Hs) as [Hg Htr].
  { intros k Hkk Ha Hn1 Hn2. apply Hget; [done|]. destruct k; simpl in *; try done;
      [by edestruct Hn1|by edestruct Hn2]. }
  split; try done.
  - by apply Hhist.
  - by apply sorted_app.
  - intros r Hr. rewrite Hss in Hr. destruct (Hf r Hr) as (im & Him & Hre). exists im. split; [done|]. intros clk.
    rewrite upto_app, (upto_below _ envs), app_nil_r; [done|]. intros e He.
    specialize (Hafter e He). specialize (Hcov r Hr). lia.
  - intros r Hr. rewrite Hss in Hr. specialize (Hcov r Hr). lia.
  - intros r m p h Hr. rewrite Hss in Hr. by apply Hseg.
  - apply (writable_ext d d' s (next_version l)); [apply Hwf|apply Hwf'|done..].
  - rewrite Htail. f_equal. destruct envs as [|x envs _] using rev_ind; [done|].
    by rewrite app_assoc, !last_snoc in *.
Qed.

#[global] Instance up_proper im C : Proper ((≡) ==> (≡)) (up im C).
Proof.
  intros m1 m2 E q. rewrite !up_lookup. specialize (E q). destruct (m1 !! q) as [n1|], (m2 !! q) as [n2|];
    [|by inversion E..|done]. apply (inj Some) in E. simpl. constructor. destruct (bool_decide _); [|done].
  unfold equiv, node_equiv, no_mtime in E |- *. destruct n1, n2; cbn in E |- *; try discriminate E; congruence.
Qed.

Lemma replay0_equiv m1 m2 ds : m1 ≡ m2 → replay0 m1 ds ≡ replay0 m2 ds.
Proof. revert m1 m2. induction ds as [|d ds IH]; intros m1 m2 E; [done|]. by apply IH, apply_equiv. Qed.

Lemma replay0_times m ds tds : tds.*2 = ds → replay_deltas m tds ≡ replay0 m ds.
Proof.
  intros <-. revert m. induction tds as [|[t d] tds IH]; intros m; [done|]. unfold replay_deltas, replay0. simpl.
  fold (replay_deltas (FsImage_apply t m d) tds). rewrite IH. apply replay0_equiv. by apply apply_equiv.
Qed.

(** The pending deltas of a volume lead from its history to its image. *)
Record pends (v : Volume) (l : list Envelope) : Prop := {
  pd_image : image v ≡ replay0 (logged l) (pending v);
  pd_calm : calm (image v) ∅ (logged l) (pending v) = true;
}.

Lemma commit_ok o now v b d l v' b' d' :
  stored b d (vol v) l → pends v l → (∀ n, oracle_ok (o n)) → roomy (vol v) d →
  Volume_commit o quiet now v b d = (Ok tt, v', b', d') →
  ∃ envs, stored b' d' (vol v') (l ++ envs) ∧ pending v' = [] ∧ image v' ≡ logged (l ++ envs)
    ∧ vol v' = vol v ∧ token v' = token v.
Proof.
  intros Hst [Him Hc] Ho Hroom E. unfold Volume_commit in E. destruct (pending v) as [|x ds0] eqn:Ep.
  { injection E as <- <- <-. exists []. by rewrite app_nil_r. }
  rewrite <-Ep in *. clear Ep x ds0.
  pose proof (upgrade_replays (image v) b (pending v) ∅ (logged l) (λ p Hp, ltac:(set_solver)) Hc) as Hre.
  destruct (upgrade_shape (image v) b now (pending v) ∅ (calm_no_blocks _ _ _ _ Hc)) as (Hup & _).
  rewrite !up_empty in *. set (C := fold_left _ _ _) in *. destruct (upgrade_loop b (image v) ∅ (pending v)) as [us upg]. cbn [snd] in *.
  destruct (upload_all b us) as [[[]|] b1] eqn:Eu; [|done]. unfold append_with_token in E.
  destruct (commit_appends _ _ _ _ _ _ _ _ _) as [r d1] eqn:Ea. apply quiet_outcome in Ea.
  destruct r as [tk|]; [|done]. destruct Ea as [Hb Heff]. simpl in E. injection E as <- <- <-.
  assert (stored b1 d (vol v) l) as Hst1.
  { apply (stored_bucket b); [|done]. intros k. by apply (upload_other us). }
  destruct (append_stored _ _ _ _ _ _ _ _ _ _ _ Hst1 (Ho 0%nat) Hroom Hb Heff) as (envs & Hst' & Hpay).
  exists envs. split_and!; [done..| |done|done]. cbn [image]. rewrite Hup.
  unfold logged at 1. unfold replay_log. rewrite timed_app. unfold replay_deltas. rewrite fold_left_app.
  fold (replay_deltas ∅ (timed (λ _, 0) l)). fold (replay_deltas (replay_deltas ∅ (timed (λ _, 0) l)) (timed (λ _, 0) envs)).
  rewrite (replay0_times _ upg) by by apply batch_deltas. fold (logged l) in *.
  change (replay_deltas ∅ (timed (λ _, 0) l)) with (logged l). rewrite Hre. by rewrite <-Him.
Qed.
End durable.

(** ** Content *)

(** SHA-256 has no collisions, and a hash is a path as it is. *)
Class HashLaw `{ObjectStore} `{FuseCodecs} : Prop := {
  block_path_inj x y : block_path (sha256_hex x) = block_path (sha256_hex y) → x = y;
}.

Section content.
Context `{ObjectStoreLaws} `{FuseCodecs} `{!HashLaw}.

(** Blocks are stored under the hashes of their content. *)
Definition addressed (b : bucket) : Prop :=
  ∀ x y, bucket_get b (block_path (sha256_hex x)) = Some y → y = x.

Lemma upload_addressed us b b' :
  upload_all b us = (Ok tt, b') → Forall (λ u, u.1 = sha256_hex u.2) us → addressed b →
  addressed b' ∧ (∀ u, u ∈ us → bucket_get b' (block_path (sha256_hex u.2)) = Some u.2)
  ∧ (∀ k y, bucket_get b k = Some y → bucket_get b' k = Some y).
Proof.
  intros E Hu. revert b E. induction Hu as [|[h x] us Hh Hu IH]; intros b E Hb.
  { injection E as <-. split_and!; [done|intros u Hu; by apply not_elem_of_nil in Hu|done]. }
  simpl in Hh. subst h. simpl in E. destruct (bucket_put b (block_path (sha256_hex x)) x) as [b1|] eqn:Eput; [|done].
  pose proof (bucket_get_put _ _ _ _ Eput) as Hg.
  assert (addressed b1) as Hb1.
  { intros y z. rewrite Hg. case_decide as Ed; [|apply Hb]. apply block_path_inj in Ed as ->. by intros [= ->]. }
  destruct (IH b1 E Hb1) as (IH1 & IH2 & IH3). split_and!; [done|..].
  - intros u [->|Hu']%elem_of_cons; [|by apply IH2]. apply IH3. by rewrite Hg, decide_True.
  - intros k y Hy. apply IH3. rewrite Hg. case_decide as Ed; [|done]. subst k. by rewrite (Hb _ _ Hy).
Qed.

Lemma chunks_upto_concat fuel n c : (0 < n)%nat → (length c ≤ fuel)%nat → concat (chunks_upto fuel n c) = c.
Proof.
  intros Hn. revert c. induction fuel as [|fuel IH]; intros [|x c] Hc; simpl in *; try done; [lia|].
  rewrite IH; [by rewrite take_drop|]. rewrite length_drop. simpl. lia.
Qed.

Lemma chunks_concat c : concat (chunks (Z.to_nat CHUNK) c) = c.
Proof. apply chunks_upto_concat; [unfold CHUNK; lia|lia]. Qed.

Lemma blocks_size_chunks cs : Z.of_nat (length (concat cs)) < U64 →
  blocks_size (chunk_block <$> cs) = Z.of_nat (length (concat cs)).
Proof.
  unfold blocks_size.
  assert (∀ n, 0 ≤ n → n + Z.of_nat (length (concat cs)) < U64 →
    fold_left (λ n b, u64_add n (block_len b)) (chunk_block <$> cs) n = n + Z.of_nat (length (concat cs))) as Hg;
    [|intros Hu; by rewrite Hg].
  induction cs as [|x cs IH]; intros n Hn Hu; simpl in *; [lia|]. rewrite length_app in *.
  rewrite u64_add_small by lia. rewrite IH; lia.
Qed.

(** The chunks of a file, once uploaded, are its content. *)
Lemma uploaded_chunks b b' us c :
  upload_all b us = (Ok tt, b') → Forall (λ u, u.1 = sha256_hex u.2) us → addressed b →
  missing_chunks b (chunks (Z.to_nat CHUNK) c) ⊆ us → Z.of_nat (length c) < U64 →
  file_bytes b' (Blocks (chunk_block <$> chunks (Z.to_nat CHUNK) c)
    (blocks_size (chunk_block <$> chunks (Z.to_nat CHUNK) c))) c.
Proof.
  intros E Hu Hb Hsub Hlen. destruct (upload_addressed _ _ _ E Hu Hb) as (_ & Hin & Hold).
  exists (chunks (Z.to_nat CHUNK) c). rewrite blocks_size_chunks by by rewrite chunks_concat.
  rewrite chunks_concat. split_and!; [|done|done].
  assert (∀ x, x ∈ chunks (Z.to_nat CHUNK) c → bucket_get b' (block_path (sha256_hex x)) = Some x) as Hget.
  { intros x Hx. destruct (bucket_get b (block_path (sha256_hex x))) as [y|] eqn:Ey.
    - apply Hold. by rewrite (Hb _ _ Ey) in Ey.
    - apply (Hin (sha256_hex x, x)), Hsub, list_elem_of_omap. exists x. split; [done|].
      cbv zeta beta. by rewrite Ey. }
  unfold holds. induction (chunks (Z.to_nat CHUNK) c) as [|x cs IH]; [constructor|].
  constructor; [by split; [apply Hget; left|]|]. apply IH; [|by intros; apply Hget; right].
  intros u Hu'. apply Hsub. cbn [missing_chunks omap list_omap]. destruct (bucket_get b _); [done|by right].
Qed.

Lemma file_bytes_mono b b' ct c :
  (∀ k y, bucket_get b k = Some y → bucket_get b' k = Some y) → file_bytes b ct c → file_bytes b' ct c.
Proof.
  intros Hb. destruct ct as [x|refs size]; [done|]. intros (cs & Hh & Hc & Hs). exists cs. split_and!; [|done..].
  eapply Forall2_impl; [exact Hh|]. intros r x [Hr Hl]. split; [by apply Hb|done].
Qed.
End content.

Section commit.
Context `{SlateDbLaws} `{CodecLaws} `{ObjectStoreLaws} `{FuseCodecLaws} `{!HashLaw}.

(** A commit keeps the content of files, the bucket and the cache. *)
Lemma commit_content o interf now v b d v' b' d' :
  Forall (λ x, no_blocks x = true) (pending v) → addressed b → cached b (v_blocks v) →
  Volume_commit o interf now v b d = (Ok tt, v', b', d') →
  addressed b' ∧ cached b' (v_blocks v')
  ∧ ∀ p ct meta c, image v !! p = Some (File ct meta) → file_bytes b ct c → Z.of_nat (length c) < U64 →
      ∃ ct', image v' !! p = Some (File ct' meta) ∧ file_bytes b' ct' c.
Proof.
  intros Hnb Hb Hc E. unfold Volume_commit in E. destruct (pending v) as [|x ds0] eqn:Ep.
  { injection E as <- <- <-. split_and!; [done..|]. eauto. }
  rewrite <-Ep in *. clear Ep x ds0.
  destruct (upgrade_shape (image v) b now (pending v) ∅ Hnb) as (Hup & Hch & Hsha). rewrite up_empty in Hup.
  destruct (upgrade_loop b (image v) ∅ (pending v)) as [us upg]. cbn [fst snd] in *.
  destruct (upload_all b us) as [[[]|] b1] eqn:Eu; [|done].
  destruct (append_with_token _ _ _ _ _ _ _) as [[info|] d1]; [|done]. injection E as <- <- <-.
  destruct (upload_addressed _ _ _ Eu Hsha Hb) as (Hb1 & _ & Hmono). split_and!; [done|..].
  - intros h x Hx. by apply Hmono, Hc.
  - intros p ct meta c Hp Hct Hlen. cbn [image]. rewrite Hup, up_lookup, Hp. cbn [fmap option_fmap option_map].
    destruct (bool_decide_reflect (p ∈ fold_left (chunked_by (image v)) (pending v) ∅)) as [Hin|_].
    2: { eexists. split; [done|]. by eapply file_bytes_mono. }
    destruct (Hch p Hin) as (c' & meta' & Hp' & Hsub); [set_solver|]. rewrite Hp in Hp'.
    injection Hp' as -> ->. simpl in Hct. subst c'. eexists. split; [done|].
    unfold final_refs. rewrite Hp. by apply (uploaded_chunks b b1 us).
Qed.

(** A commit keeps what files read: after it, any range of any file reads
    the bytes it had, whether the commit left the file inline or replaced it
    by the blocks it uploaded. *)
Theorem commit_reads o interf now v b d v' b' d' p ct meta c offset len :
  Forall (λ x, no_blocks x = true) (pending v) → addressed b → cached b (v_blocks v) →
  Volume_commit o interf now v b d = (Ok tt, v', b', d') →
  image v !! p = Some (File ct meta) → file_bytes b ct c → Z.of_nat (length c) < U64 →
  0 ≤ offset → 0 ≤ len → offset + len < U64 →
  (Volume_read_file_range b' v' p offset len).1 = Ok (Some (take (Z.to_nat len) (drop (Z.to_nat offset) c))).
Proof.
  intros Hnb Hb Hc E Hp Hct Hlen H1' H2' H3'.
  destruct (commit_content _ _ _ _ _ _ _ _ _ Hnb Hb Hc E) as (_ & Hc' & Hk).
  destruct (Hk _ _ _ _ Hp Hct Hlen) as (ct' & Hp' & Hct'). unfold Volume_read_file_range, read_file_range. rewrite Hp'.
  destruct (read_bytes b' (v_blocks v') ct' c offset len Hct' Hc') as (cache & -> & _); done.
Qed.

(** A commit is durable: whatever the deltas pending in a volume did to its
    image (calmly: see [calm]), a mount of the volume after a successful commit
    has the image of the committing process, up to the times stamped on nodes. *)
Theorem commit_durable o now v b d l v' b' d' o' clk watch info :
  stored b d (vol v) l → pends v l → (∀ n, oracle_ok (o n)) → roomy (vol v) d →
  Volume_commit o quiet now v b d = (Ok tt, v', b', d') →
  (fence (λ d, d) watch (vol v) (Some (o_ulid o' 0)) d').1 = Ok info →
  ∃ v'' d'', mount o' clk watch b' (vol v) d' = (Ok v'', d'') ∧ image v'' ≡ image v' ∧ pending v'' = [].
Proof.
  intros Hst Hp Ho Hroom E Hfence. destruct (commit_ok _ _ _ _ _ _ _ _ _ Hst Hp Ho Hroom E)
    as (envs & [Hwf Hs Hl Hsort Hf _ _ _ _] & _ & Him & Hv & _). rewrite Hv in *.
  destruct (mount_ok o' clk watch b' (vol v) d' (l ++ envs) info) as (v'' & d'' & Hm & _ & _ & Hpe & _ & Him''); [done..|].
  exists v'', d''. split_and!; [done| |done]. by rewrite (Him'' (λ _, 0)), Him.
Qed.
End commit.

(** ** Instances *)

Import Samples FuseSamples.

#[global] Instance sample_hash_law : HashLaw.
Proof.
  split. intros x y E. change ("blocks/" +:+ string_of_list_byte x = "blocks/" +:+ string_of_list_byte y) in E.
  apply str_app_inj_l, (f_equal list_byte_of_string) in E. by rewrite !list_byte_of_string_of_list_byte in E.
Qed.

Lemma dm0_stored : stored (∅ : bucket) dm0 "v" [].
Proof.
  assert (latest_snapshot dm0 "v" = Ok None) as Hsnap by run.
  split; [apply dm0_wf|reflexivity| |constructor|intros r Hr|intros r Hr|intros r m p h Hr| |run].
  - replace (@nil Envelope) with (vis dm0 "v") by run. apply hist_root. run.
  - rewrite Hsnap in Hr. discriminate Hr.
  - rewrite Hsnap in Hr. discriminate Hr.
  - rewrite Hsnap in Hr. discriminate Hr.
  - split; [run|run|]. vm_compute. discriminate.
Qed.

Lemma written_pends : pends written [].
Proof.
  split; [|run]. assert (image written = replay_deltas ∅ ((λ d, (8, d)) <$> pending written)) as -> by run.
  by apply replay0_times.
Qed.

Definition v1 : Volume := commit1.1.1.2.

Lemma commit1_eq : Volume_commit (orc 20) quiet 9 written ∅ dm0 = (Ok tt, v1, ∅, dm1).
Proof.
  assert (commit1 = (Ok tt, v1, ∅, dm1)) as E; [|exact E].
  rewrite (result4 commit1 (Ok tt)) by run. assert (commit1.1.2 = ∅) as -> by run. reflexivity.
Qed.

Lemma commit_durable_witness :
  ∃ v'' d'', mount (sample_oracle 30) (λ _, 11) [mkStatus 9 false] ∅ "v" dm1 = (Ok v'', d'')
    ∧ image v'' ≡ image v1 ∧ pending v'' = [].
Proof.
  apply (commit_durable (orc 20) 9 written ∅ dm0 [] v1 ∅ dm1 (sample_oracle 30) (λ _, 11) [mkStatus 9 false]
    (mkInfo 1 1 0)); [exact dm0_stored|exact written_pends|apply orc_ok|apply (room_of _ _ None); run
    |exact commit1_eq|run].
Defined.

Lemma commit_reads_witness :
  (Volume_read_file_range (∅ : bucket) v1 "/a/f" 1 7).1 = Ok (Some (take 7 (drop 1 [x68; x69]))).
Proof.
  apply (commit_reads (orc 20) quiet 9 written ∅ dm0 v1 ∅ dm1 "/a/f" (Inline [x68; x69]) (NodeMeta_file 8) [x68; x69] 1 7).
  - refine (bool_decide_eq_true_1 (Forall (λ x, no_blocks x = true) _) _). run.
  - intros x y Hx. exfalso. exact (lookup_empty_Some (block_path (sha256_hex x)) y Hx).
  - assert (v_blocks written = ∅) as -> by run. intros h x Hx. by rewrite lookup_empty in Hx.
  - exact commit1_eq.
  - run.
  - reflexivity.
  - rewrite U64_eq. reflexivity.
  - lia.
  - lia.
  - rewrite U64_eq. reflexivity.
Defined.

(** ** Chunked renames

    The first write of a path is replaced by the path's final content, also
    when the file it made was renamed away before the path was written again:
    the log then gives the renamed file the later content, and the later
    file is missing. *)

Section chunked_rename.
Context (c1 c2 : bytes) (Hbig : CHUNK < Z.of_nat (length c2)).

Definition shuffle : list Delta :=
  [DWrite "/a" 0 (DInline c1); DRename "/a" "/b"; DWrite "/a" 0 (DInline c2)].

Lemma shuffled : replay0 ∅ shuffle =
  {[ "/a" := File (Inline (splice [] 0 c2)) (NodeMeta_file 0); "/b" := File (Inline (splice [] 0 c1)) (NodeMeta_file 0) ]}.
Proof. reflexivity. Qed.

Lemma splice_empty c : splice [] 0 c = c.
Proof.
  unfold splice. simpl. destruct c as [|x c]; [done|]. simpl. rewrite skipn_all2; [by rewrite app_nil_r|].
  simpl. by rewrite length_replicate.
Qed.

Theorem chunked_rename_misplaces (b : bucket) :
  let im := replay0 ∅ shuffle in
  let refs := chunk_block <$> chunks (Z.to_nat CHUNK) c2 in
  im !! "/a" = Some (File (Inline c2) (NodeMeta_file 0))
  ∧ im !! "/b" = Some (File (Inline c1) (NodeMeta_file 0))
  ∧ replay0 ∅ (upgrade_loop b im ∅ shuffle).2
    = {[ "/b" := File (Blocks refs (blocks_size refs)) (NodeMeta_file 0) ]}.
Proof.
  cbv zeta. rewrite shuffled, !splice_empty. split_and!; [reflexivity..|]. set (im := <["/a" := _]> _).
  assert (big im "/a" = true) as Hb by (unfold big; simpl; by apply Z.ltb_lt).
  unfold shuffle. rewrite upgrade_loop_write, Hb. cbn [snd].
  rewrite bool_decide_eq_false_2, upgrade_loop_other by done. cbn [snd].
  rewrite upgrade_loop_write, bool_decide_eq_true_2 by set_solver. cbn [upgrade_loop snd].
  change (final_refs im "/a") with (chunk_block <$> chunks (Z.to_nat CHUNK) c2).
  generalize (chunk_block <$> chunks (Z.to_nat CHUNK) c2). intros refs. reflexivity.
Qed.
End chunked_rename.
