(* ===== verification/Replica.v ===== *)
(** * Replicas ([landslide-fuse/src/replica.rs])

    A replica follows a volume's stream through the read-only store and
    rebuilds from the latest checkpoint when retention cut its backlog. *)

From S2P Require Import Prelude Text Slate Types Keys Kv Fork Store Batch Append Wf Commit.
From S2P Require Import Appended Ops Purge History Txn Invariant Samples ForkThms SnapshotThms ReadThms Reader.
From S2P Require Import Frames Bucket Btree Image ImageThms Volume FuseSamples VolumeThms.
Local Open Scope Z_scope.

Record Replica := mkReplica {
  r_vol : string;
  r_image : FsImage;
  r_cursor : option Version;
  r_blocks : Cache;
}.

Section replica.
Context `{SlateDb} `{Codecs} `{ObjectStore} `{FuseCodecs}.

(** The loop of [sync] over the events read. *)
Definition apply_one (clk : Version → Z) (r : Replica) (e : Event) : Replica :=
  mkReplica (r_vol r) (apply_event clk (r_image r) e) (Some (ev_version e)) (r_blocks r).

Definition reload (b : bucket) (r : Replica) (d : db) : R (list Event) * Replica :=
  match (let? snap := reader_latest_snapshot d (r_vol r) in
         match snap with
         | None => Err (InvalidInput (BacklogPruned (r_vol r)))
         | Some snap =>
             let? im := load_segments b (sn_state snap) in
             let from := u64_add (sn_through_version snap) 1 in
             let? events := reader_read_stream d (r_vol r) (Included from, Unbounded) in
             match head events with
             | Some first =>
                 if from <? ev_version first
                 then Err (InvalidInput (PrunedPastCheckpoint (r_vol r) from (ev_version first)
                                           (sn_through_version snap)))
                 else Ok (im, snap, events)
             | None => Ok (im, snap, events)
             end
         end) with
  | Err e => (Err e, r)
  | Ok (im, snap, events) =>
      (Ok events, mkReplica (r_vol r) im (Some (sn_through_version snap)) (r_blocks r))
  end.

(** Whether the backlog after the cursor was cut. *)
Definition has_gap (r : Replica) (from : Version) (events : list Event) (d : db) : R bool :=
  match head events with
  | Some first => Ok (from <? ev_version first)
  | None =>
      let? snap := reader_latest_snapshot d (r_vol r) in
      Ok (map_or false (λ s, from <=? sn_through_version s) snap)
  end.

Definition sync (clk : Version → Z) (b : bucket) (r : Replica) (d : db) : R unit * Replica :=
  let from := map_or 0 (λ c, u64_add c 1) (r_cursor r) in
  match (let? events := reader_read_stream d (r_vol r) (Included from, Unbounded) in
         let? gap := has_gap r from events d in Ok (events, gap)) with
  | Err e => (Err e, r)
  | Ok (events, gap) =>
      match (if gap then reload b r d else (Ok events, r)) with
      | (Err e, r) => (Err e, r)
      | (Ok events, r) => (Ok tt, fold_left (apply_one clk) events r)
      end
  end.

(** [Replica::open] *)
Definition open_replica (clk : Version → Z) (b : bucket) (vol : string) (d : db) : R Replica :=
  let '(res, r) := sync clk b (mkReplica vol ∅ None ∅) d in
  let? _ := res in Ok r.

Definition replica_read_file (b : bucket) (r : Replica) (path : string) : R (option bytes) * Replica :=
  let '(res, blocks) := read_file (r_image r) b (r_blocks r) path in
  (res, mkReplica (r_vol r) (r_image r) (r_cursor r) blocks).

Definition replica_read_file_range (b : bucket) (r : Replica) (path : string) (offset len : Z) :
    R (option bytes) * Replica :=
  let '(res, blocks) := read_file_range (r_image r) b (r_blocks r) path offset len in
  (res, mkReplica (r_vol r) (r_image r) (r_cursor r) blocks).
End replica.

(** A sync keeps the volume and the cached blocks; a failed one changes nothing. *)
Lemma sync_keeps `{SlateDb} `{Codecs} `{ObjectStore} `{FuseCodecs} clk b r d res r' :
  sync clk b r d = (res, r') → r_vol r' = r_vol r ∧ r_blocks r' = r_blocks r ∧ (res = Ok tt ∨ r' = r).
Proof.
  assert (∀ events r1, r_vol (fold_left (apply_one clk) events r1) = r_vol r1
                       ∧ r_blocks (fold_left (apply_one clk) events r1) = r_blocks r1) as Hf.
  { intros events. induction events as [|e events IH]; intros r1; [done|]. cbn [fold_left]. by destruct (IH (apply_one clk r1 e)) as [-> ->]. }
  unfold sync. destruct (rbind _ _) as [[events gap]|e]; [|intros [= <- <-]; auto].
  assert (∃ res1 r1, (if gap then reload b r d else (Ok events, r)) = (res1, r1)
    ∧ r_vol r1 = r_vol r ∧ r_blocks r1 = r_blocks r ∧ ((∃ l, res1 = Ok l) ∨ r1 = r)) as (res1 & r1 & -> & Hv & Hb & Hr).
  { destruct gap; [|by eauto 10]. unfold reload. destruct (rbind _ _) as [[[im sn] l]|e]; by eauto 10. }
  destruct res1 as [l|e]; intros [= <- <-].
  - destruct (Hf l r1) as [-> ->]. auto.
  - destruct Hr as [[l [=]]|Hr]. auto.
Qed.

(** ** Numbered histories *)

(** The versions of [L] are its positions. *)
Definition numbered (L : list Envelope) : Prop :=
  ∀ i e, L !! i = Some e → env_version e = Z.of_nat i.

Lemma numbered_within L n : numbered L → within (Z.of_nat n) None L = drop n L.
Proof.
  intros HL. rewrite <-(take_drop n L) at 1. unfold within. rewrite filter_app, filter_none, filter_all; [done|..].
  - intros e [i Hi]%list_elem_of_lookup. rewrite lookup_drop in Hi. apply HL in Hi.
    unfold in_window. simpl. rewrite andb_true_r. apply Z.leb_le. lia.
  - intros e [i Hi]%list_elem_of_lookup. apply lookup_take_Some in Hi as [Hi Hn]. apply HL in Hi.
    unfold in_window. simpl. rewrite andb_true_r, Z.leb_le. lia.
Qed.

Lemma numbered_upto L n : numbered L → upto (Z.of_nat n - 1) L = take n L.
Proof.
  intros HL. rewrite <-(take_drop n L) at 1. unfold upto. rewrite filter_app, filter_all, filter_none;
    [apply app_nil_r|..]; intros e [i Hi]%list_elem_of_lookup.
  - rewrite lookup_drop in Hi. apply HL in Hi. lia.
  - apply lookup_take_Some in Hi as [Hi Hn]. apply HL in Hi. lia.
Qed.

Lemma numbered_head L n e : numbered L → head (drop n L) = Some e → env_version e = Z.of_nat n.
Proof. intros HL He. rewrite head_lookup, lookup_drop, Nat.add_0_r in He. by apply HL. Qed.

Lemma numbered_last L e : numbered L → last L = Some e → env_version e + 1 = Z.of_nat (length L).
Proof.
  intros HL He. rewrite last_lookup in He. pose proof (HL _ _ He). apply lookup_lt_Some in He. lia.
Qed.

Section replica_laws.
Context `{SlateDbLaws} `{CodecLaws} `{ObjectStoreLaws} `{FuseCodecLaws}.

(** The replica has applied the first [k] events of [L]. *)
Definition at_position (L : list Envelope) (r : Replica) (k : nat) : Prop :=
  (k ≤ length L)%nat ∧ map_or 0 (λ c, c + 1) (r_cursor r) = Z.of_nat k
  ∧ map_or True (λ c, 0 ≤ c) (r_cursor r) ∧ ∀ clk, r_image r ≡ replay_log clk (take k L).

(** Checkpoints load to replays of [L], of which retention left the part from
    position [f] on. *)
Record retained (b : bucket) (d : db) (s : string) (L : list Envelope) (f : nat) : Prop := {
  ret_wf : wf d;
  ret_name : slash_free s;
  ret_numbered : numbered L;
  ret_lim : key_lim (Z.of_nat (length L));
  ret_vis : vis d s = drop f L;
  ret_snap r : latest_snapshot d s = Ok (Some r) →
    ∃ t im, sn_through_version r + 1 = Z.of_nat t ∧ (t ≤ length L)%nat ∧ load_segments b (sn_state r) = Ok im
      ∧ ∀ clk, im ≡ replay_log clk (take t L);
}.

Section converge.
Context (b : bucket) (d : db) (s : string) (L : list Envelope) (f : nat) (HR : retained b d s L f).

Lemma read_position k : (k ≤ length L)%nat →
  reader_read_stream d s (Included (Z.of_nat k), Unbounded) = Ok (from_parts <$> drop (max k f) L).
Proof.
  intros Hk. pose proof (ret_lim _ _ _ _ _ HR) as Hlim.
  pose proof (read_from d s (Z.of_nat k) (ret_wf _ _ _ _ _ HR) (ret_name _ _ _ _ _ HR)) as E.
  unfold reader_read_stream. unfold read_stream in E. rewrite E by (unfold key_lim in *; lia).
  do 2 f_equal. rewrite (ret_vis _ _ _ _ _ HR), <-(numbered_within L f) by apply HR.
  rewrite within_within, <-Nat2Z.inj_max. apply numbered_within, HR.
Qed.

Lemma apply_all clk r k :
  at_position L r k → fold_left (apply_one clk) (from_parts <$> drop k L) r
    = mkReplica (r_vol r) (replay_deltas (r_image r) (timed clk (drop k L)))
        (match last (drop k L) with Some e => Some (env_version e) | None => r_cursor r end) (r_blocks r).
Proof.
  intros _. rewrite <-fold_apply_event. revert r. induction (drop k L) as [|e l IH]; intros r; [by destruct r|].
  cbn [fmap list_fmap fold_left]. rewrite IH. unfold apply_one. cbn. f_equal.
  destruct l as [|e' l]; [done|]. cbn [last]. by destruct (last (e' :: l)) eqn:E; [|apply last_None in E].
Qed.

Lemma caught_up clk r k :
  at_position L r k → at_position L (fold_left (apply_one clk) (from_parts <$> drop k L) r) (length L).
Proof.
  intros Hp. rewrite (apply_all clk r k Hp). destruct Hp as (Hk & Hc & Hnn & Him).
  split_and!; [done|..]; cbn [r_cursor r_image].
  - destruct (last (drop k L)) as [e|] eqn:E.
    + simpl. apply numbered_last; [apply HR|]. by rewrite <-(take_drop k L), last_app, E.
    + apply last_None in E. apply (f_equal length) in E. rewrite length_drop in E. simpl in E.
      rewrite Hc. lia.
  - destruct (last (drop k L)) as [e|] eqn:E; [|done]. simpl. apply last_Some_elem_of in E.
    apply list_elem_of_lookup in E as [i Hi]. rewrite lookup_drop in Hi. apply HR in Hi. lia.
  - intros clk'. rewrite firstn_all. rewrite <-(take_drop k L) at 2. by apply replay_log_app.
Qed.

Lemma reload_position r :
  r_vol r = s → (∃ sn, latest_snapshot d s = Ok (Some sn) ∧ Z.of_nat f ≤ sn_through_version sn + 1) →
  ∃ t r', reload b r d = (Ok (from_parts <$> drop t L), r') ∧ at_position L r' t ∧ r_vol r' = s.
Proof.
  intros Hvol (sn & Hsn & Hf). destruct (ret_snap _ _ _ _ _ HR sn Hsn) as (t & im & Ht & Htn & Hload & Him).
  pose proof (ret_lim _ _ _ _ _ HR) as Hlim. unfold key_lim in Hlim.
  destruct (snapshot_shaped d s (wf_shaped _ (ret_wf _ _ _ _ _ HR)) (ret_name _ _ _ _ _ HR)) as (o & Ho & Hn).
  rewrite Hsn in Ho. injection Ho as <-. simpl in Hn. unfold key_num in Hn.
  unfold reload, reader_latest_snapshot. rewrite Hvol, Hsn. cbn [rbind]. rewrite Hload. cbn [rbind].
  assert (u64_add (sn_through_version sn) 1 = Z.of_nat t) as -> by (u64_norm; done).
  rewrite read_position by done. cbn [rbind]. replace (max t f) with t by lia.
  assert (map_or false (λ e, Z.of_nat t <? ev_version e) (head (from_parts <$> drop t L)) = false) as Hh.
  { destruct (drop t L) as [|e l] eqn:E; [done|]. simpl. apply Z.ltb_ge.
    rewrite (numbered_head L t e); [done|apply HR|by rewrite E]. }
  exists t. eexists. split; [|split].
  - destruct (head (from_parts <$> drop t L)) as [e|]; [simpl in Hh; by rewrite Hh|done].
  - split_and!; [done|..]; simpl; [done|lia|done].
  - done.
Qed.
End converge.

Lemma sync_position clk b d s L f r k :
  retained b d s L f → r_vol r = s → at_position L r k →
  (f ≤ k)%nat ∨ (∃ sn, latest_snapshot d s = Ok (Some sn) ∧ Z.of_nat f ≤ sn_through_version sn + 1) →
  ∃ r', sync clk b r d = (Ok tt, r') ∧ at_position L r' (length L).
Proof.
  intros HR Hvol Hp Hret. pose proof Hp as (Hk & Hc & Hnn & Him). pose proof (ret_lim _ _ _ _ _ HR) as Hlim.
  unfold key_lim in Hlim. unfold sync.
  assert (map_or 0 (λ c, u64_add c 1) (r_cursor r) = Z.of_nat k) as ->.
  { destruct (r_cursor r); simpl in *; [u64_norm; done|done]. }
  rewrite Hvol, (read_position b d s L f HR k Hk). cbn [rbind]. unfold has_gap, reader_latest_snapshot. rewrite Hvol.
  destruct (le_lt_dec f k) as [Hfk|Hfk].
  - replace (max k f) with k by lia.
    assert (has_gap r (Z.of_nat k) (from_parts <$> drop k L) d = Ok false) as Hg.
    { unfold has_gap, reader_latest_snapshot. rewrite Hvol. destruct (drop k L) as [|e l] eqn:E; simpl.
      - destruct (snapshot_shaped d s (wf_shaped _ (ret_wf _ _ _ _ _ HR)) (ret_name _ _ _ _ _ HR))
          as ([sn|] & Hsn & _); rewrite Hsn; simpl; [|done]. f_equal. apply Z.leb_gt.
        destruct (ret_snap _ _ _ _ _ HR sn Hsn) as (t & _ & Ht & Htn & _).
        apply (f_equal length) in E. rewrite length_drop in E. simpl in E. lia.
      - f_equal. apply Z.ltb_ge. rewrite (numbered_head L k e); [done|apply HR|by rewrite E]. }
    unfold has_gap, reader_latest_snapshot in Hg. rewrite Hvol in Hg. rewrite Hg. cbn [rbind].
    eexists. split; [done|]. by apply (caught_up b d s L f HR).
  - destruct Hret as [Hret|Hret]; [lia|]. replace (max k f) with f by lia.
    assert (has_gap r (Z.of_nat k) (from_parts <$> drop f L) d = Ok true) as Hg.
    { unfold has_gap, reader_latest_snapshot. rewrite Hvol. destruct (drop f L) as [|e l] eqn:E; simpl.
      - destruct Hret as (sn & Hsn & Hf). rewrite Hsn. simpl. f_equal. apply Z.leb_le.
        apply (f_equal length) in E. rewrite length_drop in E. simpl in E. lia.
      - f_equal. apply Z.ltb_lt. rewrite (numbered_head L f e); [lia|apply HR|by rewrite E]. }
    unfold has_gap, reader_latest_snapshot in Hg. rewrite Hvol in Hg. rewrite Hg. cbn [rbind].
    destruct (reload_position b d s L f HR r Hvol Hret) as (t & r' & -> & Hp' & _).
    eexists. split; [done|]. by apply (caught_up b d s L f HR).
Qed.

(** C30: a replica converges.  From any state in which it has applied a prefix
    of the volume's deltas, one [sync] leaves it with the replay of all of
    them and its cursor on the last, whatever retention removed in between,
    as long as the latest checkpoint covers what is gone: the gap is noticed
    (also when nothing readable is left) and bridged from the checkpoint. *)
Theorem sync_converges clk b d s L f r k :
  retained b d s L f → r_vol r = s → at_position L r k →
  (f ≤ k)%nat ∨ (∃ sn, latest_snapshot d s = Ok (Some sn) ∧ Z.of_nat f ≤ sn_through_version sn + 1) →
  ∃ r', sync clk b r d = (Ok tt, r') ∧ at_position L r' (length L).
Proof. apply sync_position. Qed.
End replica_laws.

(** ** Instances *)

Import Samples FuseSamples.

(** The volume of [check1], purged up to its checkpoint. *)
Definition d_cut : db := (purge_below "v" 2 check1.2).2.
Definition log1 : list Envelope := vis dm1 "v".

Lemma check1_wf : wf check1.2.
Proof.
  eapply (wf_publish (sample_oracle 40) (λ d, d) [mkStatus 9 false] "v" (mkCompaction "v" 1 0 None 1040)
    (to_vec (mkManifest [segment_path "v" (o_ulid (sample_oracle 40) 1)])) dm1
    (publish_snapshot (sample_oracle 40) (λ d, d) [mkStatus 9 false] "v" (mkCompaction "v" 1 0 None 1040)
      (to_vec (mkManifest [segment_path "v" (o_ulid (sample_oracle 40) 1)])) dm1).1);
    [apply dm1_wf|reflexivity|apply sample_oracle_ok|small|small|apply dm1_wf|].
  assert (check1.2 = (publish_snapshot (sample_oracle 40) (λ d, d) [mkStatus 9 false] "v" (mkCompaction "v" 1 0 None 1040)
      (to_vec (mkManifest [segment_path "v" (o_ulid (sample_oracle 40) 1)])) dm1).2) as -> by run.
  apply surjective_pairing.
Qed.

Lemma d_cut_wf : wf d_cut.
Proof.
  eapply (wf_purge "v" 2 check1.2 (purge_below "v" 2 check1.2).1);
    [apply check1_wf|reflexivity|small|apply surjective_pairing].
Qed.

#[global] Opaque d_cut check1.

Lemma log1_numbered : numbered log1.
Proof.
  intros i e Hi. assert (env_version <$> log1 = [0; 1]) as E by run.
  assert ([0; 1] !! i = Some (env_version e)) as Hv by (rewrite <-E, list_lookup_fmap, Hi; reflexivity).
  destruct i as [|[|i]]; [by injection Hv as <-..|discriminate Hv].
Qed.

Lemma d_cut_retained : retained check1.1.2 d_cut "v" log1 2.
Proof.
  split; [apply d_cut_wf|reflexivity|apply log1_numbered| |run|].
  - assert (length log1 = 2%nat) as -> by run. small.
  - intros r Hr. assert (latest_snapshot d_cut "v" = Ok (Some (mkSnapshot 1 1040
      (to_vec (mkManifest [segment_path "v" (o_ulid (sample_oracle 40) 1)]))))) as E by run.
    rewrite E in Hr. injection Hr as <-. exists 2%nat, (replay_log (λ _, 12) log1). split_and!; [run| |run|].
    + assert (length log1 = 2%nat) as -> by run. lia.
    + intros clk. assert (take 2 log1 = log1) as -> by run.
      apply replay_equiv; [apply timed_deltas|reflexivity].
Qed.

Lemma sync_converges_witness :
  ∃ r', sync (λ _, 15) check1.1.2 (mkReplica "v" ∅ None ∅) d_cut = (Ok tt, r')
    ∧ at_position log1 r' (length log1).
Proof.
  apply (sync_converges (λ _, 15) check1.1.2 d_cut "v" log1 2 (mkReplica "v" ∅ None ∅) 0);
    [apply d_cut_retained|reflexivity| |right].
  - split_and!; [lia|reflexivity|exact I|intros clk; reflexivity].
  - exists (mkSnapshot 1 1040 (to_vec (mkManifest [segment_path "v" (o_ulid (sample_oracle 40) 1)]))).
    split; [run|simpl; lia].
Defined.

(** ** Forked volumes

    A replica reads the stream's own records only, a mount its fork-resolved
    history: a fork of a volume mounts, and its replica finds a gap. *)

Definition d_forked : db := (fork (λ d, d) "v" 1 "w" dm1).2.

Theorem fork_has_no_replica :
  match (mount (sample_oracle 70) (λ _, 16) [mkStatus 99 false] ∅ "w" d_forked).1 with
  | Ok v => image v !! "/a/f" = Some (File (Inline [x68; x69]) (NodeMeta_file 16))
  | Err _ => False
  end
  ∧ match open_replica (λ _, 16) ∅ "w" (append_lazy (orc 80) quiet "w" Any [delta_event (DMkdir "/b")] d_forked).2 with
    | Ok _ => False
    | Err e => e = InvalidInput (BacklogPruned "w")
    end.
Proof. split; run. Qed.
