(* ===== verification/FsElsewhere.v ===== *)
(** * Volumes under writers, checkpoints and retention

    What happens to a volume's store while a replica follows it: deltas
    appended by any writer, blocks uploaded, fences set, checkpoints published
    and purges, each of which keeps the volume's log and its checkpoints in the
    shape a replica relies on ([Replica.retained]). *)

From S2P Require Import Prelude Text Slate Types Keys Kv Fork Store Batch Append Wf Commit.
From S2P Require Import Appended Ops Purge History Txn Invariant Samples AppendThms ForkThms RetentionThms SnapshotThms ReadThms Reader.
From S2P Require Import Frames Bucket Btree Image ImageThms Volume FuseSamples VolumeThms Replica.
Local Open Scope Z_scope.

Lemma numbered_next L : numbered L → next_version L = Z.of_nat (length L).
Proof.
  intros Hn. unfold next_version. destruct (last L) as [e|] eqn:E; simpl; [by apply numbered_last|]. by apply last_None in E as ->.
Qed.

Lemma numbered_app L envs n : numbered L → env_version <$> envs = versions (Z.of_nat (length L)) n → numbered (L ++ envs).
Proof.
  intros Hn E i e Hi. apply lookup_app_Some in Hi as [Hi|[Hle Hi]]; [by apply Hn|].
  apply (f_equal (λ l, l !! (i - length L)%nat)) in E. unfold versions in E. rewrite !list_lookup_fmap, Hi in E. cbn in E.
  destruct (seq 0 n !! (i - length L)%nat) as [j|] eqn:Ej; [|done]. apply lookup_seq in Ej as [-> _]. injection E as ->. lia.
Qed.

Section elsewhere.
Context `{SlateDbLaws} `{CodecLaws} `{ObjectStoreLaws} `{FuseCodecLaws}.

(** The latest checkpoint covers what retention removed. *)
Definition covered (d : db) (s : string) (f : nat) : Prop :=
  f = 0%nat ∨ ∃ sn, latest_snapshot d s = Ok (Some sn) ∧ Z.of_nat f ≤ sn_through_version sn + 1.

(** Deltas that rename nothing under itself or over an ancestor. *)
Definition tidy_data (x : bytes) : Prop := from_option tidy True (from_slice x : option Delta).

#[global] Instance tidy_data_dec x : Decision (tidy_data x).
Proof. unfold tidy_data. destruct (from_slice x); simpl; apply _. Defined.

(** The store of a volume that is no fork: its log is [L], of which retention
    left the part from [f] on. *)
Record kept (b : bucket) (d : db) (s : string) (L : list Envelope) (f : nat) : Prop := {
  ke_retained : retained b d s L f;
  ke_root : fork_ref d s = Ok None;
  ke_snaps : snaps_below d s;
  ke_writable : writable d s (Z.of_nat (length L));
  ke_tail : stream_version d s = Ok (env_version <$> last L);
  ke_covered : covered d s f;
  ke_tidy : Forall (λ e, tidy_data (env_data e)) L;
}.

Lemma kept_hist b d s L f : kept b d s L f → hist d s (vis d s).
Proof. intros Hk. apply hist_root, Hk. Qed.

(** An operation that leaves the guards of the stream. *)
Lemma kept_intro b b' d d' s L L' f f' :
  kept b d s L f → wf d' →
  (∀ k, key_ok k → aux_key k = false → (∀ x v, k ≠ KRec x v) → (∀ x, k ≠ KTail x) → db_get d' (render k) = db_get d (render k)) →
  retained b' d' s L' f' → snaps_below d' s → (length L ≤ length L')%nat →
  stream_version d' s = Ok (env_version <$> last L') → covered d' s f' → Forall (λ e, tidy_data (env_data e)) L' →
  kept b' d' s L' f'.
Proof.
  intros [HR Hroot _ Hw _ _ _] Hwf' Hget HR' Hsn Hlen Ht Hc Htd. pose proof (ret_name _ _ _ _ _ HR) as Hs.
  destruct (guards_frame d d' s Hs Hget) as [Hg Htr]. split; try done.
  - unfold fork_ref, get_json in *. rewrite render_fork in *. by rewrite Hget.
  - apply (writable_ext d d' s (Z.of_nat (length L))); [apply HR|apply Hwf'|done..|lia|done].
Qed.

Lemma covered_ext d d' s f : latest_snapshot d' s = latest_snapshot d s → covered d s f → covered d' s f.
Proof. intros E [-> |Hc]; [by left|right]. by rewrite E. Qed.

(** The snapshot is as it was, the log only grew, and the segments are still
    there. *)
Lemma retained_grown b b' d d' s L envs f f' :
  retained b d s L f → wf d' → numbered (L ++ envs) → key_lim (Z.of_nat (length (L ++ envs))) →
  vis d' s = drop f' (L ++ envs) → latest_snapshot d' s = latest_snapshot d s →
  (∀ r, latest_snapshot d s = Ok (Some r) → load_segments b' (sn_state r) = load_segments b (sn_state r)) →
  retained b' d' s (L ++ envs) f'.
Proof.
  intros [Hwf Hs Hn Hlim Hv Hsn] Hwf' Hn' Hlim' Hv' Hss Hb. split; [done..|].
  intros r Hr. rewrite Hss in Hr. destruct (Hsn r Hr) as (t & im & Ht & Htn & Hload & Him). exists t, im.
  rewrite length_app, Hb by done. split_and!; [done|lia|done|]. intros clk. rewrite take_app_le by done. apply Him.
Qed.

(** ** Appends *)

Lemma kept_append b d s L f o expd tok evs idx info d' :
  kept b d s L f → oracle_ok o → roomy s d → check_batch evs = Ok tt →
  takes_effect d d' o (durable_sequence d) s expd None tok evs idx info → Forall (λ ne, tidy_data (ne_data ne)) evs →
  ∃ envs, vis d' s = vis d s ++ envs ∧ payload <$> envs = evs ∧ kept b d' s (L ++ envs) f.
Proof.
  intros Hk Ho [Hr1 Hr2] Hb Heff Htd. pose proof Hk as [HR Hroot Hsn Hw Ht Hc Htidy]. pose proof HR as [Hwf Hs Hn Hlim Hv _].
  assert (0 ≤ next_version L) as Hpos by (rewrite numbered_next by done; lia).
  pose proof (effect_fits _ _ _ _ _ _ _ _ _ _ L Hb Heff Ht Hpos (Hr1 _ Ht)) as Hfits.
  destruct (append_own d d' o s expd tok evs idx info Hwf Hs Ho Hb Heff Hfits) as (tv & envs & Htv & Hoa).
  rewrite Ht in Htv. injection Htv as <-. pose proof Hoa as [_ Hpay Hne _ _ Hlast Htail Hwf' Hget Hhist Hver].
  change (map_or 0 _ _) with (next_version L) in Hver, Hhist. rewrite numbered_next in Hver, Hhist by done.
  assert (hist d' s (vis d s ++ envs)) as Hh by (apply Hhist; [by eapply kept_hist|done]).
  assert (fork_ref d' s = Ok None) as Hroot'.
  { unfold fork_ref, get_json in *. rewrite render_fork in *. by rewrite Hget. }
  assert (vis d' s = vis d s ++ envs) as Hvis by (eapply hist_unique; [by apply hist_root|done]).
  pose proof (append_snapshot d d' o s expd tok evs idx info Hwf Hs Ho Hb Heff Hfits s Hs) as Hss.
  pose proof (check_batch_length _ Hb) as Hcl. assert (length envs = length evs) as Hle by (by rewrite <-Hpay, length_fmap).
  assert (f ≤ length L)%nat as Hfl.
  { destruct Hc as [-> |(sn & Hsn' & Hcf)]; [lia|]. destruct (ret_snap _ _ _ _ _ HR sn Hsn') as (t & _ & Ht1 & Ht2 & _). lia. }
  exists envs. split_and!; [done|done|].
  apply (kept_intro b b d d' s L (L ++ envs) f f Hk Hwf').
  - intros k Hkk Ha N1 N2. apply Hget; [done|]. destruct k; simpl in *; try done; [by edestruct N1|by edestruct N2].
  - apply (retained_grown b b d d' s L envs f f HR Hwf'); [by eapply numbered_app| |by rewrite Hvis, Hv, drop_app_le|done|done].
    specialize (Hr1 _ Ht). change (map_or 0 _ _) with (next_version L) in Hr1. rewrite numbered_next in Hr1 by done.
    rewrite length_app, Hle. unfold key_lim, MAX_BATCH_RECORDS in *. lia.
  - apply (append_snaps d d' o s expd tok evs idx info Hwf Hs Ho Hb Heff Hfits s Hs); [|done]. u64_facts. unfold MAX_BATCH_RECORDS in *. lia.
  - rewrite length_app. lia.
  - rewrite Htail. destruct envs as [|x envs _] using rev_ind; [done|]. rewrite app_assoc, last_snoc. by rewrite last_snoc in Hlast; rewrite Hlast.
  - by eapply covered_ext.
  - apply Forall_app. split; [done|]. rewrite <-Hpay, Forall_fmap in Htd. exact Htd.
Qed.

(** An append to another stream. *)
Lemma kept_other b d s L f o x expd tok evs idx info d' :
  kept b d s L f → slash_free x → x ≠ s → oracle_ok o → roomy x d → fits info → check_batch evs = Ok tt →
  takes_effect d d' o (durable_sequence d) x expd None tok evs idx info → kept b d' s L f.
Proof.
  intros Hk Hx Hne Ho [_ Hr2] Hfits Hb Heff. pose proof Hk as [HR Hroot Hsn Hw Ht Hc Htidy]. pose proof HR as [Hwf Hs Hn Hlim Hv _].
  destruct (append_own d d' o x expd tok evs idx info Hwf Hx Ho Hb Heff Hfits) as (tv & envs & _ & Hoa).
  pose proof Hoa as [_ _ _ _ _ _ _ Hwf' Hget _ _].
  pose proof (append_snapshot d d' o x expd tok evs idx info Hwf Hx Ho Hb Heff Hfits s Hs) as Hss.
  assert (∀ k, key_ok k → aux_key k = false → (∀ y v, k ≠ KRec y v) → (∀ y, y = x → k ≠ KTail y) → db_get d' (render k) = db_get d (render k)) as Hget'.
  { intros k Hkk Ha N1 N2. apply Hget; [done|]. destruct k; simpl in *; try done; [by edestruct N1|]. by intros ->; edestruct N2. }
  assert (hist d' s (vis d s)) as Hh.
  { eapply (append_hist_other d d' o (durable_sequence d) x expd tok evs idx info); try done. by eapply kept_hist. }
  assert (fork_ref d' s = Ok None) as Hroot'.
  { unfold fork_ref, get_json in *. rewrite render_fork in *. by rewrite Hget'. }
  assert (vis d' s = vis d s) as Hvis by (eapply hist_unique; [by apply hist_root|done]).
  rewrite <-(app_nil_r L). apply (kept_intro b b d d' s L (L ++ []) f f Hk Hwf'); rewrite ?app_nil_r; try done.
  - intros k Hkk Ha N1 N2. apply Hget'; [done..|]. intros y _. apply N2.
  - rewrite <-(app_nil_r L). apply (retained_grown b b d d' s L [] f f HR Hwf'); rewrite ?app_nil_r; [done..|by rewrite Hvis|done|done].
  - apply (append_snaps d d' o x expd tok evs idx info Hwf Hx Ho Hb Heff Hfits s Hs); [|done].
    pose proof (check_batch_length _ Hb). u64_facts. unfold MAX_BATCH_RECORDS in *. lia.
  - rewrite <-Ht. unfold stream_version, tail, get_json. rewrite render_tail. rewrite Hget'; [done..|]. by intros y -> [= ->].
  - by eapply covered_ext.
Qed.

(** ** Fences and uploads *)

Lemma kept_fence b d s L f watch x token r d' :
  kept b d s L f → slash_free x → fence (λ d, d) watch x token d = (r, d') → kept b d' s L f.
Proof.
  intros Hk Hx E. pose proof Hk as [HR Hroot Hsn Hw Ht Hc Htidy]. pose proof HR as [Hwf Hs Hn Hlim Hv _].
  destruct (fence_keeps _ _ _ _ _ _ Hwf Hx E) as (Hwf' & Hhist & Hsnap). specialize (Hsnap s Hs).
  pose proof (fence_get watch x token d r d' Hwf Hx E) as Hget.
  assert (∀ k, key_ok k → (∀ y, k ≠ KFence y) → db_get d' (render k) = db_get d (render k)) as Hget' by (intros k Hkk N; by apply Hget).
  assert (fork_ref d' s = Ok None) as Hroot'.
  { unfold fork_ref, get_json in *. rewrite render_fork in *. by rewrite Hget'. }
  assert (vis d' s = vis d s) as Hvis by (eapply hist_unique; [by apply hist_root|apply Hhist; [done|by eapply kept_hist]]).
  rewrite <-(app_nil_r L). apply (kept_intro b b d d' s L (L ++ []) f f Hk Hwf'); rewrite ?app_nil_r; try done.
  - intros k Hkk Ha _ _. apply Hget'; [done|]. by intros y ->.
  - rewrite <-(app_nil_r L). apply (retained_grown b b d d' s L [] f f HR Hwf'); rewrite ?app_nil_r; [done..|by rewrite Hvis|done|done].
  - intros q y Hq Hy. rewrite (Hget' (KSnap s q)) in Hy by done. specialize (Hsn q y Hq Hy).
    unfold durable_sequence, get_be in *. rewrite render_seq in *. by rewrite Hget'.
  - rewrite <-Ht. unfold stream_version, tail, get_json. rewrite render_tail. by rewrite Hget'.
  - by eapply covered_ext.
Qed.

(** No segment of the volume's manifest is at [k]. *)
Definition spare (d : db) (s k : string) : Prop := ∀ m p, manifest_of d s = Ok m → p ∈ segments m → path_from p ≠ k.

Lemma spare_loads b b' d s k v r :
  spare d s k → bucket_put b k v = Some b' → latest_snapshot d s = Ok (Some r) →
  load_segments b' (sn_state r) = load_segments b (sn_state r).
Proof.
  intros Hk Hput Hr. unfold load_segments. destruct (json (from_slice (sn_state r))) as [m|] eqn:Em; [|done]. cbn [rbind].
  apply (load_loop_put b b' k v); [done|]. intros p Hp. apply (Hk m); [|done]. unfold manifest_of. by rewrite Hr.
Qed.

Lemma kept_put b b' d s L f k v : kept b d s L f → spare d s k → bucket_put b k v = Some b' → kept b' d s L f.
Proof.
  intros Hk Hsp Hput. pose proof Hk as [HR Hroot Hsn Hw Ht Hc Htidy]. split; try done. rewrite <-(app_nil_r L).
  pose proof HR as [Hwf _ Hn Hlim Hv _].
  apply (retained_grown b b' d d s L [] f f HR); rewrite ?app_nil_r; try done. intros r Hr. by eapply spare_loads.
Qed.

(** ** Purges *)

Lemma kept_purge b d s L f floor r d' :
  kept b d s L f → 0 ≤ floor → key_lim floor → ceiling d s = None →
  (∃ sn, latest_snapshot d s = Ok (Some sn) ∧ floor ≤ sn_through_version sn + 1) →
  purge_below s floor d = (r, d') → kept b d' s L (max f (Z.to_nat floor)).
Proof.
  intros Hk H0' Hfl Hce (sn & Hsn0 & Hle) E. pose proof Hk as [HR Hroot Hsn Hw Ht Hc Htidy]. pose proof HR as [Hwf Hs Hn Hlim Hv _].
  destruct (purge_below_spec d s floor (wf_shaped _ Hwf) Hs Hfl) as (d0 & E0 & Hwo). rewrite E0 in E. injection E as _ <-.
  pose proof (purge_wf d s floor Hwf Hs Hfl d0 Hwo) as Hwf'. pose proof (purge_get d s floor Hwf Hs Hfl d0 Hwo) as Hget.
  pose proof (purge_vis d s floor Hwf Hs Hfl d0 Hwo) as Hvis. unfold pin_floor in Hvis. rewrite Hce in Hvis. cbn [map_or] in Hvis.
  assert (latest_snapshot d0 s = latest_snapshot d s) as Hss.
  { unfold latest_snapshot. rewrite (scan_ext d0 d); [done|apply Hwf'|apply Hwf|].
    intros K suf Hok Heq. destruct (snap_family _ s suf Hok Hs Heq) as (q & -> & _). by apply Hget. }
  assert (vis d0 s = drop (max f (Z.to_nat floor)) L) as Hv'.
  { rewrite Hvis, Hv, <-(numbered_within L (max f _)), Nat2Z.inj_max, Z2Nat.id, Z.max_comm, <-within_within, numbered_within by done.
    apply filter_ext_in. intros e [i Hi]%list_elem_of_lookup. rewrite lookup_drop in Hi. apply Hn in Hi.
    unfold purged, in_window. simpl. rewrite andb_true_r, andb_false_iff, Z.leb_gt, Z.ltb_ge, Z.leb_le. lia. }
  assert (covered d0 s (max f (Z.to_nat floor))) as Hc'.
  { right. exists sn. rewrite Hss. split; [done|]. destruct Hc as [-> |(sn' & Hsn' & Hcf)]; [lia|].
    rewrite Hsn0 in Hsn'. injection Hsn' as <-. lia. }
  rewrite <-(app_nil_r L). apply (kept_intro b b d d0 s L (L ++ []) f _ Hk Hwf'); rewrite ?app_nil_r; try done.
  - intros k Hkk _ N _. by apply Hget.
  - rewrite <-(app_nil_r L). apply (retained_grown b b d d0 s L [] f _ HR Hwf'); rewrite ?app_nil_r; done.
  - intros q y Hq Hy. rewrite (Hget (KSnap s q)) in Hy by done. specialize (Hsn q y Hq Hy).
    unfold durable_sequence, get_be in *. rewrite render_seq in *. by rewrite Hget.
  - rewrite <-Ht. unfold stream_version, tail, get_json. rewrite render_tail. by rewrite Hget.
Qed.

(** ** Checkpoints *)

(** What a checkpoint starts from: the replay of a prefix of the log. *)
Lemma kept_base b d s L f : kept b d s L f →
  ∃ im t, checkpoint_base b s d = Ok (im, Z.of_nat t) ∧ (f ≤ t ≤ length L)%nat ∧ ∀ clk, im ≡ replay_log clk (take t L).
Proof.
  intros [HR _ _ _ _ Hc _]. pose proof HR as [Hwf Hs _ _ _ Hsn]. unfold checkpoint_base.
  destruct (snapshot_shaped d s (wf_shaped _ Hwf) Hs) as ([r|] & Hr & Hnum); rewrite Hr; cbn [rbind].
  - destruct (Hsn r Hr) as (t & im & Ht & Htn & -> & Him). cbn [rbind]. simpl in Hnum. unfold key_num in Hnum.
    exists im, t. split_and!; [|destruct Hc as [-> |(sn & Hsn' & Hcf)]; [lia|rewrite Hr in Hsn'; injection Hsn' as <-; lia]|done|done].
    u64_norm. by rewrite Ht.
  - exists ∅, 0%nat. split_and!; [done| |lia|done]. destruct Hc as [-> |(sn & Hsn' & _)]; [lia|]. by rewrite Hr in Hsn'.
Qed.

Lemma tidy_timed clk L : Forall (λ e, tidy_data (env_data e)) L → Forall (λ d, tidy d.2) (timed clk L).
Proof.
  intros HL. unfold timed. rewrite Forall_forall in HL. apply Forall_forall. intros x Hx. apply list_elem_of_omap in Hx as (e & He & Hx).
  specialize (HL e He). unfold tidy_data in HL. destruct (from_slice (env_data e)) as [dl|]; [|done]. by injection Hx as <-.
Qed.

Lemma kept_checkpoint b d s L f o clk watch through r b' d' :
  kept b d s L f → oracle_ok o → key_num (durable_sequence d + 1) → env_version <$> last L = Some through →
  fresh_segment d s (segment_path s (o_ulid o 1)) →
  publish_checkpoint o clk watch s through b d = (r, b', d') → kept b' d' s L f.
Proof.
  intros Hk Ho Hseq Hlast [Hpath Hfresh] E. pose proof Hk as [HR Hroot Hsn Hw Ht Hc Htidy]. pose proof HR as [Hwf Hs Hn Hlim Hv _].
  destruct (kept_base b d s L f Hk) as (im & t & Hb & Hft & Him). unfold publish_checkpoint in E. rewrite Hb in E. cbn [rbind] in E.
  assert (key_lim (Z.of_nat t)) as Hlt by (unfold key_lim in *; lia).
  rewrite (fold_history d s (vis d s)) in E by (done || by eapply kept_hist). cbn [rbind] in E.
  assert (within (Z.of_nat t) None (vis d s) = drop t L) as Hwin.
  { rewrite Hv, <-(numbered_within L f), within_within, Z.max_l, numbered_within by (done || lia). done. }
  rewrite fold_delta_event, Hwin in E. fold (checkpoint_fold im (timed clk (drop t L))) in E.
  set (seg := mkSegment _) in E. set (path := segment_path s (o_ulid o 1)) in *.
  destruct (bucket_put b path (to_vec seg)) as [b1|] eqn:Eput; [|by injection E as _ <- <-].
  pose proof (kept_put b b1 d s L f path (to_vec seg) Hk Hfresh Eput) as Hk1.
  destruct (base_manifest _ _ _ _ _ Hb) as (m & Hm & Hload). fold (manifest_of d s) in E. rewrite Hm in E.
  set (rec := snapshot_record _ s through) in E. set (state := to_vec (mkManifest (segments m ++ [path]))) in E.
  destruct (publish_snapshot o (λ d, d) watch s rec state d) as [rp dp] eqn:Ep. injection E as _ <- <-.
  apply publish_outcome in Ep as [-> | ->]; [done|].
  assert (through + 1 = Z.of_nat (length L)) as Hth1.
  { destruct (last L) as [e|] eqn:El; [|done]. injection Hlast as <-. by apply numbered_last. }
  assert (length L ≠ 0%nat) as Hnil by (by destruct L).
  assert (key_num through) as Hth by (unfold key_lim in Hlim; unfold key_num; lia).
  rewrite u64_add_small by (unfold key_num in Hseq; u64_facts; lia). set (d1 := db_apply _ _).
  pose proof (published_wf d o s rec state Hwf Hs Ho Hth Hseq) as Hwf1.
  pose proof (published_hist d o s rec state Hwf Hs Ho Hth Hseq s _ Hs (kept_hist _ _ _ _ _ Hk)) as Hl1.
  pose proof (published_latest d o s rec state Hwf Hs Ho Hth Hseq Hsn) as Hsn1.
  pose proof (published_get d o s rec state Hs Ho Hth Hseq) as Hget. fold d1 in Hwf1, Hl1, Hsn1, Hget.
  assert (fork_ref d1 s = Ok None) as Hroot1.
  { unfold fork_ref, get_json in *. rewrite render_fork in *. by rewrite Hget. }
  assert (vis d1 s = vis d s) as Hvis1 by (eapply hist_unique; [by apply hist_root|done]).
  assert (merge_segment im seg ≡ replay_log clk L) as Hmerged.
  { unfold seg. rewrite checkpoint_fold_merge; [rewrite <-(take_drop t L) at 2; by apply replay_log_app|].
    apply tidy_timed. rewrite <-(take_drop t L) in Htidy. by apply Forall_app in Htidy as [_ ?]. }
  apply (kept_intro b b1 d d1 s L L f f Hk Hwf1); try done.
  - intros k Hkk Ha _ _. apply Hget; [done|by intros ->..].
  - split; [done..|by rewrite Hvis1|]. intros rr Hrr. rewrite Hsn1 in Hrr. injection Hrr as <-. cbn [sn_through_version sn_state].
    exists (length L), (merge_segment im seg). split_and!; [exact Hth1|done| |].
    + unfold load_segments, state. rewrite from_to_vec. cbn [json rbind segments]. rewrite load_loop_app.
      rewrite (load_loop_put b b1 path (to_vec seg)) by (done || by intros p; apply Hfresh).
      rewrite Hload. cbn [rbind load_loop]. rewrite Hpath, (bucket_get_put _ _ _ _ Eput), decide_True by done.
      cbn [io rbind]. by rewrite from_to_vec.
    + intros clk'. rewrite firstn_all, Hmerged. apply replay_equiv; [apply timed_deltas|done].
  - intros q y Hq Hy. unfold d1, publish_kws. change [?x; ?z; ?w] with ([x; z] ++ [w]).
    pose proof Hseq as Hqn. unfold key_num in Hqn. u64_facts. rewrite durable_after by lia.
    destruct (decide (q = durable_sequence d + 1)) as [-> |Hne]; [lia|].
    rewrite Hget in Hy; [|done|congruence|done|done]. specialize (Hsn q y Hq Hy). lia.
  - rewrite <-Ht. unfold stream_version, tail, get_json. rewrite render_tail. by rewrite Hget.
  - right. eexists. split; [exact Hsn1|]. cbn [sn_through_version]. change (cr_through_version rec) with through. lia.
Qed.
(** ** Steps *)

(** A bucket and a store, the volume's log and how much of it retention
    removed. *)
Abbreviation Stores := (bucket * db * list Envelope * nat)%type.

(** An append to any stream, with no other writer in between; a fence of any
    stream; an upload beside the volume's segments; a checkpoint of the volume,
    whatever it returns; a purge of what the latest checkpoint covers, when no
    live fork pins the volume. *)
Inductive elsewhere (s : string) : Stores → Stores → Prop :=
| el_append o x expd tok evs idx b d L f tk d' :
    slash_free x → (∀ n, oracle_ok (o n)) → roomy x d →
    commit_appends o quiet x expd None tok evs idx d = (Ok tk, d') → fits (ticket_info tk) →
    Forall (λ ne, tidy_data (ne_data ne)) evs →
    elsewhere s (b, d, L, f) (b, d', L ++ drop (length (vis d s)) (vis d' s), f)
| el_fence watch x token b d L f r d' :
    slash_free x → fence (λ d, d) watch x token d = (r, d') → elsewhere s (b, d, L, f) (b, d', L, f)
| el_put k v b d L f b' :
    spare d s k → bucket_put b k v = Some b' → elsewhere s (b, d, L, f) (b', d, L, f)
| el_checkpoint o clk watch through b d L f r b' d' :
    oracle_ok o → key_num (durable_sequence d + 1) → env_version <$> last L = Some through →
    fresh_segment d s (segment_path s (o_ulid o 1)) →
    publish_checkpoint o clk watch s through b d = (r, b', d') → elsewhere s (b, d, L, f) (b', d', L, f)
| el_purge floor b d L f sn r d' :
    key_lim floor → ceiling d s = None → latest_snapshot d s = Ok (Some sn) → floor ≤ sn_through_version sn + 1 →
    purge_below s floor d = (r, d') → elsewhere s (b, d, L, f) (b, d', L, max f (Z.to_nat floor)).

Lemma kept_other_vis b d s L f d' : kept b d s L f → kept b d' s L f → vis d' s = vis d s.
Proof. intros [[_ _ _ _ -> _] _ _ _ _ _ _] [[_ _ _ _ -> _] _ _ _ _ _ _]. done. Qed.

Lemma elsewhere_kept s b d L f b' d' L' f' :
  kept b d s L f → elsewhere s (b, d, L, f) (b', d', L', f') → kept b' d' s L' f' ∧ L `prefix_of` L'.
Proof.
  intros Hk Hel. inversion Hel as [o x expd tok evs idx ? ? ? ? tk ? Hx Ho Hroom E Hfits Htd|watch x token ? ? ? ? r ? Hx E|k v ? ? ? ? ? Hsp Hput
    |o clk watch through ? ? ? ? r ? ? Ho Hseq Hlast Hfr E|floor ? ? ? ? sn r ? Hfl Hce Hsn Hle E]; subst.
  - apply quiet_outcome in E as [Hb Heff]. destruct (decide (x = s)) as [-> |Hne].
    + destruct (kept_append _ _ _ _ _ _ _ _ _ _ _ _ Hk (Ho 0%nat) Hroom Hb Heff Htd) as (envs & -> & _ & Hk').
      rewrite drop_app_length. split; [done|by apply prefix_app_r].
    + pose proof (kept_other _ _ _ _ _ _ _ _ _ _ _ _ _ Hk Hx Hne (Ho 0%nat) Hroom Hfits Hb Heff) as Hk'.
      rewrite (kept_other_vis _ _ _ _ _ _ Hk Hk'), drop_all, app_nil_r. done.
  - split; [by eapply kept_fence|done].
  - split; [by eapply kept_put|done].
  - split; [by eapply kept_checkpoint|done].
  - split; [|done]. eapply kept_purge; [done|by destruct Hfl|done|done|by exists sn|done].
Qed.
End elsewhere.

(** ** An instance *)

Import Samples FuseSamples.

(** The volume before its checkpoint. *)
Lemma dm1_kept : kept (∅ : bucket) dm1 "v" log1 0.
Proof.
  split; [|run|apply no_snaps; run|split; [run|run|vm_compute; discriminate]|run|left; reflexivity
    |refine (bool_decide_eq_true_1 (Forall (λ e, tidy_data (env_data e)) _) _); run].
  split; [apply dm1_wf|reflexivity|apply log1_numbered| |run|].
  - assert (length log1 = 2%nat) as -> by run. small.
  - intros r Hr. rewrite dm1_no_snapshot in Hr. discriminate Hr.
Qed.
