(* ===== verification/Fs.v ===== *)
(** * The FUSE adapter ([landslide-fuse/src/fs.rs])

    The inode tables, open handles and request handlers of a mount.  A
    handler is a function on the [World]: the adapter with its backend, the
    bucket and the store; its reply is its result.  fuser's session thread
    runs one handler at a time.  A name the kernel sends is an
    [option string]: [None] is not UTF-8. *)

From S2P Require Import Prelude Text Slate Types Keys Kv Fork Store Bucket Btree Image Volume Replica.
Local Open Scope Z_scope.

(** ** Inode tables *)

Record State := mkState {
  path_of : gmap Z string;
  ino_of : gmap string Z;
  next_ino : Z;
}.

(** [State::new] *)
Definition State_new : State := mkState {[1 := "/"]} {["/" := 1]} 2.

(** [State::ino] *)
Definition State_ino (st : State) (path : string) : Z * State :=
  match ino_of st !! path with
  | Some i => (i, st)
  | None =>
      let i := next_ino st in
      (i, mkState (<[i := path]> (path_of st)) (<[path := i]> (ino_of st)) (u64_add i 1))
  end.

(** The closure [remap]. *)
Definition remap (from to p : string) : option string :=
  if String.eqb p from then Some to
  else (λ rest, to +:+ "/" +:+ rest) <$> strip_prefix (from +:+ "/") p.

(** The second loop of [rename_subtree]. *)
Definition rename_entry (from to : string) (st : State) (e : string * Z) : State :=
  match remap from to e.1 with
  | Some np => mkState (<[e.2 := np]> (path_of st)) (<[np := e.2]> (delete e.1 (ino_of st))) (next_ino st)
  | None => st
  end.

(** The entries the first loop collects; a [HashMap] iterates in any order. *)
Definition moved (from to : string) (st : State) : list (string * Z) :=
  filter (λ e, is_some (remap from to e.1) = true) (map_to_list (ino_of st)).

Definition rename_subtree (from to : string) (st : State) : State :=
  fold_left (rename_entry from to) (moved from to st) st.

(** ** The adapter *)

Record Handle := mkHandle { h_ino : Z; h_extents : list (Z * bytes) }.

Inductive Backend :=
| BVolume (v : Volume)
| BReplica (r : Replica).

Record LandslideFs := mkFs {
  fs_backend : Backend;
  fs_state : State;
  fs_handles : gmap Z Handle;
  fs_next_fh : Z;
}.

(** [LandslideFs::with_backend] *)
Definition with_backend (backend : Backend) : LandslideFs := mkFs backend State_new ∅ 1.

(** [image_of] *)
Definition fs_image (f : LandslideFs) : FsImage :=
  match fs_backend f with
  | BVolume v => image v
  | BReplica r => r_image r
  end.

Definition set_backend (f : LandslideFs) (b : Backend) : LandslideFs :=
  mkFs b (fs_state f) (fs_handles f) (fs_next_fh f).
Definition set_state (f : LandslideFs) (st : State) : LandslideFs :=
  mkFs (fs_backend f) st (fs_handles f) (fs_next_fh f).
Definition set_handles (f : LandslideFs) (hs : gmap Z Handle) : LandslideFs :=
  mkFs (fs_backend f) (fs_state f) hs (fs_next_fh f).

Inductive Errno :=
| ENOENT | ENOTDIR | EINVAL | EIO | EROFS | EEXIST | ENOSYS | EISDIR | ELOOP | EBADF | ENOTEMPTY
| NO_XATTR | ERANGE.

Inductive FileType := RegularFile | Directory | SymlinkType.

#[global] Instance filetype_eq_dec : EqDecision FileType.
Proof. solve_decision. Defined.

(** Times are milliseconds since the epoch. *)
Record FileAttr := mkAttr {
  fa_ino : Z;
  fa_size : Z;
  fa_blocks : Z;
  fa_mtime : Z;
  fa_kind : FileType;
  fa_perm : Z;
  fa_nlink : Z;
  fa_uid : Z;
  fa_gid : Z;
}.

(** What a request carries besides its arguments, and what a commit draws. *)
Record Call := mkCall {
  c_oracle : nat → Oracle;
  c_now : Z;
  c_uid : Z;
  c_gid : Z;
}.

Inductive TimeOrNow := SpecificTime (ms : Z) | Now.

(** ** Paths and attributes *)

Definition path_join (parent name : string) : string :=
  if String.eqb parent "/" then "/" +:+ name else parent +:+ "/" +:+ name.

Fixpoint rfind_slash (s : string) : option nat :=
  match s with
  | EmptyString => None
  | String c s =>
      match rfind_slash s with
      | Some i => Some (S i)
      | None => if Ascii.eqb c "/" then Some O else None
      end
  end.

Definition parent_path (path : string) : string :=
  match rfind_slash path with
  | Some O | None => "/"
  | Some i => take_chars i path
  end.

Definition kind_of (n : Node) : FileType :=
  match n with
  | File _ _ => RegularFile
  | Dir _ => Directory
  | Symlink _ _ => SymlinkType
  end.

(** The loop body of [children]. *)
Definition child_entry (prefix : string) (out : gmap string FileType) (e : string * Node) : gmap string FileType :=
  match strip_prefix prefix e.1 with
  | None => out
  | Some rest => if String.eqb rest "" || has_slash rest then out else <[rest := kind_of e.2]> out
  end.

Definition children (img : FsImage) (dir : string) : gmap string FileType :=
  let prefix := if String.eqb dir "/" then "/" else dir +:+ "/" in
  fold_left (child_entry prefix) (btree_iter img) ∅.

Definition nlink_of (img : FsImage) (path : string) (kind : FileType) : Z :=
  match kind with
  | Directory =>
      2 + Z.of_nat (length (filter (λ e, e.2 = Directory) (map_to_list (children img path))))
  | _ => 1
  end.

Definition ROOT_META : NodeMeta := mkMeta 493 0 0 0 ∅.

(** [ts]: times before the epoch are the epoch. *)
Definition ts (ms : Z) : Z := Z.max ms 0.

Definition ts_ms (t : Z) : Z := if t <? 0 then 0 else as_i64 t.

Definition div_ceil (a b : Z) : Z := (a + b - 1) / b.

Definition build_attr (img : FsImage) (ino : Z) (path : string) (kind : FileType) (size : Z) (meta : NodeMeta) :
    FileAttr :=
  mkAttr ino size (div_ceil size 512) (ts (mtime_ms meta)) kind (Z.land (mode meta) 4095)
    (nlink_of img path kind) (uid meta) (gid meta).

(** [attr_of] *)
Definition attr_of (img : FsImage) (ino : Z) (path : string) : option FileAttr :=
  if String.eqb path "/" then Some (build_attr img ino path Directory 0 ROOT_META)
  else
    match img !! path with
    | None => None
    | Some (File content meta) => Some (build_attr img ino path RegularFile (content_len content) meta)
    | Some (Dir meta) => Some (build_attr img ino path Directory 0 meta)
    | Some (Symlink target meta) =>
        Some (build_attr img ino path SymlinkType (Z.of_nat (String.length target)) meta)
    end.

(** [parent_path == "/" || matches!(img.nodes.get(&parent_path), Some(Node::Dir { .. }))] *)
Definition is_dir (img : FsImage) (path : string) : bool :=
  String.eqb path "/" || match img !! path with Some (Dir _) => true | _ => false end.

Section handlers.
Context `{SlateDb} `{Codecs} `{ObjectStore} `{FuseCodecs}.

Record World := mkWorld { w_fs : LandslideFs; w_bucket : bucket; w_db : db }.

Definition with_fs (w : World) (f : LandslideFs) : World := mkWorld f (w_bucket w) (w_db w).
Definition w_image (w : World) : FsImage := fs_image (w_fs w).
Definition w_path_of (w : World) (ino : Z) : option string := path_of (fs_state (w_fs w)) !! ino.

(** [commit] *)
Definition fs_commit (c : Call) (deltas : list Delta) (w : World) : result Errno unit * World :=
  match fs_backend (w_fs w) with
  | BReplica _ => (Err EROFS, w)
  | BVolume v =>
      let v := fold_left (mutate (c_now c)) deltas v in
      let '(r, v, b, d) := Volume_commit (c_oracle c) (λ _ d, d) (c_now c) v (w_bucket w) (w_db w) in
      (match r with Ok _ => Ok tt | Err _ => Err EIO end,
       mkWorld (set_backend (w_fs w) (BVolume v)) b d)
  end.

(** An error of the backend is [EIO]. *)
Definition eio {A} (r : R A) : result Errno A := match r with Ok a => Ok a | Err _ => Err EIO end.

(** [read_file] *)
Definition fs_read_file (path : string) (w : World) : result Errno (option bytes) * World :=
  match fs_backend (w_fs w) with
  | BVolume v =>
      let '(r, v) := Volume_read_file (w_bucket w) v path in
      (eio r, with_fs w (set_backend (w_fs w) (BVolume v)))
  | BReplica rep =>
      let '(r, rep) := replica_read_file (w_bucket w) rep path in
      (eio r, with_fs w (set_backend (w_fs w) (BReplica rep)))
  end.

(** [read_range] *)
Definition fs_read_range (path : string) (offset len : Z) (w : World) : result Errno (option bytes) * World :=
  match fs_backend (w_fs w) with
  | BVolume v =>
      let '(r, v) := Volume_read_file_range (w_bucket w) v path offset len in
      (eio r, with_fs w (set_backend (w_fs w) (BVolume v)))
  | BReplica rep =>
      let '(r, rep) := replica_read_file_range (w_bucket w) rep path offset len in
      (eio r, with_fs w (set_backend (w_fs w) (BReplica rep)))
  end.

(** [truncate] *)
Definition fs_truncate (c : Call) (path : string) (size : Z) (w : World) : result Errno unit * World :=
  match fs_backend (w_fs w) with
  | BReplica _ => (Err EROFS, w)
  | BVolume v =>
      let '(r, v) := truncate (c_now c) (w_bucket w) v path size in
      (eio r, with_fs w (set_backend (w_fs w) (BVolume v)))
  end.

Definition new_handle (ino : Z) (w : World) : Z * World :=
  let f := w_fs w in
  let fh := fs_next_fh f in
  (fh, with_fs w (mkFs (fs_backend f) (fs_state f) (<[fh := mkHandle ino []]> (fs_handles f)) (u64_add fh 1))).

(** The deltas of a handle's extents. *)
Definition extent_deltas (path : string) (extents : list (Z * bytes)) : list Delta :=
  (λ e, DWrite path e.1 (DInline e.2)) <$> extents.

Definition flush_fh (c : Call) (fh : Z) (w : World) : result Errno unit * World :=
  match fs_handles (w_fs w) !! fh with
  | Some (mkHandle ino ((_ :: _) as extents)) =>
      let w := with_fs w (set_handles (w_fs w) (<[fh := mkHandle ino []]> (fs_handles (w_fs w)))) in
      match w_path_of w ino with
      | None => (Ok tt, w)
      | Some path =>
          fs_commit c (extent_deltas path extents ++ [DSetAttr path None None None (Some (c_now c))]) w
      end
  | _ => (Ok tt, w)
  end.

(** Assigns an inode to a path. *)
Definition assign (path : string) (w : World) : Z * World :=
  let '(i, st) := State_ino (fs_state (w_fs w)) path in (i, with_fs w (set_state (w_fs w) st)).

(** ** Handlers *)

(** [reply.entry(.., &self.attr_of(ino, &path).unwrap(), ..)]; [None] is the
    panic of [unwrap]. *)
Definition entry_reply (path : string) (w : World) : result Errno (option FileAttr) * World :=
  let '(i, w) := assign path w in (Ok (attr_of (w_image w) i path), w).

(** The prologue of the handlers that name a child: its path. *)
Definition child_path (parent : Z) (name : option string) (w : World) : result Errno string :=
  match name with
  | None => Err EINVAL
  | Some name =>
      match w_path_of w parent with
      | None => Err ENOENT
      | Some pp => if is_dir (w_image w) pp then Ok (path_join pp name) else Err ENOTDIR
      end
  end.

Definition lookup (parent : Z) (name : option string) (w : World) : result Errno (option FileAttr) * World :=
  match child_path parent name w with
  | Err e => (Err e, w)
  | Ok path =>
      match w_image w !! path with
      | None => (Err ENOENT, w)
      | Some _ => entry_reply path w
      end
  end.

(** [reply.attr] or [ENOENT] *)
Definition attr_reply (ino : Z) (path : string) (w : World) : result Errno FileAttr :=
  match attr_of (w_image w) ino path with Some a => Ok a | None => Err ENOENT end.

Definition getattr (ino : Z) (w : World) : result Errno FileAttr :=
  match w_path_of w ino with
  | None => Err ENOENT
  | Some path => attr_reply ino path w
  end.

(** [retain_mut] of a truncation to [size]. *)
Definition clip_extents (size : Z) (extents : list (Z * bytes)) : list (Z * bytes) :=
  omap (λ e, if size <=? e.1 then None else Some (e.1, take (Z.to_nat (size - e.1)) e.2)) extents.

Definition clip_handle (ino size : Z) (h : Handle) : Handle :=
  if h_ino h =? ino then mkHandle (h_ino h) (clip_extents size (h_extents h)) else h.

Definition setattr (c : Call) (ino : Z) (mode uid gid size : option Z) (mtime : option TimeOrNow) (w : World) :
    result Errno FileAttr * World :=
  match w_path_of w ino with
  | None => (Err ENOENT, w)
  | Some path =>
      let is_file := match w_image w !! path with Some (File _ _) => true | _ => false end in
      if negb (String.eqb path "/") && negb is_file && negb (is_some (w_image w !! path)) then (Err ENOENT, w)
      else
        match (match size with
               | None => (Ok tt, w)
               | Some size =>
                   if negb is_file then (Err EINVAL, w)
                   else
                     match fs_truncate c path size w with
                     | (Err e, w) => (Err e, w)
                     | (Ok _, w) =>
                         (Ok tt, with_fs w (set_handles (w_fs w) (clip_handle ino size <$> fs_handles (w_fs w))))
                     end
               end) with
        | (Err e, w) => (Err e, w)
        | (Ok _, w) =>
            let mtime_ms := (λ m, match m with SpecificTime t => ts_ms t | Now => c_now c end) <$> mtime in
            let mtime_ms := if is_some size && negb (is_some mtime_ms) then Some (c_now c) else mtime_ms in
            let '(r, w) :=
              if is_some mode || is_some uid || is_some gid || is_some mtime_ms
              then fs_commit c [DSetAttr path ((λ m, Z.land m 4095) <$> mode) uid gid mtime_ms] w
              else (Ok tt, w) in
            match r with
            | Err e => (Err e, w)
            | Ok _ => (attr_reply ino path w, w)
            end
        end
  end.

Definition readlink (ino : Z) (w : World) : result Errno bytes :=
  match w_path_of w ino with
  | None => Err ENOENT
  | Some path =>
      match w_image w !! path with
      | Some (Symlink target _) => Ok (as_bytes target)
      | Some _ => Err EINVAL
      | None => Err ENOENT
      end
  end.

(** A new node: its deltas are committed and the entry is sent. *)
Definition make_node (c : Call) (path : string) (deltas : list Delta) (w : World) :
    result Errno (option FileAttr) * World :=
  match w_image w !! path with
  | Some _ => (Err EEXIST, w)
  | None =>
      match fs_commit c deltas w with
      | (Err e, w) => (Err e, w)
      | (Ok _, w) => entry_reply path w
      end
  end.

Definition symlink (c : Call) (parent : Z) (link_name target : option string) (w : World) :
    result Errno (option FileAttr) * World :=
  match link_name, target with
  | Some _, Some target =>
      match child_path parent link_name w with
      | Err e => (Err e, w)
      | Ok path =>
          make_node c path
            [DSymlink path target; DSetAttr path None (Some (c_uid c)) (Some (c_gid c)) None] w
      end
  | _, _ => (Err EINVAL, w)
  end.

Definition link (w : World) : result Errno FileAttr * World := (Err ENOSYS, w).

(** [mode & !umask & 0o7777] *)
Definition masked (mode umask : Z) : Z := Z.land (Z.ldiff mode umask) 4095.

Definition mkdir (c : Call) (parent : Z) (name : option string) (mode umask : Z) (w : World) :
    result Errno (option FileAttr) * World :=
  match child_path parent name w with
  | Err e => (Err e, w)
  | Ok path =>
      make_node c path
        [DMkdir path; DSetAttr path (Some (masked mode umask)) (Some (c_uid c)) (Some (c_gid c)) None] w
  end.

(** The loop of [readdir] over the children. *)
Fixpoint list_children (dir : string) (kids : list (string * FileType)) (w : World) :
    list (Z * FileType * string) * World :=
  match kids with
  | [] => ([], w)
  | (name, kind) :: kids =>
      let '(cino, w) := assign (path_join dir name) w in
      let '(entries, w) := list_children dir kids w in ((cino, kind, name) :: entries, w)
  end.

Definition readdir_entries (ino : Z) (w : World) : result Errno (list (Z * FileType * string)) * World :=
  match w_path_of w ino with
  | None => (Err ENOENT, w)
  | Some dir =>
      if is_dir (w_image w) dir then
        let kids := btree_iter (children (w_image w) dir) in
        let '(pino, w) := assign (parent_path dir) w in
        let '(entries, w) := list_children dir kids w in
        (Ok ((ino, Directory, ".") :: (pino, Directory, "..") :: entries), w)
      else (Err ENOTDIR, w)
  end.

(** [reply.add] until it answers [false]; the buffer is fuser's. *)
Fixpoint fill {B : Type} (add : B → Z * Z * FileType * string → bool * B) (i : Z)
    (entries : list (Z * FileType * string)) (buf : B) : B :=
  match entries with
  | [] => buf
  | (cino, kind, name) :: entries =>
      let '(more, buf) := add buf (cino, i + 1, kind, name) in
      if more then fill add (i + 1) entries buf else buf
  end.

Definition readdir {B : Type} (add : B → Z * Z * FileType * string → bool * B) (buf : B) (ino : Z) (offset : nat)
    (w : World) : result Errno B * World :=
  match readdir_entries ino w with
  | (Err e, w) => (Err e, w)
  | (Ok entries, w) => (Ok (fill add (Z.of_nat offset) (drop offset entries) buf), w)
  end.

Definition create (c : Call) (parent : Z) (name : option string) (mode umask : Z) (w : World) :
    result Errno (FileAttr * Z) * World :=
  match child_path parent name w with
  | Err e => (Err e, w)
  | Ok path =>
      match (match w_image w !! path with
             | Some (File _ _) =>
                 let '(r, w) := fs_read_file path w in
                 (Ok (match r with Ok (Some b) => b | _ => [] end), w)
             | Some (Dir _) => (Err EISDIR, w)
             | Some (Symlink _ _) => (Err EEXIST, w)
             | None =>
                 let '(r, w) :=
                   fs_commit c
                     [DWrite path 0 (DInline []);
                      DSetAttr path (Some (masked mode umask)) (Some (c_uid c)) (Some (c_gid c)) None] w in
                 (match r with Ok _ => Ok [] | Err e => Err e end, w)
             end) with
      | (Err e, w) => (Err e, w)
      | (Ok content, w) =>
          let size := Z.of_nat (length content) in
          let '(i, w) := assign path w in
          let '(fh, w) := new_handle i w in
          let attr := default (mkAttr i size (div_ceil size 512) (c_now c) RegularFile (masked mode umask) 1
                                 (c_uid c) (c_gid c)) (attr_of (w_image w) i path) in
          (Ok (attr, fh), w)
      end
  end.

Definition open (ino : Z) (w : World) : result Errno Z * World :=
  match w_path_of w ino with
  | None => (Err ENOENT, w)
  | Some path =>
      match w_image w !! path with
      | Some (File _ _) => let '(fh, w) := new_handle ino w in (Ok fh, w)
      | Some (Dir _) => (Err EISDIR, w)
      | Some (Symlink _ _) => (Err ELOOP, w)
      | None => (Err ENOENT, w)
      end
  end.

(** One staged extent over the fetched range. *)
Definition overlay (offset : Z) (buf : bytes) (e : Z * bytes) : bytes :=
  let start := Z.to_nat (saturating_sub e.1 offset) in
  if (length buf <? start)%nat then buf
  else
    let stop := Nat.min (start + length e.2) (length buf) in
    take start buf ++ take (stop - start) e.2 ++ drop stop buf.

Definition read (ino fh offset size : Z) (w : World) : result Errno bytes * World :=
  match w_path_of w ino with
  | None => (Err ENOENT, w)
  | Some path =>
      match fs_read_range path offset size w with
      | (Err _, w) => (Err EIO, w)
      | (Ok None, w) => (Err ENOENT, w)
      | (Ok (Some buf), w) =>
          let extents := map_or [] h_extents (fs_handles (w_fs w) !! fh) in
          (Ok (fold_left (overlay offset) extents buf), w)
      end
  end.

Definition write (fh offset : Z) (data : bytes) (w : World) : result Errno Z * World :=
  match fs_handles (w_fs w) !! fh with
  | None => (Err EBADF, w)
  | Some h =>
      (Ok (Z.of_nat (length data)),
       with_fs w (set_handles (w_fs w)
         (<[fh := mkHandle (h_ino h) (h_extents h ++ [(offset, data)])]> (fs_handles (w_fs w)))))
  end.

Definition flush (c : Call) (fh : Z) (w : World) : result Errno unit * World := flush_fh c fh w.

Definition fsync (c : Call) (fh : Z) (w : World) : result Errno unit * World := flush_fh c fh w.

Definition release (c : Call) (fh : Z) (w : World) : result Errno unit * World :=
  let '(r, w) := flush_fh c fh w in
  (r, with_fs w (set_handles (w_fs w) (delete fh (fs_handles (w_fs w))))).

(** The prologue of [unlink] and [rmdir]: no check of the parent. *)
Definition named_path (parent : Z) (name : option string) (w : World) : result Errno string :=
  match name with
  | None => Err EINVAL
  | Some name =>
      match w_path_of w parent with
      | None => Err ENOENT
      | Some pp => Ok (path_join pp name)
      end
  end.

Definition unlink (c : Call) (parent : Z) (name : option string) (w : World) : result Errno unit * World :=
  match named_path parent name w with
  | Err e => (Err e, w)
  | Ok path =>
      match w_image w !! path with
      | Some (Dir _) => (Err EISDIR, w)
      | Some _ => fs_commit c [DRemove path] w
      | None => (Err ENOENT, w)
      end
  end.

Definition rmdir (c : Call) (parent : Z) (name : option string) (w : World) : result Errno unit * World :=
  match named_path parent name w with
  | Err e => (Err e, w)
  | Ok path =>
      match w_image w !! path with
      | Some (Dir _) =>
          if bool_decide (children (w_image w) path = ∅) then fs_commit c [DRemove path] w
          else (Err ENOTEMPTY, w)
      | _ => (Err ENOTDIR, w)
      end
  end.

(** The closure [kind] of [rename]: a symlink counts as a file. *)
Definition rename_kind (n : option Node) : option FileType :=
  match n with
  | Some (File _ _) | Some (Symlink _ _) => Some RegularFile
  | Some (Dir _) => Some Directory
  | None => None
  end.

(** The checks of [rename] on the target. *)
Definition rename_check (img : FsImage) (fk : FileType) (to : string) : result Errno unit :=
  match fk, rename_kind (img !! to) with
  | RegularFile, Some Directory => Err EISDIR
  | Directory, Some RegularFile => Err ENOTDIR
  | Directory, Some Directory => if bool_decide (children img to = ∅) then Ok tt else Err ENOTEMPTY
  | _, _ => Ok tt
  end.

Definition rename (c : Call) (parent : Z) (name : option string) (newparent : Z) (newname : option string)
    (flags : Z) (w : World) : result Errno unit * World :=
  if negb (flags =? 0) then (Err EINVAL, w)
  else
    match name, newname with
    | Some name, Some newname =>
        match w_path_of w parent, w_path_of w newparent with
        | Some from_dir, Some to_dir =>
            let from := path_join from_dir name in
            let to := path_join to_dir newname in
            match rename_kind (w_image w !! from) with
            | None => (Err ENOENT, w)
            | Some fk =>
                match rename_check (w_image w) fk to with
                | Err e => (Err e, w)
                | Ok _ =>
                    match fs_commit c [DRename from to] w with
                    | (Err e, w) => (Err e, w)
                    | (Ok _, w) =>
                        (Ok tt, with_fs w (set_state (w_fs w) (rename_subtree from to (fs_state (w_fs w)))))
                    end
                end
            end
        | _, _ => (Err ENOENT, w)
        end
    | _, _ => (Err EINVAL, w)
    end.

(** ** Extended attributes *)

Definition setxattr (c : Call) (ino : Z) (name : option string) (value : bytes) (w : World) :
    result Errno unit * World :=
  match w_path_of w ino with
  | None => (Err ENOENT, w)
  | Some path =>
      if negb (String.eqb path "/") && negb (is_some (w_image w !! path)) then (Err ENOENT, w)
      else
        match name with
        | None => (Err EINVAL, w)
        | Some name => fs_commit c [DSetXattr path name (Some value)] w
        end
  end.

Definition removexattr (c : Call) (ino : Z) (name : option string) (w : World) : result Errno unit * World :=
  match w_path_of w ino with
  | None => (Err ENOENT, w)
  | Some path =>
      match name with
      | None => (Err EINVAL, w)
      | Some name =>
          match w_image w !! path with
          | None => (Err ENOENT, w)
          | Some n =>
              if is_some (xattrs (node_meta n) !! name) then fs_commit c [DSetXattr path name None] w
              else (Err NO_XATTR, w)
          end
      end
  end.

(** A reply with a size, or with data that fits it. *)
Definition xattr_reply (size : Z) (v : bytes) : result Errno (Z + bytes) :=
  if size =? 0 then Ok (inl (Z.of_nat (length v)))
  else if size <? Z.of_nat (length v) then Err ERANGE else Ok (inr v).

Definition getxattr (ino : Z) (name : option string) (size : Z) (w : World) : result Errno (Z + bytes) :=
  match w_path_of w ino with
  | None => Err ENOENT
  | Some path =>
      match name with
      | None => Err EINVAL
      | Some name =>
          if negb (String.eqb path "/") && negb (is_some (w_image w !! path)) then Err ENOENT
          else
            match w_image w !! path ≫= (λ n, xattrs (node_meta n) !! name) with
            | None => Err NO_XATTR
            | Some v => xattr_reply size v
            end
      end
  end.

Definition listxattr (ino : Z) (size : Z) (w : World) : result Errno (Z + bytes) :=
  match w_path_of w ino with
  | None => Err ENOENT
  | Some path =>
      let names := (λ n, concat ((λ k, as_bytes k ++ [x00]) <$> btree_keys (xattrs (node_meta n)))) <$> w_image w !! path in
      match names with
      | None => if String.eqb path "/" then xattr_reply size [] else Err ENOENT
      | Some data => xattr_reply size data
      end
  end.
End handlers.
