(* ===== verification/FsTable.v ===== *)
(** * Inode tables of a mount

    What [State::ino] and [State::rename_subtree] keep: an inode number is
    assigned to one path at a time, and a rename moves the numbers of the
    renamed subtree with it. *)

From S2P Require Import Prelude Text Types Btree Image Fs ImageThms.
Local Open Scope Z_scope.

(** The number of a path leads back to it, and numbers come from the counter. *)
Record table_ok (st : State) : Prop := {
  to_sound p i : ino_of st !! p = Some i → path_of st !! i = Some p;
  to_range i : is_Some (path_of st !! i) → 1 ≤ i < next_ino st;
  to_next : 1 ≤ next_ino st;
}.

(** No number is reassigned. *)
Record extends (st st' : State) : Prop := {
  ex_path : path_of st ⊆ path_of st';
  ex_ino : ino_of st ⊆ ino_of st';
  ex_next : next_ino st ≤ next_ino st';
}.

#[global] Instance extends_refl : Reflexive extends.
Proof. intros st. by split. Qed.

#[global] Instance extends_trans : Transitive extends.
Proof. intros a b c [? ? ?] [? ? ?]. split; [by etrans..|lia]. Qed.

Lemma table_new : table_ok State_new.
Proof.
  split; unfold State_new; simpl.
  - intros p i [<- <-]%lookup_singleton_Some. by rewrite lookup_singleton_eq.
  - intros i [p [<- _]%lookup_singleton_Some]. lia.
  - lia.
Qed.

Lemma ino_ok st p i st' : table_ok st → next_ino st + 1 < U64 → State_ino st p = (i, st') →
  table_ok st' ∧ extends st st' ∧ ino_of st' !! p = Some i ∧ next_ino st' ≤ next_ino st + 1.
Proof.
  intros [Hs Hr Hn] Hu E. unfold State_ino in E. destruct (ino_of st !! p) as [j|] eqn:Ej.
  { injection E as <- <-. split_and!; [done..|lia]. }
  injection E as <- <-. assert (path_of st !! next_ino st = None) as Hfresh.
  { destruct (path_of st !! next_ino st) as [q|] eqn:Eq; [|done]. specialize (Hr (next_ino st) ltac:(eauto)). lia. }
  rewrite u64_add_small by lia. split_and!; [split| |..]; simpl; [..|by rewrite lookup_insert_eq|lia].
  - intros q j. destruct (decide (q = p)) as [->|Hne].
    + rewrite lookup_insert_eq. intros [= <-]. by rewrite lookup_insert_eq.
    + rewrite lookup_insert_ne by done. intros Hq%Hs. rewrite lookup_insert_ne; [done|]. intros <-. congruence.
  - intros j. destruct (decide (j = next_ino st)) as [->|Hne]; [lia|].
    rewrite lookup_insert_ne by done. intros Hj%Hr. lia.
  - lia.
  - split; simpl; [by apply insert_subseteq|by apply insert_subseteq|lia].
Qed.

(** ** Renames *)

Lemma remap_spec from to p q : remap from to p = Some q ↔
  p = from ∧ q = to ∨ below from p = true ∧ q = moved from to p.
Proof.
  unfold remap. destruct (String.eqb_spec p from) as [->|Hne].
  - split; [intros [= <-]; by left|]. intros [[_ ->]|[E%below_ne _]]; done.
  - unfold fmap, option_fmap, option_map. destruct (strip_prefix (from +:+ "/") p) as [r|] eqn:E.
    + apply strip_prefix_Some in E as ->. rewrite str_app_assoc, moved_below. split.
      * intros [= <-]. right. split; [|done]. apply below_iff. by exists r.
      * intros [[? _]|[_ ->]]; [|done]. by rewrite str_app_assoc in *.
    + split; [done|]. intros [[? _]|[[r ->]%below_iff _]]; [done|].
      by rewrite <-str_app_assoc, strip_prefix_app in E.
Qed.

Lemma remap_leaves from to p : is_Some (remap from to p) ↔ leaves from p.
Proof.
  unfold leaves. split.
  - intros [q [[-> _]|[? _]]%remap_spec]; auto.
  - intros [->|Hb]; eexists; apply remap_spec; auto.
Qed.

Lemma remap_inj from to p p' q : remap from to p = Some q → remap from to p' = Some q → p = p'.
Proof.
  rewrite !remap_spec. intros [[-> ->]|[Hb ->]] [[-> E]|[Hb' E]]; [done| | |by apply moved_inj in E].
  - by destruct (moved_not_to from to p' Hb').
  - by destruct (moved_not_to from to p Hb).
Qed.

Lemma remap_stays from to p q : apart from to → remap from to p = Some q → ¬ leaves from q.
Proof.
  intros Ha. rewrite remap_spec. intros [[-> ->]|[Hb ->]] [E|E].
  - by destruct Ha.
  - destruct Ha as (_ & ? & _). congruence.
  - by apply (moved_outside from to p Ha Hb).
  - destruct (moved_outside from to p Ha Hb). congruence.
Qed.

Section renames.
Context (from to : string).

(** The entries still to move have their old paths. *)
Record moving (l : list (string * Z)) (st : State) : Prop := {
  mv_nodup : NoDup l.*2;
  mv_path e : e ∈ l → path_of st !! e.2 = Some e.1;
  mv_some e : e ∈ l → is_Some (remap from to e.1);
}.

Lemma moving_step e l st : moving (e :: l) st → moving l (rename_entry from to st e).
Proof.
  intros [Hn Hp Hs]. rewrite fmap_cons in Hn. apply NoDup_cons in Hn as [Hni Hn].
  split; [done|..|intros; apply Hs; by right].
  intros x Hx. unfold rename_entry. destruct (remap from to e.1); [|apply Hp; by right]. simpl.
  rewrite lookup_insert_ne; [apply Hp; by right|]. intros E. apply Hni. rewrite E. by apply list_elem_of_fmap_2.
Qed.

Lemma table_step e l st : moving (e :: l) st → table_ok st → table_ok (rename_entry from to st e).
Proof.
  intros [_ Hp Hsome] [Hs Hr Hn]. specialize (Hp e ltac:(by left)). destruct (Hsome e ltac:(by left)) as [np Enp].
  unfold rename_entry. rewrite Enp. split; simpl; [..|done].
  - intros q i. destruct (decide (q = np)) as [->|Hq].
    + rewrite lookup_insert_eq. intros [= <-]. by rewrite lookup_insert_eq.
    + rewrite lookup_insert_ne by done. destruct (decide (q = e.1)) as [->|Hq1]; [by rewrite lookup_delete_eq|].
      rewrite lookup_delete_ne by done. intros Hi%Hs. rewrite lookup_insert_ne; [done|]. intros <-. congruence.
  - intros i. destruct (decide (i = e.2)) as [->|Hi]; [intros _; apply Hr; by eexists|].
    rewrite lookup_insert_ne by done. apply Hr.
Qed.

Lemma renames_ok l st : moving l st → table_ok st →
  let st' := fold_left (rename_entry from to) l st in
  table_ok st' ∧ next_ino st' = next_ino st
  ∧ (∀ p i, (p, i) ∈ l → path_of st' !! i = remap from to p)
  ∧ (∀ i, i ∉ l.*2 → path_of st' !! i = path_of st !! i).
Proof.
  revert st. induction l as [|e l IH]; intros st Hm Hok; simpl.
  { split_and!; [done..| |done]. intros p i Hin. by apply not_elem_of_nil in Hin. }
  destruct (IH _ (moving_step _ _ _ Hm) (table_step _ _ _ Hm Hok)) as (H1 & H2 & H3 & H4).
  destruct (mv_some _ _ Hm e ltac:(by left)) as [np Enp].
  pose proof (mv_nodup _ _ Hm) as Hn. rewrite fmap_cons in Hn. apply NoDup_cons in Hn as [Hni _].
  split_and!; [done|..].
  - rewrite H2. unfold rename_entry. by rewrite Enp.
  - intros p i [<-|Hin]%elem_of_cons; [|by apply H3]. simpl in *. rewrite H4 by done. unfold rename_entry.
    simpl. rewrite Enp. simpl. by rewrite lookup_insert_eq.
  - intros i Hi. rewrite not_elem_of_cons in Hi. destruct Hi as [Hne Hi]. rewrite H4 by done. unfold rename_entry.
    rewrite Enp. simpl. by rewrite lookup_insert_ne.
Qed.

Lemma moving_all st : table_ok st → moving (Fs.moved from to st) st.
Proof.
  intros [Hs _ _]. assert (∀ e, e ∈ Fs.moved from to st → ino_of st !! e.1 = Some e.2) as Hin.
  { intros [p i] Hin. apply list_elem_of_filter in Hin as [_ Hin]. by apply elem_of_map_to_list. }
  split.
  - apply NoDup_fmap_2_strong; [|apply NoDup_filter, NoDup_map_to_list].
    intros [p i] [q j] Hp%Hin%Hs Hq%Hin%Hs E. simpl in *. subst j. congruence.
  - intros e He. by apply Hs, Hin.
  - intros e He. apply list_elem_of_filter in He as [He _]. by destruct (remap from to e.1).
Qed.

Lemma moved_elem p i st : (p, i) ∈ Fs.moved from to st ↔ ino_of st !! p = Some i ∧ leaves from p.
Proof.
  unfold Fs.moved. rewrite list_elem_of_filter, elem_of_map_to_list, <-(remap_leaves from to). simpl.
  destruct (remap from to p); simpl; split; intros [? ?]; eauto; [done|by destruct H0].
Qed.
End renames.

Lemma rename_table from to st : table_ok st → table_ok (rename_subtree from to st)
  ∧ next_ino (rename_subtree from to st) = next_ino st.
Proof. intros Hok. by destruct (renames_ok from to _ st (moving_all from to st Hok) Hok) as (? & ? & _). Qed.

(** The number of a path leads to where the rename took it. *)
Lemma rename_path from to st p i : table_ok st → ino_of st !! p = Some i →
  path_of (rename_subtree from to st) !! i = Some (default p (remap from to p)).
Proof.
  intros Hok Hp. destruct (renames_ok from to _ st (moving_all from to st Hok) Hok) as (_ & _ & H3 & H4).
  fold (rename_subtree from to st) in *. destruct (remap from to p) as [q|] eqn:E; simpl.
  - rewrite <-E. apply H3, moved_elem. split; [done|]. apply (remap_leaves from to). by rewrite E.
  - rewrite H4; [by apply to_sound|]. intros ([p' i'] & -> & [Hp' Hl]%moved_elem)%list_elem_of_fmap. simpl in *.
    apply (to_sound _ Hok) in Hp, Hp'. rewrite Hp in Hp'. injection Hp' as <-.
    apply (remap_leaves from to) in Hl as [? ?]. congruence.
Qed.

(** The moved paths have their numbers. *)
Lemma rename_ino from to st p q i : table_ok st → apart from to → ino_of st !! p = Some i →
  remap from to p = Some q → ino_of (rename_subtree from to st) !! q = Some i.
Proof.
  intros Hok Ha Hp Hq. unfold rename_subtree.
  assert ((p, i) ∈ Fs.moved from to st) as Hin.
  { apply moved_elem. split; [done|]. apply (remap_leaves from to). by rewrite Hq. }
  assert (∀ e, e ∈ Fs.moved from to st → leaves from e.1) as Hl by (by intros [x j] [_ ?]%moved_elem).
  assert (NoDup (Fs.moved from to st).*1) as Hn.
  { apply NoDup_fmap_2_strong; [|apply NoDup_filter, NoDup_map_to_list].
    intros [x1 i1] [x2 i2] [H1 _]%moved_elem [H2 _]%moved_elem E. simpl in *. congruence. }
  assert (∀ l st, (∀ e, e ∈ l → leaves from e.1 ∧ e.1 ≠ p) → ino_of st !! q = Some i →
    ino_of (fold_left (rename_entry from to) l st) !! q = Some i) as Hkeep.
  { clear -Hq Ha. induction l as [|e l IH]; intros st Hl Hi; simpl; [done|].
    apply IH; [intros; apply Hl; by right|]. destruct (Hl e ltac:(by left)) as [Hle Hne]. unfold rename_entry.
    destruct (remap from to e.1) as [np|] eqn:Enp; [|done]. simpl.
    rewrite lookup_insert_ne, lookup_delete_ne; [done|..].
    - intros <-. by apply (remap_stays _ _ _ _ Ha Hq).
    - intros ->. by apply Hne, (remap_inj from to _ _ q). }
  cut (∀ l st, (p, i) ∈ l → (∀ e, e ∈ l → leaves from e.1) → NoDup l.*1 →
    ino_of (fold_left (rename_entry from to) l st) !! q = Some i); [by intros Hcut; apply Hcut|].
  clear Hin Hl Hn. induction l as [|e l IH]; intros st' Hin Hl Hn; [by apply not_elem_of_nil in Hin|].
  rewrite fmap_cons in Hn. apply NoDup_cons in Hn as [Hni Hn]. simpl.
  apply elem_of_cons in Hin as [<-|Hin]; [|apply IH; [done|by intros; apply Hl; right|done]].
  apply Hkeep.
  - intros e He. split; [apply Hl; by right|]. intros E. apply Hni. simpl. rewrite <-E. by apply list_elem_of_fmap_2.
  - unfold rename_entry. simpl. rewrite Hq. simpl. by rewrite lookup_insert_eq.
Qed.
