(* ===== verification/FsServe.v ===== *)
(** * Requests of a mount

    The requests fuser's session thread hands to the adapter, one at a time,
    and what every one of them keeps. *)

From S2P Require Import Prelude Text Slate Types Keys Kv Fork Store Bucket Btree Image Volume Replica Fs ImageThms FsTable.
Local Open Scope Z_scope.

(** One constructor per handler. *)
Inductive Request :=
| RLookup (parent : Z) (name : option string)
| RGetattr (ino : Z)
| RSetattr (ino : Z) (mode uid gid size : option Z) (mtime : option TimeOrNow)
| RReadlink (ino : Z)
| RSymlink (parent : Z) (link_name target : option string)
| RLink
| RMkdir (parent : Z) (name : option string) (mode umask : Z)
| RReaddir (ino : Z) (offset : nat)
| RCreate (parent : Z) (name : option string) (mode umask : Z)
| ROpen (ino : Z)
| RRead (ino fh offset size : Z)
| RWrite (fh offset : Z) (data : bytes)
| RFlush (fh : Z)
| RFsync (fh : Z)
| RRelease (fh : Z)
| RUnlink (parent : Z) (name : option string)
| RRmdir (parent : Z) (name : option string)
| RRename (parent : Z) (name : option string) (newparent : Z) (newname : option string) (flags : Z)
| RSetxattr (ino : Z) (name : option string) (value : bytes)
| RRemovexattr (ino : Z) (name : option string)
| RGetxattr (ino : Z) (name : option string) (size : Z)
| RListxattr (ino : Z) (size : Z).

Section serve.
Context `{SlateDb} `{Codecs} `{ObjectStore} `{FuseCodecs}.

(** The error of a reply. *)
Definition failed {A} (r : result Errno A) : option Errno :=
  match r with Ok _ => None | Err e => Some e end.

Definition outcome {A} (x : result Errno A * World) : option Errno * World := (failed x.1, x.2).

(** The error a request is answered with, if any, and the world after it. *)
Definition serve (c : Call) (r : Request) (w : World) : option Errno * World :=
  match r with
  | RLookup parent name => outcome (lookup parent name w)
  | RGetattr ino => (failed (getattr ino w), w)
  | RSetattr ino mode uid gid size mtime => outcome (setattr c ino mode uid gid size mtime w)
  | RReadlink ino => (failed (readlink ino w), w)
  | RSymlink parent name target => outcome (symlink c parent name target w)
  | RLink => outcome (link w)
  | RMkdir parent name mode umask => outcome (mkdir c parent name mode umask w)
  | RReaddir ino offset => outcome (readdir (λ buf e, (true, buf ++ [e])) [] ino offset w)
  | RCreate parent name mode umask => outcome (create c parent name mode umask w)
  | ROpen ino => outcome (open ino w)
  | RRead ino fh offset size => outcome (read ino fh offset size w)
  | RWrite fh offset data => outcome (write fh offset data w)
  | RFlush fh => outcome (flush c fh w)
  | RFsync fh => outcome (fsync c fh w)
  | RRelease fh => outcome (release c fh w)
  | RUnlink parent name => outcome (unlink c parent name w)
  | RRmdir parent name => outcome (rmdir c parent name w)
  | RRename parent name newparent newname flags => outcome (rename c parent name newparent newname flags w)
  | RSetxattr ino name value => outcome (setxattr c ino name value w)
  | RRemovexattr ino name => outcome (removexattr c ino name w)
  | RGetxattr ino name size => (failed (getxattr ino name size w), w)
  | RListxattr ino size => (failed (listxattr ino size w), w)
  end.

Definition w_state (w : World) : State := fs_state (w_fs w).

(** ** What the helpers leave alone *)

Lemma commit_state c ds w : w_state (fs_commit c ds w).2 = w_state w
  ∧ fs_handles (w_fs (fs_commit c ds w).2) = fs_handles (w_fs w).
Proof.
  unfold fs_commit. destruct (fs_backend (w_fs w)); [|done].
  by destruct (Volume_commit _ _ _ _ _ _) as [[[? ?] ?] ?].
Qed.

Lemma truncate_state c p n w : w_state (fs_truncate c p n w).2 = w_state w.
Proof. unfold fs_truncate. destruct (fs_backend (w_fs w)); [|done]. by destruct (truncate _ _ _ _ _). Qed.

Lemma read_file_state p w : w_state (fs_read_file p w).2 = w_state w.
Proof.
  unfold fs_read_file. destruct (fs_backend (w_fs w)); [by destruct (Volume_read_file _ _ _)|].
  by destruct (replica_read_file _ _ _).
Qed.

Lemma read_range_state p o n w : w_state (fs_read_range p o n w).2 = w_state w.
Proof.
  unfold fs_read_range. destruct (fs_backend (w_fs w)); [by destruct (Volume_read_file_range _ _ _ _ _)|].
  by destruct (replica_read_file_range _ _ _ _ _).
Qed.

Lemma flush_state c fh w : w_state (flush_fh c fh w).2 = w_state w.
Proof.
  unfold flush_fh. destruct (fs_handles (w_fs w) !! fh) as [[ino [|e es]]|]; [done| |done]. cbv zeta.
  destruct (w_path_of _ _); [|done]. by rewrite (proj1 (commit_state _ _ _)).
Qed.

(** ** Inode tables *)

(** What every request but a rename does to the table. *)
Definition grows_table (w w' : World) : Prop :=
  table_ok (w_state w) → next_ino (w_state w) + Z.of_nat (size (w_image w)) + 2 < U64 →
  table_ok (w_state w') ∧ extends (w_state w) (w_state w').

Lemma grows_same w w' : w_state w' = w_state w → grows_table w w'.
Proof. unfold grows_table. intros ->. done. Qed.

Lemma assign_grows p w0 w : w_state w = w_state w0 → grows_table w0 (assign p w).2.
Proof.
  intros E Hok Hu. unfold assign. destruct (State_ino _ p) as [i st'] eqn:Ei. cbn.
  destruct (ino_ok _ _ _ _ Hok ltac:(lia) (eq_trans (f_equal (λ s, State_ino s p) (eq_sym E)) Ei)) as (? & ? & _). done.
Qed.

Lemma entry_grows p w0 w : w_state w = w_state w0 → grows_table w0 (entry_reply p w).2.
Proof.
  intros E. pose proof (assign_grows p w0 w E) as Hg. unfold entry_reply. by destruct (assign p w).
Qed.

Lemma handle_grows i w0 w : grows_table w0 w → grows_table w0 (new_handle i w).2.
Proof. done. Qed.

Lemma make_node_grows c p ds w : grows_table w (make_node c p ds w).2.
Proof.
  unfold make_node. destruct (w_image w !! p); [by apply grows_same|].
  pose proof (commit_state c ds w) as [E _]. destruct (fs_commit c ds w) as [[u|e] w'];
    [by apply entry_grows|by apply grows_same].
Qed.

Lemma setattr_state c ino mode uid gid size mtime w : w_state (setattr c ino mode uid gid size mtime w).2 = w_state w.
Proof.
  assert (∀ mt w0 path r w1,
    (if is_some mode || is_some uid || is_some gid || is_some mt
     then fs_commit c [DSetAttr path ((λ m, Z.land m 4095) <$> mode) uid gid mt] w0 else (Ok tt, w0)) = (r, w1) →
    w_state w1 = w_state w0) as Hset.
  { intros mt w0 path r w1 E. destruct (_ || _); [|by injection E as _ <-].
    pose proof (commit_state c [DSetAttr path ((λ m, Z.land m 4095) <$> mode) uid gid mt] w0) as [Es _].
    by rewrite E in Es. }
  unfold setattr. destruct (w_path_of w ino) as [path|]; [|done]. cbv zeta. destruct (_ && _); [done|].
  destruct size as [n|].
  - destruct (negb _); [done|]. pose proof (truncate_state c path n w) as Et.
    destruct (fs_truncate c path n w) as [[u|e] w1]; [|done]. cbn [snd] in Et.
    destruct (if _ || _ then _ else _) as [[u'|e'] w2] eqn:E2; apply Hset in E2; cbn [snd]; rewrite E2; exact Et.
  - destruct (if _ || _ then _ else _) as [[u'|e'] w2] eqn:E2; by apply Hset in E2.
Qed.

Lemma create_grows c parent name mode umask w : grows_table w (create c parent name mode umask w).2.
Proof.
  unfold create. destruct (child_path parent name w) as [path|e]; [|by apply grows_same].
  set (x := match w_image w !! path with Some (File _ _) => _ | Some (Dir _) => _ | _ => _ end).
  assert (w_state x.2 = w_state w) as Hx.
  { subst x. destruct (w_image w !! path) as [[]|]; [|done..|].
    - pose proof (read_file_state path w). by destruct (fs_read_file path w).
    - match goal with |- context [fs_commit c ?ds w] => pose proof (commit_state c ds w) as [E _];
        destruct (fs_commit c ds w) end. exact E. }
  destruct x as [[content|e] w1]; [|by apply grows_same].
  pose proof (assign_grows path w w1 Hx) as Hg. destruct (assign path w1) as [i w2].
  pose proof (handle_grows i w w2 Hg) as Hh. destruct (new_handle i w2) as [fh w3]. exact Hh.
Qed.

(** *** Directory listings *)

Lemma children_size l m prefix : (size (fold_left (child_entry prefix) l m) ≤ size m + length l)%nat.
Proof.
  revert m. induction l as [|e l IH]; intros m; simpl; [lia|]. etrans; [apply IH|].
  assert (size (child_entry prefix m e) ≤ S (size m))%nat; [|lia]. unfold child_entry.
  destruct (strip_prefix prefix e.1) as [r|]; [|lia]. destruct (_ || _); [lia|]. rewrite map_size_insert.
  unfold id. destruct (m !! r); simpl; lia.
Qed.

Lemma btree_iter_length {V} (m : gmap string V) : length (btree_iter m) = size m.
Proof. unfold btree_iter. by rewrite merge_sort_Permutation, length_map_to_list. Qed.

Lemma children_length img dir : (length (btree_iter (children img dir)) ≤ size img)%nat.
Proof.
  rewrite btree_iter_length. unfold children. etrans; [apply children_size|].
  by rewrite map_size_empty, btree_iter_length.
Qed.

(** An entry of a listing has the number of its path. *)
Definition numbered_entry (st : State) (dir : string) (e : Z * FileType * string) : Prop :=
  ino_of st !! path_join dir e.2 = Some e.1.1.

Lemma assign_ok p w i w' : table_ok (w_state w) → next_ino (w_state w) + 1 < U64 → assign p w = (i, w') →
  table_ok (w_state w') ∧ extends (w_state w) (w_state w') ∧ ino_of (w_state w') !! p = Some i
  ∧ next_ino (w_state w') ≤ next_ino (w_state w) + 1
  ∧ w_image w' = w_image w ∧ w_bucket w' = w_bucket w ∧ w_db w' = w_db w ∧ fs_backend (w_fs w') = fs_backend (w_fs w).
Proof.
  intros Hok Hu E. unfold assign in E. destruct (State_ino _ p) as [j st'] eqn:Ei. injection E as <- <-.
  destruct (ino_ok _ _ _ _ Hok Hu Ei) as (? & ? & ? & ?). done.
Qed.

Lemma list_children_ok dir kids w es w' :
  table_ok (w_state w) → next_ino (w_state w) + Z.of_nat (length kids) < U64 → list_children dir kids w = (es, w') →
  table_ok (w_state w') ∧ extends (w_state w) (w_state w')
  ∧ (λ e, (e.2, e.1.2)) <$> es = kids ∧ Forall (numbered_entry (w_state w') dir) es.
Proof.
  revert w es. induction kids as [|[name kind] kids IH]; intros w es Hok Hu E; cbn [list_children] in E.
  { injection E as <- <-. by split_and!. }
  destruct (assign (path_join dir name) w) as [cino w1] eqn:Ea.
  destruct (list_children dir kids w1) as [es' w2] eqn:El. injection E as <- <-. cbn [length] in Hu.
  destruct (assign_ok _ _ _ _ Hok ltac:(lia) Ea) as (Hok1 & Hex1 & Hi & Hn & _).
  destruct (IH w1 es' Hok1 ltac:(lia) El) as (Hok2 & Hex2 & Hk & Hall).
  split_and!; [done|by etrans|by rewrite fmap_cons, Hk|]. constructor; [|done]. unfold numbered_entry. cbn [fst snd].
  by apply (lookup_weaken _ _ _ _ Hi), ex_ino.
Qed.

Lemma readdir_entries_ok ino w es w' :
  table_ok (w_state w) → next_ino (w_state w) + Z.of_nat (size (w_image w)) + 2 < U64 →
  readdir_entries ino w = (Ok es, w') →
  table_ok (w_state w') ∧ extends (w_state w) (w_state w')
  ∧ ∃ dir pino kids, w_path_of w ino = Some dir ∧ is_dir (w_image w) dir = true
    ∧ es = (ino, Directory, ".") :: (pino, Directory, "..") :: kids
    ∧ ino_of (w_state w') !! parent_path dir = Some pino
    ∧ (λ e, (e.2, e.1.2)) <$> kids = btree_iter (children (w_image w) dir)
    ∧ Forall (numbered_entry (w_state w') dir) kids.
Proof.
  intros Hok Hu E. unfold readdir_entries in E. destruct (w_path_of w ino) as [dir|] eqn:Ep; [|done].
  destruct (is_dir (w_image w) dir) eqn:Ed; [|done]. cbv zeta in E.
  destruct (assign (parent_path dir) w) as [pino w1] eqn:Ea.
  destruct (list_children dir _ w1) as [kids w2] eqn:El. injection E as <- <-.
  destruct (assign_ok _ _ _ _ Hok ltac:(lia) Ea) as (Hok1 & Hex1 & Hi & Hn & _).
  pose proof (children_length (w_image w) dir) as Hlen.
  assert (next_ino (w_state w1) + Z.of_nat (length (btree_iter (children (w_image w) dir))) < U64) as Hu1 by lia.
  destruct (list_children_ok _ _ _ _ _ Hok1 Hu1 El) as (Hok2 & Hex2 & Hk & Hall).
  split_and!; [done|by etrans|]. exists dir, pino, kids. split_and!; [done..| |done|done].
  by apply (lookup_weaken _ _ _ _ Hi), ex_ino.
Qed.

Lemma readdir_grows {B} add (buf : B) ino offset w : grows_table w (readdir add buf ino offset w).2.
Proof.
  unfold readdir. destruct (readdir_entries ino w) as [[es|e] w'] eqn:E.
  - intros Hok Hu. by destruct (readdir_entries_ok _ _ _ _ Hok Hu E) as (? & ? & _).
  - assert (w' = w) as ->; [|by apply grows_same]. unfold readdir_entries in E.
    destruct (w_path_of w ino); [|by injection E]. destruct (is_dir _ _); [|by injection E].
    destruct (assign _ _), (list_children _ _ _). done.
Qed.

(** *** All requests *)

Lemma rename_state c parent name newparent newname flags w w' r :
  rename c parent name newparent newname flags w = (r, w') →
  w_state w' = w_state w ∨ ∃ from to, w_state w' = rename_subtree from to (w_state w).
Proof.
  unfold rename. destruct (negb _); [by intros [= _ <-]; left|].
  destruct name as [n|], newname as [n'|]; try by intros [= _ <-]; left.
  destruct (w_path_of w parent) as [p|], (w_path_of w newparent) as [p'|]; try by intros [= _ <-]; left.
  cbv zeta. destruct (rename_kind _); [|by intros [= _ <-]; left].
  destruct (rename_check _ _ _); [|by intros [= _ <-]; left].
  match goal with |- context [fs_commit c ?ds w] => pose proof (commit_state c ds w) as [E _];
    destruct (fs_commit c ds w) as [[|] w1] end; intros [= _ <-]; cbn [snd] in E; [|by left].
  right. do 2 eexists. cbn. unfold w_state in E. by rewrite E.
Qed.

Definition is_rename (r : Request) : bool := match r with RRename _ _ _ _ _ => true | _ => false end.

Lemma serve_grows c r w : is_rename r = false → grows_table w (serve c r w).2.
Proof.
  intros Hr. destruct r; try done; cbn [serve outcome fst snd]; try by apply grows_same.
  - unfold lookup. destruct (child_path _ _ _); [|by apply grows_same].
    destruct (w_image w !! _); [by apply entry_grows|by apply grows_same].
  - apply grows_same, setattr_state.
  - unfold symlink. destruct link_name, target; try by apply grows_same.
    destruct (child_path _ _ _); [apply make_node_grows|by apply grows_same].
  - unfold mkdir. destruct (child_path _ _ _); [apply make_node_grows|by apply grows_same].
  - apply readdir_grows.
  - apply create_grows.
  - apply grows_same. unfold open. destruct (w_path_of w ino); [|done]. by destruct (w_image w !! _) as [[]|].
  - apply grows_same. unfold read. destruct (w_path_of w ino) as [p|]; [|done].
    match goal with |- context [fs_read_range p ?o ?n w] => pose proof (read_range_state p o n w) end.
    by destruct (fs_read_range _ _ _ _) as [[[]|] ?].
  - apply grows_same. unfold write. by destruct (fs_handles (w_fs w) !! fh).
  - apply grows_same, flush_state.
  - apply grows_same, flush_state.
  - apply grows_same. unfold release. pose proof (flush_state c fh w). by destruct (flush_fh c fh w).
  - apply grows_same. unfold unlink. destruct (named_path _ _ _); [|done].
    destruct (w_image w !! _) as [[]|]; try done; apply commit_state.
  - apply grows_same. unfold rmdir. destruct (named_path _ _ _); [|done].
    destruct (w_image w !! _) as [[]|]; try done. destruct (bool_decide _); [apply commit_state|done].
  - apply grows_same. unfold setxattr. destruct (w_path_of w ino); [|done]. destruct (_ && _); [done|].
    destruct name; [apply commit_state|done].
  - apply grows_same. unfold removexattr. destruct (w_path_of w ino); [|done]. destruct name; [|done].
    destruct (w_image w !! _); [|done]. destruct (is_some _); [apply commit_state|done].
Qed.

Lemma serve_table c r w :
  table_ok (w_state w) → next_ino (w_state w) + Z.of_nat (size (w_image w)) + 2 < U64 →
  table_ok (w_state (serve c r w).2).
Proof.
  intros Hok Hu. destruct (is_rename r) eqn:Hr; [|by apply serve_grows].
  destruct r; try done. cbn [serve outcome snd].
  destruct (rename c parent name newparent newname flags w) as [r w'] eqn:E. cbn [snd].
  destruct (rename_state _ _ _ _ _ _ _ _ _ E) as [->|(from & to & ->)]; [done|].
  by apply rename_table.
Qed.
End serve.
