(* ===== verification/FsThms.v ===== *)
(** * Theorems about a mount

    Inode numbers are stable, a rename takes them along, listings are exact,
    replica mounts change nothing, and whatever requests a mount served, a new
    mount of the volume has its image. *)

From S2P Require Import Prelude Text Slate Types Keys Kv Fork Store Batch Append Wf Commit.
From S2P Require Import Appended Ops Purge History Txn Invariant Samples AppendThms ForkThms SnapshotThms.
From S2P Require Import Frames Bucket Btree Image Volume Replica Fs ImageThms VolumeThms CommitThms FsTable FsServe.
Local Open Scope Z_scope.

Section runs.
Context `{SlateDb} `{Codecs} `{ObjectStore} `{FuseCodecs}.

(** Requests served one after another, each under the condition [P]. *)
Inductive run (P : Call → Request → World → Prop) (w : World) : World → Prop :=
| run_nil : run P w w
| run_step c r w' : run P w w' → P c r w' → run P w (serve c r w').2.

(** There are numbers left for what a request may see. *)
Definition ino_room (w : World) : Prop := next_ino (w_state w) + Z.of_nat (size (w_image w)) + 2 < U64.

Lemma run_table w w' : run (λ _ _, ino_room) w w' → table_ok (w_state w) → table_ok (w_state w').
Proof. intros Hr Hok. induction Hr as [|c r w' _ IH Hroom]; [done|]. by apply serve_table. Qed.

Lemma run_extends w w' : run (λ _ r w, ino_room w ∧ is_rename r = false) w w' → table_ok (w_state w) →
  table_ok (w_state w') ∧ extends (w_state w) (w_state w').
Proof.
  intros Hr Hok. induction Hr as [|c r w' _ [Hok' Hex] [Hroom Hn]]; [done|].
  destruct (serve_grows c r w' Hn Hok' Hroom) as [? ?]. split; [done|by etrans].
Qed.

(** C18: inode numbers identify paths: whatever requests a mount served, the
    number of a path leads back to that path, so no two paths share one, and
    every number came from the counter; between renames, numbers once given
    out keep their paths. *)
Theorem inodes_stable backend b d w :
  run (λ _ _, ino_room) (mkWorld (with_backend backend) b d) w →
  table_ok (w_state w)
  ∧ ∀ w', run (λ _ r w, ino_room w ∧ is_rename r = false) w w' → extends (w_state w) (w_state w').
Proof.
  intros Hr. assert (table_ok (w_state w)) as Hok by (apply (run_table _ _ Hr), table_new).
  split; [done|]. intros w' Hr'. by apply run_extends.
Qed.

(** ** Commits of a mount *)

Lemma fold_mutate now ds v :
  fold_left (mutate now) ds v = mkVolume (vol v) (token v) (fold_left (FsImage_apply now) ds (image v)) (v_tail v)
    (pending v ++ ds) (v_blocks v).
Proof.
  revert v. induction ds as [|x ds IH]; intros v; simpl; [rewrite app_nil_r; by destruct v|].
  rewrite IH. simpl. by rewrite <-app_assoc.
Qed.

Definition is_write (d : Delta) : bool := match d with DWrite _ _ _ => true | _ => false end.

Lemma upgrade_unwritten b im C ds : Forall (λ d, is_write d = false) ds → upgrade_loop b im C ds = ([], ds).
Proof.
  intros Hd. induction Hd as [|d ds Hd Hds IH]; [done|]. by destruct d; cbn [upgrade_loop]; rewrite IH.
Qed.

Lemma upgraded_unwritten now im ds : Forall (λ d, is_write d = false) ds → upgraded_image now im ds = im.
Proof.
  intros Hd. revert im. induction Hd as [|d ds Hd Hds IH]; intros im; [done|]. unfold upgraded_image in *.
  simpl. destruct d; try done; apply IH.
Qed.

(** Deltas that write no file reach the image as they are. *)
Lemma commit_unwritten c ds w v r w' :
  fs_backend (w_fs w) = BVolume v → pending v = [] → Forall (λ d, is_write d = false) ds →
  fs_commit c ds w = (r, w') → w_image w' = fold_left (FsImage_apply (c_now c)) ds (w_image w).
Proof.
  intros Hv Hp Hd E. unfold fs_commit in E. rewrite Hv, fold_mutate, Hp in E. unfold w_image, fs_image at 2. rewrite Hv.
  unfold Volume_commit in E. cbn [app pending image] in E. destruct ds as [|x ds]; [by injection E as <- <-|].
  rewrite upgrade_unwritten in E by done. cbn [upload_all] in E. rewrite upgraded_unwritten in E by done.
  destruct (append_with_token _ _ _ _ _ _ _) as [[info|e] d1]; by injection E as <- <-.
Qed.

(** Committed or not, nothing in the image goes away. *)
Lemma upgraded_keeps now im ds p : is_Some (im !! p) → is_Some (upgraded_image now im ds !! p).
Proof.
  revert im. induction ds as [|d ds IH]; intros im Hp; [done|]. unfold upgraded_image. simpl.
  destruct (is_block_write d) eqn:E; [|by apply IH]. destruct d as [q off [x|x]| | | | | |]; try done.
  apply IH. cbn [FsImage_apply]. destruct (decide (p = q)) as [->|Hne];
    [rewrite lookup_insert_eq; by eexists|by rewrite lookup_insert_ne].
Qed.

Lemma commit_keeps c ds w r w' p :
  fs_commit c ds w = (Ok r, w') →
  is_Some (fold_left (FsImage_apply (c_now c)) ds (w_image w) !! p) → is_Some (w_image w' !! p).
Proof.
  unfold fs_commit. intros E. unfold w_image, fs_image at 1. destruct (fs_backend (w_fs w)) as [v|]; [|done].
  rewrite fold_mutate in E. intros Hp. unfold Volume_commit in E. cbn [pending image] in E.
  destruct (pending v ++ ds); [by injection E as <- <-|].
  destruct (upgrade_loop _ _ _ _) as [us upg]. destruct (upload_all _ _) as [[|] b1]; [|done].
  destruct (append_with_token _ _ _ _ _ _ _) as [[info|e] d1]; [|done]. injection E as <- <-.
  by apply upgraded_keeps.
Qed.

(** ** Entry replies *)

Lemma attr_some img i p : is_Some (img !! p) → is_Some (attr_of img i p).
Proof. intros [n Hn]. unfold attr_of. destruct (String.eqb p "/"); [by eexists|]. rewrite Hn. destruct n; by eexists. Qed.

Lemma entry_some p w : is_Some (w_image w !! p) → (entry_reply p w).1 ≠ Ok None.
Proof.
  intros Hp. unfold entry_reply. destruct (assign p w) as [i w'] eqn:E.
  assert (w_image w' = w_image w) as -> by (unfold assign in E; destruct (State_ino _ _); by injection E as _ <-).
  destruct (attr_some (w_image w) i p Hp) as [a ->]. done.
Qed.

Lemma make_node_some c p ds w :
  is_Some (fold_left (FsImage_apply (c_now c)) ds (w_image w) !! p) → (make_node c p ds w).1 ≠ Ok None.
Proof.
  intros Hp. unfold make_node. destruct (w_image w !! p); [done|].
  destruct (fs_commit c ds w) as [[u|e] w'] eqn:E; [|done]. apply entry_some. by eapply commit_keeps.
Qed.

Lemma meta_mut_some m p q f : is_Some (m !! p) → is_Some (meta_mut m q f !! p).
Proof.
  intros Hp. unfold meta_mut. destruct (m !! q) as [n|]; [|done]. destruct (decide (p = q)) as [->|Hne];
    [rewrite lookup_insert_eq; by eexists|by rewrite lookup_insert_ne].
Qed.

(** The replies that carry an entry always have its attributes: the
    [unwrap] on them never panics, in whatever state the mount is. *)
Theorem entries_have_attributes c parent name target mode umask w :
  (lookup parent name w).1 ≠ Ok None ∧ (mkdir c parent name mode umask w).1 ≠ Ok None
  ∧ (symlink c parent name target w).1 ≠ Ok None.
Proof.
  split_and!.
  - unfold lookup. destruct (child_path _ _ _) as [p|]; [|done].
    destruct (w_image w !! p) eqn:E; [|done]. apply entry_some. by eexists.
  - unfold mkdir. destruct (child_path _ _ _) as [p|]; [|done]. apply make_node_some. cbn [fold_left].
    apply meta_mut_some. cbn [FsImage_apply]. destruct (w_image w !! p) eqn:E; [by rewrite E; eexists|].
    rewrite lookup_insert_eq. by eexists.
  - unfold symlink. destruct name as [n|], target as [t|]; try done.
    destruct (child_path _ _ _) as [p|]; [|done]. apply make_node_some. cbn [fold_left].
    apply meta_mut_some. cbn [FsImage_apply]. rewrite lookup_insert_eq. by eexists.
Qed.

(** ** Renames *)

(** The node a number stands for. *)
Definition node_at (w : World) (i : Z) : option Node := w_path_of w i ≫= λ p, w_image w !! p.

(** A rename that succeeds committed its delta and moved the table. *)
Lemma rename_effect c parent name newparent newname flags w w' from_dir to_dir :
  w_path_of w parent = Some from_dir → w_path_of w newparent = Some to_dir →
  rename c parent (Some name) newparent (Some newname) flags w = (Ok tt, w') →
  let from := path_join from_dir name in
  let to := path_join to_dir newname in
  ∃ w1, fs_commit c [DRename from to] w = (Ok tt, w1)
    ∧ w' = with_fs w1 (set_state (w_fs w1) (rename_subtree from to (w_state w))).
Proof.
  intros Hf Ht E. unfold rename in E. destruct (negb _); [done|]. rewrite Hf, Ht in E. cbv zeta in *.
  destruct (rename_kind _) as [fk|]; [|done]. destruct (rename_check _ _ _); [|done].
  pose proof (commit_state c [DRename (path_join from_dir name) (path_join to_dir newname)] w) as [Es _].
  destruct (fs_commit _ _ _) as [[[]|] w1] eqn:Ec; [|done]. injection E as <-. exists w1. split; [done|].
  cbn [snd] in Es. unfold w_state in *. by rewrite <-Es.
Qed.

(** C19: a rename keeps the identity of nodes: afterwards the number of every
    node (but the one the rename replaced, and what was below it) stands for
    the same node at the path the rename gave it, and open handles are as they
    were, so a dirty handle flushes to the moved file.  Neither path of the
    rename is the other or lies under it, nothing an earlier commit failed to
    store is pending, and the number is the one the table gives the path. *)
Theorem rename_keeps_nodes c parent name newparent newname flags w w' v from_dir to_dir p i n :
  let from := path_join from_dir name in
  let to := path_join to_dir newname in
  table_ok (w_state w) → fs_backend (w_fs w) = BVolume v → pending v = [] → apart from to →
  w_path_of w parent = Some from_dir → w_path_of w newparent = Some to_dir →
  rename c parent (Some name) newparent (Some newname) flags w = (Ok tt, w') →
  ino_of (w_state w) !! p = Some i → w_image w !! p = Some n → p ≠ to → below to p = false →
  node_at w' i = Some n ∧ w_path_of w' i = Some (default p (remap from to p))
  ∧ fs_handles (w_fs w') = fs_handles (w_fs w).
Proof.
  intros from to Hok Hv Hp Ha Hf Ht E Hi Hn Hto Hbelow.
  destruct (rename_effect _ _ _ _ _ _ _ _ _ _ Hf Ht E) as (w1 & Ec & ->). fold from to in Ec |- *.
  pose proof (commit_unwritten c [DRename from to] w v _ _ Hv Hp ltac:(by repeat constructor) Ec) as Him.
  pose proof (commit_state c [DRename from to] w) as [_ Hh]. rewrite Ec in Hh.
  pose proof (rename_path from to (w_state w) p i Hok Hi) as Hpath.
  split_and!; [|exact Hpath|exact Hh]. unfold node_at, w_path_of. cbn. rewrite Hpath. simpl.
  change (w_image w1 !! default p (remap from to p) = Some n). rewrite Him. cbn [fold_left].
  destruct (remap from to p) as [q|] eqn:Eq; cbn [default from_option id].
  - destruct (rename_lookup (w_image w) from to Ha (c_now c) q) as (_ & Harr & _). apply Harr.
    exists p. split; [done|]. by apply remap_spec.
  - destruct (rename_lookup (w_image w) from to Ha (c_now c) p) as (_ & _ & Hstay). rewrite Hstay; [done|..].
    + intros Hl%(remap_leaves from to). rewrite Eq in Hl. by destruct Hl.
    + intros n' (p' & _ & [[-> ->]|[[r ->]%below_iff ->]]); [done|]. rewrite moved_below in Hbelow.
      assert (below to (to +:+ "/" +:+ r) = true) by (apply below_iff; by exists r). congruence.
Qed.

(** ** Listings *)

Lemma path_join_prefix dir r : path_join dir r = (if String.eqb dir "/" then "/" else dir +:+ "/") +:+ r.
Proof. unfold path_join. destruct (String.eqb dir "/"); [done|]. by rewrite str_app_assoc. Qed.

Lemma child_fold prefix l r k : NoDup l.*1 →
  fold_left (child_entry prefix) l ∅ !! r = Some k ↔
  r ≠ "" ∧ slash_free r ∧ ∃ n, (prefix +:+ r, n) ∈ l ∧ kind_of n = k.
Proof.
  revert k. induction l as [|[p n] l IH] using rev_ind; intros k Hn; simpl.
  { rewrite lookup_empty. split; [done|]. intros (_ & _ & n & Hin & _). by apply not_elem_of_nil in Hin. }
  rewrite fmap_app in Hn. apply NoDup_app in Hn as (Hn & Hdis & _). specialize (IH k Hn).
  rewrite fold_left_app. cbn [fold_left]. set (out := fold_left (child_entry prefix) l ∅) in *.
  unfold child_entry. cbn [fst snd].
  assert ((∃ n', (prefix +:+ r, n') ∈ l ++ [(p, n)] ∧ kind_of n' = k) ↔
    (∃ n', (prefix +:+ r, n') ∈ l ∧ kind_of n' = k) ∨ p = prefix +:+ r ∧ kind_of n = k) as ->.
  { setoid_rewrite elem_of_app. setoid_rewrite list_elem_of_singleton. split.
    - intros (n' & [?|[= <- <-]] & ?); eauto.
    - intros [(n' & ? & ?)|[-> ?]]; eauto. }
  destruct (strip_prefix prefix p) as [r'|] eqn:Es.
  - apply strip_prefix_Some in Es. destruct (String.eqb_spec r' "") as [->|Hr']; simpl.
    { rewrite IH. split; [tauto|]. intros (Hr & Hsf & [?|[-> _]]); [done|].
      apply str_app_inj_l in Es. done. }
    destruct (has_slash r') eqn:Hsl.
    { rewrite IH. split; [tauto|]. intros (Hr & Hsf & [?|[-> _]]); [done|].
      apply str_app_inj_l in Es as <-. unfold slash_free in Hsf. congruence. }
    destruct (decide (r = r')) as [->|Hne].
    + rewrite lookup_insert_eq. split; [intros [= <-]; eauto|]. intros (_ & _ & [(n' & Hin & _)|[_ <-]]); [|done].
      exfalso. subst p. apply (Hdis (prefix +:+ r')); [|by left].
      apply list_elem_of_fmap. by exists (prefix +:+ r', n').
    + rewrite lookup_insert_ne, IH by done. split; [tauto|]. intros (? & ? & [?|[-> _]]); [done|].
      by apply str_app_inj_l in Es.
  - rewrite IH. split; [tauto|]. intros (? & ? & [?|[-> _]]); [done|]. by rewrite strip_prefix_app in Es.
Qed.

Lemma children_spec img dir r k : children img dir !! r = Some k ↔
  r ≠ "" ∧ slash_free r ∧ ∃ n, img !! path_join dir r = Some n ∧ kind_of n = k.
Proof.
  unfold children. cbv zeta. rewrite child_fold by apply btree_keys_NoDup.
  setoid_rewrite btree_iter_elem. by rewrite path_join_prefix.
Qed.

(** A directory listing is exact: [.] and [..] with their numbers, then, in
    the order of their names, exactly the nodes whose path is the directory's
    and one more component, each with its kind and a number that stands for
    it. *)
Theorem readdir_lists ino w es w' :
  table_ok (w_state w) → ino_room w → readdir_entries ino w = (Ok es, w') →
  ∃ dir pino kids, w_path_of w ino = Some dir ∧ is_dir (w_image w) dir = true
    ∧ es = (ino, Directory, ".") :: (pino, Directory, "..") :: kids ∧ w_path_of w' pino = Some (parent_path dir)
    ∧ StronglySorted str_lt kids.*2
    ∧ (∀ name kind, (∃ i, (i, kind, name) ∈ kids) ↔ name ≠ "" ∧ slash_free name
        ∧ ∃ n, w_image w !! path_join dir name = Some n ∧ kind_of n = kind)
    ∧ ∀ i kind name, (i, kind, name) ∈ kids → w_path_of w' i = Some (path_join dir name).
Proof.
  intros Hok Hroom E. destruct (readdir_entries_ok _ _ _ _ Hok Hroom E)
    as (Hok' & _ & dir & pino & kids & Hp & Hd & -> & Hpi & Hk & Hall).
  exists dir, pino, kids. split_and!; [done|done|done|by apply (to_sound _ Hok')|..].
  - assert (kids.*2 = btree_keys (children (w_image w) dir)) as ->; [|apply btree_keys_sorted].
    unfold btree_keys. rewrite <-Hk, <-list_fmap_compose. done.
  - intros name kind. rewrite <-children_spec, <-btree_iter_elem, <-Hk, list_elem_of_fmap. split.
    + intros [i Hi]. by exists (i, kind, name).
    + intros ([[i k] n] & [= -> ->] & Hi). by exists i.
  - intros i kind name Hi. rewrite Forall_forall in Hall. apply Hall in Hi. by apply (to_sound _ Hok').
Qed.

(** ** Replica mounts *)

(** The replica differs in its cached blocks at most. *)
Definition same_view (rep rep' : Replica) : Prop :=
  r_vol rep' = r_vol rep ∧ r_image rep' = r_image rep ∧ r_cursor rep' = r_cursor rep.

(** The world is that of a replica mount of the same image. *)
Definition untouched_by (w w' : World) : Prop :=
  w_bucket w' = w_bucket w ∧ w_db w' = w_db w
  ∧ ∃ rep rep', fs_backend (w_fs w) = BReplica rep ∧ fs_backend (w_fs w') = BReplica rep' ∧ same_view rep rep'.

(** Requests that ask for a change. *)
Definition mutates (r : Request) : bool :=
  match r with
  | RSymlink _ _ _ | RMkdir _ _ _ _ | RUnlink _ _ | RRmdir _ _ | RRename _ _ _ _ _ | RSetxattr _ _ _
  | RRemovexattr _ _ => true
  | RSetattr _ mode uid gid size mtime =>
      is_some mode || is_some uid || is_some gid || is_some size || is_some mtime
  | _ => false
  end.

Section replica.
Context (w : World) (rep : Replica) (Hrep : fs_backend (w_fs w) = BReplica rep).

Lemma untouched_refl : untouched_by w w.
Proof. split_and!; [done|done|]. by exists rep, rep. Qed.

Lemma untouched_frame w1 w2 : untouched_by w w1 → w_bucket w2 = w_bucket w1 → w_db w2 = w_db w1 →
  fs_backend (w_fs w2) = fs_backend (w_fs w1) → untouched_by w w2.
Proof. intros (Hb & Hd & Hr) H1' H2' H3'. unfold untouched_by. by rewrite H1', H2', H3'. Qed.

Lemma replica_commit c ds w1 : untouched_by w w1 → fs_commit c ds w1 = (Err EROFS, w1).
Proof. intros (_ & _ & r1 & r2 & _ & Hr & _). unfold fs_commit. by rewrite Hr. Qed.

Lemma replica_file p : untouched_by w (fs_read_file p w).2.
Proof.
  unfold fs_read_file. rewrite Hrep. unfold replica_read_file. destruct (read_file _ _ _ _) as [r bl].
  split_and!; [done..|]. by exists rep, (mkReplica (r_vol rep) (r_image rep) (r_cursor rep) bl).
Qed.

Lemma replica_range p o n : untouched_by w (fs_read_range p o n w).2.
Proof.
  unfold fs_read_range. rewrite Hrep. unfold replica_read_file_range. destruct (read_file_range _ _ _ _ _ _) as [r bl].
  split_and!; [done..|]. by exists rep, (mkReplica (r_vol rep) (r_image rep) (r_cursor rep) bl).
Qed.

Lemma assign_untouched p w1 : untouched_by w w1 → untouched_by w (assign p w1).2.
Proof. intros Hu. unfold assign. destruct (State_ino _ _). by apply (untouched_frame w1). Qed.

Lemma list_untouched dir kids w1 : untouched_by w w1 → untouched_by w (list_children dir kids w1).2.
Proof.
  revert w1. induction kids as [|[name kind] kids IH]; intros w1 Hu; [done|]. cbn [list_children].
  pose proof (assign_untouched (path_join dir name) w1 Hu) as Ha. destruct (assign _ w1) as [i w2].
  specialize (IH w2 Ha). by destruct (list_children dir kids w2).
Qed.

Lemma flush_untouched c fh : untouched_by w (flush_fh c fh w).2.
Proof.
  unfold flush_fh. destruct (fs_handles (w_fs w) !! fh) as [[i [|e es]]|]; [apply untouched_refl| |apply untouched_refl].
  cbv zeta. set (w1 := with_fs w _). assert (untouched_by w w1) as Hu by (by apply (untouched_frame w); [apply untouched_refl|..]).
  destruct (w_path_of w1 i); [|done]. by rewrite replica_commit.
Qed.

Lemma setattr_replica c ino mode uid gid size mtime :
  let x := setattr c ino mode uid gid size mtime w in
  x.2 = w ∧ (mutates (RSetattr ino mode uid gid size mtime) = true → failed x.1 ≠ None).
Proof.
  cbv zeta. unfold setattr. destruct (w_path_of w ino) as [p|]; [|done]. destruct (_ && _); [done|].
  destruct size as [n|].
  - destruct (negb _); [done|]. unfold fs_truncate. rewrite Hrep. done.
  - cbn [is_some andb]. rewrite (replica_commit c _ w untouched_refl). cbn [mutates is_some].
    destruct mtime as [m|]; [|cbn [fmap option_fmap option_map is_some]];
      [destruct (is_some mode), (is_some uid), (is_some gid); done|].
    rewrite !orb_false_r. destruct (is_some mode || is_some uid || is_some gid); done.
Qed.

Lemma make_node_replica c p ds : let x := make_node c p ds w in x.2 = w ∧ failed x.1 ≠ None.
Proof.
  unfold make_node. destruct (w_image w !! p); [done|]. by rewrite (replica_commit c _ w untouched_refl).
Qed.

Lemma serve_replica c r :
  untouched_by w (serve c r w).2 ∧ (mutates r = true → (serve c r w).1 ≠ None).
Proof.
  pose proof untouched_refl as Hw. pose proof (replica_commit c) as Hc.
  destruct r; cbn [serve outcome fst snd mutates]; try by split.
  - split; [|done]. unfold lookup. destruct (child_path _ _ _) as [p|]; [|done]. destruct (w_image w !! p); [|done].
    unfold entry_reply. pose proof (assign_untouched p w Hw). by destruct (assign p w).
  - destruct (setattr_replica c ino mode uid gid size mtime) as [E Hm]. by rewrite E.
  - unfold symlink. destruct link_name, target; try by split. destruct (child_path _ _ _) as [p|]; [|by split].
    match goal with |- context [make_node c p ?ds w] => destruct (make_node_replica c p ds) as [E ?]; by rewrite E end.
  - unfold mkdir. destruct (child_path _ _ _) as [p|]; [|by split].
    match goal with |- context [make_node c p ?ds w] => destruct (make_node_replica c p ds) as [E ?]; by rewrite E end.
  - split; [|done]. unfold readdir, readdir_entries. destruct (w_path_of w ino) as [dir|]; [|done].
    destruct (is_dir _ _); [|done]. pose proof (assign_untouched (parent_path dir) w Hw) as Ha.
    destruct (assign _ _) as [pi w1]. pose proof (list_untouched dir (btree_iter (children (w_image w) dir)) w1 Ha).
    cbv zeta. by destruct (list_children _ _ _).
  - split; [|done]. unfold create. destruct (child_path _ _ _) as [p|]; [|done].
    set (x := match w_image w !! p with Some (File _ _) => _ | Some (Dir _) => _ | _ => _ end).
    assert (untouched_by w x.2) as Hx.
    { subst x. destruct (w_image w !! p) as [[]|]; [|done..|by rewrite Hc].
      pose proof (replica_file p). by destruct (fs_read_file p w). }
    destruct x as [[ct|e] w1]; [|done]. pose proof (assign_untouched p w1 Hx) as Ha. destruct (assign p w1) as [i w2].
    unfold new_handle. cbn. by apply (untouched_frame w2).
  - split; [|done]. unfold open. destruct (w_path_of w ino); [|done]. by destruct (w_image w !! _) as [[]|].
  - split; [|done]. unfold read. destruct (w_path_of w ino) as [p|]; [|done].
    match goal with |- context [fs_read_range p ?o ?n w] => pose proof (replica_range p o n) end.
    by destruct (fs_read_range _ _ _ _) as [[[]|] ?].
  - split; [|done]. unfold write. by destruct (fs_handles (w_fs w) !! fh).
  - split; [apply flush_untouched|done].
  - split; [apply flush_untouched|done].
  - split; [|done]. unfold release. pose proof (flush_untouched c fh) as Hf. destruct (flush_fh c fh w) as [r w1].
    by apply (untouched_frame w1).
  - unfold unlink. destruct (named_path _ _ _); [|by split]. by destruct (w_image w !! _) as [[]|]; rewrite ?Hc.
  - unfold rmdir. destruct (named_path _ _ _); [|by split]. destruct (w_image w !! _) as [[]|]; try by split.
    destruct (bool_decide _); [by rewrite Hc|by split].
  - unfold rename. destruct (negb _); [by split|]. destruct name, newname; try by split.
    destruct (w_path_of w parent), (w_path_of w newparent); try by split. cbv zeta.
    destruct (rename_kind _); [|by split]. destruct (rename_check _ _ _); [|by split]. by rewrite Hc.
  - unfold setxattr. destruct (w_path_of w ino); [|by split]. destruct (_ && _); [by split|].
    destruct name; [by rewrite Hc|by split].
  - unfold removexattr. destruct (w_path_of w ino); [|by split]. destruct name; [|by split].
    destruct (w_image w !! _); [|by split]. destruct (is_some _); [by rewrite Hc|by split].
Qed.
End replica.

(** A replica mount is read-only: no request changes the store, the bucket
    or the image it serves, and every request for a change is refused. *)
Theorem replica_readonly w rep c r :
  fs_backend (w_fs w) = BReplica rep →
  w_bucket (serve c r w).2 = w_bucket w ∧ w_db (serve c r w).2 = w_db w ∧ w_image (serve c r w).2 = w_image w
  ∧ (mutates r = true → (serve c r w).1 ≠ None).
Proof.
  intros Hrep. destruct (serve_replica w rep Hrep c r) as [(Hb & Hd & r1 & r2 & E1 & E2 & _ & Him & _) Hm].
  split_and!; [done|done| |done]. unfold w_image, fs_image. by rewrite E1, E2.
Qed.

(** ** Extended attributes *)

Lemma set_xattr_lookup m p name value n :
  m !! p = Some n → meta_mut m p (set_xattr name value) !! p ≫= (λ n, xattrs (node_meta n) !! name) = value.
Proof.
  intros Hn. unfold meta_mut. rewrite Hn, lookup_insert_eq. simpl. destruct n, value; simpl;
    by rewrite ?lookup_insert_eq, ?lookup_delete_eq.
Qed.

(** Extended attributes round-trip: after a successful [setxattr] on a
    node, [getxattr] with any buffer answers with the value (its size, or
    [ERANGE], as the buffer asks), and after a successful [removexattr] it
    answers that there is no such attribute. *)
Theorem xattr_roundtrip c ino name value size w v p n w' :
  fs_backend (w_fs w) = BVolume v → pending v = [] → w_path_of w ino = Some p → w_image w !! p = Some n →
  (setxattr c ino (Some name) value w = (Ok tt, w') → getxattr ino (Some name) size w' = xattr_reply size value)
  ∧ (removexattr c ino (Some name) w = (Ok tt, w') → getxattr ino (Some name) size w' = Err NO_XATTR).
Proof.
  intros Hv Hp Hi Hn.
  assert (∀ val, fs_commit c [DSetXattr p name val] w = (Ok tt, w') → getxattr ino (Some name) size w' =
    match val with Some x => xattr_reply size x | None => Err NO_XATTR end) as Hget.
  { intros val E. pose proof (commit_unwritten c [DSetXattr p name val] w v _ _ Hv Hp ltac:(by repeat constructor) E) as Him.
    pose proof (commit_state c [DSetXattr p name val] w) as [Es _]. rewrite E in Es. cbn [snd fold_left FsImage_apply] in *.
    unfold getxattr, w_path_of. unfold w_state in Es. rewrite Es. unfold w_path_of in Hi. rewrite Hi, Him.
    destruct (meta_mut_some (w_image w) p p (set_xattr name val) ltac:(by eexists)) as [n' Hn'].
    pose proof (set_xattr_lookup (w_image w) p name val n Hn) as Hx. rewrite Hn' in *. cbn [is_some negb]. rewrite andb_false_r.
    rewrite Hx. by destruct val. }
  split; intros E.
  - unfold setxattr in E. rewrite Hi, Hn in E. cbn [is_some negb] in E. rewrite andb_false_r in E.
    by apply (Hget (Some value)).
  - unfold removexattr in E. rewrite Hi, Hn in E. destruct (is_some _); [|done]. by apply (Hget None).
Qed.
End runs.
