(* ===== verification/FsDurable.v ===== *)
(** * Durability of a mount

    Whatever requests a mount served and acknowledged, a later mount of the
    volume has the image it served: the composition of the adapter, the
    volume's commits and the event store.  Written bytes are read back. *)

From S2P Require Import Prelude Text Slate Types Keys Kv Fork Store Batch Append Wf Commit.
From S2P Require Import Appended Ops Purge History Txn Invariant Samples AppendThms ForkThms SnapshotThms.
From S2P Require Import Frames Bucket Btree Image Volume Replica Fs ImageThms VolumeThms CommitThms FsTable FsServe FsThms.
Local Open Scope Z_scope.

(** ** Deltas of the handlers *)

(** Deltas that write one file. *)
Definition at_path (p : string) (d : Delta) : Prop :=
  match d with
  | DWrite q _ (DInline _) => q = p
  | DSetAttr q _ _ _ _ => q = p
  | _ => False
  end.

(** Where a first write may be chunked: an inline file, or nothing. *)
Definition chunkable (n : option Node) : bool := inline_file n || negb (is_some n).

Section calm.
Context `{ObjectStore} `{FuseCodecs}.

Lemma calm_unwritten im m ds : Forall (λ d, is_write d = false) ds → calm im ∅ m ds = true.
Proof.
  intros Hd. revert m. induction Hd as [|d ds Hd Hds IH]; intros m; [done|]. simpl.
  rewrite bool_decide_eq_true_2 by by apply set_Forall_empty. destruct d; try done; apply IH.
Qed.

Lemma chunkable_at now m p d : at_path p d → chunkable (m !! p) = true → chunkable (FsImage_apply now m d !! p) = true.
Proof.
  intros Hd Hm. destruct d as [q off [x|x]|q|q|f t|q t|q a1 a2 a3 a4|q n v]; try done; simpl in Hd; subst q; cbn [FsImage_apply].
  - destruct (inline_base now (m !! p)). by rewrite lookup_insert_eq.
  - unfold meta_mut. destruct (m !! p) as [n|] eqn:E; [|by rewrite E]. rewrite lookup_insert_eq. by destruct n.
Qed.

Lemma calm_at im p C m ds :
  (C = ∅ ∨ C = {[p]}) → Forall (at_path p) ds → chunkable (m !! p) = true → calm im C m ds = true.
Proof.
  intros HC Hd. revert C m HC. induction Hd as [|d ds Hd Hds IH]; intros C m HC Hm; [done|]. simpl.
  assert (set_Forall (λ q, keeps q d = true) C) as Hk.
  { destruct HC as [-> | ->]; [by apply set_Forall_empty|]. apply set_Forall_singleton.
    by destruct d as [q off [x|x]|q|q|f t|q t|q a1 a2 a3 a4|q n v]. }
  rewrite bool_decide_eq_true_2 by done. pose proof (chunkable_at 0 m p d Hd Hm) as Hm'.
  assert (chunked_by im C d = ∅ ∨ chunked_by im C d = {[p]}) as HC'.
  { destruct d as [q off [x|x]|q|q|f t|q t|q a1 a2 a3 a4|q n v]; try done. simpl in Hd. subst q. simpl.
    destruct (big im p); [|done]. right. destruct HC as [-> | ->]; [by rewrite union_empty_r_L|by rewrite union_idemp_L]. }
  rewrite (IH _ _ HC' Hm'), andb_true_r.
  destruct d as [q off [x|x]|q|q|f t|q t|q a1 a2 a3 a4|q n v]; try done. simpl in Hd. subst q.
  unfold chunkable in Hm. by rewrite <-orb_assoc, Hm, orb_true_r.
Qed.

Lemma calm_truncate im p m x ds : Forall (at_path p) ds →
  calm im ∅ m (DRemove p :: DWrite p 0 (DInline x) :: ds) = true.
Proof.
  intros Hd. change (calm im ∅ m (DRemove p :: ?l)) with
    (bool_decide (set_Forall (λ q, keeps q (DRemove p) = true) (∅ : gset string)) && true
     && calm im ∅ (FsImage_apply 0 m (DRemove p)) l).
  rewrite bool_decide_eq_true_2 by by apply set_Forall_empty. apply (calm_at im p); [by left|by constructor|].
  cbn [FsImage_apply]. by rewrite remove_tree_lookup, bool_decide_eq_true_2.
Qed.

Lemma chunkable_equiv (m1 m2 : FsImage) p : m1 ≡ m2 → chunkable (m1 !! p) = chunkable (m2 !! p).
Proof.
  intros E. specialize (E p). destruct (m1 !! p) as [n1|], (m2 !! p) as [n2|]; [|by inversion E..|done].
  apply (inj Some) in E. unfold equiv, node_equiv, no_mtime in E.
  destruct n1 as [[]| |], n2 as [[]| |]; cbn in E; try discriminate E; done.
Qed.
End calm.

Section durable.
Context `{SlateDbLaws} `{CodecLaws} `{ObjectStoreLaws} `{FuseCodecLaws}.

(** ** Mounted volumes *)

Record mounted (w : World) (v : Volume) (l : list Envelope) : Prop := {
  mt_backend : fs_backend (w_fs w) = BVolume v;
  mt_stored : stored (w_bucket w) (w_db w) (vol v) l;
  mt_pending : pending v = [];
  mt_image : image v ≡ logged l;
}.

(** Everything the mount accepted is committed. *)
Definition quiesced (w : World) : Prop :=
  match fs_backend (w_fs w) with
  | BVolume v => pending v = []
  | BReplica _ => True
  end.

(** A mount that is quiesced holds a history that extends the one before. *)
Definition advances (w w' : World) : Prop :=
  ∀ v l, mounted w v l → roomy (vol v) (w_db w) → quiesced w' →
    ∃ v' l', mounted w' v' (l ++ l') ∧ vol v' = vol v.

Lemma advances_frame w w1 w2 :
  advances w w1 → w_bucket w2 = w_bucket w1 → w_db w2 = w_db w1 →
  fs_backend (w_fs w2) = fs_backend (w_fs w1) → advances w w2.
Proof.
  intros Ha Eb Ed Ef v l Hm Hr Hq. unfold quiesced in Hq. rewrite Ef in Hq.
  destruct (Ha v l Hm Hr Hq) as (v' & l' & [M1 M2 M3 M4] & Hv). exists v', l'. split; [|done].
  split; [by rewrite Ef|by rewrite Eb, Ed|done|done].
Qed.

Lemma advances_refl w : advances w w.
Proof. intros v l Hm _ _. exists v, []. by rewrite app_nil_r. Qed.

Lemma advances_cached w v bl : fs_backend (w_fs w) = BVolume v →
  advances w (with_fs w (set_backend (w_fs w) (BVolume (with_cache v bl)))).
Proof.
  intros Hv v0 l [M1 M2 M3 M4] _ _. rewrite Hv in M1. injection M1 as <-.
  exists (with_cache v bl), []. by rewrite app_nil_r.
Qed.

Lemma read_file_advances p w : advances w (fs_read_file p w).2.
Proof.
  unfold fs_read_file. destruct (fs_backend (w_fs w)) as [v|rep] eqn:E.
  - unfold Volume_read_file. destruct (read_file _ _ _ _) as [r bl]. by apply advances_cached.
  - destruct (replica_read_file _ _ _). intros v l [M1 _ _ _]. rewrite E in M1. discriminate M1.
Qed.

Lemma read_range_advances p o n w : advances w (fs_read_range p o n w).2.
Proof.
  unfold fs_read_range. destruct (fs_backend (w_fs w)) as [v|rep] eqn:E.
  - unfold Volume_read_file_range. destruct (read_file_range _ _ _ _ _ _) as [r bl]. by apply advances_cached.
  - destruct (replica_read_file_range _ _ _ _ _). intros v l [M1 _ _ _]. rewrite E in M1. discriminate M1.
Qed.

(** A commit that fails leaves its deltas pending. *)
Lemma commit_failed o interf now v b d e v' b' d' :
  Volume_commit o interf now v b d = (Err e, v', b', d') → pending v' = pending v ∧ pending v ≠ [].
Proof.
  unfold Volume_commit. destruct (pending v) as [|x ds] eqn:E; [done|]. rewrite <-E.
  destruct (upgrade_loop _ _ _ _) as [us upg]. destruct (upload_all _ _) as [[|] b1].
  - destruct (append_with_token _ _ _ _ _ _ _) as [[info|] d1]; [done|]. intros [= _ <- _ _]. simpl.
    split; [done|congruence].
  - intros [= _ <- _ _]. split; [done|congruence].
Qed.

Lemma replay0_now now ds m m' : m ≡ m' → fold_left (FsImage_apply now) ds m ≡ replay0 m' ds.
Proof. revert m m'. induction ds as [|d ds IH]; intros m m' E; [done|]. by apply IH, apply_equiv. Qed.

(** A commit of deltas, on top of pending ones, that quiesces the mount. *)
Lemma commit_mounts c ds w v l r w' :
  fs_backend (w_fs w) = BVolume v → stored (w_bucket w) (w_db w) (vol v) l →
  image v ≡ replay0 (logged l) (pending v) →
  calm (fold_left (FsImage_apply (c_now c)) ds (image v)) ∅ (logged l) (pending v ++ ds) = true →
  (∀ n, oracle_ok (c_oracle c n)) → roomy (vol v) (w_db w) →
  fs_commit c ds w = (r, w') → quiesced w' →
  r = Ok tt ∧ ∃ v' l', mounted w' v' (l ++ l') ∧ vol v' = vol v.
Proof.
  intros Hv Hst Him Hc Ho Hroom E Hq. unfold fs_commit in E. rewrite Hv, fold_mutate in E.
  set (v1 := mkVolume _ _ _ _ _ _) in E.
  assert (pends v1 l) as Hp.
  { split; [|exact Hc]. simpl. unfold replay0. rewrite fold_left_app. by apply replay0_now. }
  destruct (Volume_commit _ _ _ v1 _ _) as [[[rc v2] b2] d2] eqn:Ec. injection E as <- <-.
  unfold quiesced in Hq. simpl in Hq. destruct rc as [[]|e].
  - destruct (commit_ok _ _ v1 _ _ _ _ _ _ Hst Hp Ho Hroom Ec) as (envs & Hst' & Hp' & Him' & Hvol & _).
    split; [done|]. exists v2, envs. split; [|done]. done.
  - apply commit_failed in Ec as [E1 E2]. congruence.
Qed.

Lemma commit_advances c ds w :
  (∀ n, oracle_ok (c_oracle c n)) →
  (∀ l, w_image w ≡ logged l → calm (fold_left (FsImage_apply (c_now c)) ds (w_image w)) ∅ (logged l) ds = true) →
  advances w (fs_commit c ds w).2.
Proof.
  intros Ho Hc v l [M1 M2 M3 M4] Hroom Hq. destruct (fs_commit c ds w) as [r w'] eqn:E.
  assert (w_image w = image v) as Hw by (unfold w_image, fs_image; by rewrite M1). rewrite Hw in Hc.
  apply (commit_mounts c ds w v l r w'); [done|done|by rewrite M3|rewrite M3; by apply Hc|done..].
Qed.

Lemma unwritten_advances c ds w :
  (∀ n, oracle_ok (c_oracle c n)) → Forall (λ d, is_write d = false) ds → advances w (fs_commit c ds w).2.
Proof. intros Ho Hd. apply commit_advances; [done|]. intros l _. by apply calm_unwritten. Qed.

Lemma at_advances c p ds w :
  (∀ n, oracle_ok (c_oracle c n)) → Forall (at_path p) ds → chunkable (w_image w !! p) = true →
  advances w (fs_commit c ds w).2.
Proof.
  intros Ho Hd Hp. apply commit_advances; [done|]. intros l E. apply (calm_at _ p); [by left|done|].
  by rewrite <-(chunkable_equiv _ _ p E).
Qed.

(** ** Requests *)

(** What a flush of staged extents may find at its path: a file that is still
    inline, or nothing.
    (An inline write over a chunked file starts from an empty one.) *)
Definition flushable (r : Request) (w : World) : Prop :=
  match r with
  | RFlush fh | RFsync fh | RRelease fh =>
      ∀ h p, fs_handles (w_fs w) !! fh = Some h → w_path_of w (h_ino h) = Some p →
        h_extents h = [] ∨ chunkable (w_image w !! p) = true
  | _ => True
  end.

Section requests.
Context (c : Call) (Ho : ∀ n, oracle_ok (c_oracle c n)).

Lemma flush_advances fh w :
  (∀ h p, fs_handles (w_fs w) !! fh = Some h → w_path_of w (h_ino h) = Some p →
        h_extents h = [] ∨ chunkable (w_image w !! p) = true) →
  advances w (flush_fh c fh w).2.
Proof.
  intros Hf. unfold flush_fh. destruct (fs_handles (w_fs w) !! fh) as [[i [|e es]]|] eqn:Eh;
    [apply advances_refl| |apply advances_refl]. cbv zeta. set (w1 := with_fs w _).
  assert (advances w w1) as H1' by (by apply (advances_frame w w); [apply advances_refl|..]).
  destruct (w_path_of w1 i) as [p|] eqn:Ep; [|done].
  assert (advances w1 (fs_commit c (extent_deltas p (e :: es) ++ [DSetAttr p None None None (Some (c_now c))]) w1).2) as H2'.
  { apply (at_advances c p); [done| |by destruct (Hf _ _ eq_refl Ep)]. apply Forall_app. split; [|by apply Forall_singleton].
    apply Forall_fmap, Forall_forall. done. }
  intros v l Hm Hr Hq. apply H2'; [|done|done]. by destruct Hm; split.
Qed.

Lemma entry_advances p w w1 : advances w w1 → advances w (entry_reply p w1).2.
Proof.
  intros Ha. unfold entry_reply, assign. destruct (State_ino _ _). by apply (advances_frame w w1).
Qed.

Lemma make_node_advances p ds w : Forall (λ d, is_write d = false) ds → advances w (make_node c p ds w).2.
Proof.
  intros Hd. unfold make_node. destruct (w_image w !! p); [apply advances_refl|].
  pose proof (unwritten_advances c ds w Ho Hd) as Ha. destruct (fs_commit c ds w) as [[u|e] w1]; [|done].
  by apply entry_advances.
Qed.

Lemma create_advances parent name mode umask w : advances w (create c parent name mode umask w).2.
Proof.
  unfold create. destruct (child_path parent name w) as [p|]; [|apply advances_refl].
  set (x := match w_image w !! p with Some (File _ _) => _ | Some (Dir _) => _ | _ => _ end).
  assert (advances w x.2) as Hx.
  { subst x. destruct (w_image w !! p) as [[]|] eqn:Ep; try apply advances_refl.
    - pose proof (read_file_advances p w). by destruct (fs_read_file p w).
    - match goal with |- context [fs_commit c ?ds w] =>
        assert (advances w (fs_commit c ds w).2) by (apply (at_advances c p); [done|by repeat constructor|by rewrite Ep]);
        by destruct (fs_commit c ds w) end. }
  destruct x as [[ct|e] w1]; [|done]. unfold assign. destruct (State_ino _ _). by apply (advances_frame w w1).
Qed.

Lemma rename_advances parent name newparent newname flags w :
  advances w (rename c parent name newparent newname flags w).2.
Proof.
  unfold rename. destruct (negb _); [apply advances_refl|].
  destruct name, newname; try apply advances_refl.
  destruct (w_path_of w parent), (w_path_of w newparent); try apply advances_refl. cbv zeta.
  destruct (rename_kind _); [|apply advances_refl]. destruct (rename_check _ _ _); [|apply advances_refl].
  match goal with |- context [fs_commit c ?ds w] =>
    assert (advances w (fs_commit c ds w).2) as Ha by (apply unwritten_advances; [done|by repeat constructor]);
    destruct (fs_commit c ds w) as [[|] w1] end; [|done]. by apply (advances_frame w w1).
Qed.

(** A truncation is committed with the times of the request. *)
Lemma truncate_advances p n w w1 r mt mode uid gid w2 r2 :
  fs_truncate c p n w = (Ok r, w1) →
  fs_commit c [DSetAttr p mode uid gid mt] (with_fs w1 (set_handles (w_fs w1) (w2 (fs_handles (w_fs w1))))) = r2 →
  advances w r2.2.
Proof.
  intros Et Ec v l [M1 M2 M3 M4] Hroom Hq. unfold fs_truncate in Et. rewrite M1 in Et.
  destruct (truncate _ _ _ _ _) as [rt v1] eqn:Ev. injection Et as Er <-. destruct rt as [[]|]; [|done].
  unfold truncate, Volume_read_file in Ev. destruct (read_file _ _ _ _) as [[ct|] bl]; [|done].
  cbv zeta in Ev. injection Ev as <-. set (x := resize _ _) in *.
  destruct r2 as [rc w']. cbn [snd] in *.
  match type of Ec with fs_commit _ _ ?w0 = _ =>
    destruct (commit_mounts c [DSetAttr p mode uid gid mt] w0
      (mutate (c_now c) (mutate (c_now c) (with_cache v bl) (DRemove p)) (DWrite p 0 (DInline x))) l
      rc w') as [_ Hex]; [done|exact M2| | |done|exact Hroom|exact Ec|done|exact Hex] end.
  - simpl. rewrite M3. cbn [app]. apply (replay0_now (c_now c) [DRemove p; DWrite p 0 (DInline x)]). exact M4.
  - simpl pending. rewrite M3. cbn [app]. apply calm_truncate. by repeat constructor.
Qed.

Lemma setattr_advances ino mode uid gid size mtime w : advances w (setattr c ino mode uid gid size mtime w).2.
Proof.
  unfold setattr. destruct (w_path_of w ino) as [p|]; [|apply advances_refl]. cbv zeta.
  destruct (_ && _); [apply advances_refl|]. destruct size as [n|].
  - destruct (negb _); [apply advances_refl|]. destruct (fs_truncate c p n w) as [[u|e] w1] eqn:Et.
    + cbn [is_some andb]. set (mt := (λ m : TimeOrNow, _) <$> mtime).
      assert (∃ t, (if negb (is_some mt) then Some (c_now c) else mt) = Some t) as [t ->].
      { destruct mt; simpl; by eexists. }
      cbn [is_some]. rewrite orb_true_r.
      match goal with |- context [fs_commit c ?ds ?w0] => destruct (fs_commit c ds w0) as [r2 w2] eqn:Ec end.
      pose proof (truncate_advances p n w w1 u (Some t) ((λ m, Z.land m 4095) <$> mode) uid gid
        (λ hs, clip_handle ino n <$> hs) (r2, w2) Et Ec) as Ha. by destruct r2.
    + unfold fs_truncate in Et. destruct (fs_backend (w_fs w)) as [v|] eqn:Ev; [|injection Et as <- <-; apply advances_refl].
      unfold truncate, Volume_read_file in Et. destruct (read_file _ _ _ _) as [[ct|er] bl]; [done|].
      injection Et as _ <-. by apply advances_cached.
  - cbn [is_some andb]. set (mt := (λ m : TimeOrNow, _) <$> mtime). destruct (_ || _); [|apply advances_refl].
    match goal with |- context [fs_commit c ?ds w] =>
      assert (advances w (fs_commit c ds w).2) as Ha by (apply unwritten_advances; [done|by repeat constructor]);
      by destruct (fs_commit c ds w) as [[|] w1] end.
Qed.

Lemma list_advances dir kids w w1 : advances w w1 → advances w (list_children dir kids w1).2.
Proof.
  revert w1. induction kids as [|[name kind] kids IH]; intros w1 Hu; [done|]. cbn [list_children]. unfold assign.
  destruct (State_ino _ _) as [i st].
  assert (advances w (with_fs w1 (set_state (w_fs w1) st))) as Ha by by apply (advances_frame w w1).
  specialize (IH _ Ha). by destruct (list_children dir kids _).
Qed.

Lemma serve_advances r w : flushable r w → advances w (serve c r w).2.
Proof.
  pose proof (advances_refl w) as Hw. intros Hf. destruct r; cbn [serve outcome fst snd]; try done.
  - unfold lookup. destruct (child_path _ _ _); [|done]. destruct (w_image w !! _); [by apply entry_advances|done].
  - apply setattr_advances.
  - unfold symlink. destruct link_name, target; try done. destruct (child_path _ _ _); [|done].
    apply make_node_advances. by repeat constructor.
  - unfold mkdir. destruct (child_path _ _ _); [|done]. apply make_node_advances. by repeat constructor.
  - unfold readdir, readdir_entries. destruct (w_path_of w ino) as [dir|]; [|done].
    destruct (is_dir _ _); [|done]. unfold assign. destruct (State_ino _ _) as [i st]. cbv zeta.
    assert (advances w (with_fs w (set_state (w_fs w) st))) as Ha by by apply (advances_frame w w).
    pose proof (list_advances dir (btree_iter (children (w_image w) dir)) w _ Ha). by destruct (list_children _ _ _).
  - apply create_advances.
  - unfold open. destruct (w_path_of w ino); [|done]. destruct (w_image w !! _) as [[]|]; try done.
    by apply (advances_frame w w).
  - unfold read. destruct (w_path_of w ino) as [p|]; [|done].
    match goal with |- context [fs_read_range p ?o ?n w] => pose proof (read_range_advances p o n w) end.
    by destruct (fs_read_range _ _ _ _) as [[[]|] ?].
  - unfold write. destruct (fs_handles (w_fs w) !! fh); [|done]. by apply (advances_frame w w).
  - by apply flush_advances.
  - by apply flush_advances.
  - unfold release. pose proof (flush_advances fh w Hf) as Ha. destruct (flush_fh c fh w) as [r w1].
    by apply (advances_frame w w1).
  - unfold unlink. destruct (named_path _ _ _); [|done].
    destruct (w_image w !! _) as [[]|]; try done; apply unwritten_advances; done || by repeat constructor.
  - unfold rmdir. destruct (named_path _ _ _); [|done]. destruct (w_image w !! _) as [[]|]; try done.
    destruct (bool_decide _); [|done]. apply unwritten_advances; [done|by repeat constructor].
  - apply rename_advances.
  - unfold setxattr. destruct (w_path_of w ino); [|done]. destruct (_ && _); [done|].
    destruct name; [|done]. apply unwritten_advances; [done|by repeat constructor].
  - unfold removexattr. destruct (w_path_of w ino); [|done]. destruct name; [|done].
    destruct (w_image w !! _); [|done]. destruct (is_some _); [|done].
    apply unwritten_advances; [done|by repeat constructor].
Qed.
End requests.

(** ** Mount, serve, mount again *)

Lemma stored_fence watch tok b d s l r d' :
  stored b d s l → fence (λ d, d) watch s tok d = (r, d') → stored b d' s l.
Proof.
  intros [Hwf Hs Hl Hsort Hf Hcov Hseg Hw Ht] E.
  destruct (fence_keeps _ _ _ _ _ _ Hwf Hs E) as (Hwf' & Hhist & Hsnap). specialize (Hsnap s Hs).
  pose proof (fence_get _ _ _ _ _ _ Hwf Hs E) as Hget.
  destruct (guards_frame d d' s Hs) as [Hg Htr]; [intros k Hk Ha _ _; apply Hget; [done|by intros ->]|].
  split; [done|done|by apply Hhist|done|..].
  - intros x Hx. apply Hf. by rewrite <-Hsnap.
  - intros x Hx. apply Hcov. by rewrite <-Hsnap.
  - intros x m p h Hx. apply Hseg. by rewrite <-Hsnap.
  - by apply (writable_ext d d' s (next_version l)); [apply Hwf|apply Hwf'|..].
  - rewrite <-Ht. unfold stream_version, tail, get_json. by rewrite render_tail, Hget.
Qed.

Lemma mount_mounted o clk watch b s d l v d' :
  stored b d s l → mount o clk watch b s d = (Ok v, d') →
  mounted (mkWorld (with_backend (BVolume v)) b d') v l ∧ vol v = s.
Proof.
  intros Hst E. pose proof Hst as [Hwf Hs Hl Hsort Hf _ _ _ _].
  destruct (fence (λ d, d) watch s (Some (o_ulid o 0)) d) as [r d1] eqn:Ef.
  assert (∃ info, r = Ok info) as [info ->].
  { unfold mount in E. rewrite Ef in E. destruct r as [info|]; [by eexists|done]. }
  destruct (mount_ok o clk watch b s d l info) as (v1 & d2 & Hm & _ & _ & Hp & _ & Him); [done..|by rewrite Ef|].
  rewrite Hm in E. injection E as -> ->. unfold mount in Hm. rewrite Ef in Hm. injection Hm as Hv <-.
  assert (vol v = s) as Hvol.
  { cbn [rbind] in Hv. destruct (checkpoint_base b s d1) as [[im from]|]; [|done]. cbn [rbind] in Hv.
    destruct (fold _ _ _ _ _) as [[im' tl]|]; [|done]. by injection Hv as <-. }
  split; [|done]. split; cbn; [done|rewrite Hvol; by apply (stored_fence _ _ _ _ _ _ _ _ Hst Ef)|done|apply Him].
Qed.

(** What a request needs to be acknowledged durably. *)
Record served_ok (s : string) (c : Call) (r : Request) (w : World) : Prop := {
  sk_oracle n : oracle_ok (c_oracle c n);
  sk_room : roomy s (w_db w);
  sk_flush : flushable r w;
  sk_quiesced : quiesced (serve c r w).2;
}.

Lemma run_mounted s w v l w' : vol v = s → mounted w v l → run (served_ok s) w w' →
  ∃ v' l', mounted w' v' l' ∧ vol v' = s.
Proof.
  intros Hv Hm Hr. induction Hr as [|c r w1 _ (v1 & l1 & Hm1 & Hv1) [Ho Hroom Hf Hq]]; [by exists v, l|].
  destruct (serve_advances c Ho r w1 Hf v1 l1 Hm1) as (v2 & l2 & Hm2 & Hv2); [by rewrite Hv1|done|].
  exists v2, (l1 ++ l2). split; [done|congruence].
Qed.

(** C13: a mount is durable: whatever requests it served, as long as each was
    committed and no flush wrote over a chunked file, a new mount of the volume
    succeeds once its fence is set, and has the image the old mount served, up
    to the times stamped on nodes. *)
Theorem mount_durable o clk watch b s d l v d' w o' clk' watch' info :
  stored b d s l → mount o clk watch b s d = (Ok v, d') →
  run (served_ok s) (mkWorld (with_backend (BVolume v)) b d') w →
  (fence (λ d, d) watch' s (Some (o_ulid o' 0)) (w_db w)).1 = Ok info →
  ∃ v'' d'', mount o' clk' watch' (w_bucket w) s (w_db w) = (Ok v'', d'') ∧ image v'' ≡ w_image w.
Proof.
  intros Hst Hm Hr Hfence. destruct (mount_mounted _ _ _ _ _ _ _ _ _ Hst Hm) as [Hmt Hv].
  destruct (run_mounted _ _ _ _ _ Hv Hmt Hr) as (v1 & l1 & [M1 M2 M3 M4] & Hv1). rewrite Hv1 in M2.
  pose proof M2 as [Hwf Hs Hl Hsort Hf _ _ _ _].
  destruct (mount_ok o' clk' watch' (w_bucket w) s (w_db w) l1 info) as (v2 & d2 & E2 & _ & _ & _ & _ & Him); [done..|].
  exists v2, d2. split; [done|]. unfold w_image, fs_image. rewrite M1, M4. apply Him.
Qed.

(** ** Written bytes *)

Section written.
Context `{!HashLaw}.

(** The content after the staged extents. *)
Definition splices (c : bytes) (extents : list (Z * bytes)) : bytes :=
  fold_left (λ c e, splice c (Z.to_nat e.1) e.2) extents c.

Lemma extents_apply now p es c meta m :
  m !! p = Some (File (Inline c) meta) →
  fold_left (FsImage_apply now) (extent_deltas p es) m !! p = Some (File (Inline (splices c es)) meta).
Proof.
  revert c m. induction es as [|e es IH]; intros c m Hm; [done|]. simpl. apply IH. cbn [FsImage_apply].
  rewrite Hm. simpl. by rewrite lookup_insert_eq.
Qed.

(** C20: writes are read back: once a handle's staged extents are flushed to a
    file that is inline, reading any range of the file through its number gives
    the bytes of the old content with the extents written over it in order,
    whether the commit chunked the file or not. *)
Theorem flush_then_read c fh i extents w v p c0 meta w' fh' offset len :
  fs_backend (w_fs w) = BVolume v → pending v = [] → addressed (w_bucket w) → cached (w_bucket w) (v_blocks v) →
  fs_handles (w_fs w) !! fh = Some (mkHandle i extents) → extents ≠ [] →
  w_path_of w i = Some p → w_image w !! p = Some (File (Inline c0) meta) →
  Z.of_nat (length (splices c0 extents)) < U64 → 0 ≤ offset → 0 ≤ len → offset + len < U64 →
  flush c fh w = (Ok tt, w') → map_or [] h_extents (fs_handles (w_fs w') !! fh') = [] →
  (read i fh' offset len w').1 = Ok (take (Z.to_nat len) (drop (Z.to_nat offset) (splices c0 extents))).
Proof.
  intros Hv Hp Hb Hca Hh Hne Hi Hn Hlen H1' H2' H3' E Hfh.
  unfold flush, flush_fh in E. rewrite Hh in E. destruct extents as [|e es]; [done|]. cbv zeta in E.
  set (w1 := with_fs w _) in E. change (w_path_of w1 i) with (w_path_of w i) in E. rewrite Hi in E.
  set (ds := extent_deltas p (e :: es) ++ [_]) in E. pose proof (commit_state c ds w1) as [Es _]. rewrite E in Es.
  unfold fs_commit in E. change (fs_backend (w_fs w1)) with (fs_backend (w_fs w)) in E. rewrite Hv, fold_mutate, Hp in E.
  set (v1 := mkVolume _ _ _ _ _ _) in E.
  destruct (Volume_commit _ _ _ v1 _ _) as [[[rc v2] b2] d2] eqn:Ec. destruct rc as [[]|]; [|done]. injection E as <-.
  assert (image v1 !! p = Some (File (Inline (splices c0 (e :: es)))
    (set_attr None None None (Some (c_now c)) meta))) as Hp1.
  { unfold v1, ds. cbn [image]. rewrite fold_left_app. cbn [fold_left FsImage_apply]. unfold meta_mut.
    unfold w_image, fs_image in Hn. rewrite Hv in Hn.
    rewrite (extents_apply _ _ _ _ _ _ Hn). simpl. by rewrite lookup_insert_eq. }
  assert (Forall (λ x, no_blocks x = true) (pending v1)) as Hnb.
  { unfold v1, ds. cbn [pending app]. apply Forall_app. split; [|by repeat constructor]. by apply Forall_fmap, Forall_forall. }
  destruct (commit_content _ _ _ v1 _ _ _ _ _ Hnb Hb Hca Ec) as (_ & Hca' & Hk).
  destruct (Hk _ _ _ (splices c0 (e :: es)) Hp1 eq_refl Hlen) as (ct & Hp2 & Hct).
  unfold read, w_path_of. cbn [fst snd] in Es. unfold w_state in Es. rewrite Es.
  change (path_of (fs_state (w_fs w1)) !! i) with (w_path_of w i). rewrite Hi.
  unfold fs_read_range, Volume_read_file_range, read_file_range. cbn. rewrite Hp2.
  destruct (read_bytes b2 (v_blocks v2) ct _ offset len Hct Hca' H1' H2' H3' Hlen) as (cache & -> & _). cbn.
  cbn in Hfh. by rewrite Hfh.
Qed.
End written.
End durable.
