(* ===== verification/FsRuns.v ===== *)
(** * Concrete mounts

    A mount that serves requests on the in-memory store, at which the theorems
    about mounts are instantiated. *)

From S2P Require Import Prelude Text Slate Types Keys Kv Fork Store Batch Append Wf Commit.
From S2P Require Import Appended Ops Purge History Txn Invariant Samples AppendThms ForkThms SnapshotThms.
From S2P Require Import Frames Bucket Btree Image Volume Replica FuseSamples Fs ImageThms VolumeThms CommitThms FsTable FsServe FsThms FsDurable.
Local Open Scope Z_scope.
Import Samples FuseSamples.

Definition call (n : nat) : Call := mkCall (orc n) (Z.of_nat n) 1000 100.

(** The volume [v], mounted: a directory, a file in it, two bytes written. *)
Definition vol0 : Volume := opened mount0.
Definition f0 : World := mkWorld (with_backend (BVolume vol0)) (∅ : bucket) dm0.
Definition mk_d : option Errno * World := serve (call 20) (RMkdir 1 (Some "d") 493 18) f0.
Definition f1 : World := mk_d.2.
Definition mk_f : option Errno * World := serve (call 30) (RCreate 2 (Some "f") 438 18) f1.
Definition f2 : World := mk_f.2.
Definition wr_f : option Errno * World := serve (call 40) (RWrite 1 0 [x68; x69]) f2.
Definition f3 : World := wr_f.2.
Definition fl_f : option Errno * World := serve (call 50) (RFlush 1) f3.
Definition f4 : World := fl_f.2.

(** Unfold the names of the runs before what they run. *)
Strategy expand [mk_d f1 mk_f f2 wr_f f3 fl_f f4].

(** Two directories deep, the file is found and read. *)
Lemma served4 :
  (mk_d.1, mk_f.1, wr_f.1, fl_f.1) = (None, None, None, None)
  ∧ (lookup 2 (Some "f") f4).1 = Ok (Some (mkAttr 3 2 1 50 RegularFile 420 1 1000 100))
  ∧ (read 3 1 0 10 f4).1 = Ok [x68; x69].
Proof. split_and!; run. Qed.

Lemma room_here w : (next_ino (w_state w) + Z.of_nat (size (w_image w)) + 2 <? 1000000) = true → ino_room w.
Proof. intros E%Z.ltb_lt. unfold ino_room. rewrite U64_eq. lia. Qed.

Lemma run4 : run (λ _ _, ino_room) f0 f4.
Proof.
  refine (run_step (λ _ _, ino_room) f0 (call 50) (RFlush 1) f3 _ _); [|apply room_here; run].
  refine (run_step (λ _ _, ino_room) f0 (call 40) (RWrite 1 0 [x68; x69]) f2 _ _); [|apply room_here; run].
  refine (run_step (λ _ _, ino_room) f0 (call 30) (RCreate 2 (Some "f") 438 18) f1 _ _); [|apply room_here; run].
  refine (run_step (λ _ _, ino_room) f0 (call 20) (RMkdir 1 (Some "d") 493 18) f0 _ _); [|apply room_here; run].
  apply run_nil.
Qed.

Lemma table4 : table_ok (w_state f4).
Proof. apply (run_table f0); [exact run4|apply table_new]. Qed.

Lemma inodes_stable_witness :
  table_ok (w_state f4)
  ∧ ∀ w', run (λ _ r w, ino_room w ∧ is_rename r = false) f4 w' → extends (w_state f4) (w_state w').
Proof. apply (inodes_stable (BVolume vol0) ∅ dm0). exact run4. Defined.

Definition mv_d : result Errno unit * World := rename (call 60) 1 (Some "d") 1 (Some "e") 0 f4.
Definition f5 : World := mv_d.2.
Strategy expand [mv_d f5].
Definition file4 : Node := File (Inline [x68; x69]) (mkMeta 420 1000 100 50 ∅).

Definition vol_of (w : World) : Volume := match fs_backend (w_fs w) with BVolume v => v | BReplica _ => no_volume end.

Lemma backend4 : fs_backend (w_fs f4) = BVolume (vol_of f4).
Proof. run. Qed.

Lemma mv_d_eq : rename (call 60) 1 (Some "d") 1 (Some "e") 0 f4 = (Ok tt, f5).
Proof.
  assert (mv_d.1 = Ok tt) as E by run. rewrite <-E. exact (surjective_pairing mv_d).
Qed.

Lemma rename_keeps_nodes_witness :
  node_at f5 3 = Some file4 ∧ w_path_of f5 3 = Some "/e/f" ∧ fs_handles (w_fs f5) = fs_handles (w_fs f4).
Proof.
  apply (rename_keeps_nodes (call 60) 1 "d" 1 "e" 0 f4 f5 (vol_of f4) "/" "/" "/d/f" 3 file4);
    [exact table4|exact backend4|run|refine (bool_decide_eq_true_1 (apart _ _) _); run|run|run|exact mv_d_eq|run|run|discriminate|run].
Defined.

Definition list_d : result Errno (list (Z * FileType * string)) * World := readdir_entries 2 f4.

Lemma readdir_lists_witness :
  ∃ dir pino kids, w_path_of f4 2 = Some dir ∧ is_dir (w_image f4) dir = true
    ∧ [(2, Directory, "."); (1, Directory, ".."); (3, RegularFile, "f")]
      = (2, Directory, ".") :: (pino, Directory, "..") :: kids ∧ w_path_of list_d.2 pino = Some (parent_path dir)
    ∧ StronglySorted str_lt kids.*2
    ∧ (∀ name kind, (∃ i, (i, kind, name) ∈ kids) ↔ name ≠ "" ∧ slash_free name
        ∧ ∃ n, w_image f4 !! path_join dir name = Some n ∧ kind_of n = kind)
    ∧ ∀ i kind name, (i, kind, name) ∈ kids → w_path_of list_d.2 i = Some (path_join dir name).
Proof.
  apply (readdir_lists 2 f4 [(2, Directory, "."); (1, Directory, ".."); (3, RegularFile, "f")] list_d.2);
    [exact table4|apply room_here; run|].
  assert (list_d.1 = Ok [(2, Directory, "."); (1, Directory, ".."); (3, RegularFile, "f")]) as E by run.
  rewrite <-E. exact (surjective_pairing list_d).
Defined.

(** A replica mount of the same image. *)
Definition rep4 : Replica := mkReplica "v" (w_image f4) None ∅.
Definition g0 : World := mkWorld (with_backend (BReplica rep4)) (∅ : bucket) dm0.

Lemma replica_readonly_witness :
  let x := serve (call 60) (RMkdir 1 (Some "n") 493 18) g0 in
  w_bucket x.2 = w_bucket g0 ∧ w_db x.2 = w_db g0 ∧ w_image x.2 = w_image g0
  ∧ (mutates (RMkdir 1 (Some "n") 493 18) = true → x.1 ≠ None).
Proof. intros x. apply (replica_readonly g0 rep4). reflexivity. Defined.

Definition xa : result Errno unit * World := setxattr (call 60) 3 (Some "user.k") [x01] f4.
Definition f6 : World := xa.2.
Strategy expand [xa f6].

Lemma xa_eq : setxattr (call 60) 3 (Some "user.k") [x01] f4 = (Ok tt, f6).
Proof. assert (xa.1 = Ok tt) as E by run. rewrite <-E. exact (surjective_pairing xa). Qed.

Lemma xattr_roundtrip_witness : getxattr 3 (Some "user.k") 64 f6 = Ok (inr [x01]).
Proof.
  refine (proj1 (xattr_roundtrip (call 60) 3 "user.k" [x01] 64 f4 (vol_of f4) "/d/f" file4 f6 _ _ _ _) _);
    [exact backend4|run|run|run|exact xa_eq].
Defined.

(** ** Mount, serve, mount again *)

Lemma empty_stored : stored (∅ : bucket) mem_empty "v" [].
Proof.
  assert (latest_snapshot mem_empty "v" = Ok None) as Hsnap by run.
  split; [apply wf_mem_empty|reflexivity| |constructor|intros r Hr|intros r Hr|intros r m p h Hr| |run].
  - replace (@nil Envelope) with (vis mem_empty "v") by run. apply hist_root. run.
  - rewrite Hsnap in Hr. discriminate Hr.
  - rewrite Hsnap in Hr. discriminate Hr.
  - rewrite Hsnap in Hr. discriminate Hr.
  - split; [run|run|]. vm_compute. discriminate.
Qed.

Lemma mount0_eq : mount (sample_oracle 10) (λ _, 7) [mkStatus 9 false] (∅ : bucket) "v" mem_empty = (Ok vol0, dm0).
Proof. assert (mount0.1 = Ok vol0) as E by run. rewrite <-E. exact (surjective_pairing mount0). Qed.

Lemma flush_here : flushable (RFlush 1) f3.
Proof.
  intros h p Hh Hp. assert (fs_handles (w_fs f3) !! 1 = Some (mkHandle 3 [(0, [x68; x69])])) as E by run.
  rewrite E in Hh. injection Hh as <-. assert (w_path_of f3 3 = Some "/d/f") as E' by run.
  cbn [h_ino] in Hp. rewrite E' in Hp. injection Hp as <-. right. run.
Qed.

Lemma durable4 : run (served_ok "v") f0 f4.
Proof.
  refine (run_step (served_ok "v") f0 (call 50) (RFlush 1) f3 _ _);
    [|split; [apply orc_ok|apply (room_of _ _ (Some 3)); run|exact flush_here|run]].
  refine (run_step (served_ok "v") f0 (call 40) (RWrite 1 0 [x68; x69]) f2 _ _);
    [|split; [apply orc_ok|apply (room_of _ _ (Some 3)); run|exact I|run]].
  refine (run_step (served_ok "v") f0 (call 30) (RCreate 2 (Some "f") 438 18) f1 _ _);
    [|split; [apply orc_ok|apply (room_of _ _ (Some 1)); run|exact I|run]].
  refine (run_step (served_ok "v") f0 (call 20) (RMkdir 1 (Some "d") 493 18) f0 _ _);
    [|split; [apply orc_ok|apply (room_of _ _ None); run|exact I|run]].
  apply run_nil.
Qed.

Lemma mount_durable_witness :
  ∃ v'' d'', mount (sample_oracle 70) (λ _, 11) [mkStatus 99 false] (w_bucket f4) "v" (w_db f4) = (Ok v'', d'')
    ∧ image v'' ≡ w_image f4.
Proof.
  apply (mount_durable (sample_oracle 10) (λ _, 7) [mkStatus 9 false] ∅ "v" mem_empty [] vol0 dm0 f4
    (sample_oracle 70) (λ _, 11) [mkStatus 99 false] (mkInfo 5 5 0)); [exact empty_stored|exact mount0_eq|exact durable4|run].
Defined.

Lemma fl_f_eq : flush (call 50) 1 f3 = (Ok tt, f4).
Proof.
  assert ((flush (call 50) 1 f3).1 = Ok tt) as E by run. rewrite <-E. exact (surjective_pairing (flush (call 50) 1 f3)).
Qed.

Lemma flush_then_read_witness : (read 3 1 1 10 f4).1 = Ok (take 10 (drop 1 [x68; x69])).
Proof.
  refine (flush_then_read (call 50) 1 3 [(0, [x68; x69])] f3 (vol_of f3) "/d/f" [] (mkMeta 420 1000 100 30 ∅) f4 1 1 10
    _ _ _ _ _ _ _ _ _ _ _ _ _ _).
  - run.
  - run.
  - intros x y Hx. exfalso. assert (w_bucket f3 = ∅) as E by run. rewrite E in Hx.
    exact (lookup_empty_Some (block_path (sha256_hex x)) y Hx).
  - assert (v_blocks (vol_of f3) = ∅) as -> by run. intros h x Hx. by rewrite lookup_empty in Hx.
  - run.
  - discriminate.
  - run.
  - run.
  - rewrite U64_eq. reflexivity.
  - lia.
  - lia.
  - rewrite U64_eq. reflexivity.
  - exact fl_f_eq.
  - run.
Defined.
