(* ===== verification/FsFaults.v ===== *)
(** * Where a mount departs from its documentation

    Requests on the mount of [FsRuns] whose outcome is not what the comments of
    [fs.rs] promise. *)

From S2P Require Import Prelude Text Slate Types Keys Kv Fork Store Samples Bucket Btree Image Volume Replica.
From S2P Require Import FuseSamples Fs VolumeThms FsServe FsRuns.
Local Open Scope Z_scope.
Import Samples FuseSamples.

Definition served (rs : list Request) (w : World) : list (option Errno) * World :=
  fold_left (λ '(es, w) r, let '(e, w) := serve (call (100 + 10 * length es)) r w in (es ++ [e], w)) rs ([], w).

(** The file [/d/f] of number 3 holds "hi"; handle 1 is open on it. *)

(** "Read-your-own-writes": a staged extent that starts before the range that
    is read is copied from its own start to the start of the range. *)
Theorem overlay_misplaces :
  let w := (served [RWrite 1 0 [x41; x42]] f4).2 in
  (read 3 1 0 2 w).1 = Ok [x41; x42] ∧ (read 3 1 1 1 w).1 = Ok [x41].
Proof. split; run. Qed.

(** ... and what is staged past the end of the committed file is not seen. *)
Theorem overlay_clips :
  let w := (served [RWrite 1 2 [x21]] f4).2 in
  (read 3 1 0 3 w).1 = Ok [x68; x69]
  ∧ (read 3 1 0 3 (served [RFlush 1] w).2).1 = Ok [x68; x69; x21].
Proof. split; run. Qed.

(** "Inodes are never recycled": a file created where one was unlinked gets its
    number, and a handle that was open on the old file writes the new one. *)
Theorem unlinked_number_recycled :
  let w := served [RWrite 1 0 [x41; x42]; RUnlink 2 (Some "f"); RCreate 2 (Some "f") 438 18] f4 in
  w.1 = [None; None; None]
  ∧ match (lookup 2 (Some "f") w.2).1 with Ok (Some a) => fa_ino a | _ => 0 end = 3
  ∧ (read 3 2 0 9 (served [RRelease 1] w.2).2).1 = Ok [x41; x42].
Proof. split_and!; run. Qed.

(** A handle that is released after its file was unlinked creates it again. *)
Theorem unlinked_file_returns :
  let w := served [RWrite 1 0 [x41]; RUnlink 2 (Some "f"); RRelease 1] f4 in
  w.1 = [None; None; None]
  ∧ w_image w.2 !! "/d/f" = Some (File (Inline [x41]) (mkMeta 420 0 0 120 ∅)).
Proof. split_and!; run. Qed.

(** A rename over an open file leaves two numbers on one path: the handle of
    the replaced file writes into the file that replaced it. *)
Theorem replaced_handle_writes_replacement :
  let w := served [RCreate 2 (Some "g") 438 18; RWrite 2 0 [x67; x67]; RRelease 2;
                   RRename 2 (Some "g") 2 (Some "f") 0; RWrite 1 0 [x41]; RRelease 1] f4 in
  w.1 = [None; None; None; None; None; None]
  ∧ (w_path_of w.2 3, w_path_of w.2 4) = (Some "/d/f", Some "/d/f")
  ∧ (read 4 9 0 9 w.2).1 = Ok [x41; x67].
Proof. split_and!; run. Qed.

(** The root has no node: setting its mode, or an extended attribute, is
    answered as done and has no effect. *)
Theorem root_changes_dropped :
  let w := served [RSetxattr 1 (Some "user.k") [x01]; RSetattr 1 (Some 448) None None None None] f4 in
  w.1 = [None; None] ∧ getxattr 1 (Some "user.k") 0 w.2 = Err NO_XATTR
  ∧ match getattr 1 w.2 with Ok a => fa_perm a | Err _ => 0 end = 493.
Proof. split_and!; run. Qed.
