(* ===== verification/FsMounts.v ===== *)
(** * Replica mounts ([landslide-fuse/src/fs.rs], [mount] and [mount_replica])

    A replica mount serves requests while a background task syncs the replica,
    and writers elsewhere change the store ([FsElsewhere]).  The replica is behind a lock; the
    steps are whole requests and whole syncs. *)

From S2P Require Import Prelude Text Slate Types Keys Kv Fork Store Batch Append Wf Commit.
From S2P Require Import Appended Ops Purge History Txn Invariant Samples AppendThms ForkThms SnapshotThms ReadThms Reader.
From S2P Require Import Frames Bucket Btree Image ImageThms Volume FuseSamples VolumeThms Replica FsElsewhere.
From S2P Require Import Fs CommitThms FsTable FsServe FsThms FsDurable FsRuns.
Local Open Scope Z_scope.

Section mounts.
Context `{SlateDb} `{Codecs} `{ObjectStore} `{FuseCodecs}.

(** [LandslideFs::new] and [LandslideFs::replica] *)
Definition LandslideFs_new (v : Volume) : LandslideFs := with_backend (BVolume v).
Definition LandslideFs_replica (r : Replica) : LandslideFs := with_backend (BReplica r).

(** What [mount] hands to fuser. *)
Definition mount_fs (o : Oracle) (clk : Version → Z) (watch : list DbStatus) (b : bucket) (vol : string) (d : db) : R World :=
  let '(r, d) := mount o clk watch b vol d in
  let? v := r in Ok (mkWorld (LandslideFs_new v) b d).

(** What [mount_replica] hands to fuser. *)
Definition mount_replica (clk : Version → Z) (b : bucket) (vol : string) (d : db) : R World :=
  let? r := open_replica clk b vol d in Ok (mkWorld (LandslideFs_replica r) b d).

(** One tick of the sync loop of [mount_replica]; its error is dropped. *)
Definition tick (clk : Version → Z) (w : World) : World :=
  match fs_backend (w_fs w) with
  | BReplica r => with_fs w (set_backend (w_fs w) (BReplica (sync clk (w_bucket w) r (w_db w)).2))
  | BVolume _ => w
  end.
End mounts.

Section replica_mounts.
Context `{SlateDbLaws} `{CodecLaws} `{ObjectStoreLaws} `{FuseCodecLaws}.

(** ** Any sync *)

(** A reload from a checkpoint that does not reach what is retained. *)
Lemma reload_behind b d s L f r sn :
  retained b d s L f → r_vol r = s → latest_snapshot d s = Ok (Some sn) → sn_through_version sn + 1 < Z.of_nat f →
  ∃ t im, sn_through_version sn + 1 = Z.of_nat t ∧ (t ≤ length L)%nat ∧ 0 ≤ sn_through_version sn
    ∧ (∀ clk, im ≡ replay_log clk (take t L))
    ∧ reload b r d = match drop f L with
                     | [] => (Ok [], mkReplica s im (Some (sn_through_version sn)) (r_blocks r))
                     | e :: _ => (Err (InvalidInput (PrunedPastCheckpoint s (Z.of_nat t) (env_version e) (sn_through_version sn))), r)
                     end.
Proof.
  intros HR Hvol Hsn Hf. destruct (ret_snap _ _ _ _ _ HR sn Hsn) as (t & im & Ht & Htn & Hload & Hrep).
  destruct (snapshot_shaped d s (wf_shaped _ (ret_wf _ _ _ _ _ HR)) (ret_name _ _ _ _ _ HR)) as (o & Ho & Hn).
  rewrite Hsn in Ho. injection Ho as <-. simpl in Hn. unfold key_num in Hn.
  exists t, im. split_and!; [done|done|lia|done|]. unfold reload, reader_latest_snapshot. rewrite Hvol, Hsn. cbn [rbind].
  rewrite Hload. cbn [rbind]. assert (u64_add (sn_through_version sn) 1 = Z.of_nat t) as -> by (u64_norm; done).
  rewrite (read_position b d s L f HR t Htn). replace (max t f) with f by lia. cbn [rbind].
  destruct (drop f L) as [|e l] eqn:Ed; [done|]. simpl.
  rewrite (numbered_head L f e) by (apply HR || by rewrite Ed). by destruct (Z.ltb_spec (Z.of_nat t) (Z.of_nat f)); [|lia].
Qed.

(** Whatever a sync meets, the replica keeps to a prefix of the log and does not
    go back. *)
Lemma sync_advances clk b d s L f r k res r' :
  retained b d s L f → r_vol r = s → at_position L r k → sync clk b r d = (res, r') →
  ∃ k', (k ≤ k')%nat ∧ at_position L r' k' ∧ r_vol r' = s.
Proof.
  intros HR Hvol Hp E. destruct (sync_keeps _ _ _ _ _ _ E) as (Hv & _ & Hres). rewrite Hvol in Hv.
  destruct Hres as [-> | ->]; [|by exists k].
  destruct (snapshot_shaped d s (wf_shaped _ (ret_wf _ _ _ _ _ HR)) (ret_name _ _ _ _ _ HR)) as (o & Hsn & _).
  assert (((f ≤ k)%nat ∨ ∃ sn, latest_snapshot d s = Ok (Some sn) ∧ Z.of_nat f ≤ sn_through_version sn + 1)
    ∨ (k < f)%nat ∧ ∀ sn, o = Some sn → sn_through_version sn + 1 < Z.of_nat f) as [Hc|[Hf Ho]].
  { destruct (le_lt_dec f k) as [Hf|Hf]; [by left; left|]. destruct o as [sn|]; [|by right].
    destruct (Z.le_gt_cases (Z.of_nat f) (sn_through_version sn + 1)); [left; right; by exists sn|right].
    split; [done|]. intros ? [= <-]. lia. }
  { destruct (sync_position clk b d s L f r k HR Hvol Hp Hc) as (r1 & E1 & Hp1). rewrite E in E1. injection E1 as <-.
    exists (length L). destruct Hp as [Hk _]. done. }
  pose proof Hp as (Hk & Hc & Hnn & Him). pose proof (ret_lim _ _ _ _ _ HR) as Hlim. unfold key_lim in Hlim.
  unfold sync in E. assert (map_or 0 (λ c, u64_add c 1) (r_cursor r) = Z.of_nat k) as Hfrom.
  { destruct (r_cursor r); simpl in *; [u64_norm; done|done]. }
  rewrite Hfrom, Hvol, (read_position b d s L f HR k Hk) in E. replace (max k f) with f in E by lia. cbn [rbind] in E.
  unfold has_gap, reader_latest_snapshot in E. rewrite Hvol, Hsn in E.
  destruct o as [sn|].
  - destruct (reload_behind b d s L f r sn HR Hvol Hsn (Ho sn eq_refl)) as (t & im & Ht & Htn & Hth & Hrep & Hre).
    rewrite Hre in E. destruct (drop f L) as [|e l] eqn:Ed; simpl in E.
    + destruct (Z.leb_spec (Z.of_nat k) (sn_through_version sn)) as [Hle|Hgt]; injection E as <-; [|by exists k].
      exists t. split; [lia|]. by split_and!.
    + rewrite (numbered_head L f e) in E by (apply HR || by rewrite Ed).
      destruct (Z.ltb_spec (Z.of_nat k) (Z.of_nat f)); [discriminate E|lia].
  - destruct (drop f L) as [|e l] eqn:Ed; simpl in E; [injection E as <-; by exists k|].
    rewrite (numbered_head L f e) in E by (apply HR || by rewrite Ed).
    destruct (Z.ltb_spec (Z.of_nat k) (Z.of_nat f)); [|lia]. unfold reload, reader_latest_snapshot in E.
    cbn [rbind] in E. rewrite Hvol, Hsn in E. discriminate E.
Qed.

(** ** Runs of a replica mount *)

(** The world, the volume's log and how much of it retention removed. *)
Abbreviation Scene := (World * list Envelope * nat)%type.

(** A request, a tick of the sync loop, or an operation on the store by anyone
    else. *)
Inductive rstep (vol : string) : Scene → Scene → Prop :=
| rs_serve c r w L f : rstep vol (w, L, f) ((serve c r w).2, L, f)
| rs_tick clk w L f : rstep vol (w, L, f) (tick clk w, L, f)
| rs_elsewhere w L f b d L' f' :
    elsewhere vol (w_bucket w, w_db w, L, f) (b, d, L', f') → rstep vol (w, L, f) (mkWorld (w_fs w) b d, L', f').

(** How many events of the log the mount has applied, by its cursor. *)
Definition position (w : World) : nat :=
  match fs_backend (w_fs w) with
  | BReplica rep => Z.to_nat (map_or 0 (λ c, c + 1) (r_cursor rep))
  | BVolume _ => 0
  end.

(** The mount has applied the first [k] events. *)
Definition serving (vol : string) (s : Scene) (k : nat) : Prop :=
  kept (w_bucket s.1.1) (w_db s.1.1) vol s.1.2 s.2
  ∧ ∃ rep, fs_backend (w_fs s.1.1) = BReplica rep ∧ r_vol rep = vol ∧ at_position s.1.2 rep k.

Lemma serving_position vol s k : serving vol s k → position s.1.1 = k.
Proof. intros (_ & rep & E & _ & _ & Hc & _). unfold position. rewrite E, Hc. apply Nat2Z.id. Qed.

Lemma serving_image vol s k : serving vol s k → (k ≤ length s.1.2)%nat ∧ ∀ clk, w_image s.1.1 ≡ replay_log clk (take k s.1.2).
Proof. intros (_ & rep & E & _ & Hk & _ & _ & Him). unfold w_image, fs_image. by rewrite E. Qed.

Lemma position_prefix L L' r k : L `prefix_of` L' → at_position L r k → at_position L' r k.
Proof.
  intros [l ->] (Hk & Hc & Hnn & Him). split_and!; [rewrite length_app; lia|done|done|]. by rewrite take_app_le.
Qed.

Lemma rstep_serving vol s s' k :
  rstep vol s s' → serving vol s k → s.1.2 `prefix_of` s'.1.2 ∧ ∃ k', (k ≤ k')%nat ∧ serving vol s' k'.
Proof.
  intros Hstep (HK & rep & E & Hv & Hp). destruct Hstep as [c r w L f|clk w L f|w L f b d L' f' Hel]; cbn [fst snd] in *.
  - split; [done|]. exists k. split; [done|]. destruct (serve_replica w rep E c r) as [(Hb & Hd & r1 & r2 & E1 & E2 & Hv' & Him & Hc) _].
    rewrite E in E1. injection E1 as <-. split; cbn [fst snd]; [by rewrite Hb, Hd|]. exists r2. split_and!; [done|congruence|].
    unfold at_position. by rewrite Him, Hc.
  - split; [done|]. unfold tick. rewrite E. destruct (sync clk (w_bucket w) rep (w_db w)) as [res r'] eqn:Es.
    destruct (sync_advances clk _ _ vol L f rep k res r' (ke_retained _ _ _ _ _ HK) Hv Hp Es) as (k' & Hk & Hp' & Hv').
    exists k'. split; [done|]. split; [done|]. by exists r'.
  - destruct (elsewhere_kept _ _ _ _ _ _ _ _ _ HK Hel) as [HK' Hpre]. split; [done|].
    exists k. split; [done|]. split; [done|]. exists rep. split_and!; [done|done|by eapply position_prefix].
Qed.

Lemma run_serving vol s s' k :
  rtc (rstep vol) s s' → serving vol s k → s.1.2 `prefix_of` s'.1.2 ∧ ∃ k', (k ≤ k')%nat ∧ serving vol s' k'.
Proof.
  intros Hrun. revert k. induction Hrun as [s|s1 s2 s3 Hs Hrun IH]; intros k Hk; [split; [done|by exists k]|].
  destruct (rstep_serving _ _ _ _ Hs Hk) as (Hp & k2 & Hle & Hk2). destruct (IH k2 Hk2) as (Hp' & k3 & Hle' & Hk3).
  split; [by etrans|]. exists k3. split; [lia|done].
Qed.

Lemma mount_serving clk b vol d w L f : kept b d vol L f → mount_replica clk b vol d = Ok w → ∃ k, serving vol (w, L, f) k.
Proof.
  intros HK E. pose proof (ke_retained _ _ _ _ _ HK) as HR. unfold mount_replica, open_replica in E.
  destruct (sync _ _ _ _) as [res r] eqn:Es. destruct res as [a|]; [|done].
  injection E as <-. destruct (sync_advances clk b d vol L f (mkReplica vol ∅ None ∅) 0 (Ok a) r HR eq_refl) with (2 := Es)
    as (k & _ & Hp & Hv).
  { split_and!; [lia|done|done|done]. }
  exists k. split; [done|]. by exists r.
Qed.

(** A tick catches up. *)
Lemma tick_serving vol w L f k : serving vol (w, L, f) k → ∀ clk clk', w_image (tick clk w) ≡ replay_log clk' L.
Proof.
  intros (HK & rep & Eb & Hv & Hp) clk clk'. cbn [fst snd] in *.
  destruct (sync_position clk _ _ vol L f rep k (ke_retained _ _ _ _ _ HK) Hv Hp) as (r' & Es & _ & _ & _ & Him').
  { destruct (ke_covered _ _ _ _ _ HK) as [-> |Hc]; [left; lia|by right]. }
  unfold tick. rewrite Eb, Es. unfold w_image, fs_image. cbn. rewrite (Him' clk'). by rewrite firstn_all.
Qed.

(** C31: a replica mount follows the writers and never goes back.  Let requests
    and ticks of the sync loop interleave with what others do to the store:
    appends to the volume or to any stream, fences, uploads, checkpoints of the
    volume (failed ones too) and purges of what a checkpoint covers.  In any two
    states of the run, one after the other, the earlier log is a prefix of the
    later; the mount serves the replay of as many events of the log as its
    cursor says; it has applied no fewer in the later state; and a tick brings
    it to the replay of the whole log.  The volume is no fork, no rename of its
    log goes under itself or over an ancestor, and at the start its versions are
    its positions, its latest checkpoint loads to the replay of what it covers
    and covers what was removed; the writers' operations are atomic. *)
Theorem replica_mount_follows clk b vol d w0 L0 f0 w1 L1 f1 w2 L2 f2 :
  kept b d vol L0 f0 → mount_replica clk b vol d = Ok w0 →
  rtc (rstep vol) (w0, L0, f0) (w1, L1, f1) → rtc (rstep vol) (w1, L1, f1) (w2, L2, f2) →
  L1 `prefix_of` L2 ∧ (position w1 ≤ position w2 ≤ length L2)%nat
  ∧ (∀ clk', w_image w1 ≡ replay_log clk' (take (position w1) L1))
  ∧ (∀ clk', w_image w2 ≡ replay_log clk' (take (position w2) L2))
  ∧ ∀ clk' clk'', w_image (tick clk' w2) ≡ replay_log clk'' L2.
Proof.
  intros HK E Hrun1 Hrun2. destruct (mount_serving clk b vol d w0 L0 f0 HK E) as [k0 Hk0].
  destruct (run_serving _ _ _ _ Hrun1 Hk0) as (_ & k1 & _ & Hk1). destruct (run_serving _ _ _ _ Hrun2 Hk1) as (Hpre & k2 & Hle & Hk2).
  pose proof (serving_position _ _ _ Hk1) as P1. pose proof (serving_position _ _ _ Hk2) as P2. cbn [fst snd] in *. subst k1 k2.
  destruct (serving_image _ _ _ Hk1) as [_ Him1]. destruct (serving_image _ _ _ Hk2) as [Hkl Him2].
  split_and!; [done|done|done|done|done|]. by eapply tick_serving.
Qed.
End replica_mounts.

(** ** An instance *)

Import Samples FuseSamples.

(** The volume of [d_cut], of which only the checkpoint is left, mounted; a
    lookup; a directory made by a writer elsewhere; and a tick. *)
Definition m_cut : World :=
  mkWorld (LandslideFs_replica (sync (λ _, 15) check1.1.2 (mkReplica "v" ∅ None ∅) d_cut).2) check1.1.2 d_cut.
Definition m_seen : World := (serve (call 9) (RLookup 1 (Some "a")) m_cut).2.
Definition mkdir_z : NewEvent := delta_event (DMkdir "/z").
Definition m_made : R CommitTicket * db := append_lazy (orc 60) quiet "v" Any [mkdir_z] (w_db m_seen).
Definition m_new : World := mkWorld (w_fs m_seen) (w_bucket m_seen) m_made.2.
Definition m_run : World := tick (λ _, 19) m_new.
Definition log2 : list Envelope := log1 ++ drop (length (vis (w_db m_seen) "v")) (vis m_made.2 "v").
Strategy expand [m_seen m_made m_new m_run].

Lemma m_cut_mounted : mount_replica (λ _, 15) check1.1.2 "v" d_cut = Ok m_cut.
Proof.
  assert ((sync (λ _, 15) check1.1.2 (mkReplica "v" ∅ None ∅) d_cut).1 = Ok tt) as E by run.
  unfold mount_replica, open_replica, m_cut. destruct (sync _ _ _ _) as [res r]. cbn [fst snd] in *. by rewrite E.
Qed.

Lemma d_cut_kept : kept check1.1.2 d_cut "v" log1 2.
Proof.
  assert (kept check1.1.2 check1.2 "v" log1 0) as Hk.
  { apply (kept_checkpoint ∅ dm1 "v" log1 0 (sample_oracle 40) (λ _, 12) [mkStatus 9 false] 1 check1.1.1);
      [apply dm1_kept|apply sample_oracle_ok|small|run| |run].
    split; [reflexivity|]. intros m p Hm Hp. assert (manifest_of dm1 "v" = Ok (mkManifest [])) as E by run.
    rewrite E in Hm. injection Hm as <-. exfalso. exact (not_elem_of_nil p Hp). }
  apply (kept_purge check1.1.2 check1.2 "v" log1 0 2 (purge_below "v" 2 check1.2).1);
    [exact Hk|lia|small|run| |run].
  eexists. split; [run|]. vm_compute. discriminate.
Qed.

Lemma m_made_step : rstep "v" (m_seen, log1, 2%nat) (m_new, log2, 2%nat).
Proof.
  assert (m_made.1 = Ok (mkTicket (mkInfo 2 2 4) 5)) as E1 by run.
  assert (m_made = (Ok (mkTicket (mkInfo 2 2 4) 5), m_made.2)) as E by (rewrite <-E1; apply surjective_pairing).
  apply rs_elsewhere. unfold log2.
  apply (el_append "v" (orc 60) "v" Any None [mkdir_z] true (w_bucket m_seen) (w_db m_seen) log1 2 (mkTicket (mkInfo 2 2 4) 5));
    [reflexivity|apply orc_ok|apply (room_of _ _ (Some 1)); run|exact E|split; small|].
  refine (bool_decide_eq_true_1 (Forall (λ ne, tidy_data (ne_data ne)) _) _); run.
Qed.

Lemma replica_mount_follows_witness :
  log1 `prefix_of` log2 ∧ (position m_cut ≤ position m_run ≤ length log2)%nat
  ∧ (∀ clk', w_image m_cut ≡ replay_log clk' (take (position m_cut) log1))
  ∧ (∀ clk', w_image m_run ≡ replay_log clk' (take (position m_run) log2))
  ∧ ∀ clk' clk'', w_image (tick clk' m_run) ≡ replay_log clk'' log2.
Proof.
  apply (replica_mount_follows (λ _, 15) check1.1.2 "v" d_cut m_cut log1 2 m_cut log1 2 m_run log2 2);
    [apply d_cut_kept|apply m_cut_mounted|apply rtc_refl|].
  eapply rtc_l; [apply (rs_serve "v" (call 9) (RLookup 1 (Some "a")))|].
  eapply rtc_l; [exact m_made_step|]. eapply rtc_l; [apply (rs_tick "v" (λ _, 19))|]. apply rtc_refl.
Defined.
