(* ===== verification/Disk.v ===== *)
(** * The local file system

    What [std::fs] does on Linux, as far as the directory mirror
    ([landslide-fuse/src/mirror.rs]) uses it.  A file system is a map from
    absolute paths (their components) to entries; the root is implicit.  A path
    given to a call is resolved component by component, through symbolic links.
    The process may read and write everything: permissions are stored and not
    enforced. *)

From S2P Require Import Prelude Text.
Local Open Scope Z_scope.

Inductive Entry :=
| LFile (content : bytes) (mode mtime_ms : Z)
| LDir (mode : Z)
| LLink (target : string).

#[global] Instance entry_eq_dec : EqDecision Entry.
Proof. solve_decision. Defined.

Abbreviation LPath := (list string).
Abbreviation LocalFs := (gmap LPath Entry).

(** [std::io::ErrorKind]s. *)
Inductive OsError := NotFound | NotADirectory | IsADirectory | AlreadyExists | FilesystemLoop.

#[global] Instance os_error_eq_dec : EqDecision OsError.
Proof. solve_decision. Defined.

(** [s.split('/')] *)
Fixpoint split_slash (s : string) : list string :=
  match s with
  | EmptyString => [""]
  | String c s =>
      if Ascii.eqb c "/" then "" :: split_slash s
      else
        match split_slash s with
        | [] => [String c ""]
        | x :: xs => String c x :: xs
        end
  end.

Definition is_absolute (s : string) : bool := starts_with "/" s.

(** A component that names an entry. *)
Definition is_normal (c : string) : bool :=
  negb (String.eqb c "") && negb (String.eqb c ".") && negb (String.eqb c "..").

(** The [Component::Normal]s of [Path::new(s).components()]. *)
Definition normals (s : string) : LPath := filter (λ c, is_normal c = true) (split_slash s).

(** [Path::parent] of an absolute path, less the [None] of the root. *)
Definition parent_of (p : LPath) : LPath := take (length p - 1) p.

(** ** Resolution *)

(** The links that are followed before [ELOOP]. *)
Definition MAXSYMLINKS : nat := 40.

(** The components [todo] from the directory [cur]: where the last one is, or
    would be created.  [follow] follows the last component too. *)
Fixpoint walk (links : nat) (fs : LocalFs) (follow : bool) (cur todo : LPath) : result OsError LPath :=
  (fix go (cur todo : LPath) : result OsError LPath :=
     match todo with
     | [] => Ok cur
     | c :: rest =>
         if String.eqb c "" || String.eqb c "." then go cur rest
         else if String.eqb c ".." then go (parent_of cur) rest
         else
           match fs !! (cur ++ [c]) with
           | Some (LDir _) => go (cur ++ [c]) rest
           | Some (LFile _ _ _) => match rest with [] => Ok (cur ++ [c]) | _ => Err NotADirectory end
           | Some (LLink target) =>
               if negb follow && bool_decide (rest = []) then Ok (cur ++ [c])
               else
                 match links with
                 | O => Err FilesystemLoop
                 | S links =>
                     walk links fs follow (if is_absolute target then [] else cur) (split_slash target ++ rest)
                 end
           | None => match rest with [] => Ok (cur ++ [c]) | _ => Err NotFound end
           end
     end) cur todo.

Definition resolve (fs : LocalFs) (follow : bool) (p : LPath) : result OsError LPath :=
  walk MAXSYMLINKS fs follow [] p.

(** The entry at a resolved path. *)
Definition entry_at (fs : LocalFs) (q : LPath) : option Entry :=
  match q with [] => Some (LDir 493) | _ => fs !! q end.

Definition lookup_entry (fs : LocalFs) (follow : bool) (p : LPath) : result OsError Entry :=
  match resolve fs follow p with
  | Err e => Err e
  | Ok q => match entry_at fs q with Some x => Ok x | None => Err NotFound end
  end.

(** ** Queries *)

(** [Path::symlink_metadata] *)
Definition symlink_metadata (fs : LocalFs) (p : LPath) : result OsError Entry := lookup_entry fs false p.

(** [Path::is_dir] *)
Definition is_dir_at (fs : LocalFs) (p : LPath) : bool :=
  match lookup_entry fs true p with Ok (LDir _) => true | _ => false end.

(** [std::fs::read] *)
Definition os_read (fs : LocalFs) (p : LPath) : result OsError bytes :=
  match lookup_entry fs true p with
  | Ok (LFile b _ _) => Ok b
  | Ok _ => Err IsADirectory
  | Err e => Err e
  end.

(** ** Updates *)

Section updates.
(** The process's umask, and the clock. *)
Context (umask now : Z).

Definition mkdir_at (fs : LocalFs) (p : LPath) : result OsError LocalFs :=
  match resolve fs false p with
  | Err e => Err e
  | Ok q =>
      match entry_at fs q with
      | Some _ => Err AlreadyExists
      | None => Ok (<[q := LDir (Z.ldiff 511 umask)]> fs)
      end
  end.

(** [std::fs::create_dir_all]; [n] is the number of components of [p]. *)
Fixpoint create_dirs (n : nat) (fs : LocalFs) (p : LPath) : result OsError unit * LocalFs :=
  match mkdir_at fs p with
  | Ok fs => (Ok tt, fs)
  | Err NotFound =>
      match n with
      | O => (Err NotFound, fs)
      | S n =>
          match create_dirs n fs (parent_of p) with
          | (Err e, fs) => (Err e, fs)
          | (Ok _, fs) =>
              match mkdir_at fs p with
              | Ok fs => (Ok tt, fs)
              | Err e => (if is_dir_at fs p then Ok tt else Err e, fs)
              end
          end
      end
  | Err e => (if is_dir_at fs p then Ok tt else Err e, fs)
  end.

Definition create_dir_all (fs : LocalFs) (p : LPath) : result OsError unit * LocalFs :=
  create_dirs (length p) fs p.

(** [std::fs::remove_file] *)
Definition remove_file (fs : LocalFs) (p : LPath) : result OsError LocalFs :=
  match resolve fs false p with
  | Err e => Err e
  | Ok q =>
      match entry_at fs q with
      | Some (LDir _) => Err IsADirectory
      | Some _ => Ok (delete q fs)
      | None => Err NotFound
      end
  end.

(** [std::fs::remove_dir_all] of a directory: nothing below it is followed. *)
Definition remove_dir_all (fs : LocalFs) (p : LPath) : result OsError LocalFs :=
  match resolve fs false p with
  | Err e => Err e
  | Ok q =>
      match entry_at fs q with
      | Some (LDir _) => Ok (filter (λ kv, ¬ q `prefix_of` kv.1) fs)
      | Some _ => Err NotADirectory
      | None => Err NotFound
      end
  end.

(** [std::os::unix::fs::symlink] *)
Definition symlink_at (fs : LocalFs) (target : string) (p : LPath) : result OsError LocalFs :=
  match resolve fs false p with
  | Err e => Err e
  | Ok q =>
      match entry_at fs q with
      | Some _ => Err AlreadyExists
      | None => Ok (<[q := LLink target]> fs)
      end
  end.

(** [std::fs::write]: created or truncated, then written. *)
Definition os_write (fs : LocalFs) (p : LPath) (b : bytes) : result OsError LocalFs :=
  match resolve fs true p with
  | Err e => Err e
  | Ok q =>
      match entry_at fs q with
      | Some (LFile _ m _) => Ok (<[q := LFile b m now]> fs)
      | Some _ => Err IsADirectory
      | None => Ok (<[q := LFile b (Z.ldiff 438 umask) now]> fs)
      end
  end.

(** [std::fs::rename] of a file or a link.  (The mirror renames what it has
    just written with [std::fs::write], which is no directory.) *)
Definition os_rename (fs : LocalFs) (a b : LPath) : result OsError LocalFs :=
  match resolve fs false a with
  | Err e => Err e
  | Ok qa =>
      match resolve fs false b with
      | Err e => Err e
      | Ok qb =>
          match entry_at fs qa, entry_at fs qb with
          | None, _ => Err NotFound
          | Some (LDir _), _ | _, Some (LDir _) => Err IsADirectory
          | Some x, _ => Ok (<[qb := x]> (delete qa fs))
          end
      end
  end.

Definition with_mode (x : Entry) (mode : Z) : Entry :=
  match x with
  | LFile b _ t => LFile b mode t
  | LDir _ => LDir mode
  | LLink t => LLink t
  end.

(** [std::fs::set_permissions] *)
Definition set_permissions (fs : LocalFs) (p : LPath) (mode : Z) : result OsError LocalFs :=
  match resolve fs true p with
  | Err e => Err e
  | Ok q => match fs !! q with Some x => Ok (<[q := with_mode x mode]> fs) | None => Err NotFound end
  end.

(** [File::options().write(true).open(p)] and [set_times]. *)
Definition set_modified (fs : LocalFs) (p : LPath) (t : Z) : result OsError LocalFs :=
  match resolve fs true p with
  | Err e => Err e
  | Ok q =>
      match entry_at fs q with
      | Some (LFile b m _) => Ok (<[q := LFile b m t]> fs)
      | Some _ => Err IsADirectory
      | None => Err NotFound
      end
  end.
End updates.
