(* ===== verification/DiskThms.v ===== *)
(** * Resolution of plain paths

    A path whose proper prefixes are directories resolves to itself, and the
    calls of [Disk] on it act on that one place. *)

From S2P Require Import Prelude Text Disk.
Local Open Scope Z_scope.

(** [fs] has a directory at [q]. *)
Definition dir_at (fs : LocalFs) (q : LPath) : Prop := ∃ m, entry_at fs q = Some (LDir m).

(** All proper prefixes of [p] are directories, and its components are names. *)
Record plain (fs : LocalFs) (p : LPath) : Prop := {
  pl_names : Forall (λ c, is_normal c = true) p;
  pl_dirs q : q `prefix_of` p → q ≠ p → dir_at fs q;
}.

Definition not_link (o : option Entry) : Prop := ∀ t, o ≠ Some (LLink t).

Lemma entry_at_snoc fs q c : entry_at fs (q ++ [c]) = fs !! (q ++ [c]).
Proof. by destruct q. Qed.

Lemma parent_snoc q c : parent_of (q ++ [c]) = q.
Proof. unfold parent_of. rewrite length_app. simpl. rewrite Nat.add_sub. by rewrite take_app_length. Qed.

Lemma snoc_inv (p : LPath) : p = [] ∨ ∃ q c, p = q ++ [c].
Proof. destruct p as [|c q _] using rev_ind; [by left|right; eauto]. Qed.

Lemma normal_cases c : is_normal c = true →
  String.eqb c "" || String.eqb c "." = false ∧ String.eqb c ".." = false.
Proof. unfold is_normal. rewrite !andb_true_iff, !negb_true_iff. intros [[-> ->] ->]. done. Qed.

Lemma normal_suffix a s : (2 < String.length s)%nat → is_normal (a +:+ s) = true.
Proof.
  intros Hl. assert (2 < String.length (a +:+ s))%nat as H by (rewrite str_length_app; lia).
  revert H. unfold is_normal. destruct (a +:+ s) as [|x [|y [|z t]]]; simpl; try lia.
  intros _. by destruct (Ascii.eqb x "."), (Ascii.eqb y ".").
Qed.

(** One component, when it is a name. *)
Lemma walk_step links fs follow cur c rest : is_normal c = true →
  walk links fs follow cur (c :: rest) =
    match fs !! (cur ++ [c]) with
    | Some (LDir _) => walk links fs follow (cur ++ [c]) rest
    | Some (LFile _ _ _) => match rest with [] => Ok (cur ++ [c]) | _ => Err NotADirectory end
    | Some (LLink target) =>
        if negb follow && bool_decide (rest = []) then Ok (cur ++ [c])
        else
          match links with
          | O => Err FilesystemLoop
          | S links => walk links fs follow (if is_absolute target then [] else cur) (split_slash target ++ rest)
          end
    | None => match rest with [] => Ok (cur ++ [c]) | _ => Err NotFound end
    end.
Proof. intros [E1 E2]%normal_cases. destruct links; cbn [walk]; rewrite E1, E2; done. Qed.

Lemma walk_plain links fs follow cur todo :
  Forall (λ c, is_normal c = true) todo →
  (∀ r, r `prefix_of` todo → r ≠ [] → r ≠ todo → ∃ m, fs !! (cur ++ r) = Some (LDir m)) →
  (follow = true → not_link (fs !! (cur ++ todo))) →
  walk links fs follow cur todo = Ok (cur ++ todo).
Proof.
  revert cur. induction todo as [|c todo IH]; intros cur Hn Hd Hl; [destruct links; by rewrite app_nil_r|].
  apply Forall_cons in Hn as [Hc Hn]. rewrite walk_step by done.
  destruct todo as [|c' todo].
  - destruct (fs !! (cur ++ [c])) as [[| |t]|] eqn:E; [done|by destruct links| |done].
    destruct follow; [|done]. by destruct (Hl eq_refl t).
  - destruct (Hd [c]) as [m ->]; [by exists (c' :: todo)|done|done|].
    rewrite IH; [by rewrite <-app_assoc|done|..].
    + intros r Hr H1 H2. rewrite <-app_assoc. apply (Hd (c :: r)); [by apply prefix_cons|done|congruence].
    + intros Hf. rewrite <-app_assoc. by apply Hl.
Qed.

Lemma resolve_plain fs follow p :
  plain fs p → (follow = true → not_link (fs !! p)) → resolve fs follow p = Ok p.
Proof.
  intros [Hn Hd] Hl. apply (walk_plain MAXSYMLINKS fs follow []); [done| |done].
  intros r Hr H1 H2. destruct (Hd r Hr H2) as [m Hm]. exists m. by destruct r.
Qed.

(** A path through something that is neither a directory nor a link. *)
Lemma walk_blocked links fs follow cur q c rest :
  Forall (λ c, is_normal c = true) (q ++ c :: rest) → rest ≠ [] →
  (∀ r, r `prefix_of` q → r ≠ [] → ∃ m, fs !! (cur ++ r) = Some (LDir m)) →
  (∀ m, fs !! (cur ++ q ++ [c]) ≠ Some (LDir m)) → not_link (fs !! (cur ++ q ++ [c])) →
  ∃ e, walk links fs follow cur (q ++ c :: rest) = Err e.
Proof.
  intros Hn Hr Hd H1 H2. revert cur Hd H1 H2. induction q as [|x q IH]; intros cur Hd H1 H2.
  - simpl in *. apply Forall_cons in Hn as [Hc _]. rewrite walk_step by done.
    destruct rest as [|r rest]; [done|].
    destruct (fs !! (cur ++ [c])) as [[| |t]|]; [by eexists|by edestruct H1|by edestruct H2|by eexists].
  - simpl in Hn. apply Forall_cons in Hn as [Hx Hn].
    destruct (Hd [x]) as [m Hm]; [by exists q|done|].
    destruct (IH Hn (cur ++ [x])) as [e He].
    + intros r Hr' Hne. rewrite <-app_assoc. apply (Hd (x :: r)); [by apply prefix_cons|done].
    + intros m'. rewrite <-app_assoc. apply H1.
    + rewrite <-app_assoc. apply H2.
    + exists e. simpl. rewrite walk_step by done. by rewrite Hm.
Qed.

Lemma resolve_blocked fs follow p q :
  Forall (λ c, is_normal c = true) p → q `prefix_of` p → q ≠ p → q ≠ [] → plain fs q →
  not_link (fs !! q) → (∀ m, fs !! q ≠ Some (LDir m)) → ∃ e, resolve fs follow p = Err e.
Proof.
  intros Hn [rest ->] Hne Hq [_ Hd] Hl Hm. destruct (snoc_inv q) as [->|(q' & c & ->)]; [done|].
  rewrite <-app_assoc in *. apply (walk_blocked MAXSYMLINKS fs follow [] q' c rest); [done| | |done|done].
  - intros ->. by rewrite app_nil_r in Hne.
  - intros r Hr Hr0. destruct (Hd r) as [m Hm'].
    + by apply prefix_app_r.
    + intros ->. apply prefix_length in Hr. rewrite length_app in Hr. simpl in Hr. lia.
    + exists m. by destruct r.
Qed.

(** ** Calls on plain paths *)

Lemma plain_parent fs q c : plain fs (q ++ [c]) → plain fs q ∧ dir_at fs q.
Proof.
  intros [Hn Hd]. apply Forall_app in Hn as [Hn _]. split; [split; [done|]|].
  - intros r Hr Hne. apply Hd; [by apply prefix_app_r|]. intros ->. apply prefix_length in Hr.
    rewrite length_app in Hr. simpl in Hr. lia.
  - apply Hd; [by apply prefix_app_r|]. intros E. apply (f_equal length) in E. rewrite length_app in E. simpl in E. lia.
Qed.

Section calls.
Context (fs : LocalFs) (p : LPath) (Hp : plain fs p) (Hne : p ≠ []).

Lemma entry_plain : entry_at fs p = fs !! p.
Proof. by destruct p. Qed.

Lemma lstat_plain : symlink_metadata fs p = match fs !! p with Some x => Ok x | None => Err NotFound end.
Proof. unfold symlink_metadata, lookup_entry. rewrite resolve_plain by done. by rewrite entry_plain. Qed.

Lemma is_dir_plain : not_link (fs !! p) → is_dir_at fs p = match fs !! p with Some (LDir _) => true | _ => false end.
Proof.
  intros Hl. unfold is_dir_at, lookup_entry. rewrite resolve_plain by done. rewrite entry_plain.
  by destruct (fs !! p) as [[]|].
Qed.

Lemma mkdir_plain umask : fs !! p = None → mkdir_at umask fs p = Ok (<[p := LDir (Z.ldiff 511 umask)]> fs).
Proof. intros E. unfold mkdir_at. rewrite resolve_plain by done. by rewrite entry_plain, E. Qed.

Lemma create_plain umask : fs !! p = None → create_dir_all umask fs p = (Ok tt, <[p := LDir (Z.ldiff 511 umask)]> fs).
Proof. intros E. unfold create_dir_all. destruct (length p); cbn [create_dirs]; by rewrite mkdir_plain. Qed.

Lemma write_plain umask now b :
  not_link (fs !! p) → (∀ m, fs !! p ≠ Some (LDir m)) →
  ∃ m, os_write umask now fs p b = Ok (<[p := LFile b m now]> fs).
Proof.
  intros Hl Hd. unfold os_write. rewrite resolve_plain by done. rewrite entry_plain.
  destruct (fs !! p) as [[| |t]|]; [by eexists|by edestruct Hd|by edestruct Hl|by eexists].
Qed.

Lemma permissions_plain mode x : not_link (fs !! p) → fs !! p = Some x →
  set_permissions fs p mode = Ok (<[p := with_mode x mode]> fs).
Proof. intros Hl E. unfold set_permissions. rewrite resolve_plain by done. by rewrite E. Qed.

Lemma modified_plain b m t' t : fs !! p = Some (LFile b m t') → set_modified fs p t = Ok (<[p := LFile b m t]> fs).
Proof.
  intros E. unfold set_modified. rewrite resolve_plain; [|done|intros _ x; by rewrite E]. by rewrite entry_plain, E.
Qed.

Lemma symlink_plain target : fs !! p = None → symlink_at fs target p = Ok (<[p := LLink target]> fs).
Proof. intros E. unfold symlink_at. rewrite resolve_plain by done. by rewrite entry_plain, E. Qed.
End calls.

Lemma rename_plain fs a b x :
  plain fs a → plain fs b → a ≠ [] → b ≠ [] → fs !! a = Some x → (∀ m, x ≠ LDir m) → (∀ m, fs !! b ≠ Some (LDir m)) →
  os_rename fs a b = Ok (<[b := x]> (delete a fs)).
Proof.
  intros Ha Hb Hna Hnb Ex Hx Hd. unfold os_rename. rewrite !resolve_plain by done. rewrite !entry_plain by done. rewrite Ex.
  destruct x as [| |]; [|by edestruct Hx|]; destruct (fs !! b) as [[]|]; try done; by edestruct Hd.
Qed.

Lemma create_existing umask fs q : plain fs q → dir_at fs q → create_dir_all umask fs q = (Ok tt, fs).
Proof.
  intros Hq [m Hm]. assert (∀ follow, resolve fs follow q = Ok q) as Hr.
  { intros follow. destruct q as [|c q]; [done|]. apply resolve_plain; [done|]. intros _ t. unfold entry_at in Hm. congruence. }
  unfold create_dir_all. assert (mkdir_at umask fs q = Err AlreadyExists) as E by (unfold mkdir_at; by rewrite Hr, Hm).
  assert (is_dir_at fs q = true) as Hd by (unfold is_dir_at, lookup_entry; by rewrite Hr, Hm).
  destruct (length q); cbn [create_dirs]; by rewrite E, Hd.
Qed.
