(* ===== verification/SqliteDisk.v ===== *)
(** * Database images on disk ([landslide-sqlite/src/lib.rs], [DbImage::write_to]) *)

From S2P Require Import Prelude Text Slate Types Keys Kv Fork Store Bucket Wal Sqlite Disk DiskThms.
Local Open Scope Z_scope.

(** [format!("{}{ext}", path.display())] *)
Definition sidecar (p : LPath) (ext : string) : LPath :=
  match last p with
  | Some c => parent_of p ++ [c +:+ ext]
  | None => [ext]
  end.

(** [drop(std::fs::remove_file(p))] *)
Definition drop_file (fs : LocalFs) (p : LPath) : LocalFs :=
  match remove_file fs p with Ok fs => fs | Err _ => fs end.

(** [DbImage::write_to]; [None] is the panic of [to_bytes]. *)
Definition write_to (umask now : Z) (i : DbImage) (p : LPath) (fs : LocalFs) : option (result OsError unit) * LocalFs :=
  match (match p with [] => (Ok tt, fs) | _ => create_dir_all umask fs (parent_of p) end) with
  | (Err e, fs) => (Some (Err e), fs)
  | (Ok _, fs) =>
      let fs := fold_left (λ fs ext, drop_file fs (sidecar p ext)) ["-wal"; "-shm"] fs in
      match to_bytes i with
      | None => (None, fs)
      | Some x =>
          match os_write umask now fs p x with
          | Ok fs => (Some (Ok tt), fs)
          | Err e => (Some (Err e), fs)
          end
      end
  end.

Lemma drop_file_plain fs p : plain fs p → p ≠ [] → (∀ m, fs !! p ≠ Some (LDir m)) → drop_file fs p = delete p fs.
Proof.
  intros Hp Hne Hd. unfold drop_file, remove_file. rewrite resolve_plain, entry_plain by done.
  destruct (fs !! p) as [[| m |]|] eqn:E; [done|by edestruct Hd|done|by rewrite delete_id].
Qed.

Lemma plain_delete fs q c d : plain fs (q ++ [c]) → plain (delete (q ++ [d]) fs) (q ++ [c]).
Proof.
  intros [Hn Hd]. split; [done|]. intros r Hr Hne. destruct (Hd r Hr Hne) as [m Hm]. exists m.
  destruct r as [|a r]; [done|]. cbn [entry_at] in *. rewrite lookup_delete_ne; [done|]. intros E. rewrite <-E in Hr, Hne.
  destruct Hr as [s Es]. rewrite <-app_assoc in Es. apply app_inv_head in Es. destruct s; [by simplify_eq/=|discriminate Es].
Qed.

Lemma plain_rename fs q c d : is_normal d = true → plain fs (q ++ [c]) → plain fs (q ++ [d]).
Proof.
  intros Hd Hp. destruct (plain_parent _ _ _ Hp) as [[Hn Hq] Hat]. split.
  - apply Forall_app. split; [done|]. by apply Forall_singleton.
  - intros r [s E] Hne. destruct (snoc_inv s) as [->|(s' & a & ->)]; [by rewrite app_nil_r in E|].
    rewrite app_assoc in E. apply app_inj_tail in E as [-> _]. destruct (decide (s' = [])) as [->|Hs]; [by rewrite app_nil_r in Hat|].
    apply Hq; [by apply prefix_app_r|]. intros E. rewrite <-(app_nil_r r) in E at 1. by apply app_inv_head in E.
Qed.

Lemma suffix_ne (a s : string) : s ≠ "" → a +:+ s ≠ a.
Proof.
  intros Hs E. apply (f_equal String.length) in E. rewrite str_length_app in E. destruct s; [done|]. simpl in E. lia.
Qed.

(** A restored database is complete on disk: the file holds exactly the image's
    bytes, no journal of an earlier database is beside it, and nothing else
    changed. *)
Theorem write_to_exact umask now i q c x fs :
  plain fs (q ++ [c]) → to_bytes i = Some x →
  (∀ ext m, ext ∈ [""; "-wal"; "-shm"] → fs !! (q ++ [c +:+ ext]) ≠ Some (LDir m)) → not_link (fs !! (q ++ [c])) →
  ∃ fs' m, write_to umask now i (q ++ [c]) fs = (Some (Ok tt), fs') ∧ fs' !! (q ++ [c]) = Some (LFile x m now)
    ∧ fs' !! (q ++ [c +:+ "-wal"]) = None ∧ fs' !! (q ++ [c +:+ "-shm"]) = None
    ∧ ∀ r, r ≠ q ++ [c] → r ≠ q ++ [c +:+ "-wal"] → r ≠ q ++ [c +:+ "-shm"] → fs' !! r = fs !! r.
Proof.
  intros Hp Hx Hd Hl. assert (∀ a : string, q ++ [a] ≠ []) as Hne by (intros a; by destruct q).
  assert (∀ a b : string, a ≠ b → q ++ [a] ≠ q ++ [b]) as Hinj by (intros a b Hab E; apply app_inv_head in E; congruence).
  assert (c +:+ "-wal" ≠ c ∧ c +:+ "-shm" ≠ c ∧ c +:+ "-wal" ≠ c +:+ "-shm") as (N1 & N2 & N3).
  { split_and!; [by apply suffix_ne|by apply suffix_ne|]. intros E%str_app_inj_l. done. }
  assert (∀ s, (2 < String.length s)%nat → plain fs (q ++ [c +:+ s])) as Hside.
  { intros s Hs. apply (plain_rename fs q c); [by apply normal_suffix|done]. }
  destruct (plain_parent _ _ _ Hp) as [Hq Hat].
  unfold write_to. replace (match q ++ [c] with [] => _ | _ => _ end) with (Ok (E := OsError) tt, fs).
  2: { destruct (q ++ [c]) eqn:E; [by destruct (Hne c)|]. rewrite <-E, parent_snoc. by rewrite create_existing. }
  cbn [fold_left]. unfold sidecar. rewrite last_snoc, parent_snoc, Hx.
  rewrite (drop_file_plain fs); [|by apply Hside; simpl; lia|done|intros m; apply Hd; set_solver].
  rewrite drop_file_plain; [|by apply plain_delete, Hside; simpl; lia|done|].
  2: { intros m. rewrite lookup_delete_ne by by apply Hinj. apply Hd. set_solver. }
  set (fs2 := delete _ (delete _ fs)).
  assert (fs2 !! (q ++ [c]) = fs !! (q ++ [c])) as E2 by (unfold fs2; rewrite !lookup_delete_ne; auto).
  destruct (write_plain fs2 (q ++ [c])) with (umask := umask) (now := now) (b := x) as [m Hm].
  { by apply plain_delete, plain_delete. }
  { done. }
  { by rewrite E2. }
  { intros m. rewrite E2. pose proof (Hd "" m ltac:(set_solver)) as H0. by rewrite str_app_nil_r in H0. }
  rewrite Hm. do 2 eexists. split; [done|]. split_and!; [apply lookup_insert_eq|..].
  - rewrite lookup_insert_ne by (apply Hinj; congruence). unfold fs2. rewrite lookup_delete_ne by (apply Hinj; congruence). apply lookup_delete_eq.
  - rewrite lookup_insert_ne by (apply Hinj; congruence). apply lookup_delete_eq.
  - intros r R1 R2 R3. rewrite lookup_insert_ne by done. unfold fs2. by rewrite !lookup_delete_ne.
Qed.
