(* ===== verification/Mirror.v ===== *)
(** * Directory mirrors ([landslide-fuse/src/mirror.rs])

    A replica's image written into a local directory.  A pass returns its
    result, the mirror and the local file system after it; [umask] and [now]
    are the process's umask and the clock. *)

From S2P Require Import Prelude Text Slate Types Keys Kv Fork Store Bucket Btree Image Volume Replica Disk.
Local Open Scope Z_scope.

Definition STATE_FILE : string := ".landslide-mirror.json".

Record StateEntry := mkEntry {
  se_size : Z;
  se_mtime_ms : Z;
  se_mode : Z;
  se_target : option string;
}.

#[global] Instance state_entry_eq_dec : EqDecision StateEntry.
Proof. solve_decision. Defined.

(** [StateEntry::of] *)
Definition StateEntry_of (node : Node) : StateEntry :=
  match node with
  | File content meta => mkEntry (content_len content) (mtime_ms meta) (mode meta) None
  | Symlink target meta =>
      mkEntry (Z.of_nat (String.length target)) (mtime_ms meta) (mode meta) (Some target)
  | Dir meta => mkEntry 0 (mtime_ms meta) (mode meta) None
  end.

(** [State]: its [entries]. *)
Abbreviation MState := (gmap string StateEntry).

(** JSON of the state file. *)
Class MirrorCodecs := { #[global] codec_state :: Json MState }.
Class MirrorCodecLaws `{MirrorCodecs} : Prop := { #[global] codec_state_law :: JsonLaw MState }.

Record Mirror := mkMirror {
  mi_replica : Replica;
  mi_dir : LPath;
  mi_state : MState;
}.

(** [io] *)
Definition mirror_io {A} (r : result OsError A) : R A :=
  match r with Ok a => Ok a | Err _ => Err (InvalidInput MirrorIo) end.

(** The file system after a call whose error is dropped. *)
Definition attempt (fs : LocalFs) (r : result OsError LocalFs) : LocalFs :=
  match r with Ok fs => fs | Err _ => fs end.

(** [Mirror::local] *)
Definition local (dir : LPath) (vol_path : string) : LPath := dir ++ normals vol_path.

Definition remove_any (fs : LocalFs) (p : LPath) : LocalFs :=
  match symlink_metadata fs p with
  | Ok (LDir _) => attempt fs (remove_dir_all fs p)
  | Ok _ => attempt fs (remove_file fs p)
  | Err _ => fs
  end.

Fixpoint rfind_dot (s : string) : option nat :=
  match s with
  | EmptyString => None
  | String c s =>
      match rfind_dot s with
      | Some i => Some (S i)
      | None => if Ascii.eqb c "." then Some O else None
      end
  end.

(** [Path::file_stem] of a name: a leading dot starts no extension. *)
Definition file_stem (name : string) : string :=
  match rfind_dot name with
  | Some (S i) => take_chars (S i) name
  | _ => name
  end.

(** [Path::with_extension] *)
Definition with_extension (p : LPath) (ext : string) : LPath :=
  match last p with
  | Some name => parent_of p ++ [file_stem name +:+ "." +:+ ext]
  | None => p
  end.

Definition TMP_EXT : string := "landslide-mirror.tmp".

Section mirror.
Context `{SlateDb} `{Codecs} `{ObjectStore} `{FuseCodecs} `{MirrorCodecs}.
Context (umask now : Z).

Definition write_file_atomic (fs : LocalFs) (p : LPath) (b : bytes) : result OsError unit * LocalFs :=
  let tmp := with_extension p TMP_EXT in
  match os_write umask now fs tmp b with
  | Err e => (Err e, fs)
  | Ok fs =>
      match os_rename fs tmp p with
      | Err e => (Err e, fs)
      | Ok fs => (Ok tt, fs)
      end
  end.

Definition apply_mode (fs : LocalFs) (p : LPath) (mode : Z) : LocalFs :=
  match symlink_metadata fs p with
  | Err _ | Ok (LLink _) => fs
  | Ok _ => attempt fs (set_permissions fs p (Z.land mode 4095))
  end.

(** [if let Some(parent) = local.parent() { create_dir_all(parent)? }] *)
Definition make_parent (fs : LocalFs) (p : LPath) : result OsError unit * LocalFs :=
  match p with
  | [] => (Ok tt, fs)
  | _ => create_dir_all umask fs (parent_of p)
  end.

(** The arm of [write_node] for a file: [is_dir] removes it first. *)
Definition write_file_node (b : bucket) (path : string) (meta : NodeMeta) (p : LPath) (rep : Replica) (fs : LocalFs) :
    R unit * Replica * LocalFs :=
  let fs := if is_dir_at fs p then remove_any fs p else fs in
  match replica_read_file b rep path with
  | (Err e, rep) => (Err e, rep, fs)
  | (Ok None, rep) => (Err (InvalidInput (Vanished path)), rep, fs)
  | (Ok (Some x), rep) =>
      match write_file_atomic fs p x with
      | (Err e, fs) => (mirror_io (Err e), rep, fs)
      | (Ok _, fs) =>
          let fs := apply_mode fs p (mode meta) in
          (Ok tt, rep, attempt fs (set_modified fs p (Z.max (mtime_ms meta) 0)))
      end
  end.

(** [Mirror::write_node] *)
Definition write_node (b : bucket) (dir : LPath) (path : string) (node : Node) (rep : Replica) (fs : LocalFs) :
    R unit * Replica * LocalFs :=
  let p := local dir path in
  match make_parent fs p with
  | (Err e, fs) => (mirror_io (Err e), rep, fs)
  | (Ok _, fs) =>
      match node with
      | Dir _ =>
          if is_dir_at fs p then (Ok tt, rep, fs)
          else
            let '(r, fs) := create_dir_all umask (remove_any fs p) p in (mirror_io r, rep, fs)
      | Symlink target _ =>
          let fs := remove_any fs p in
          match symlink_at fs target p with
          | Err e => (mirror_io (Err e), rep, fs)
          | Ok fs => (Ok tt, rep, fs)
          end
      | File _ meta => write_file_node b path meta p rep fs
      end
  end.

(** What a pass works on: the replica, the state, the file system, the modes of
    directories to set. *)
Record Pass := mkPass {
  pa_replica : Replica;
  pa_state : MState;
  pa_fs : LocalFs;
  pa_modes : list (LPath * Z);
}.

Definition is_dir_node (n : Node) : bool := match n with Dir _ => true | _ => false end.

(** The body of the first loop of [materialize]. *)
Definition update_node (b : bucket) (dir : LPath) (s : Pass) (pn : string * Node) : Pass :=
  let '(path, node) := pn in
  let entry := StateEntry_of node in
  let p := local dir path in
  let modes := if is_dir_node node then pa_modes s ++ [(p, se_mode entry)] else pa_modes s in
  if bool_decide (pa_state s !! path = Some entry)
     && match symlink_metadata (pa_fs s) p with Ok _ => true | Err _ => false end
  then mkPass (pa_replica s) (pa_state s) (pa_fs s) modes
  else
    match write_node b dir path node (pa_replica s) (pa_fs s) with
    | (Ok _, rep, fs) => mkPass rep (<[path := entry]> (pa_state s)) fs modes
    | (Err _, rep, fs) => mkPass rep (pa_state s) fs (pa_modes s)
    end.

(** The order of [sort_by_key(|p| Reverse(p.len()))]. *)
Definition deeper (x y : string) : Prop := (String.length y ≤ String.length x)%nat.

#[global] Instance deeper_dec x y : Decision (deeper x y).
Proof. unfold deeper. apply _. Defined.

(** The paths of the state that left the image; a [HashMap] iterates in any
    order, and the sort is stable. *)
Definition gone (state : MState) (image : FsImage) : list string :=
  merge_sort deeper (filter (λ p, image !! p = None) (map_to_list state).*1).

(** The body of the second loop. *)
Definition delete_path (dir : LPath) (s : MState * LocalFs) (path : string) : MState * LocalFs :=
  (delete path s.1, remove_any s.2 (local dir path)).

(** The state file, written beside and renamed. *)
Definition save_state (dir : LPath) (state : MState) (fs : LocalFs) : result OsError unit * LocalFs :=
  let tmp := dir ++ [STATE_FILE +:+ ".tmp"] in
  match os_write umask now fs tmp (to_vec state) with
  | Err e => (Err e, fs)
  | Ok fs =>
      match os_rename fs tmp (dir ++ [STATE_FILE]) with
      | Err e => (Err e, fs)
      | Ok fs => (Ok tt, fs)
      end
  end.

(** [Mirror::materialize] *)
Definition materialize (b : bucket) (m : Mirror) (fs : LocalFs) : R unit * Mirror * LocalFs :=
  let image := r_image (mi_replica m) in
  let dir := mi_dir m in
  let s := fold_left (update_node b dir) (btree_iter image) (mkPass (mi_replica m) (mi_state m) fs []) in
  let '(state, fs) := fold_left (delete_path dir) (gone (pa_state s) image) (pa_state s, pa_fs s) in
  let fs := fold_left (λ fs pm, apply_mode fs pm.1 pm.2) (pa_modes s) fs in
  let '(r, fs) := save_state dir state fs in
  (mirror_io r, mkMirror (pa_replica s) dir state, fs).

(** [Mirror::sync_once] *)
Definition sync_once (clk : Version → Z) (b : bucket) (d : db) (m : Mirror) (fs : LocalFs) :
    R Version * Mirror * LocalFs :=
  match sync clk b (mi_replica m) d with
  | (Err e, rep) => (Err e, mkMirror rep (mi_dir m) (mi_state m), fs)
  | (Ok _, rep) =>
      let '(r, m, fs) := materialize b (mkMirror rep (mi_dir m) (mi_state m)) fs in
      (let? _ := r in Ok (default 0 (r_cursor (mi_replica m))), m, fs)
  end.

(** The state file of a directory. *)
Definition load_state (fs : LocalFs) (dir : LPath) : R MState :=
  match os_read fs (dir ++ [STATE_FILE]) with
  | Ok x => json (from_slice x)
  | Err NotFound => Ok ∅
  | Err e => mirror_io (Err e)
  end.

(** [Mirror::open] *)
Definition open_mirror (clk : Version → Z) (b : bucket) (d : db) (vol : string) (dir : LPath) (fs : LocalFs) :
    R Mirror * LocalFs :=
  match create_dir_all umask fs dir with
  | (Err e, fs) => (mirror_io (Err e), fs)
  | (Ok _, fs) =>
      match (let? state := load_state fs dir in
             let? rep := open_replica clk b vol d in
             Ok (mkMirror rep dir state)) with
      | Err e => (Err e, fs)
      | Ok m =>
          let '(r, m, fs) := materialize b m fs in
          (let? _ := r in Ok m, fs)
      end
  end.

(** [Mirror::run] over the ticks it sees, each with the bucket and the store as
    they are then; a failed pass is logged. *)
Definition run_mirror (clk : Version → Z) (ticks : list (bucket * db)) (m : Mirror) (fs : LocalFs) : Mirror * LocalFs :=
  fold_left (λ '(m, fs) t, let '(_, m, fs) := sync_once clk t.1 t.2 m fs in (m, fs)) ticks (m, fs).
End mirror.

Section once.
Context `{SlateDb} `{Codecs} `{ObjectStore} `{FuseCodecs} `{MirrorCodecs}.

(** [materialize_once]; the store may have moved on between its two passes. *)
Definition materialize_once (umask now : Z) (clk : Version → Z) (b b' : bucket) (d d' : db) (vol : string) (dir : LPath)
    (fs : LocalFs) : R Version * LocalFs :=
  match open_mirror umask now clk b d vol dir fs with
  | (Err e, fs) => (Err e, fs)
  | (Ok m, fs) => let '(r, _, fs) := sync_once umask now clk b' d' m fs in (r, fs)
  end.
End once.
