(* ===== verification/MirrorTree.v ===== *)
(** * Trees under a directory

    Volume paths and the places they name, the shape a mirrored directory keeps,
    and what the mirror's removals and installs do to it. *)

From S2P Require Import Prelude Text Slate Types Keys Kv Fork Store Bucket Btree Image Volume Replica Disk DiskThms Mirror.
Local Open Scope Z_scope.

(** ** Volume paths *)

Definition name (c : string) : Prop := is_normal c = true ∧ slash_free c.

(** The relative path of an entry strictly under the mirrored directory. *)
Definition place (r : LPath) : Prop := r ≠ [] ∧ Forall name r.

(** Its path in the volume. *)
Definition key (r : LPath) : string := "/" +:+ join r.

(** The mirror's own files: temporary files and the state file. *)
Definition reserved (r : LPath) : bool :=
  match last r with Some c => is_some (strip_suffix ("." +:+ TMP_EXT) c) | None => false end
  || bool_decide (r = [STATE_FILE]) || bool_decide (r = [STATE_FILE +:+ ".tmp"]).

Lemma split_slash_free c : slash_free c → split_slash c = [c].
Proof.
  unfold slash_free. induction c as [|x c IH]; [done|]. simpl. rewrite orb_false_iff. intros [-> E]. by rewrite IH.
Qed.

Lemma split_slash_cons c s : slash_free c → split_slash (c +:+ "/" +:+ s) = c :: split_slash s.
Proof.
  unfold slash_free. induction c as [|x c IH]; [done|]. cbn [has_slash]. rewrite orb_false_iff. intros [Hx E].
  rewrite str_app_cons. cbn [split_slash]. by rewrite Hx, IH.
Qed.

Lemma split_join r : place r → split_slash (join r) = r.
Proof.
  intros [Hne Hr]. induction r as [|c r IH]; [done|]. apply Forall_cons in Hr as [[_ Hc] Hr].
  destruct r as [|d r]; [by apply split_slash_free|]. rewrite join_cons, split_slash_cons by done. by rewrite IH.
Qed.

Lemma normals_key r : place r → normals (key r) = r.
Proof.
  intros Hr. unfold normals, key. change (split_slash ("/" +:+ join r)) with ("" :: split_slash (join r)).
  rewrite split_join by done. rewrite filter_cons_False by done. apply filter_all.
  destruct Hr as [_ Hr]. rewrite Forall_forall in Hr. intros c Hc. by apply Hr.
Qed.

Lemma local_key dir r : place r → local dir (key r) = dir ++ r.
Proof. intros Hr. unfold local. by rewrite normals_key. Qed.

Lemma key_inj r s : place r → place s → key r = key s → r = s.
Proof. intros Hr Hs E. rewrite <-(normals_key r), <-(normals_key s) by done. by rewrite E. Qed.

Lemma place_app q s : q ≠ [] → place (q ++ s) → place q.
Proof. intros Hq [_ H]. apply Forall_app in H as [H _]. done. Qed.

Lemma key_below q s : q ≠ [] → s ≠ [] → below (key q) (key (q ++ s)) = true.
Proof.
  intros Hq Hs. apply below_iff. exists (join s). unfold key. rewrite join_app by done. by rewrite !str_app_assoc.
Qed.

Lemma place_normal r : place r → Forall (λ c, is_normal c = true) r.
Proof. intros [_ H]. eapply Forall_impl; [exact H|]. by intros c []. Qed.

(** ** Temporary names *)

Lemma with_extension_snoc q c e : with_extension (q ++ [c]) e = q ++ [file_stem c +:+ "." +:+ e].
Proof. unfold with_extension. by rewrite last_snoc, parent_snoc. Qed.

Lemma tmp_normal c : is_normal (file_stem c +:+ "." +:+ TMP_EXT) = true.
Proof. apply (normal_suffix _ ("." +:+ TMP_EXT)). simpl. lia. Qed.

Lemma tmp_reserved q c : reserved (q ++ [file_stem c +:+ "." +:+ TMP_EXT]) = true.
Proof.
  unfold reserved. rewrite last_snoc.
  by rewrite (proj2 (strip_suffix_Some ("." +:+ TMP_EXT) (file_stem c +:+ "." +:+ TMP_EXT) (file_stem c))).
Qed.

(** ** The shape of a mirrored directory *)

Record tidy (dir : LPath) (fs : LocalFs) : Prop := {
  td_dir : plain fs dir;
  td_at : dir_at fs dir;
  td_up q s : q ≠ [] → s ≠ [] → is_Some (fs !! (dir ++ q ++ s)) → ∃ m, fs !! (dir ++ q) = Some (LDir m);
  td_reserved r : reserved r = true → fs !! (dir ++ r) = None ∨ ∃ b m t, fs !! (dir ++ r) = Some (LFile b m t);
}.

(** The directories above [dir ++ r]. *)
Definition reachable (dir : LPath) (fs : LocalFs) (r : LPath) : Prop :=
  ∀ q s, r = q ++ s → q ≠ [] → s ≠ [] → ∃ m, fs !! (dir ++ q) = Some (LDir m).

Lemma prefix_cases {A} (p q : list A) x : p `prefix_of` q ++ x → p `prefix_of` q ∨ ∃ y, y ≠ [] ∧ p = q ++ y ∧ y `prefix_of` x.
Proof.
  revert p. induction q as [|a q IH]; intros p Hp; simpl in *.
  - destruct p as [|b p]; [left; done|right]. by exists (b :: p).
  - destruct p as [|b p]; [left; apply prefix_nil|]. pose proof (prefix_cons_inv_1 _ _ _ _ Hp) as ->.
    apply prefix_cons_inv_2 in Hp. destruct (IH p Hp) as [H|(y & Hy & -> & H)]; [left; by apply prefix_cons|right; eauto].
Qed.

Lemma dir_at_lookup fs q : q ≠ [] → dir_at fs q ↔ ∃ m, fs !! q = Some (LDir m).
Proof. intros Hq. unfold dir_at, entry_at. by destruct q. Qed.

Section tidy.
Context (dir : LPath) (fs : LocalFs) (Ht : tidy dir fs).

Lemma plain_under r : Forall (λ c, is_normal c = true) r → reachable dir fs r → plain fs (dir ++ r).
Proof.
  intros Hn Hr. split; [apply Forall_app; split; [apply (td_dir _ _ Ht)|done]|]. intros q Hq Hne.
  destruct (prefix_cases _ _ _ Hq) as [Hp|(y & Hy & -> & z & ->)].
  - destruct (decide (q = dir)) as [->|Hd]; [apply (td_at _ _ Ht)|by apply (pl_dirs _ _ (td_dir _ _ Ht))].
  - apply dir_at_lookup; [by destruct dir, y|]. apply (Hr y z); [done|done|]. intros ->. by rewrite app_nil_r in Hne.
Qed.

Lemma reachable_entry r : is_Some (fs !! (dir ++ r)) → reachable dir fs r.
Proof. intros Hs q s -> Hq Hs'. by apply (td_up _ _ Ht q s). Qed.

(** Nothing is under what is not a directory. *)
Lemma nothing_below r s : r ≠ [] → s ≠ [] → (∀ m, fs !! (dir ++ r) ≠ Some (LDir m)) → fs !! (dir ++ r ++ s) = None.
Proof.
  intros Hr Hs Hd. destruct (fs !! (dir ++ r ++ s)) as [x|] eqn:E; [|done].
  destruct (td_up _ _ Ht r s Hr Hs) as [m Hm]; [by exists x|]. by apply Hd in Hm.
Qed.
End tidy.

(** [fs] without [p] and what is under it. *)
Definition cut (p : LPath) (fs : LocalFs) : LocalFs := filter (λ kv, ¬ p `prefix_of` kv.1) fs.

Lemma cut_in p fs s : cut p fs !! (p ++ s) = None.
Proof. apply map_lookup_filter_None. right. intros x _ Hx. apply Hx. by apply prefix_app_r. Qed.

Lemma cut_at p fs : cut p fs !! p = None.
Proof. pose proof (cut_in p fs []) as E. by rewrite app_nil_r in E. Qed.

Lemma cut_out p fs q : ¬ p `prefix_of` q → cut p fs !! q = fs !! q.
Proof.
  intros Hq. unfold cut. destruct (fs !! q) as [x|] eqn:E; [by apply map_lookup_filter_Some|].
  apply map_lookup_filter_None. by left.
Qed.

Lemma cut_sub p fs q x : cut p fs !! q = Some x → fs !! q = Some x.
Proof. intros E. by apply map_lookup_filter_Some in E as [E _]. Qed.

Lemma prefix_under {A} (d r q : list A) : d ++ r `prefix_of` d ++ q ↔ r `prefix_of` q.
Proof. split; [apply prefix_app_inv|apply prefix_app]. Qed.

Lemma plain_same fs fs' p :
  plain fs p → (∀ q, q `prefix_of` p → q ≠ p → dir_at fs q → dir_at fs' q) → plain fs' p.
Proof. intros [Hn Hd] H. split; [done|]. intros q Hq Hne. by apply H; [| |apply Hd]. Qed.

Lemma outside {A} (dir r q : list A) : r ≠ [] → q `prefix_of` dir → q ≠ dir ++ r ∧ ¬ dir ++ r `prefix_of` q.
Proof.
  intros Hr Hq%prefix_length. assert (length r ≠ 0)%nat as Hl by by destruct r.
  split; [intros ->|intros Hp%prefix_length]; rewrite length_app in *; lia.
Qed.

Lemma dir_at_same fs fs' q : fs' !! q = fs !! q → dir_at fs q → dir_at fs' q.
Proof. intros E. unfold dir_at, entry_at. destruct q; [done|]. by rewrite E. Qed.

(** What is above [dir] does not change with what is under it. *)
Lemma tidy_above dir fs fs' :
  tidy dir fs → (∀ q, q `prefix_of` dir → fs' !! q = fs !! q) → plain fs' dir ∧ dir_at fs' dir.
Proof.
  intros Ht H. split.
  - eapply plain_same; [apply (td_dir _ _ Ht)|]. intros q Hq _. by apply dir_at_same, H.
  - eapply dir_at_same; [by apply H|apply (td_at _ _ Ht)].
Qed.

Lemma tidy_cut dir fs r : r ≠ [] → tidy dir fs → tidy dir (cut (dir ++ r) fs).
Proof.
  intros Hr Ht. destruct (tidy_above dir fs (cut (dir ++ r) fs) Ht) as [H1 H2].
  { intros q Hq. apply cut_out. by apply outside. }
  split; [done|done|..].
  - intros q s Hq Hs [x E]. pose proof (cut_sub _ _ _ _ E) as E'. destruct (td_up _ _ Ht q s Hq Hs) as [m Hm]; [by exists x|].
    exists m. rewrite cut_out; [done|]. intros Hp. apply map_lookup_filter_Some in E as [_ E]. apply E. simpl.
    rewrite app_assoc. by apply prefix_app_r.
  - intros q Hq. destruct (td_reserved _ _ Ht q Hq) as [E|(b & m & t & E)].
    + left. apply map_lookup_filter_None. by left.
    + destruct (decide (dir ++ r `prefix_of` dir ++ q)) as [[s Hp]|Hp]; [left; rewrite Hp; apply cut_in|].
      right. exists b, m, t. by rewrite cut_out.
Qed.

Lemma tidy_insert dir fs r x :
  r ≠ [] → tidy dir fs → reachable dir fs r →
  (∃ m, x = LDir m) ∨ (∀ m, fs !! (dir ++ r) ≠ Some (LDir m)) →
  (reserved r = true → ∃ b m t, x = LFile b m t) → tidy dir (<[dir ++ r := x]> fs).
Proof.
  intros Hr Ht Hup Hx Hres. destruct (tidy_above dir fs (<[dir ++ r := x]> fs) Ht) as [H1 H2].
  { intros q Hq. apply lookup_insert_ne. intros <-. by destruct (outside dir r _ Hr Hq). }
  split; [done|done|..].
  - intros q s Hq Hs Hi. destruct (decide (r = q ++ s)) as [->|Hne].
    + destruct (Hup q s) as [m Hm]; [done..|]. exists m. rewrite lookup_insert_ne; [done|].
      intros E. apply app_inv_head in E. rewrite <-(app_nil_r q) in E at 2. by apply app_inv_head in E.
    + rewrite lookup_insert_ne in Hi by (intros E; by apply app_inv_head in E).
      destruct (td_up _ _ Ht q s Hq Hs Hi) as [m Hm]. destruct (decide (r = q)) as [->|Hrq].
      * rewrite lookup_insert_eq. destruct Hx as [[m' ->]|Hx]; [by exists m'|]. by apply Hx in Hm.
      * exists m. rewrite lookup_insert_ne; [done|]. intros E. by apply app_inv_head in E.
  - intros q Hq. destruct (decide (r = q)) as [->|Hrq].
    + right. destruct (Hres Hq) as (b & m & t & ->). exists b, m, t. apply lookup_insert_eq.
    + rewrite lookup_insert_ne by (intros E; by apply app_inv_head in E). by apply (td_reserved _ _ Ht).
Qed.

(** ** Removal *)

Lemma cut_leaf p fs : (∀ s, s ≠ [] → fs !! (p ++ s) = None) → cut p fs = delete p fs.
Proof.
  intros Hs. apply map_eq. intros q. destruct (decide (p `prefix_of` q)) as [[s ->]|Hp].
  - rewrite cut_in. destruct s as [|a s]; [by rewrite app_nil_r, lookup_delete_eq|].
    rewrite lookup_delete_ne; [by rewrite Hs|]. intros E. rewrite <-(app_nil_r p) in E at 1. by apply app_inv_head in E.
  - rewrite cut_out by done. rewrite lookup_delete_ne; [done|]. by intros ->.
Qed.

(** Where the way to a place ends. *)
Lemma reachable_or dir fs r :
  reachable dir fs r ∨
  ∃ q s, r = q ++ s ∧ q ≠ [] ∧ s ≠ [] ∧ reachable dir fs q ∧ ∀ m, fs !! (dir ++ q) ≠ Some (LDir m).
Proof.
  induction r as [|c r IH] using rev_ind; [left; by intros [] []|].
  destruct IH as [IH|(q & s & -> & Hq & Hs & Hr & Hd)].
  2: { right. exists q, (s ++ [c]). rewrite app_assoc. split_and!; try done. by destruct s. }
  destruct (decide (r = [])) as [->|Hr].
  { left. intros q s E Hq Hs. apply (f_equal length) in E. rewrite !length_app in E. destruct q, s; simpl in E; [done..|lia]. }
  assert ((∃ m, fs !! (dir ++ r) = Some (LDir m)) ∨ ∀ m, fs !! (dir ++ r) ≠ Some (LDir m)) as [[m Hm]|Hd].
  { destruct (fs !! (dir ++ r)) as [[|m|]|]; [by right|left; by exists m|by right|by right]. }
  - left. intros q s E Hq Hs. destruct (snoc_inv s) as [->|(s' & a & ->)]; [done|].
    rewrite app_assoc in E. apply app_inj_tail in E as [-> _].
    destruct (decide (s' = [])) as [->|Hs']; [rewrite app_nil_r in Hm; by exists m|]. by apply (IH q s').
  - right. by exists r, [c].
Qed.

Lemma lstat_none dir fs r :
  tidy dir fs → place r → fs !! (dir ++ r) = None →
  (∀ q s, r = q ++ s → q ≠ [] → s ≠ [] → not_link (fs !! (dir ++ q))) → ∃ e, symlink_metadata fs (dir ++ r) = Err e.
Proof.
  intros Ht Hr E Hl. pose proof (place_normal r Hr) as Hn. destruct (reachable_or dir fs r) as [Hup|(q & s & -> & Hq & Hs & Hup & Hd)].
  - exists NotFound. rewrite lstat_plain, E; [done|by apply plain_under|]. destruct Hr as [Hr _]. by destruct dir, r.
  - apply Forall_app in Hn as Hn'. unfold symlink_metadata, lookup_entry.
    destruct (resolve_blocked fs false (dir ++ q ++ s) (dir ++ q)) as [e ->]; [..|by exists e].
    + apply Forall_app. split; [apply (td_dir _ _ Ht)|done].
    + rewrite app_assoc. by apply prefix_app_r.
    + rewrite app_assoc. intros E'. rewrite <-(app_nil_r (dir ++ q)) in E' at 1. by apply app_inv_head in E'.
    + by destruct dir, q.
    + apply plain_under; [done|apply Hn'|done].
    + by apply (Hl q s).
    + done.
Qed.

Lemma remove_any_cut dir fs r :
  tidy dir fs → place r → (∀ q s, r = q ++ s → q ≠ [] → s ≠ [] → not_link (fs !! (dir ++ q))) →
  remove_any fs (dir ++ r) = cut (dir ++ r) fs.
Proof.
  intros Ht Hr Hl. assert (r ≠ []) as Hne by apply Hr. assert (dir ++ r ≠ []) as Hp by by destruct dir, r.
  assert ((∀ m, fs !! (dir ++ r) ≠ Some (LDir m)) → cut (dir ++ r) fs = delete (dir ++ r) fs) as Hleaf.
  { intros Hd. apply cut_leaf. intros s Hs. rewrite <-app_assoc. by apply nothing_below. }
  unfold remove_any. destruct (fs !! (dir ++ r)) as [x|] eqn:E.
  2: { destruct (lstat_none dir fs r Ht Hr E Hl) as [e ->]. rewrite Hleaf by done. by rewrite delete_id. }
  assert (plain fs (dir ++ r)) as Hpl.
  { apply plain_under; [done|by apply place_normal|]. apply reachable_entry; [done|by exists x]. }
  rewrite lstat_plain, E by done. unfold remove_dir_all, remove_file. rewrite resolve_plain by done.
  rewrite entry_plain, E by done. destruct x; simpl; [by rewrite Hleaf|done|by rewrite Hleaf].
Qed.

(** ** Installation by rename *)

Lemma plain_sibling fs q c d x : plain fs (q ++ [c]) → plain (<[q ++ [d] := x]> fs) (q ++ [c]).
Proof.
  intros Hp. eapply plain_same; [done|]. intros r Hr Hne. apply dir_at_same, lookup_insert_ne. intros <-.
  destruct Hr as [s E]. rewrite <-app_assoc in E. apply app_inv_head in E. destruct s; [by simplify_eq/=|discriminate E].
Qed.

Lemma install umask now fs q t c x :
  plain fs (q ++ [t]) → plain fs (q ++ [c]) → t ≠ c →
  fs !! (q ++ [t]) = None ∨ (∃ b m u, fs !! (q ++ [t]) = Some (LFile b m u)) →
  (∀ m, fs !! (q ++ [c]) ≠ Some (LDir m)) →
  ∃ m fs1, os_write umask now fs (q ++ [t]) x = Ok fs1
    ∧ os_rename fs1 (q ++ [t]) (q ++ [c]) = Ok (<[q ++ [c] := LFile x m now]> (delete (q ++ [t]) fs)).
Proof.
  intros Ht Hc Hne Hold Hd. assert (∀ a : string, q ++ [a] ≠ []) as Hnn by (intros a; by destruct q).
  destruct (write_plain fs (q ++ [t]) Ht (Hnn t) umask now x) as [m Hm].
  { intros u E. destruct Hold as [H|(? & ? & ? & H)]; congruence. }
  { intros u E. destruct Hold as [H|(? & ? & ? & H)]; congruence. }
  exists m. eexists. split; [exact Hm|]. rewrite (rename_plain _ _ _ (LFile x m now)).
  - by rewrite delete_insert_eq.
  - by apply plain_sibling.
  - by apply plain_sibling.
  - apply Hnn.
  - apply Hnn.
  - apply lookup_insert_eq.
  - done.
  - intros u. rewrite lookup_insert_ne; [apply Hd|]. intros E. apply app_inv_head in E. congruence.
Qed.
