(* ===== verification/MirrorThms.v ===== *)
(** * A pass of a directory mirror

    What one [materialize] leaves on disk, from any directory its state file
    describes well enough. *)

From S2P Require Import Prelude Text Slate Types Keys Kv Fork Store Bucket Btree Image Volume VolumeThms Replica.
From S2P Require Import Disk DiskThms Mirror MirrorTree.
Local Open Scope Z_scope.

(** ** What is on disk for a node *)

Section shows.
Context `{ObjectStore}.

(** [e] is what the mirror writes for [n], the modes of directories aside. *)
Definition shows (b : bucket) (n : Node) (e : Entry) : Prop :=
  match n, e with
  | File ct meta, LFile c m t =>
      file_bytes b ct c ∧ m = Z.land (mode meta) 4095 ∧ t = Z.max (mtime_ms meta) 0
  | Dir _, LDir _ => True
  | Symlink target _, LLink t => t = target
  | _, _ => False
  end.

Definition renders (b : bucket) (n : Node) (e : Entry) : Prop :=
  shows b n e ∧ match n, e with Dir meta, LDir m => m = Z.land (mode meta) 4095 | _, _ => True end.

(** The directory holds exactly the image, beside the mirror's own files. *)
Definition mirrors (b : bucket) (I : FsImage) (dir : LPath) (fs : LocalFs) : Prop :=
  ∀ r, place r → reserved r = false →
    match I !! key r with
    | Some n => ∃ e, fs !! (dir ++ r) = Some e ∧ renders b n e
    | None => fs !! (dir ++ r) = None
    end.

(** An image of a tree with readable files, none on the mirror's own names. *)
Record tree (b : bucket) (I : FsImage) : Prop := {
  tr_place p n : I !! p = Some n → ∃ r, p = key r ∧ place r ∧ reserved r = false;
  tr_up q s n : place (q ++ s) → q ≠ [] → s ≠ [] → I !! key (q ++ s) = Some n → ∃ meta, I !! key q = Some (Dir meta);
  tr_file p ct meta : I !! p = Some (File ct meta) → ∃ c, file_bytes b ct c ∧ Z.of_nat (length c) < U64;
}.

(** What a pass needs of the directory and the state it starts from: what left
    the image is recorded, an unchanged fingerprint means unchanged content, and
    links are not on the way to anything written or removed. *)
Record ready (b : bucket) (I : FsImage) (dir : LPath) (st : MState) (fs : LocalFs) : Prop := {
  rd_tidy : tidy dir fs;
  rd_keys p : is_Some (st !! p) → ∃ r, p = key r ∧ place r;
  rd_covered r : place r → reserved r = false → is_Some (fs !! (dir ++ r)) → I !! key r = None → is_Some (st !! key r);
  rd_current r n e : place r → I !! key r = Some n → st !! key r = Some (StateEntry_of n) →
    fs !! (dir ++ r) = Some e → shows b n e;
  rd_links_old r t : place r → fs !! (dir ++ r) = Some (LLink t) →
    (∀ meta, I !! key r ≠ Some (Dir meta)) ∧ ∀ s, place (r ++ s) → s ≠ [] → st !! key (r ++ s) = None;
  rd_links_new r s t meta : place (r ++ s) → r ≠ [] → s ≠ [] → I !! key r = Some (Symlink t meta) → st !! key (r ++ s) = None;
}.
End shows.

(** [q] is not strictly under [dir]. *)
Definition elsewhere (dir q : LPath) : Prop := ∀ r, r ≠ [] → q ≠ dir ++ r.

(** ** Changes at one place *)

(** [fs'] differs from [fs] at [r], the mirror's own files, and by the removal of
    what is under [r]. *)
Record changed (dir r : LPath) (fs fs' : LocalFs) : Prop := {
  ch_tidy : tidy dir fs';
  ch_else q : q ≠ r → reserved q = false →
    fs' !! (dir ++ q) = fs !! (dir ++ q) ∨ fs' !! (dir ++ q) = None ∧ ∃ s, s ≠ [] ∧ q = r ++ s;
  ch_out q : elsewhere dir q → fs' !! q = fs !! q;
}.

Section changed.
Context (dir r : LPath) (fs : LocalFs) (Hr : r ≠ []).

Lemma changed_refl : tidy dir fs → changed dir r fs fs.
Proof. intros Ht. split; [done|by left|done]. Qed.

Lemma elsewhere_not_under q : elsewhere dir q → ¬ dir ++ r `prefix_of` q.
Proof. intros Hq [s ->]. apply (Hq (r ++ s)); [by destruct r|]. by rewrite app_assoc. Qed.

Lemma changed_cut fs1 : changed dir r fs fs1 → changed dir r fs (cut (dir ++ r) fs1).
Proof.
  intros [Ht He Ho]. split; [by apply tidy_cut|..].
  - intros q Hq Hres. destruct (decide (r `prefix_of` q)) as [[s ->]|Hp].
    + right. rewrite app_assoc, cut_in. split; [done|]. exists s. split; [|done]. intros ->. by rewrite app_nil_r in Hq.
    + rewrite cut_out by by rewrite prefix_under. by apply He.
  - intros q Hq. rewrite cut_out; [by apply Ho|]. by apply elsewhere_not_under.
Qed.

Lemma changed_insert fs1 x :
  changed dir r fs fs1 → reachable dir fs1 r → reserved r = false →
  (∃ m, x = LDir m) ∨ (∀ m, fs1 !! (dir ++ r) ≠ Some (LDir m)) → changed dir r fs (<[dir ++ r := x]> fs1).
Proof.
  intros [Ht He Ho] Hup Hres Hx. split; [apply tidy_insert; try done; congruence|..].
  - intros q Hq Hq'. rewrite lookup_insert_ne; [by apply He|]. intros E. by apply app_inv_head in E.
  - intros q Hq. rewrite lookup_insert_ne; [by apply Ho|]. intros E. by apply (Hq r).
Qed.

Lemma changed_own fs1 t : changed dir r fs fs1 → reserved t = true → t ≠ [] → changed dir r fs (delete (dir ++ t) fs1).
Proof.
  intros [Ht He Ho] Hres Hne.
  assert (delete (dir ++ t) fs1 = cut (dir ++ t) fs1) as E.
  { symmetry. apply cut_leaf. intros s Hs. rewrite <-app_assoc. apply nothing_below; [done..|].
    intros m Hm. destruct (td_reserved _ _ Ht t Hres) as [E|(? & ? & ? & E)]; congruence. }
  split; [rewrite E; by apply tidy_cut|..].
  - intros q Hq Hq'. rewrite lookup_delete_ne; [by apply He|]. intros E'. apply app_inv_head in E'. congruence.
  - intros q Hq. rewrite lookup_delete_ne; [by apply Ho|]. intros E'. by apply (Hq t).
Qed.

Lemma changed_reachable fs1 : tidy dir fs → changed dir r fs fs1 → reachable dir fs r → reachable dir fs1 r.
Proof.
  intros Ht [_ He _] Hup q s -> Hq Hs. destruct (Hup q s) as [m Hm]; [done..|]. exists m.
  destruct (reserved q) eqn:Hres.
  { destruct (td_reserved _ _ Ht q Hres) as [E|(? & ? & ? & E)]; congruence. }
  destruct (He q) as [->|[_ (s' & Hs' & E)]]; [|done|done|].
  - intros E. rewrite <-(app_nil_r q) in E at 1. by apply app_inv_head in E.
  - apply (f_equal length) in E. rewrite !length_app in E. destruct s'; [done|]. simpl in E. lia.
Qed.
End changed.

(** ** Writing one node *)

Lemma place_snoc r : place r → ∃ q c, r = q ++ [c].
Proof. intros [Hr _]. by destruct (snoc_inv r) as [->|H]. Qed.

Lemma under_ne dir (r : LPath) : r ≠ [] → dir ++ r ≠ [].
Proof. by destruct dir, r. Qed.

Lemma reserved_snoc q c : reserved (q ++ [c]) = false → file_stem c +:+ "." +:+ TMP_EXT ≠ c.
Proof. intros Hr E. rewrite <-E in Hr at 1. by rewrite tmp_reserved in Hr. Qed.

Lemma make_parent_ok umask dir fs r :
  r ≠ [] → plain fs (dir ++ r) → make_parent umask fs (dir ++ r) = (Ok tt, fs).
Proof.
  intros Hr Hp. destruct (snoc_inv r) as [->|(q & c & ->)]; [done|]. unfold make_parent. rewrite app_assoc in *.
  destruct (plain_parent _ _ _ Hp) as [H1 H2]. rewrite parent_snoc, create_existing by done. by destruct ((dir ++ q) ++ [c]) eqn:E.
Qed.

Section write.
Context `{ObjectStore} (umask now : Z) (b : bucket) (dir : LPath).

(** A file whose place holds no directory. *)
Lemma install_node fs r x m t :
  tidy dir fs → place r → reserved r = false → reachable dir fs r → (∀ m, fs !! (dir ++ r) ≠ Some (LDir m)) →
  ∃ fs1 fs2, write_file_atomic umask now fs (dir ++ r) x = (Ok tt, fs1)
    ∧ apply_mode fs1 (dir ++ r) m = fs2
    ∧ attempt fs2 (set_modified fs2 (dir ++ r) t)
      = <[dir ++ r := LFile x (Z.land m 4095) t]> (delete (with_extension (dir ++ r) TMP_EXT) fs).
Proof.
  intros Ht Hr Hres Hup Hd. pose proof (plain_under dir fs Ht r (place_normal r Hr) Hup) as Hp.
  destruct (place_snoc r Hr) as (q & c & ->). set (tmp := file_stem c +:+ "." +:+ TMP_EXT).
  assert (plain fs (dir ++ q ++ [tmp])) as Hpt.
  { apply plain_under; [done| |].
    - apply Forall_app. split; [by apply place_normal, Forall_app in Hr as [? _]|]. apply Forall_singleton, tmp_normal.
    - intros q' s E Hq Hs. destruct (snoc_inv s) as [->|(s' & a & ->)]; [done|]. rewrite app_assoc in E.
      apply app_inj_tail in E as [-> _]. apply (Hup q' (s' ++ [c])); [by rewrite app_assoc|done|by destruct s']. }
  rewrite app_assoc in Hp, Hpt, Hd. rewrite app_assoc, with_extension_snoc. fold tmp.
  destruct (install umask now fs (dir ++ q) tmp c x) as (m' & fs1 & Hw & Hmv); [done|done| | |done|].
  { by apply reserved_snoc in Hres. }
  { pose proof (td_reserved _ _ Ht (q ++ [tmp]) (tmp_reserved q c)) as Hold. by rewrite app_assoc in Hold. }
  set (p := (dir ++ q) ++ [c]) in *. set (fs2 := delete ((dir ++ q) ++ [tmp]) fs) in *.
  assert (∀ y, plain (<[p := y]> fs2) p) as Hpl.
  { intros y. eapply plain_same; [exact Hp|]. intros s Hs Hne. apply dir_at_same. rewrite lookup_insert_ne by done.
    apply lookup_delete_ne. intros <-. destruct Hs as [u E]. unfold p in E. rewrite <-!app_assoc in E.
    do 2 apply app_inv_head in E. simpl in E. injection E as E _. by apply reserved_snoc in Hres. }
  assert (p ≠ []) as Hne by (unfold p; by destruct (dir ++ q)).
  exists (<[p := LFile x m' now]> fs2). eexists. split; [|split; [reflexivity|]].
  - unfold write_file_atomic. replace (with_extension p TMP_EXT) with ((dir ++ q) ++ [tmp]) by (symmetry; apply with_extension_snoc).
    by rewrite Hw, Hmv.
  - unfold apply_mode. rewrite lstat_plain by done. rewrite lookup_insert_eq.
    rewrite (permissions_plain _ p (Hpl _) _ (LFile x m' now)); [|intros u; by rewrite lookup_insert_eq|apply lookup_insert_eq].
    cbn [attempt with_mode]. rewrite insert_insert_eq.
    rewrite (modified_plain _ p (Hpl _) Hne x (Z.land m 4095) now); [|apply lookup_insert_eq].
    cbn [attempt]. by rewrite insert_insert_eq.
Qed.

Context (I : FsImage) (HI : tree b I).

Lemma read_node rep r ct meta :
  I !! key r = Some (File ct meta) → r_image rep = I → cached b (r_blocks rep) →
  ∃ c blocks, replica_read_file b rep (key r) = (Ok (Some c), mkReplica (r_vol rep) I (r_cursor rep) blocks)
    ∧ file_bytes b ct c ∧ cached b blocks.
Proof.
  intros Hn Him Hc. destruct (tr_file _ _ HI _ _ _ Hn) as (c & Hb & Hl).
  assert (content_len ct = Z.of_nat (length c)) as Hlen.
  { destruct ct as [x|refs size]; simpl in *; [by rewrite Hb|]. by destruct Hb as (_ & _ & _ & ->). }
  destruct (read_bytes b (r_blocks rep) ct c 0 (content_len ct)) as (blocks & Hr & Hc'); [done|done|lia..|].
  exists c, blocks. split; [|done]. unfold replica_read_file, read_file. rewrite Him, Hn, Hr. cbn [rmap].
  rewrite Hlen, Nat2Z.id, drop_0. by rewrite firstn_all.
Qed.

Lemma reachable_cut fs r :
  tidy dir fs → place r → reachable dir fs r → remove_any fs (dir ++ r) = cut (dir ++ r) fs.
Proof.
  intros Ht Hr Hup. apply remove_any_cut; [done..|]. intros q s -> Hq Hs t E.
  destruct (Hup q s) as [m Hm]; [done..|]. congruence.
Qed.

Lemma write_file_ok fs rep r ct meta :
  tidy dir fs → place r → reserved r = false → reachable dir fs r → I !! key r = Some (File ct meta) →
  r_image rep = I → cached b (r_blocks rep) →
  ∃ blocks fs' e, write_file_node umask now b (key r) meta (dir ++ r) rep fs
      = (Ok tt, mkReplica (r_vol rep) I (r_cursor rep) blocks, fs')
    ∧ cached b blocks ∧ changed dir r fs fs' ∧ fs' !! (dir ++ r) = Some e ∧ shows b (File ct meta) e.
Proof.
  intros Ht Hr Hres Hup Hn Him Hc. assert (r ≠ []) as Hne by apply Hr. pose proof (changed_refl dir r fs Ht) as Hch.
  destruct (read_node rep r ct meta Hn Him Hc) as (c & blocks & Hrd & Hb & Hc').
  unfold write_file_node. rewrite Hrd. set (fs1 := if is_dir_at fs (dir ++ r) then _ else _).
  assert (changed dir r fs fs1 ∧ ∀ m, fs1 !! (dir ++ r) ≠ Some (LDir m)) as [Hch1 Hd1].
  { unfold fs1. destruct (is_dir_at fs (dir ++ r)) eqn:Ed.
    - rewrite reachable_cut by done. split; [by apply changed_cut|by rewrite cut_at].
    - split; [done|]. intros m Hm. rewrite is_dir_plain, Hm in Ed; [done|by apply plain_under; [|apply place_normal|]|by apply under_ne|].
      intros t. by rewrite Hm. }
  destruct (install_node fs1 r c (mode meta) (Z.max (mtime_ms meta) 0)) as (fs2 & fs3 & -> & <- & ->);
    [apply Hch1|done|done|by eapply changed_reachable|done|].
  eexists blocks, _, _. split; [reflexivity|]. split; [done|]. rewrite lookup_insert_eq. split; [|done].
  destruct (place_snoc r Hr) as (q & a & ->). rewrite app_assoc, with_extension_snoc, <-!app_assoc.
  assert (changed dir (q ++ [a]) fs (delete (dir ++ q ++ [file_stem a +:+ "." +:+ TMP_EXT]) fs1)) as Hdel.
  { apply changed_own; [done|apply tmp_reserved|by destruct q]. }
  apply changed_insert; [done|done|by eapply changed_reachable|done|right].
  intros m. rewrite lookup_delete_ne; [done|]. intros E. do 2 apply app_inv_head in E. injection E as E.
  by apply reserved_snoc in Hres.
Qed.

Lemma write_node_ok fs rep r n :
  tidy dir fs → place r → reserved r = false → reachable dir fs r → I !! key r = Some n →
  (∀ meta, n = Dir meta → not_link (fs !! (dir ++ r))) → r_image rep = I → cached b (r_blocks rep) →
  ∃ blocks fs' e, write_node umask now b dir (key r) n rep fs
      = (Ok tt, mkReplica (r_vol rep) I (r_cursor rep) blocks, fs')
    ∧ cached b blocks ∧ changed dir r fs fs' ∧ fs' !! (dir ++ r) = Some e ∧ shows b n e.
Proof.
  intros Ht Hr Hres Hup Hn Hlink Him Hc. assert (r ≠ []) as Hne by apply Hr.
  pose proof (plain_under dir fs Ht r (place_normal r Hr) Hup) as Hp. pose proof (under_ne dir r Hne) as Hpn.
  pose proof (changed_refl dir r fs Ht) as Hch. pose proof (changed_cut dir r fs Hne _ Hch) as Hcut.
  pose proof (changed_reachable dir r fs Hne _ Ht Hcut Hup) as Hup'. pose proof (cut_at (dir ++ r) fs) as Hnone.
  pose proof (plain_under dir _ (ch_tidy _ _ _ _ Hcut) r (place_normal r Hr) Hup') as Hp'.
  unfold write_node. rewrite local_key by done. rewrite make_parent_ok by done.
  destruct n as [ct meta|meta|target meta]; [by apply write_file_ok|..].
  - rewrite is_dir_plain; [|done|done|by eapply Hlink].
    destruct (fs !! (dir ++ r)) as [[| m |]|] eqn:E.
    2: { exists (r_blocks rep), fs, (LDir m). rewrite <-Him. by destruct rep. }
    all: rewrite reachable_cut, create_plain by done; exists (r_blocks rep); do 2 eexists; rewrite <-Him; destruct rep.
    all: split; [reflexivity|split; [done|split; [|split; [apply lookup_insert_eq|done]]]].
    all: apply changed_insert; [done..|left; by eexists].
  - rewrite reachable_cut, symlink_plain by done. exists (r_blocks rep). do 2 eexists. rewrite <-Him; destruct rep.
    split; [reflexivity|split; [done|split; [|split; [apply lookup_insert_eq|done]]]].
    apply changed_insert; [done..|]. right. by rewrite Hnone.
Qed.
End write.

(** ** The first loop *)

Section pass.
Context `{ObjectStore} (umask now : Z) (b : bucket) (dir : LPath) (I : FsImage) (st0 : MState) (fs0 : LocalFs).
Context (HI : tree b I) (H0 : ready b I dir st0 fs0) (vol : string) (cursor : option Version).

Definition following (rep : Replica) : Prop :=
  ∃ blocks, rep = mkReplica vol I cursor blocks ∧ cached b blocks.

(** The nodes at the paths [done] are on disk, the rest is as it was or gone. *)
Record written (done : list string) (s : Pass) : Prop := {
  w_tidy : tidy dir (pa_fs s);
  w_done r n : place r → key r ∈ done → I !! key r = Some n → ∃ e, pa_fs s !! (dir ++ r) = Some e ∧ shows b n e;
  w_rest r : place r → reserved r = false → key r ∉ done →
    pa_fs s !! (dir ++ r) = None ∨ pa_fs s !! (dir ++ r) = fs0 !! (dir ++ r);
  w_out q : elsewhere dir q → pa_fs s !! q = fs0 !! q;
  w_state p : pa_state s !! p = if decide (p ∈ done) then StateEntry_of <$> I !! p else st0 !! p;
  w_replica : following (pa_replica s);
  w_modes p m : (p, m) ∈ pa_modes s ↔ ∃ r meta, p = dir ++ r ∧ place r ∧ key r ∈ done ∧ I !! key r = Some (Dir meta) ∧ m = mode meta;
}.

Lemma image_place r n : place r → I !! key r = Some n → reserved r = false.
Proof. intros Hr Hn. destruct (tr_place _ _ HI _ _ Hn) as (r' & E & Hr' & Hres). apply key_inj in E; congruence. Qed.

Lemma key_after r s : place (r ++ s) → r ≠ [] → s ≠ [] → str_lt (key r) (key (r ++ s)).
Proof. intros Hp Hr Hs. by apply below_lt, key_below. Qed.

Section step.
Context (done : list string) (s : Pass) (r : LPath) (n : Node).
Context (Hw : written done s) (Hr : place r) (Hn : I !! key r = Some n) (Hlt : ∀ k, k ∈ done → str_lt k (key r)).

Lemma fresh_key : key r ∉ done.
Proof. intros Hk. apply Hlt in Hk. by apply irreflexivity in Hk; [|apply _]. Qed.

(** A change at [r] that leaves its node there extends [done]. *)
Lemma written_step s' e :
  changed dir r (pa_fs s) (pa_fs s') → pa_fs s' !! (dir ++ r) = Some e → shows b n e →
  (∀ p, pa_state s' !! p = if decide (p = key r) then Some (StateEntry_of n) else pa_state s !! p) →
  following (pa_replica s') →
  pa_modes s' = (if is_dir_node n then pa_modes s ++ [(dir ++ r, se_mode (StateEntry_of n))] else pa_modes s) →
  written (done ++ [key r]) s'.
Proof.
  intros [Ht Helse Hout] He Hshow Hst Hrep Hm. split; [done|..].
  - intros r' n' Hr' Hin Hn'. destruct (decide (r' = r)) as [->|Hne]; [exists e; split; [done|congruence]|].
    apply elem_of_app in Hin as [Hin|Hin%list_elem_of_singleton]; [|by apply key_inj in Hin].
    destruct (Helse r') as [->|(_ & s1 & Hs & ->)]; [done|by eapply image_place|by apply (w_done _ _ Hw)|].
    exfalso. apply Hlt in Hin. apply (irreflexivity str_lt (key r)). etrans; [|exact Hin].
    by apply key_after; [|apply Hr|].
  - intros r' Hr' Hres Hin. rewrite not_elem_of_app, list_elem_of_singleton in Hin. destruct Hin as [Hin Hne].
    destruct (Helse r') as [->|[-> _]]; [congruence|done|by apply (w_rest _ _ Hw)|by left].
  - intros q Hq. rewrite Hout by done. by apply (w_out _ _ Hw).
  - intros p. rewrite Hst. destruct (decide (p = key r)) as [->|Hne].
    + rewrite decide_True by (apply elem_of_app; right; by apply list_elem_of_singleton). by rewrite Hn.
    + rewrite (w_state _ _ Hw). apply decide_ext. rewrite elem_of_app, list_elem_of_singleton. tauto.
  - done.
  - intros p m. rewrite Hm. transitivity ((p, m) ∈ pa_modes s ∨ is_dir_node n = true ∧ (p, m) = (dir ++ r, se_mode (StateEntry_of n))).
    { destruct (is_dir_node n); [rewrite elem_of_app, list_elem_of_singleton; split; [intros [?|?]; auto|by intros [?|[_ ?]]; auto]|].
      by split; [left|intros [?|[? _]]]. }
    rewrite (w_modes _ _ Hw). split.
    + intros [(r' & meta & -> & Hr' & Hin & Hd & ->)|[Hd [= -> ->]]].
      * exists r', meta. split_and!; try done. apply elem_of_app. by left.
      * destruct n as [|meta|]; [done| |done]. exists r, meta. split_and!; try done. apply elem_of_app. right.
        by apply list_elem_of_singleton.
    + intros (r' & meta & -> & Hr' & Hin & Hd & ->). apply elem_of_app in Hin as [Hin|Hin%list_elem_of_singleton].
      * left. by exists r', meta.
      * right. rewrite Hin, Hn in Hd. injection Hd as ->. apply key_inj in Hin; [|done..]. by subst r'.
Qed.

Context (Hup : ∀ q s, r = q ++ s → q ≠ [] → s ≠ [] → key q ∈ done).

Lemma way_written : reachable dir (pa_fs s) r.
Proof.
  intros q s' E Hq Hs. subst r. destruct (tr_up _ _ HI q s' n) as [meta Hd]; [done..|].
  destruct (w_done _ _ Hw q (Dir meta)) as (e & He & Hsh); [by eapply place_app|by eapply Hup|done|].
  destruct e as [|m|]; [done| |done]. by exists m.
Qed.

Lemma update_written : written (done ++ [key r]) (update_node umask now b dir s (key r, n)).
Proof.
  pose proof way_written as Hway. pose proof (image_place r n Hr Hn) as Hres. pose proof (w_tidy _ _ Hw) as Ht.
  assert (r ≠ []) as Hne by apply Hr. pose proof (w_rest _ _ Hw r Hr Hres fresh_key) as Hold.
  pose proof (plain_under dir _ Ht r (place_normal r Hr) Hway) as Hp.
  unfold update_node. rewrite local_key by done. rewrite lstat_plain; [|done|by apply under_ne].
  rewrite (w_state _ _ Hw (key r)), decide_False by apply fresh_key.
  destruct (bool_decide (st0 !! key r = Some (StateEntry_of n)) && _) eqn:Eskip.
  - apply andb_true_iff in Eskip as [Est%bool_decide_eq_true Ee].
    destruct (pa_fs s !! (dir ++ r)) as [e|] eqn:E; [|done]. destruct Hold as [?|Hold]; [done|].
    apply (written_step _ e); [by apply changed_refl|done|by eapply (rd_current _ _ _ _ _ H0)| |apply Hw|done].
    intros p. cbn [pa_state]. destruct (decide (p = key r)) as [->|]; [|done].
    by rewrite (w_state _ _ Hw), decide_False by apply fresh_key.
  - destruct (w_replica _ _ Hw) as (blocks & Erep & Hc). clear Eskip.
    destruct (write_node_ok umask now b dir I HI (pa_fs s) (pa_replica s) r n) as (blocks' & fs' & e & -> & Hc' & Hch & He & Hsh);
      [done..| |by rewrite Erep|by rewrite Erep|].
    { intros meta -> t E. destruct Hold as [Hold|Hold]; [congruence|]. rewrite Hold in E.
      destruct (rd_links_old _ _ _ _ _ H0 r t Hr E) as [Hd _]. by apply (Hd meta). }
    apply (written_step _ e); [done..| |by exists blocks'; rewrite Erep|done].
    intros p. cbn [pa_state]. destruct (decide (p = key r)) as [->|]; [apply lookup_insert_eq|by rewrite lookup_insert_ne].
Qed.
End step.

Lemma writes_prefix rep l1 l2 :
  following rep → btree_iter I = l1 ++ l2 →
  written l1.*1 (fold_left (update_node umask now b dir) l1 (mkPass rep st0 fs0 [])).
Proof.
  intros Hrep. revert l2. induction l1 as [|[p n] l1 IH] using rev_ind; intros l2 E.
  { simpl. split; simpl; [apply H0|by intros ? ? _ ?%not_elem_of_nil|by right|done|done|done|].
    intros p m. rewrite elem_of_nil. by split; [|intros (? & ? & _ & _ & ?%not_elem_of_nil & _)]. }
  rewrite <-app_assoc in E. specialize (IH _ E). rewrite fold_left_app, fmap_app. cbn [fold_left fmap list_fmap fst].
  assert (I !! p = Some n) as Hn. { apply btree_iter_elem. rewrite E. apply elem_of_app. right. by left. }
  destruct (tr_place _ _ HI _ _ Hn) as (r & -> & Hr & _).
  pose proof (btree_keys_sorted I) as Hs. unfold btree_keys in Hs. rewrite E, fmap_app in Hs. cbn in Hs.
  apply update_written; [done..| |].
  - intros k Hk. eapply StronglySorted_app_1_elem_of; [exact Hs|done|by left].
  - intros q s -> Hq Hs'. destruct (tr_up _ _ HI q s n) as [meta Hd]; [done..|].
    assert (key q ∈ btree_keys I) as Hk by (apply btree_keys_elem; eauto). unfold btree_keys in Hk.
    rewrite E, fmap_app in Hk. apply elem_of_app in Hk as [Hk|Hk]; [done|]. exfalso. cbn in Hk.
    pose proof (key_after q s Hr Hq Hs') as Hlt.
    apply elem_of_cons in Hk as [Hk|Hk].
    + rewrite <-Hk in Hlt. by apply irreflexivity in Hlt; [|apply _].
    + apply StronglySorted_app_1_r, StronglySorted_inv in Hs as [_ Hs]. rewrite Forall_forall in Hs.
      apply (irreflexivity str_lt (key q)). etrans; [exact Hlt|by apply Hs].
Qed.
(** ** The second loop *)

Lemma gone_elem st p : p ∈ gone st I ↔ is_Some (st !! p) ∧ I !! p = None.
Proof.
  unfold gone. rewrite merge_sort_Permutation, list_elem_of_filter, list_elem_of_fmap. split.
  - intros [Hi ([p' e] & -> & He%elem_of_map_to_list)]. by split; [exists e|].
  - intros [[e He] Hi]. split; [done|]. exists (p, e). split; [done|]. by apply elem_of_map_to_list.
Qed.

(** The image is on disk, the paths [done] are gone. *)
Record cleaned (st : MState) (done : list string) (s : MState * LocalFs) : Prop := {
  c_tidy : tidy dir s.2;
  c_kept r n : place r → I !! key r = Some n → ∃ e, s.2 !! (dir ++ r) = Some e ∧ shows b n e;
  c_rest r : place r → reserved r = false → I !! key r = None →
    s.2 !! (dir ++ r) = None ∨ s.2 !! (dir ++ r) = fs0 !! (dir ++ r);
  c_gone r : place r → reserved r = false → key r ∈ done → s.2 !! (dir ++ r) = None;
  c_out q : elsewhere dir q → s.2 !! q = fs0 !! q;
  c_state p : s.1 !! p = if decide (p ∈ done) then None else st !! p;
}.

Section clean.
Context (st : MState) (done : list string) (s : MState * LocalFs) (r : LPath).
Context (Hc : cleaned st done s) (Hr : place r) (Hst : is_Some (st0 !! key r)) (Hn : I !! key r = None).

Lemma way_unlinked q s' : r = q ++ s' → q ≠ [] → s' ≠ [] → not_link (s.2 !! (dir ++ q)).
Proof.
  intros E Hq Hs t Ht. subst r. pose proof (place_app q s' Hq Hr) as Hpq. destruct (reserved q) eqn:Hres.
  { destruct (td_reserved _ _ (c_tidy _ _ _ Hc) q Hres) as [E|(? & ? & ? & E)]; congruence. }
  destruct Hst as [se Hse]. destruct (I !! key q) as [n|] eqn:Hi.
  - destruct (c_kept _ _ _ Hc q n Hpq Hi) as (e & He & Hsh). rewrite Ht in He. injection He as <-.
    destruct n as [| |t' meta]; [done|done|]. by rewrite (rd_links_new _ _ _ _ _ H0 q s' t' meta Hr Hq Hs Hi) in Hse.
  - destruct (c_rest _ _ _ Hc q Hpq Hres Hi) as [E|E]; [congruence|]. rewrite E in Ht.
    destruct (rd_links_old _ _ _ _ _ H0 q t Hpq Ht) as [_ Hs']. by rewrite (Hs' s' Hr Hs) in Hse.
Qed.

Lemma delete_cleaned : cleaned st (done ++ [key r]) (delete_path dir s (key r)).
Proof.
  assert (r ≠ []) as Hne by apply Hr.
  assert (remove_any s.2 (dir ++ r) = cut (dir ++ r) s.2) as Hrm by (apply remove_any_cut; [apply Hc|done|apply way_unlinked]).
  pose proof (changed_cut dir r _ Hne _ (changed_refl dir r _ (c_tidy _ _ _ Hc))) as [Ht Helse Hout].
  unfold delete_path. rewrite local_key, Hrm by done. split; cbn [fst snd]; [done|..].
  - intros r' n Hr' Hi. destruct (Helse r') as [->|(_ & s' & Hs & ->)]; [congruence|by eapply image_place|by apply (c_kept _ _ _ Hc)|].
    destruct (tr_up _ _ HI r s' n) as [meta Hd]; [done..|]. congruence.
  - intros r' Hr' Hres Hi. destruct (decide (r' = r)) as [->|Hrr]; [left; apply cut_at|].
    destruct (Helse r') as [->|[-> _]]; [done|done|by apply (c_rest _ _ _ Hc)|by left].
  - intros r' Hr' Hres Hin. destruct (decide (r' = r)) as [->|Hrr]; [apply cut_at|].
    destruct (Helse r') as [->|[-> _]]; [done|done| |done]. apply (c_gone _ _ _ Hc); [done..|].
    apply elem_of_app in Hin as [Hin|Hin%list_elem_of_singleton]; [done|]. by apply key_inj in Hin.
  - intros q Hq. rewrite Hout by done. by apply (c_out _ _ _ Hc).
  - intros p. destruct (decide (p = key r)) as [->|Hp].
    + rewrite lookup_delete_eq, decide_True; [done|]. apply elem_of_app. right. by apply list_elem_of_singleton.
    + rewrite lookup_delete_ne, (c_state _ _ _ Hc) by done. apply decide_ext. rewrite elem_of_app, list_elem_of_singleton. tauto.
Qed.
End clean.

(** After the first loop. *)
Definition all_written (s : Pass) : Prop := written (btree_keys I) s.

Lemma state_written s p : all_written s → pa_state s !! p = match I !! p with Some n => Some (StateEntry_of n) | None => st0 !! p end.
Proof.
  intros Hw. rewrite (w_state _ _ Hw). destruct (I !! p) as [n|] eqn:E.
  - rewrite decide_True; [done|]. apply btree_keys_elem. eauto.
  - rewrite decide_False; [done|]. intros [n Hn]%btree_keys_elem. congruence.
Qed.

Lemma deletes_prefix s l :
  all_written s → (∀ p, p ∈ l → p ∈ gone (pa_state s) I) →
  cleaned (pa_state s) l (fold_left (delete_path dir) l (pa_state s, pa_fs s)).
Proof.
  intros Hw. assert (∀ p, I !! p = None → p ∉ btree_keys I) as Hnk.
  { intros p Hp [n Hn]%btree_keys_elem. congruence. }
  induction l as [|p l IH] using rev_ind; intros Hl.
  { split; cbn [fold_left fst snd]; [apply Hw| | |by intros ? _ _ ?%not_elem_of_nil|apply Hw|done].
    - intros r n Hr Hn. apply (w_done _ _ Hw); [done| |done]. apply btree_keys_elem. eauto.
    - intros r Hr Hres Hn. apply (w_rest _ _ Hw); [done..|]. by apply Hnk. }
  rewrite fold_left_app. cbn [fold_left]. destruct (proj1 (gone_elem _ _) (Hl p ltac:(apply elem_of_app; right; by left))) as [Hs Hi].
  rewrite (state_written _ _ Hw), Hi in Hs. destruct (rd_keys _ _ _ _ _ H0 p Hs) as (r & -> & Hr).
  apply delete_cleaned; [|done..]. apply IH. intros p Hp. apply Hl, elem_of_app. by left.
Qed.
End pass.
