(* ===== verification/MirrorPass.v ===== *)
(** * Passes, restarts and interruptions of a directory mirror *)

From S2P Require Import Prelude Text Slate Types Keys Kv Fork Store Bucket Btree Image Volume VolumeThms Replica.
From S2P Require Import Disk DiskThms Mirror MirrorTree MirrorThms.
Local Open Scope Z_scope.

(** ** The modes of directories *)

Definition apply_modes (fs : LocalFs) (l : list (LPath * Z)) : LocalFs := fold_left (λ fs pm, apply_mode fs pm.1 pm.2) l fs.

(** [fs'] has the entries of [fs], with other modes of directories. *)
Record remoded (dir : LPath) (l : list (LPath * Z)) (fs fs' : LocalFs) : Prop := {
  re_tidy : tidy dir fs';
  re_set p m : (p, m) ∈ l → fs' !! p = Some (LDir (Z.land m 4095));
  re_else q : q ∉ l.*1 → fs' !! q = fs !! q;
}.

Lemma modes_set dir l fs :
  tidy dir fs → (∀ p m, (p, m) ∈ l → ∃ r m0, p = dir ++ r ∧ place r ∧ fs !! p = Some (LDir m0)) →
  (∀ p m m', (p, m) ∈ l → (p, m') ∈ l → m = m') → remoded dir l fs (apply_modes fs l).
Proof.
  intros Ht. induction l as [|[p m] l IH] using rev_ind; intros Hl Hf.
  { split; [done|by intros ? ? ?%not_elem_of_nil|done]. }
  assert (∀ x, x ∈ l → x ∈ l ++ [(p, m)]) as Hin by (intros x Hx; apply elem_of_app; by left).
  assert ((p, m) ∈ l ++ [(p, m)]) as Hpm by (apply elem_of_app; right; by left).
  destruct IH as [H1 H2 H3]; [by eauto|by eauto|]. unfold apply_modes in *. rewrite fold_left_app. cbn [fold_left fst snd].
  set (fs1 := fold_left _ l fs) in *. destruct (Hl p m Hpm) as (r & m0 & -> & Hr & Hd).
  assert (∃ m1, fs1 !! (dir ++ r) = Some (LDir m1)) as [m1 Hm1].
  { destruct (decide (dir ++ r ∈ l.*1)) as [([p' m'] & -> & Hx)%list_elem_of_fmap|Hx]; [by eexists; apply H2|].
    exists m0. by rewrite H3. }
  assert (r ≠ []) as Hne by apply Hr.
  assert (reachable dir fs1 r) as Hup by (apply reachable_entry; [done|by rewrite Hm1]).
  assert (plain fs1 (dir ++ r)) as Hp by (by apply plain_under; [|apply place_normal|]).
  assert (apply_mode fs1 (dir ++ r) m = <[dir ++ r := LDir (Z.land m 4095)]> fs1) as ->.
  { unfold apply_mode. rewrite lstat_plain, Hm1; [|done|by apply under_ne].
    by rewrite (permissions_plain _ _ Hp _ (LDir m1)); [|intros t; rewrite Hm1|]. }
  split.
  - apply tidy_insert; [done..|left; by eexists|]. intros Hres.
    destruct (td_reserved _ _ H1 r Hres) as [E|(? & ? & ? & E)]; congruence.
  - intros p' m' [Hx|Hx%list_elem_of_singleton]%elem_of_app; [|injection Hx as -> ->; apply lookup_insert_eq].
    destruct (decide (p' = dir ++ r)) as [->|Hpp]; [|rewrite lookup_insert_ne by done; by apply H2].
    rewrite lookup_insert_eq. do 3 f_equal. apply (Hf (dir ++ r)); [done|by apply Hin].
  - intros q Hq. rewrite fmap_app, not_elem_of_app in Hq. destruct Hq as [Hq Hq']. cbn in Hq'.
    rewrite list_elem_of_singleton in Hq'. rewrite lookup_insert_ne by done. by apply H3.
Qed.

(** ** The state file *)

Section saves.
Context `{MirrorCodecs} (umask now : Z) (dir : LPath) (fs : LocalFs) (Ht : tidy dir fs).

Lemma own_plain c : is_normal c = true → plain fs (dir ++ [c]).
Proof. intros Hc. apply plain_under; [done|by apply Forall_singleton|]. intros [|a [|]] [|]; intros [=]; done. Qed.

Lemma save_state_ok st : ∃ m,
  save_state umask now dir st fs
    = (Ok tt, <[dir ++ [STATE_FILE] := LFile (to_vec st) m now]> (delete (dir ++ [STATE_FILE +:+ ".tmp"]) fs)).
Proof.
  destruct (install umask now fs dir (STATE_FILE +:+ ".tmp") STATE_FILE (to_vec st)) as (m & fs1 & Hw & Hm);
    [by apply own_plain|by apply own_plain|done|by apply (td_reserved _ _ Ht)| |].
  { intros u Hu. destruct (td_reserved _ _ Ht [STATE_FILE]) as [E|(? & ? & ? & E)]; [done|congruence..]. }
  exists m. unfold save_state. by rewrite Hw, Hm.
Qed.

Lemma save_tidy x m t : tidy dir (<[dir ++ [STATE_FILE] := LFile x m t]> (delete (dir ++ [STATE_FILE +:+ ".tmp"]) fs)).
Proof.
  assert (changed dir [STATE_FILE +:+ ".tmp"] fs (delete (dir ++ [STATE_FILE +:+ ".tmp"]) fs)) as Hch
    by (by apply changed_own; [apply changed_refl|..]).
  apply tidy_insert; [done|apply Hch| |right|by eauto].
  - intros [|a [|]] [|]; intros [=]; done.
  - intros u Hu. destruct (td_reserved _ _ (ch_tidy _ _ _ _ Hch) [STATE_FILE]) as [E|(? & ? & ? & E)]; [done|congruence..].
Qed.
End saves.

(** ** One pass *)

Section settled.
Context `{ObjectStore} `{MirrorCodecs}.

(** The directory holds the replica's image, and the state, in memory and on
    disk, its fingerprints. *)
Record settled (b : bucket) (m : Mirror) (fs : LocalFs) : Prop := {
  se_tidy : tidy (mi_dir m) fs;
  se_tree : tree b (r_image (mi_replica m));
  se_cached : cached b (r_blocks (mi_replica m));
  se_mirrors : mirrors b (r_image (mi_replica m)) (mi_dir m) fs;
  se_state : mi_state m = StateEntry_of <$> r_image (mi_replica m);
  se_file : ∃ mode t, fs !! (mi_dir m ++ [STATE_FILE]) = Some (LFile (to_vec (mi_state m)) mode t);
}.

(** [m'] is [m] but for its state and its cached blocks. *)
Definition same_volume (m m' : Mirror) : Prop :=
  mi_dir m' = mi_dir m ∧ ∃ blocks, mi_replica m' = mkReplica (r_vol (mi_replica m)) (r_image (mi_replica m)) (r_cursor (mi_replica m)) blocks.

Section pass.
Context (umask now : Z) (b : bucket) (m : Mirror) (fs : LocalFs).
Local Abbreviation I := (r_image (mi_replica m)).
Local Abbreviation dir := (mi_dir m).
Context (HI : tree b I) (Hready : ready b I dir (mi_state m) fs) (Hc : cached b (r_blocks (mi_replica m))).

Definition loop1 : Pass := fold_left (update_node umask now b dir) (btree_iter I) (mkPass (mi_replica m) (mi_state m) fs []).
Definition loop2 : MState * LocalFs := fold_left (delete_path dir) (gone (pa_state loop1) I) (pa_state loop1, pa_fs loop1).
Definition loop3 : LocalFs := apply_modes loop2.2 (pa_modes loop1).

Local Abbreviation written_ := (written b dir I (mi_state m) fs (r_vol (mi_replica m)) (r_cursor (mi_replica m))).
Local Abbreviation cleaned_ := (cleaned b dir I fs (pa_state loop1)).

Lemma replica_following : following b I (r_vol (mi_replica m)) (r_cursor (mi_replica m)) (mi_replica m).
Proof. exists (r_blocks (mi_replica m)). by destruct (mi_replica m). Qed.

Lemma loop1_ok : written_ (btree_keys I) loop1.
Proof. apply (writes_prefix umask now b dir I (mi_state m) fs HI Hready _ _ (mi_replica m) _ []); [apply replica_following|by rewrite app_nil_r]. Qed.

Lemma loop2_ok : cleaned_ (gone (pa_state loop1) I) loop2.
Proof. eapply deletes_prefix; [done|done|apply loop1_ok|done]. Qed.

Lemma loop3_ok : remoded dir (pa_modes loop1) loop2.2 loop3.
Proof.
  pose proof loop1_ok as Hw. pose proof loop2_ok as Hcl. apply modes_set; [apply Hcl|..].
  - intros p md (r & meta & -> & Hr & _ & Hd & _)%(w_modes _ _ _ _ _ _ _ _ _ Hw).
    destruct (c_kept _ _ _ _ _ _ _ Hcl r _ Hr Hd) as (e & He & Hsh). destruct e as [|m0|]; [done| |done]. by exists r, m0.
  - intros p md md' (r & meta & -> & Hr & _ & Hd & ->)%(w_modes _ _ _ _ _ _ _ _ _ Hw)
      (r' & meta' & E & Hr' & _ & Hd' & ->)%(w_modes _ _ _ _ _ _ _ _ _ Hw).
    apply app_inv_head in E as <-. congruence.
Qed.

Lemma loop2_state : loop2.1 = StateEntry_of <$> I.
Proof.
  pose proof loop1_ok as Hw. apply map_eq. intros p. rewrite (c_state _ _ _ _ _ _ _ loop2_ok), lookup_fmap.
  rewrite (state_written _ _ _ _ _ _ _ _ p Hw). destruct (I !! p) as [n|] eqn:E.
  - by rewrite decide_False; [|intros [_ ?]%gone_elem; congruence].
  - destruct (mi_state m !! p) as [x|] eqn:Es; [|by destruct (decide _)]. rewrite decide_True; [done|].
    apply gone_elem. rewrite (state_written _ _ _ _ _ _ _ _ p Hw), E, Es. by split; [eexists|].
Qed.

(** What the first three loops leave under the directory. *)
Lemma loop3_mirrors : mirrors b I dir loop3.
Proof.
  pose proof loop1_ok as Hw. pose proof loop2_ok as Hcl. destruct loop3_ok as [_ Hset Helse]. intros r Hr Hres.
  assert (∀ md, (dir ++ r, md) ∈ pa_modes loop1 → ∃ meta, I !! key r = Some (Dir meta) ∧ md = mode meta) as Hmd.
  { intros md (r' & meta & E & Hr' & _ & Hd & ->)%(w_modes _ _ _ _ _ _ _ _ _ Hw). apply app_inv_head in E as <-. eauto. }
  assert ((∀ meta, I !! key r ≠ Some (Dir meta)) → loop3 !! (dir ++ r) = loop2.2 !! (dir ++ r)) as Hsame.
  { intros Hd. apply Helse. intros ([p md] & E & Hx)%list_elem_of_fmap. simpl in E. subst p.
    destruct (Hmd md Hx) as (meta & Hi & _). by apply (Hd meta). }
  destruct (I !! key r) as [n|] eqn:Hi.
  - destruct (c_kept _ _ _ _ _ _ _ Hcl r n Hr Hi) as (e & He & Hsh). destruct n as [ct meta|meta|t meta].
    1,3: rewrite Hsame by done; exists e; split; [done|]; by destruct e.
    exists (LDir (Z.land (mode meta) 4095)). split; [|done]. apply Hset. apply (w_modes _ _ _ _ _ _ _ _ _ Hw).
    exists r, meta. split_and!; try done. apply btree_keys_elem. eauto.
  - rewrite Hsame by done. destruct (loop2.2 !! (dir ++ r)) as [e|] eqn:E; [|done]. exfalso.
    destruct (c_rest _ _ _ _ _ _ _ Hcl r Hr Hres Hi) as [?|Hf]; [congruence|].
    pose proof (rd_covered _ _ _ _ _ Hready r Hr Hres) as Hcov. rewrite <-Hf, E in Hcov.
    specialize (Hcov ltac:(by eexists) Hi). rewrite (c_gone _ _ _ _ _ _ _ Hcl r Hr Hres) in E; [done|].
    apply gone_elem. by rewrite (state_written _ _ _ _ _ _ _ _ _ Hw), Hi.
Qed.

Lemma loop3_out q : elsewhere dir q → loop3 !! q = fs !! q.
Proof.
  intros Hq. rewrite (re_else _ _ _ _ loop3_ok); [by apply (c_out _ _ _ _ _ _ _ loop2_ok)|].
  intros ([p md] & -> & (r & meta & E & [Hr _] & _)%(w_modes _ _ _ _ _ _ _ _ _ loop1_ok))%list_elem_of_fmap. by apply (Hq r).
Qed.

Lemma materialize_settles : ∃ m' fs',
  materialize umask now b m fs = (Ok tt, m', fs') ∧ same_volume m m' ∧ settled b m' fs' ∧ ∀ q, elsewhere dir q → fs' !! q = fs !! q.
Proof.
  pose proof loop3_ok as [Ht3 _ _]. destruct (save_state_ok umask now dir loop3 Ht3 loop2.1) as [md Hs].
  assert (materialize umask now b m fs = (Ok tt, mkMirror (pa_replica loop1) dir loop2.1,
    <[dir ++ [STATE_FILE] := LFile (to_vec loop2.1) md now]> (delete (dir ++ [STATE_FILE +:+ ".tmp"]) loop3))) as ->.
  { unfold materialize. fold loop1. fold loop2. rewrite (surjective_pairing loop2). fold (apply_modes loop2.2 (pa_modes loop1)).
    fold loop3. by rewrite Hs. }
  destruct (w_replica _ _ _ _ _ _ _ _ _ loop1_ok) as (blocks & -> & Hc').
  do 2 eexists. split; [reflexivity|]. split; [by split; [|exists blocks]|]. split; [split; cbn [mi_dir mi_replica mi_state r_image r_blocks]|].
  - by apply save_tidy.
  - done.
  - done.
  - intros r Hr Hres. pose proof (loop3_mirrors r Hr Hres) as Hm.
    assert (∀ c, reserved [c] = true → dir ++ [c] ≠ dir ++ r) as Hne by (intros c Hc2 E; apply app_inv_head in E; congruence).
    by rewrite lookup_insert_ne, lookup_delete_ne by (by apply Hne).
  - apply loop2_state.
  - exists md, now. apply lookup_insert_eq.
  - intros q Hq. rewrite lookup_insert_ne by (intros E; by apply (Hq [STATE_FILE])).
    rewrite lookup_delete_ne by (intros E; by apply (Hq [STATE_FILE +:+ ".tmp"])). by apply loop3_out.
Qed.

(** ** Interruptions *)

(** The disk after [k] nodes of the first loop and, when that is all of them,
    [j] deletions. *)
Definition partway (k j : nat) : LocalFs :=
  let s := fold_left (update_node umask now b dir) (take k (btree_iter I)) (mkPass (mi_replica m) (mi_state m) fs []) in
  if (length (btree_iter I) <=? k)%nat
  then (fold_left (delete_path dir) (take j (gone (pa_state s) I)) (pa_state s, pa_fs s)).2
  else pa_fs s.

Lemma ready_again fs1 :
  tidy dir fs1 →
  (∀ r, place r → reserved r = false → fs1 !! (dir ++ r) = None ∨ fs1 !! (dir ++ r) = fs !! (dir ++ r)
     ∨ ∃ n e, I !! key r = Some n ∧ fs1 !! (dir ++ r) = Some e ∧ shows b n e) →
  ready b I dir (mi_state m) fs1.
Proof.
  intros Ht Hd. pose proof Hready as [_ R1 R2 R3 R4 R5]. split; [done|done|..].
  - intros r Hr Hres [e He] Hi. destruct (Hd r Hr Hres) as [E|[E|(n & e' & E & _)]]; [congruence| |congruence].
    apply R2; [done..| |done]. rewrite <-E. by eexists.
  - intros r n e Hr Hi Hst He.
    destruct (Hd r Hr) as [E|[E|(n' & e' & E & E' & Hsh)]]; [by eapply image_place|congruence| |by simplify_eq].
    apply (R3 r); [done..|]. by rewrite <-E.
  - intros r t Hr Hl. destruct (reserved r) eqn:Hres.
    { destruct (td_reserved _ _ Ht r Hres) as [E|(? & ? & ? & E)]; congruence. }
    destruct (Hd r Hr Hres) as [E|[E|(n & e & E & E' & Hsh)]]; [congruence|by apply (R4 r t); [|rewrite <-E]|].
    rewrite Hl in E'. injection E' as <-. destruct n as [| |t' meta]; [done|done|]. split; [congruence|].
    intros s Hs Hne. eapply R5; [done|apply Hr|done|done].
  - done.
Qed.

Lemma partway_ready k j : ready b I dir (mi_state m) (partway k j).
Proof.
  assert (∀ k, written_ (take k (btree_iter I)).*1
    (fold_left (update_node umask now b dir) (take k (btree_iter I)) (mkPass (mi_replica m) (mi_state m) fs []))) as Hw.
  { intros n. apply (writes_prefix umask now b dir I (mi_state m) fs HI Hready _ _ (mi_replica m) _ (drop n (btree_iter I)));
      [apply replica_following|by rewrite take_drop]. }
  unfold partway. destruct (Nat.leb_spec (length (btree_iter I)) k) as [Hk|Hk].
  - rewrite (take_ge (btree_iter I)) by done. fold loop1.
    pose proof (deletes_prefix b dir I (mi_state m) fs HI Hready _ _ loop1 (take j (gone (pa_state loop1) I)) loop1_ok) as Hcl.
    specialize (Hcl ltac:(intros p (i & Hp & _)%elem_of_take; by eapply list_elem_of_lookup_2)).
    apply ready_again; [apply Hcl|]. intros r Hr Hres. destruct (I !! key r) as [n|] eqn:Hi.
    + destruct (c_kept _ _ _ _ _ _ _ Hcl r n Hr Hi) as (e & He & Hsh). right. right. by exists n, e.
    + destruct (c_rest _ _ _ _ _ _ _ Hcl r Hr Hres Hi) as [E|E]; [by left|right; by left].
  - specialize (Hw k). apply ready_again; [apply Hw|]. intros r Hr Hres.
    destruct (decide (key r ∈ (take k (btree_iter I)).*1)) as [Hin|Hin].
    + pose proof Hin as ([p n] & E & (i & Hp & _)%elem_of_take)%list_elem_of_fmap. simpl in E. subst p.
      apply list_elem_of_lookup_2, btree_iter_elem in Hp.
      destruct (w_done _ _ _ _ _ _ _ _ _ Hw r n Hr Hin Hp) as (e & He & Hsh). right. right. by exists n, e.
    + destruct (w_rest _ _ _ _ _ _ _ _ _ Hw r Hr Hres Hin) as [E|E]; [by left|right; by left].
Qed.
End pass.
End settled.

(** ** Between passes *)

Section between.
Context `{ObjectStore}.

(** The fingerprints tell the images apart, and no path turned from a link into
    a directory or back. *)
Record tells (b : bucket) (old new : FsImage) : Prop := {
  tl_file p ct0 meta0 n : old !! p = Some (File ct0 meta0) → new !! p = Some n →
    StateEntry_of n = StateEntry_of (File ct0 meta0) →
    ∃ ct meta, n = File ct meta ∧ ∀ c, file_bytes b ct0 c → file_bytes b ct c;
  tl_dir p meta0 n : old !! p = Some (Dir meta0) → new !! p = Some n →
    StateEntry_of n = StateEntry_of (Dir meta0) → ∃ meta, n = Dir meta;
  tl_link p t meta0 meta : old !! p = Some (Symlink t meta0) → new !! p ≠ Some (Dir meta);
  tl_below r s t meta : place (r ++ s) → r ≠ [] → s ≠ [] → new !! key r = Some (Symlink t meta) → old !! key (r ++ s) = None;
}.

Lemma tells_shows b old new p n0 n e :
  tells b old new → old !! p = Some n0 → new !! p = Some n → StateEntry_of n = StateEntry_of n0 →
  renders b n0 e → shows b n e.
Proof.
  intros Ht H0 Hn Hs [He _]. destruct n0 as [ct0 meta0|meta0|t meta0].
  - destruct (tl_file _ _ _ Ht p ct0 meta0 n) as (ct & meta & -> & Hb); [done..|]. injection Hs as _ Hm Hmode.
    destruct e as [c m u| |]; [|done|done]. destruct He as (Hc & -> & ->). simpl. rewrite Hm, Hmode. split; [by apply Hb|done].
  - destruct (tl_dir _ _ _ Ht p meta0 n) as [meta ->]; [done..|]. by destruct e.
  - destruct n as [| |t' meta]; [done|done|]. injection Hs as _ _ _ ->. by destruct e.
Qed.

Lemma settled_ready `{MirrorCodecs} b m fs new :
  settled b m fs → tree b new → tells b (r_image (mi_replica m)) new → ready b new (mi_dir m) (mi_state m) fs.
Proof.
  intros [Ht HI _ Hm Hst _] HN HT. set (old := r_image (mi_replica m)) in *.
  assert (∀ p, is_Some (mi_state m !! p) ↔ is_Some (old !! p)) as Hdom by (intros p; by rewrite Hst, lookup_fmap, fmap_is_Some).
  split; [done|..].
  - intros p [n Hn]%Hdom. destruct (tr_place _ _ HI p n Hn) as (r & -> & Hr & _). eauto.
  - intros r Hr Hres [e He] _. apply Hdom. specialize (Hm r Hr Hres). destruct (old !! key r); [done|congruence].
  - intros r n e Hr Hn Hs He. rewrite Hst, lookup_fmap in Hs. destruct (old !! key r) as [n0|] eqn:E; [|done].
    injection Hs as Hs. specialize (Hm r Hr (image_place b new HN r n Hr Hn)). rewrite E in Hm.
    destruct Hm as (e' & He' & Hr'). rewrite He in He'. injection He' as <-. by eapply tells_shows.
  - intros r t Hr Hl. destruct (reserved r) eqn:Hres.
    { destruct (td_reserved _ _ Ht r Hres) as [E|(? & ? & ? & E)]; congruence. }
    specialize (Hm r Hr Hres). destruct (old !! key r) as [n0|] eqn:E; [|congruence].
    destruct Hm as (e & He & [Hsh _]). rewrite Hl in He. injection He as <-. destruct n0 as [| |t0 meta0]; [done|done|].
    split; [intros meta; by apply (tl_link _ _ _ HT _ _ _ _ E)|]. intros s Hs Hne. apply eq_None_not_Some. rewrite Hdom.
    intros [n Hn]. destruct (tr_up _ _ HI r s n Hs) as [meta Hd]; [apply Hr|done|done|]. fold old in Hd. congruence.
  - intros r s t meta Hs Hne Hne' Hn. apply eq_None_not_Some. rewrite Hdom.
    rewrite (tl_below _ _ _ HT r s t meta Hs Hne Hne' Hn). apply is_Some_None.
Qed.
End between.

(** ** The operations of a mirror *)

Section mirror_laws.
Context `{SlateDbLaws} `{CodecLaws} `{ObjectStoreLaws} `{FuseCodecLaws} `{MirrorCodecLaws}.
Context (umask now : Z).

(** C16: a pass makes the directory look exactly like the image.  Let the image
    be a tree of plain names, its files readable from the bucket, and none of
    its paths one of the mirror's own names (a temporary file or the state
    file); let the state describe the directory (what left the image is
    recorded, an unchanged fingerprint means unchanged content, no link stands
    in the way or on the directory's own path) and cached blocks be the
    bucket's; and let the process not be stopped by permission bits (it runs
    as root).  Then [materialize] succeeds; afterwards every path of the image
    is on disk with its content, target, mode and time, nothing else is, the
    state and its file hold the image's fingerprints, and nothing outside the
    directory changed. *)
Theorem materialize_exact b m fs :
  tree b (r_image (mi_replica m)) → ready b (r_image (mi_replica m)) (mi_dir m) (mi_state m) fs →
  cached b (r_blocks (mi_replica m)) →
  ∃ m' fs', materialize umask now b m fs = (Ok tt, m', fs') ∧ same_volume m m' ∧ settled b m' fs'
    ∧ ∀ q, elsewhere (mi_dir m) q → fs' !! q = fs !! q.
Proof. apply materialize_settles. Qed.

(** C33: an interrupted pass converges on the next one.  Let a pass start under
    the conditions of an exact one: the image a readable tree with no path on
    the mirror's own names, the state describing the directory (what left the
    image recorded, an unchanged fingerprint means unchanged content, no link
    in the way), the process not stopped by permission bits.  However many
    nodes and deletions were done when it stopped, before its state was saved,
    a pass over the same image from the old state leaves the directory exactly
    as it should be. *)
Theorem interrupted_pass_converges b m fs k j rep :
  tree b (r_image (mi_replica m)) → ready b (r_image (mi_replica m)) (mi_dir m) (mi_state m) fs →
  cached b (r_blocks (mi_replica m)) → r_image rep = r_image (mi_replica m) → cached b (r_blocks rep) →
  ∃ m' fs', materialize umask now b (mkMirror rep (mi_dir m) (mi_state m)) (partway umask now b m fs k j) = (Ok tt, m', fs')
    ∧ r_image (mi_replica m') = r_image (mi_replica m) ∧ settled b m' fs'.
Proof.
  intros HI Hr Hc Him Hc'. destruct (materialize_settles umask now b (mkMirror rep (mi_dir m) (mi_state m))
    (partway umask now b m fs k j)) as (m' & fs' & E & [_ [bl Hrep]] & Hs & _); cbn [mi_replica mi_dir mi_state];
    [by rewrite Him|rewrite Him; by apply partway_ready|done|].
  exists m', fs'. by rewrite Hrep.
Qed.

Lemma sync_once_eq clk b d m fs rep :
  sync clk b (mi_replica m) d = (Ok tt, rep) → settled b m fs → tree b (r_image rep) →
  tells b (r_image (mi_replica m)) (r_image rep) →
  ∃ m' fs', sync_once umask now clk b d m fs = (Ok (default 0 (r_cursor rep)), m', fs')
    ∧ r_image (mi_replica m') = r_image rep ∧ r_cursor (mi_replica m') = r_cursor rep
    ∧ settled b m' fs' ∧ ∀ q, elsewhere (mi_dir m) q → fs' !! q = fs !! q.
Proof.
  intros E Hs HI HT. destruct (sync_keeps _ _ _ _ _ _ E) as (_ & Hb & _).
  destruct (materialize_settles umask now b (mkMirror rep (mi_dir m) (mi_state m)) fs)
    as (m' & fs' & Em & [_ [bl Hrep]] & Hs' & Hout); cbn [mi_replica mi_dir mi_state];
    [done|by apply settled_ready|rewrite Hb; apply Hs|].
  exists m', fs'. unfold sync_once. rewrite E, Em, Hrep. by split_and!.
Qed.

(** C32: the mirror follows the stream.  A settled mirror whose replica has
    applied a prefix of the volume's deltas catches up in one [sync_once]: it
    returns the version of the last delta, and the directory is the rendering
    of the replay of all of them.  Retention may have removed deltas the replica
    has not seen only if the latest checkpoint covers them; the log is numbered
    by position and that checkpoint loads to the replay of what it covers.  The
    new image must be a readable tree with no path on the mirror's own names,
    fingerprints must tell it from the old one (a rewrite of the same size and
    time is not seen), no path may turn from a link into a directory or have
    had nodes below it when it becomes a link, and permission bits must not
    stop the process. *)
Theorem sync_once_follows clk b d m fs L f k :
  settled b m fs → retained b d (r_vol (mi_replica m)) L f → at_position L (mi_replica m) k →
  (f ≤ k)%nat ∨ (∃ sn, latest_snapshot d (r_vol (mi_replica m)) = Ok (Some sn) ∧ Z.of_nat f ≤ sn_through_version sn + 1) →
  (∀ rep, sync clk b (mi_replica m) d = (Ok tt, rep) →
     tree b (r_image rep) ∧ tells b (r_image (mi_replica m)) (r_image rep)) →
  ∃ v m' fs', sync_once umask now clk b d m fs = (Ok v, m', fs') ∧ (L ≠ [] → v = Z.of_nat (length L) - 1)
    ∧ r_image (mi_replica m') ≡ replay_log clk L ∧ settled b m' fs' ∧ ∀ q, elsewhere (mi_dir m) q → fs' !! q = fs !! q.
Proof.
  intros Hs HR Hp Hret Hnew. destruct (sync_position clk b d _ L f (mi_replica m) k HR eq_refl Hp Hret) as (rep & E & Hp').
  destruct (Hnew rep E) as [HI HT]. destruct (sync_once_eq clk b d m fs rep E Hs HI HT) as (m' & fs' & Em & Him & _ & Hs' & Hout).
  destruct Hp' as (_ & Hc & _ & Hrep). exists (default 0 (r_cursor rep)), m', fs'. split; [done|]. split; [|split; [|done]].
  - intros HL. destruct (r_cursor rep) as [c|]; simpl in *; [lia|]. destruct L; [done|discriminate Hc].
  - rewrite Him, (Hrep clk). by rewrite firstn_all.
Qed.

Lemma open_settles clk b d vol dir fs fs1 st rep :
  create_dir_all umask fs dir = (Ok tt, fs1) → load_state fs1 dir = Ok st → open_replica clk b vol d = Ok rep →
  tree b (r_image rep) → ready b (r_image rep) dir st fs1 →
  ∃ m fs', open_mirror umask now clk b d vol dir fs = (Ok m, fs') ∧ r_image (mi_replica m) = r_image rep
    ∧ settled b m fs' ∧ ∀ q, elsewhere dir q → fs' !! q = fs1 !! q.
Proof.
  intros E1 E2 E3 HI Hr. unfold open_mirror. rewrite E1, E2, E3. cbn [rbind].
  assert (r_blocks rep = ∅) as Hb.
  { unfold open_replica in E3. destruct (sync _ _ _ _) as [res r] eqn:E. destruct (sync_keeps _ _ _ _ _ _ E) as (_ & Hb & _).
    destruct res; [|done]. injection E3 as <-. exact Hb. }
  destruct (materialize_settles umask now b (mkMirror rep dir st) fs1) as (m' & fs' & -> & [_ [bl Hrep]] & Hs & Hout);
    cbn [mi_replica mi_dir mi_state]; [done..|by rewrite Hb; intros ? ? ?%lookup_empty_Some|].
  exists m', fs'. by rewrite Hrep.
Qed.

(** Restarts are safe.  The state file is all that is kept: opening the
    mirror again over the directory of a settled one, when the fingerprints
    tell the volume's new image from the old one and no path turned from a link
    into a directory or back, succeeds and leaves the directory as the new
    image. *)
Theorem reopen_settles clk b d vol m fs rep :
  settled b m fs → open_replica clk b vol d = Ok rep → tree b (r_image rep) →
  tells b (r_image (mi_replica m)) (r_image rep) →
  ∃ m' fs', open_mirror umask now clk b d vol (mi_dir m) fs = (Ok m', fs') ∧ r_image (mi_replica m') = r_image rep
    ∧ settled b m' fs' ∧ ∀ q, elsewhere (mi_dir m) q → fs' !! q = fs !! q.
Proof.
  intros Hs Er HI HT. pose proof (se_tidy _ _ _ Hs) as Ht. destruct (se_file _ _ _ Hs) as (md & t & Hf).
  apply (open_settles clk b d vol (mi_dir m) fs fs (mi_state m) rep); [|..|done|done|by apply settled_ready].
  - apply create_existing; [apply (td_dir _ _ Ht)|apply (td_at _ _ Ht)].
  - unfold load_state, os_read, lookup_entry. rewrite resolve_plain; [|by apply own_plain|intros _ u; by rewrite Hf].
    rewrite entry_plain, Hf; [|by apply own_plain|by destruct (mi_dir m)]. by rewrite from_to_vec.
Qed.

(** A directory that is not there yet. *)
Lemma fresh_ready b I dir fs m :
  plain fs dir → dir ≠ [] → (∀ r, fs !! (dir ++ r) = None) → ready b I dir ∅ (<[dir := LDir m]> fs).
Proof.
  intros Hp Hne Hno. assert (∀ r, r ≠ [] → (<[dir := LDir m]> fs) !! (dir ++ r) = None) as Hno'.
  { intros r Hr. rewrite lookup_insert_ne; [done|]. intros E. rewrite <-(app_nil_r dir) in E at 1. by apply app_inv_head in E. }
  split; [split|..].
  - eapply plain_same; [done|]. intros q _ Hq. apply dir_at_same. by rewrite lookup_insert_ne.
  - apply dir_at_lookup; [done|]. exists m. apply lookup_insert_eq.
  - intros q s Hq Hs. rewrite Hno' by by destruct q. by intros [].
  - intros r Hr. left. apply Hno'. by intros ->.
  - intros p [e He]. by rewrite lookup_empty in He.
  - intros r [Hr _] _. rewrite Hno' by done. by intros [].
  - intros r n e [Hr _]. by rewrite Hno'.
  - intros r t [Hr _]. by rewrite Hno'.
  - intros r s t meta _ _ _ _. apply lookup_empty.
Qed.

(** A first run.  Opening a mirror in a directory that does not exist yet
    creates it and fills it with exactly the image. *)
Theorem open_fresh clk b d vol dir fs rep :
  plain fs dir → dir ≠ [] → (∀ r, fs !! (dir ++ r) = None) → open_replica clk b vol d = Ok rep → tree b (r_image rep) →
  ∃ m fs', open_mirror umask now clk b d vol dir fs = (Ok m, fs') ∧ r_image (mi_replica m) = r_image rep
    ∧ settled b m fs' ∧ ∀ q, ¬ dir `prefix_of` q → fs' !! q = fs !! q.
Proof.
  intros Hp Hne Hno Er HI. pose proof (fresh_ready b (r_image rep) dir fs (Z.ldiff 511 umask) Hp Hne Hno) as Hr.
  destruct (open_settles clk b d vol dir fs (<[dir := LDir (Z.ldiff 511 umask)]> fs) ∅ rep) as (m & fs' & E & Him & Hs & Hout);
    [| |done|done|done|].
  - apply create_plain; [done..|]. specialize (Hno []). by rewrite app_nil_r in Hno.
  - unfold load_state, os_read, lookup_entry.
    assert ((<[dir := LDir (Z.ldiff 511 umask)]> fs) !! (dir ++ [STATE_FILE]) = None) as En.
    { rewrite lookup_insert_ne; [apply Hno|]. intros E. rewrite <-(app_nil_r dir) in E at 1. by apply app_inv_head in E. }
    rewrite resolve_plain; [|apply own_plain; [apply Hr|done]|intros _ u; by rewrite En].
    rewrite entry_plain, En; [done|apply own_plain; [apply Hr|done]|by destruct dir].
  - exists m, fs'. split_and!; [done..|]. intros q Hq. rewrite Hout.
    + apply lookup_insert_ne. by intros ->.
    + intros r _ ->. apply Hq. by apply prefix_app_r.
Qed.
End mirror_laws.
