(* ===== verification/MirrorRuns.v ===== *)
(** * Concrete mirrors

    Checks of a concrete image against the conditions of a pass, the theorems
    about mirrors at small volumes, and runs in which the conditions fail. *)

From S2P Require Import Prelude Text Slate Types Keys Kv Fork Store Batch Append Wf Commit.
From S2P Require Import Appended Ops Purge History Txn Invariant Samples ForkThms SnapshotThms ReadThms Reader.
From S2P Require Import Frames Bucket Btree Image ImageThms Volume FuseSamples VolumeThms Replica FsElsewhere.
From S2P Require Import Disk DiskThms Mirror MirrorTree MirrorThms MirrorPass.
Local Open Scope Z_scope.

(** ** Checked images *)

Definition is_dir_some (o : option Node) : bool := match o with Some (Dir _) => true | _ => false end.

(** One path of a tree whose files are inline and small. *)
Definition path_check (I : FsImage) (p : string) (n : Node) : bool :=
  let r := normals p in
  String.eqb p (key r) && negb (bool_decide (r = [])) && forallb (λ c, is_normal c && negb (has_slash c)) r
  && negb (reserved r)
  && forallb (λ k, is_dir_some (I !! key (take k r))) (seq 1 (length r - 1))
  && match n with File (Inline c) _ => Z.of_nat (length c) <? U64 | File _ _ => false | _ => true end.

Definition tree_check (I : FsImage) : bool := forallb (λ pn, path_check I pn.1 pn.2) (map_to_list I).

Lemma tree_checked `{ObjectStore} b I : tree_check I = true → tree b I.
Proof.
  unfold tree_check. rewrite forallb_forall. intros Hall.
  assert (∀ p n, I !! p = Some n → path_check I p n = true) as Hp.
  { intros p n Hn. apply (Hall (p, n)), list_elem_of_In, elem_of_map_to_list. done. }
  clear Hall. unfold path_check in Hp. split.
  - intros p n Hn%Hp. rewrite !andb_true_iff, forallb_forall in Hn. destruct Hn as [[[[[E Hne] Hf] Hres] _] _].
    exists (normals p). split_and!; [by apply String.eqb_eq| |by apply negb_true_iff]. split.
    + apply negb_true_iff, bool_decide_eq_false in Hne. done.
    + apply Forall_forall. intros c Hc%list_elem_of_In%Hf. apply andb_true_iff in Hc as [H1 H2%negb_true_iff]. done.
  - intros q s n Hpl Hq Hs Hn%Hp. rewrite !andb_true_iff, !forallb_forall in Hn. destruct Hn as [[[[_ _] _] Hup] _].
    rewrite normals_key in Hup by done. specialize (Hup (length q)). rewrite take_app_length, in_seq, length_app in Hup.
    assert (length q ≠ 0 ∧ length s ≠ 0)%nat as [Hlq Hls] by by destruct q, s.
    specialize (Hup ltac:(lia)). unfold is_dir_some in Hup. destruct (I !! key q) as [[| meta |]|]; [done|by exists meta|done..].
  - intros p ct meta Hn%Hp. rewrite !andb_true_iff in Hn. destruct Hn as [_ Hn]. destruct ct as [c|]; [|done].
    exists c. split; [done|]. by apply Z.ltb_lt.
Qed.

(** Two images that a pass can tell apart. *)
Definition pair_check (new : FsImage) (p : string) (n0 : Node) : bool :=
  match new !! p with
  | None => true
  | Some n =>
      match n0, n with
      | Symlink _ _, Dir _ => false
      | File ct0 _, File ct _ => negb (bool_decide (StateEntry_of n = StateEntry_of n0)) || bool_decide (ct = ct0)
      | File _ _, _ | Dir _, File _ _ | Dir _, Symlink _ _ => negb (bool_decide (StateEntry_of n = StateEntry_of n0))
      | _, _ => true
      end
  end
  && forallb (λ k, match new !! key (take k (normals p)) with Some (Symlink _ _) => false | _ => true end)
       (seq 1 (length (normals p) - 1)).

Definition tells_check (old new : FsImage) : bool := forallb (λ pn, pair_check new pn.1 pn.2) (map_to_list old).

Lemma tells_checked `{ObjectStore} b old new : tells_check old new = true → tells b old new.
Proof.
  unfold tells_check. rewrite forallb_forall. intros Hall.
  assert (∀ p n, old !! p = Some n → pair_check new p n = true) as Hp.
  { intros p n Hn. apply (Hall (p, n)), list_elem_of_In, elem_of_map_to_list. done. }
  clear Hall. unfold pair_check in Hp. split.
  - intros p ct0 meta0 n H0%Hp Hn Hs. rewrite Hn, bool_decide_true in H0 by done. apply andb_true_iff in H0 as [H0 _].
    destruct n as [ct meta| |]; [|done|done]. exists ct, meta. split; [done|]. apply bool_decide_eq_true in H0 as ->. done.
  - intros p meta0 n H0%Hp Hn Hs. rewrite Hn, bool_decide_true in H0 by done. apply andb_true_iff in H0 as [H0 _].
    destruct n as [|meta|]; [done|by exists meta|done].
  - intros p t meta0 meta H0%Hp Hn. by rewrite Hn in H0.
  - intros r s t meta Hpl Hr Hs Hn. destruct (old !! key (r ++ s)) as [n|] eqn:E; [|done]. apply Hp in E.
    rewrite andb_true_iff, forallb_forall in E. destruct E as [_ E]. rewrite normals_key in E by done.
    specialize (E (length r)). rewrite take_app_length, in_seq, length_app, Hn in E.
    assert (length r ≠ 0 ∧ length s ≠ 0)%nat as [Hlq Hls] by by destruct r, s. by specialize (E ltac:(lia)).
Qed.

(** ** Instances *)

Import Samples FuseSamples.

Module MirrorSamples.
#[export] Instance state_entry_countable : Countable StateEntry.
Proof.
  apply (inj_countable' (λ e, (se_size e, se_mtime_ms e, se_mode e, se_target e)) (λ '(a, b, c, t), mkEntry a b c t)). by intros [].
Defined.

#[export] Instance sample_mirror_codecs : MirrorCodecs := {| codec_state := json_of_countable MState |}.

#[export] Instance sample_mirror_laws : MirrorCodecLaws.
Proof. split. apply json_of_countable_law. Qed.
End MirrorSamples.
Import MirrorSamples.

Definition no_blocks : bucket := (∅ : gmap string bytes).

(** The directory [/srv/m], where only [/srv] and [/etc] exist. *)
Definition host : LocalFs := {[ ["srv"] := LDir 493; ["etc"] := LDir 493; ["etc"; "x"] := LFile [x01] 420 7 ]}.
Definition here : LPath := ["srv"; "m"].

(** An image by the deltas of its volume. *)
Definition image_of (ds : list Delta) : FsImage := fold_left (FsImage_apply 5) ds ∅.
Definition replica_of (ds : list Delta) : Replica := mkReplica "v" (image_of ds) None ∅.

Definition deltas1 : list Delta := [DMkdir "/a"; DWrite "/a/f" 0 (DInline [x68; x69]); DSymlink "/a/l" "f"].
Definition deltas2 : list Delta := deltas1 ++ [DRemove "/a/f"; DWrite "/g" 0 (DInline [x67]); DSetAttr "/a" (Some 448) None None None].

(** A pass over the image of [ds]. *)
Definition pass (ds : list Delta) (st : MState) (fs : LocalFs) : R unit * Mirror * LocalFs :=
  materialize 18 9 no_blocks (mkMirror (replica_of ds) here st) fs.

Definition host1 : LocalFs := <[here := LDir 493]> host.

Lemma host_plain : plain host here.
Proof.
  split; [by repeat constructor|]. intros q Hq Hne. assert (q = [] ∨ q = ["srv"]) as [-> | ->].
  { destruct Hq as [s E]. destruct q as [|a [|b [|]]]; [by left|right; by injection E as <- _|by injection E as <- <- _|discriminate E]. }
  - by exists 493.
  - exists 493. reflexivity.
Qed.

Lemma host_nothing r : host !! (here ++ r) = None.
Proof. unfold host, here. simpl. rewrite !lookup_insert_ne by discriminate. by apply lookup_singleton_ne. Qed.

Lemma host1_ready I : ready no_blocks I here ∅ host1.
Proof. apply fresh_ready; [apply host_plain|done|apply host_nothing]. Qed.

Lemma cached_none b : cached b ∅.
Proof. intros h x E. by rewrite lookup_empty in E. Qed.

(** The mirror after a first pass. *)
Lemma pass_settled ds : tree_check (image_of ds) = true → settled no_blocks (pass ds ∅ host1).1.2 (pass ds ∅ host1).2.
Proof.
  intros Hc. destruct (materialize_settles 18 9 no_blocks (mkMirror (replica_of ds) here ∅) host1) as (m & fs & E & _ & Hs & _);
    [by apply tree_checked|apply host1_ready|apply cached_none|]. unfold pass. by rewrite E.
Qed.

Definition mirror1 : Mirror := (pass deltas1 ∅ host1).1.2.
Definition disk1 : LocalFs := (pass deltas1 ∅ host1).2.

Lemma mirror1_settled : settled no_blocks mirror1 disk1.
Proof. apply pass_settled. run. Qed.

(** The volume has dropped a file, written another and changed a mode: the
    second pass keeps the link, and has one deletion. *)
Definition mirror2 : Mirror := mkMirror (replica_of deltas2) here (mi_state mirror1).

Lemma mirror2_tree : tree no_blocks (image_of deltas2).
Proof. apply tree_checked. run. Qed.

Lemma mirror2_ready : ready no_blocks (image_of deltas2) here (mi_state mirror1) disk1.
Proof.
  assert (mi_dir mirror1 = here) as E by run. rewrite <-E. apply settled_ready; [apply mirror1_settled|apply mirror2_tree|].
  apply tells_checked. run.
Qed.

Lemma materialize_exact_witness : ∃ m' fs',
  materialize 18 9 no_blocks mirror2 disk1 = (Ok tt, m', fs')
    ∧ same_volume mirror2 m' ∧ settled no_blocks m' fs' ∧ ∀ q, elsewhere here q → fs' !! q = disk1 !! q.
Proof.
  apply (materialize_exact 18 9 no_blocks mirror2 disk1); [apply mirror2_tree|apply mirror2_ready|apply cached_none].
Defined.

(** It stops after its nodes and its deletion, or after two nodes. *)
Lemma stopped_late : partway 18 9 no_blocks mirror2 disk1 3 1 !! (here ++ ["a"; "f"]) = None
  ∧ is_Some (partway 18 9 no_blocks mirror2 disk1 2 1 !! (here ++ ["a"; "f"])).
Proof. split; [run|]. assert (partway 18 9 no_blocks mirror2 disk1 2 1 !! (here ++ ["a"; "f"]) = Some (LFile [x68; x69] 420 5)) as -> by run. done. Qed.

Lemma interrupted_pass_converges_witness : ∃ m' fs',
  materialize 18 9 no_blocks mirror2 (partway 18 9 no_blocks mirror2 disk1 3 1) = (Ok tt, m', fs')
    ∧ r_image (mi_replica m') = image_of deltas2 ∧ settled no_blocks m' fs'.
Proof.
  apply (interrupted_pass_converges 18 9 no_blocks mirror2 disk1 3 1 (replica_of deltas2));
    [apply mirror2_tree|apply mirror2_ready|apply cached_none|reflexivity|apply cached_none].
Defined.

Definition rep1 : Replica := (sync (λ _, 16) no_blocks (mkReplica "v" ∅ None ∅) dm1).2.

Lemma rep1_open : open_replica (λ _, 16) no_blocks "v" dm1 = Ok rep1.
Proof. run. Qed.

Lemma open_fresh_witness : ∃ m fs',
  open_mirror 18 9 (λ _, 16) no_blocks dm1 "v" here host = (Ok m, fs') ∧ r_image (mi_replica m) = r_image rep1
    ∧ settled no_blocks m fs' ∧ ∀ q, ¬ here `prefix_of` q → fs' !! q = host !! q.
Proof.
  apply (open_fresh 18 9 (λ _, 16) no_blocks dm1 "v" here host rep1);
    [apply host_plain|done|apply host_nothing|apply rep1_open|apply tree_checked; run].
Defined.

Lemma reopen_settles_witness : ∃ m' fs',
  open_mirror 18 9 (λ _, 16) no_blocks dm1 "v" here disk1 = (Ok m', fs') ∧ r_image (mi_replica m') = r_image rep1
    ∧ settled no_blocks m' fs' ∧ ∀ q, elsewhere here q → fs' !! q = disk1 !! q.
Proof.
  apply (reopen_settles 18 9 (λ _, 16) no_blocks dm1 "v" mirror1 disk1 rep1);
    [apply mirror1_settled|apply rep1_open|apply tree_checked; run|apply tells_checked; run].
Defined.

(** A mirror of the volume of [dm1], and the volume when a link was added and a
    file grew. *)
Definition pass_a : R unit * Mirror * LocalFs := materialize 18 9 no_blocks (mkMirror rep1 here ∅) host1.

Definition grown : R CommitTicket * db :=
  append_lazy (orc 60) quiet "v" Any [delta_event (DSymlink "/l" "a"); delta_event (DWrite "/a/f" 1 (DInline [x21; x21; x21; x21; x21; x21]))] dm1.
Definition log_grown : list Envelope := log1 ++ drop (length (vis dm1 "v")) (vis grown.2 "v").
Strategy expand [pass_a grown].

Lemma pass_a_settled : settled no_blocks pass_a.1.2 pass_a.2.
Proof.
  destruct (materialize_settles 18 9 no_blocks (mkMirror rep1 here ∅) host1) as (m & fs & E & _ & Hs & _);
    [apply tree_checked; run|apply host1_ready|exact (cached_none _)|].
  unfold pass_a. by rewrite E.
Qed.

Lemma pass_a_replica : mi_replica pass_a.1.2 = rep1.
Proof. run. Qed.

Lemma grown_kept : kept no_blocks grown.2 "v" log_grown 0.
Proof.
  assert (grown.1 = Ok (mkTicket (mkInfo 2 3 3) 3)) as E1 by run.
  assert (grown = (Ok (mkTicket (mkInfo 2 3 3) 3), grown.2)) as E by (rewrite <-E1; apply surjective_pairing).
  refine (proj1 (elsewhere_kept "v" no_blocks dm1 log1 0 no_blocks grown.2 log_grown 0 dm1_kept _)).
  eapply (el_append "v" (orc 60) "v" Any None _ true no_blocks dm1 log1 0 (mkTicket (mkInfo 2 3 3) 3));
    [reflexivity|apply orc_ok|apply (room_of _ _ (Some 1)); run|exact E|split; small|].
  refine (bool_decide_eq_true_1 (Forall (λ ne, tidy_data (ne_data ne)) _) _); run.
Qed.

(** The replica has seen the first two deltas. *)
Lemma rep1_behind : at_position log_grown rep1 2.
Proof.
  destruct (sync_position (λ _, 16) no_blocks dm1 "v" log1 0 (mkReplica "v" ∅ None ∅) 0 (ke_retained _ _ _ _ _ dm1_kept) eq_refl)
    as (rep & E & _ & Hc & Hn & Hi); [split_and!; [lia|reflexivity|exact I|intros clk; reflexivity]|left; lia|].
  assert (rep1 = rep) as -> by (unfold rep1; by rewrite E). assert (length log1 = 2%nat) as El by run. rewrite El in *.
  split_and!; [unfold log_grown; rewrite length_app, El; lia|exact Hc|exact Hn|].
  intros clk. rewrite (Hi clk). unfold log_grown. by rewrite take_app_le by lia.
Qed.

Lemma sync_once_follows_witness : ∃ v m' fs',
  sync_once 18 9 (λ _, 15) no_blocks grown.2 pass_a.1.2 pass_a.2 = (Ok v, m', fs')
    ∧ (log_grown ≠ [] → v = Z.of_nat (length log_grown) - 1) ∧ r_image (mi_replica m') ≡ replay_log (λ _, 15) log_grown
    ∧ settled no_blocks m' fs' ∧ ∀ q, MirrorThms.elsewhere (mi_dir pass_a.1.2) q → fs' !! q = pass_a.2 !! q.
Proof.
  apply (sync_once_follows 18 9 (λ _, 15) no_blocks grown.2 pass_a.1.2 pass_a.2 log_grown 0 2); rewrite ?pass_a_replica.
  - apply pass_a_settled.
  - apply grown_kept.
  - exact rep1_behind.
  - left. lia.
  - intros rep E. apply (f_equal snd) in E. cbn [snd] in E. subst rep.
    split; [apply tree_checked|apply tells_checked]; run.
Defined.
