(* ===== verification/MirrorFaults.v ===== *)
(** * Where the conditions of a mirror's pass fail

    Runs of [materialize] in which the directory does not become the image. *)

From S2P Require Import Prelude Text Slate Types Keys Kv Fork Store Bucket Btree Image Volume Replica.
From S2P Require Import Samples FuseSamples Disk Mirror MirrorTree MirrorThms MirrorPass MirrorRuns.
Import Samples FuseSamples MirrorSamples.
Local Open Scope Z_scope.

(** A pass over [ds], and another over [ds ++ more] from what it left. *)
Definition two_passes (ds more : list Delta) : R unit * Mirror * LocalFs :=
  let '(_, m, fs) := pass ds ∅ host1 in pass (ds ++ more) (mi_state m) fs.

(** A write of as many bytes as the file had keeps its size, and its time: it
    is never mirrored. *)
Theorem rewrite_not_mirrored :
  let '(r, m, fs) := two_passes deltas1 [DWrite "/a/f" 0 (DInline [x48; x4f])] in
  r = Ok tt ∧ (r_image (mi_replica m) !! "/a/f" = Some (File (Inline [x48; x4f]) (NodeMeta_file 5)))
  ∧ fs !! (here ++ ["a"; "f"]) = Some (LFile [x68; x69] 420 5).
Proof. vm_compute. repeat split. Qed.

(** A link that becomes a directory is kept when it points to one, and the
    directory's files are written outside the mirror. *)
Theorem link_to_dir_escapes :
  let '(r, m, fs) := two_passes [DSymlink "/l" "/etc"] [DRemove "/l"; DMkdir "/l"; DWrite "/l/y" 0 (DInline [x79])] in
  r = Ok tt ∧ fs !! (here ++ ["l"]) = Some (LLink "/etc") ∧ fs !! ["etc"; "y"] = Some (LFile [x79] 420 5)
  ∧ host !! ["etc"; "y"] = None.
Proof. vm_compute. repeat split. Qed.

(** A directory that becomes a link takes its files with it: their removal goes
    through the link. *)
Theorem dir_to_link_deletes :
  let '(r, m, fs) := two_passes [DMkdir "/d"; DWrite "/d/x" 0 (DInline [x78])] [DRemove "/d"; DSymlink "/d" "/etc"] in
  r = Ok tt ∧ fs !! (here ++ ["d"]) = Some (LLink "/etc") ∧ fs !! ["etc"; "x"] = None ∧ is_Some (host !! ["etc"; "x"]).
Proof. vm_compute. repeat split. by eexists. Qed.

(** A file written by a pass that was interrupted before its state was saved is
    not known to the next one: it stays when the volume has dropped it. *)
Theorem interrupted_leaves_stray :
  let st := mi_state mirror1 in
  let fs := partway 18 9 no_blocks (mkMirror (replica_of (deltas1 ++ [DWrite "/s" 0 (DInline [x73])])) here st) disk1 9 0 in
  let '(r, m, fs) := pass (deltas1 ++ [DWrite "/s" 0 (DInline [x73]); DRemove "/s"]) st fs in
  r = Ok tt ∧ r_image (mi_replica m) !! "/s" = None ∧ fs !! (here ++ ["s"]) = Some (LFile [x73] 420 5).
Proof. vm_compute. repeat split. Qed.

(** A file of the volume on a temporary name is overwritten and renamed away by
    the install of its sibling, in a pass that records both. *)
Theorem temporary_name_collides :
  let '(r, m, fs) := pass [DWrite "/x.landslide-mirror.tmp" 0 (DInline [x01]); DWrite "/x.txt" 0 (DInline [x02])] ∅ host1 in
  r = Ok tt ∧ fs !! (here ++ ["x.landslide-mirror.tmp"]) = None ∧ is_Some (mi_state m !! "/x.landslide-mirror.tmp").
Proof. vm_compute. repeat split. by eexists. Qed.
