(* ===== verification/FsLegible.v ===== *)
(** * Files of a mount can be read

    Whatever requests a mount served, chunked files and failed commits
    included, every file of its image has its bytes: inline, or in blocks that
    are in the bucket. *)

From S2P Require Import Prelude Text Slate Types Keys Kv Fork Store Batch Append Wf Commit.
From S2P Require Import Appended Ops Purge History Txn Invariant Samples AppendThms ForkThms SnapshotThms.
From S2P Require Import Frames Bucket Btree Image Volume Replica Fs ImageThms VolumeThms CommitThms FsTable FsServe FsThms FsDurable.
Local Open Scope Z_scope.

(** ** Images *)

Section files.
Context `{ObjectStoreLaws} `{FuseCodecs}.

(** Every file has its bytes, fewer than a [u64] counts. *)
Definition legible (b : bucket) (I : FsImage) : Prop :=
  ∀ p ct meta, I !! p = Some (File ct meta) → ∃ c, file_bytes b ct c ∧ Z.of_nat (length c) < U64.

(** An extent whose end a [u64] holds. *)
Definition extent_ok (e : Z * bytes) : Prop := 0 ≤ e.1 ∧ e.1 + Z.of_nat (length e.2) < U64.

Definition delta_small (d : Delta) : Prop :=
  match d with
  | DWrite _ off (DInline x) => extent_ok (off, x)
  | DWrite _ _ (DBlocks _) => False
  | _ => True
  end.

Lemma small_inline ds : Forall delta_small ds → Forall (λ d, no_blocks d = true) ds.
Proof. intros H'. eapply Forall_impl; [exact H'|]. by intros [? ? []| | | | | |]. Qed.

Lemma splice_length c off x : length (splice c off x) = max (length c) (off + length x).
Proof.
  unfold splice. rewrite !length_app, length_take, length_drop.
  destruct (Nat.ltb_spec (length c) (off + length x)); rewrite ?length_app, ?length_replicate; lia.
Qed.

Lemma insert_legible b I p n : legible b I → (∀ ct meta, n = File ct meta → ∃ c, file_bytes b ct c ∧ Z.of_nat (length c) < U64) →
  legible b (<[p := n]> I).
Proof. intros HI Hn q ct meta [[_ E]|[_ Hq]]%lookup_insert_Some; [by apply (Hn ct meta)|by apply (HI q ct meta)]. Qed.

(** Images whose files are files of [I]. *)
Lemma legible_from b I J : legible b I → (∀ q n, J !! q = Some n → ∃ p n', I !! p = Some n' ∧
  match n, n' with File ct _, File ct' _ => ct = ct' | File _ _, _ => False | _, _ => True end) → legible b J.
Proof.
  intros HI HJ q ct meta Hq. destruct (HJ q _ Hq) as (p & n' & Hp & E). destruct n' as [ct' meta'| |]; [|done..].
  subst ct'. by apply (HI p ct meta').
Qed.

Lemma moves_from pre to L (I J : FsImage) : (∀ q n, J !! q = Some n → ∃ p, I !! p = Some n) →
  ∀ q n, fold_left (move_path pre to) L J !! q = Some n → ∃ p, I !! p = Some n.
Proof.
  revert J. induction L as [|p L IH]; intros J HJ q n Hq; [by apply (HJ q)|]. cbn [fold_left] in Hq.
  eapply IH; [|exact Hq]. intros q' n' Hq'. unfold move_path in Hq'. destruct (J !! p) as [x|] eqn:Ep; [|by apply (HJ q')].
  apply lookup_insert_Some in Hq' as [[_ <-]|[_ [_ Hq']%lookup_delete_Some]]; [by apply (HJ p)|by apply (HJ q')].
Qed.

Lemma apply_legible b now I d : legible b I → delta_small d → legible b (FsImage_apply now I d).
Proof.
  intros HI Hd. destruct d as [p off [x|x]|p|p|from to|p t|p ? ? ? ?|p ? ?]; cbn [FsImage_apply delta_small] in *.
  - destruct Hd as [H0' H1']. cbn [fst snd] in *.
    assert (Z.of_nat (length (inline_base now (I !! p)).1) < U64) as Hb.
    { unfold inline_base. destruct (I !! p) as [[[y|]| |]|] eqn:E; cbn; try (rewrite U64_eq; lia).
      destruct (HI p _ _ E) as (c & <- & ?). done. }
    destruct (inline_base now (I !! p)) as [c meta]. cbn [fst] in Hb. rewrite insert_delete_eq. apply insert_legible; [done|].
    intros ct meta' [= <- _]. eexists. split; [done|]. rewrite splice_length. lia.
  - done.
  - destruct (I !! p); [done|]. by apply insert_legible.
  - intros q ct meta. rewrite remove_tree_lookup. destruct (_ || _); [done|]. apply HI.
  - apply (legible_from b I); [done|]. intros q n Hq.
    assert (∃ p, I !! p = Some n) as [p Hp]; [|exists p, n; split; [done|by destruct n]].
    eapply moves_from; [|exact Hq]. intros q' n' Hq'. destruct (I !! from) as [x|] eqn:E; [|by exists q'].
    apply lookup_insert_Some in Hq' as [[_ <-]|[_ [_ Hq']%lookup_delete_Some]]; by eexists.
  - by apply insert_legible.
  - unfold meta_mut. destruct (I !! p) as [n|] eqn:E; [|done]. apply insert_legible; [done|].
    intros ct meta En. destruct n as [ct' meta'| |]; try discriminate En. injection En as <- _. by apply (HI p ct' meta').
  - unfold meta_mut. destruct (I !! p) as [n|] eqn:E; [|done]. apply insert_legible; [done|].
    intros ct meta En. destruct n as [ct' meta'| |]; try discriminate En. injection En as <- _. by apply (HI p ct' meta').
Qed.

Lemma deltas_legible b now I ds : legible b I → Forall delta_small ds → legible b (fold_left (FsImage_apply now) ds I).
Proof.
  intros HI Hds. revert I HI. induction Hds as [|d ds Hd Hds IH]; intros I HI; [done|]. apply IH. by apply apply_legible.
Qed.

(** ** Reads fill the cache from the bucket *)

Lemma fetch_keeps b cache h : cached b cache → cached b (fetch_block b cache h).2.
Proof.
  intros Hc. unfold fetch_block. destruct (cache !! h); [done|]. destruct (bucket_get b (block_path h)) as [x|] eqn:E; [|done].
  cbn [io snd]. intros h' y [[<- <-]|[_ Hy]]%lookup_insert_Some; [done|by apply Hc].
Qed.

Lemma read_blocks_keeps b refs cache pos offset stop out : cached b cache →
  cached b (read_blocks b cache refs pos offset stop out).2.
Proof.
  revert cache pos out. induction refs as [|r refs IH]; intros cache pos out Hc; [done|]. cbn [read_blocks]. cbv zeta.
  destruct (_ <=? offset); [by apply IH|]. destruct (stop <=? pos); [done|].
  pose proof (fetch_keeps b cache (block_hash r) Hc) as Hf. destruct (fetch_block b cache (block_hash r)) as [[x|e] cache'];
    [|done]. destruct (slice _ _ _); [by apply IH|done].
Qed.

Lemma read_content_keeps b cache ct offset len : cached b cache → cached b (read_content b cache ct offset len).2.
Proof. intros Hc. destruct ct; [done|]. by apply read_blocks_keeps. Qed.

Lemma read_range_keeps I b cache p offset len : cached b cache → cached b (read_file_range I b cache p offset len).2.
Proof.
  intros Hc. unfold read_file_range. destruct (I !! p) as [[ct meta| |]|]; try done.
  pose proof (read_content_keeps b cache ct offset len Hc). by destruct (read_content _ _ _ _ _).
Qed.

Lemma read_file_keeps I b cache p : cached b cache → cached b (read_file I b cache p).2.
Proof.
  intros Hc. unfold read_file. destruct (I !! p) as [[ct meta| |]|]; try done.
  pose proof (read_content_keeps b cache ct 0 (content_len ct) Hc). by destruct (read_content _ _ _ _ _).
Qed.
End files.

(** ** Commits *)

Section commits.
Context `{SlateDb} `{Codecs} `{ObjectStoreLaws} `{FuseCodecs} `{!HashLaw}.

(** Uploads, complete or not. *)
Lemma uploads_keep us b r b' :
  upload_all b us = (r, b') → Forall (λ u, u.1 = sha256_hex u.2) us → addressed b →
  addressed b' ∧ ∀ k y, bucket_get b k = Some y → bucket_get b' k = Some y.
Proof.
  intros E Hu. revert b E. induction Hu as [|[h x] us Hh Hu IH]; intros b E Hb; [by injection E as <- <-|].
  simpl in Hh. subst h. simpl in E. destruct (bucket_put b (block_path (sha256_hex x)) x) as [b1|] eqn:Eput; [|by injection E as <- <-].
  pose proof (bucket_get_put _ _ _ _ Eput) as Hg.
  assert (addressed b1) as Hb1.
  { intros y z. rewrite Hg. case_decide as Ed; [|apply Hb]. apply block_path_inj in Ed as ->. by intros [= ->]. }
  destruct (IH b1 E Hb1) as [IH1 IH2]. split; [done|]. intros k y Hy. apply IH2. rewrite Hg.
  case_decide as Ed; [|done]. subst k. by rewrite (Hb _ _ Hy).
Qed.

Lemma legible_mono b b' I : (∀ k y, bucket_get b k = Some y → bucket_get b' k = Some y) → legible b I → legible b' I.
Proof.
  intros Hm HI p ct meta Hp. destruct (HI p ct meta Hp) as (c & Hc & Hl). exists c. split; [by eapply file_bytes_mono|done].
Qed.

(** What a volume and its bucket keep. *)
Record readable (v : Volume) (b : bucket) : Prop := {
  re_addressed : addressed b;
  re_cached : cached b (v_blocks v);
  re_pending : Forall delta_small (pending v);
  re_files : legible b (image v);
}.

(** A commit, accepted or not, leaves every file readable. *)
Lemma commit_readable o interf now v b d r v' b' d' :
  Volume_commit o interf now v b d = (r, v', b', d') → readable v b → readable v' b'.
Proof.
  intros E [Ha Hc Hp Hf]. unfold Volume_commit in E. destruct (pending v) as [|x ds0] eqn:Ep.
  { injection E as <- <- <- <-. by split; rewrite ?Ep. }
  rewrite <-Ep in *. clear Ep x ds0.
  destruct (upgrade_shape (image v) b now (pending v) ∅ (small_inline _ Hp)) as (Hup & Hch & Hsha). rewrite up_empty in Hup.
  destruct (upgrade_loop b (image v) ∅ (pending v)) as [us upg]. cbn [fst snd] in *.
  destruct (upload_all b us) as [ru b1] eqn:Eu. destruct (uploads_keep _ _ _ _ Eu Hsha Ha) as [Ha1 Hm].
  assert (cached b1 (v_blocks v)) as Hc1 by (intros h x Hx; by apply Hm, Hc).
  destruct ru as [[]|e].
  - assert (legible b1 (upgraded_image now (image v) upg)) as Hf1.
    { rewrite Hup. intros p ct meta. rewrite up_lookup. destruct (image v !! p) as [n|] eqn:En; [|done]. cbn.
      destruct (bool_decide_reflect (p ∈ fold_left (chunked_by (image v)) (pending v) ∅)) as [Hin|_].
      - destruct (Hch p Hin) as (c & meta' & Hp' & Hsub); [set_solver|]. rewrite En in Hp'. injection Hp' as ->.
        cbn [blocked]. intros [= <- <-]. destruct (Hf p _ _ En) as (c' & <- & Hl). exists c. split; [|done].
        unfold final_refs. rewrite En. by apply (uploaded_chunks b b1 us).
      - intros [= ->]. by apply (legible_mono b b1 _ Hm Hf p ct meta). }
    destruct (append_with_token _ _ _ _ _ _ _) as [[info|e] d1]; injection E as <- <- <- <-; by split.
  - injection E as <- <- <- <-. split; [done..|]. by apply (legible_mono b).
Qed.
End commits.

(** ** Worlds *)

Section mounts.
Context `{SlateDb} `{Codecs} `{ObjectStoreLaws} `{FuseCodecs} `{!HashLaw}.

Record served_files (w : World) : Prop := {
  sf_volume : ∃ v, fs_backend (w_fs w) = BVolume v ∧ readable v (w_bucket w);
  sf_staged fh h : fs_handles (w_fs w) !! fh = Some h → Forall extent_ok (h_extents h);
}.

Lemma frame_served w w' : served_files w → fs_backend (w_fs w') = fs_backend (w_fs w) → w_bucket w' = w_bucket w →
  (∀ fh h, fs_handles (w_fs w') !! fh = Some h → Forall extent_ok (h_extents h)) → served_files w'.
Proof. intros [Hv Hs] Eb Ek Hh. split; [|done]. by rewrite Eb, Ek. Qed.

Lemma cache_served w v bl : served_files w → fs_backend (w_fs w) = BVolume v → cached (w_bucket w) bl →
  served_files (with_fs w (set_backend (w_fs w) (BVolume (with_cache v bl)))).
Proof.
  intros [(v1 & E1 & []) Hs] E Hc. rewrite E in E1. injection E1 as <-. split; [|exact Hs]. eexists. split; [done|]. by split.
Qed.

Lemma commit_served c ds w : served_files w → Forall delta_small ds → served_files (fs_commit c ds w).2.
Proof.
  intros [(v & E & Hv) Hs] Hds. pose proof (commit_state c ds w) as [_ Eh]. unfold fs_commit in *.
  rewrite E, fold_mutate in *. destruct (Volume_commit _ _ _ _ _ _) as [[[r v'] b'] d'] eqn:Ec.
  split; [|by intros fh h; rewrite Eh; apply Hs]. exists v'. split; [done|].
  eapply commit_readable; [exact Ec|]. destruct Hv as [Ha Hca Hp Hf].
  split; [done|done|by apply Forall_app|by apply deltas_legible].
Qed.

Lemma read_file_served p w : served_files w → served_files (fs_read_file p w).2.
Proof.
  intros Hw. pose proof Hw as [(v & E & Hv) _]. unfold fs_read_file. rewrite E.
  pose proof (read_file_keeps (image v) (w_bucket w) (v_blocks v) p (re_cached _ _ Hv)) as Hc.
  unfold Volume_read_file. destruct (read_file _ _ _ _). by apply cache_served.
Qed.

Lemma read_range_served p o n w : served_files w → served_files (fs_read_range p o n w).2.
Proof.
  intros Hw. pose proof Hw as [(v & E & Hv) _]. unfold fs_read_range. rewrite E.
  pose proof (read_range_keeps (image v) (w_bucket w) (v_blocks v) p o n (re_cached _ _ Hv)) as Hc.
  unfold Volume_read_file_range. destruct (read_file_range _ _ _ _ _ _). by apply cache_served.
Qed.

Lemma truncate_served c p n w : served_files w → n < U64 → served_files (fs_truncate c p n w).2.
Proof.
  intros Hw Hn. pose proof Hw as [(v & E & [Ha Hc Hp Hf]) _]. unfold fs_truncate. rewrite E.
  pose proof (read_file_keeps (image v) (w_bucket w) (v_blocks v) p Hc) as Hc'.
  unfold truncate, Volume_read_file. destruct (read_file _ _ _ _) as [[content|e] bl]; [|by apply cache_served].
  split; [|apply Hw]. eexists. split; [done|]. assert (delta_small (DWrite p 0 (DInline (resize (default [] content) (Z.to_nat n))))) as Hd.
  { split; cbn [fst snd]; [done|]. unfold resize. rewrite length_app, length_take, length_replicate.
    assert (0 < U64) by (rewrite U64_eq; lia). lia. }
  split; cbn; [done|done|rewrite <-app_assoc; apply Forall_app; split; [done|by apply Forall_cons; split; [|apply Forall_singleton]]|].
  change (legible (w_bucket w) (fold_left (FsImage_apply (c_now c)) [DRemove p; DWrite p 0 (DInline (resize (default [] content) (Z.to_nat n)))] (image v))).
  apply deltas_legible; [done|]. by apply Forall_cons; split; [|apply Forall_singleton].
Qed.

Lemma assign_served p w : served_files w → served_files (assign p w).2.
Proof. intros Hw. unfold assign. destruct (State_ino _ _). apply (frame_served w); [done..|apply Hw]. Qed.

Lemma entry_served p w : served_files w → served_files (entry_reply p w).2.
Proof. intros Hw. pose proof (assign_served p w Hw). unfold entry_reply. by destruct (assign p w). Qed.

Lemma make_node_served c p ds w : served_files w → Forall delta_small ds → served_files (make_node c p ds w).2.
Proof.
  intros Hw Hd. unfold make_node. destruct (w_image w !! p); [done|]. pose proof (commit_served c ds w Hw Hd) as Hc.
  destruct (fs_commit c ds w) as [[|e] w']; [by apply entry_served|done].
Qed.

Lemma flush_served c fh w : served_files w → served_files (flush_fh c fh w).2.
Proof.
  intros Hw. unfold flush_fh. destruct (fs_handles (w_fs w) !! fh) as [[i [|e es]]|] eqn:Eh; [done| |done]. cbv zeta.
  set (w1 := with_fs w _). assert (served_files w1) as Hw1.
  { apply (frame_served w); [done..|]. unfold w1. cbn. intros fh' h [[_ <-]|[_ Hh]]%lookup_insert_Some; [by constructor|by apply (sf_staged w Hw fh')]. }
  destruct (w_path_of w1 i); [|done]. apply commit_served; [done|]. apply Forall_app. split; [|by repeat constructor].
  apply Forall_fmap. eapply Forall_impl; [exact (sf_staged w Hw _ _ Eh)|]. by intros [].
Qed.

Lemma clip_ok n es : Forall extent_ok es → Forall extent_ok (clip_extents n es).
Proof.
  intros He. unfold clip_extents. induction He as [|[o x] es [Ho Hx] He IH]; [constructor|]. cbn. cbn in Ho, Hx.
  destruct (n <=? o); [done|]. constructor; [|done]. split; cbn; [done|]. rewrite length_take. lia.
Qed.

Lemma setattr_served c ino mode uid gid size mtime w : served_files w → from_option (λ n, n < U64) True size →
  served_files (setattr c ino mode uid gid size mtime w).2.
Proof.
  intros Hw Hn.
  assert (∀ mt w0 path r w1, served_files w0 →
    (if is_some mode || is_some uid || is_some gid || is_some mt
     then fs_commit c [DSetAttr path ((λ m, Z.land m 4095) <$> mode) uid gid mt] w0 else (Ok tt, w0)) = (r, w1) →
    served_files w1) as Hset.
  { intros mt w0 path r w1 Hw0 E. destruct (_ || _); [|by injection E as _ <-].
    pose proof (commit_served c [DSetAttr path ((λ m, Z.land m 4095) <$> mode) uid gid mt] w0 Hw0) as Hc. rewrite E in Hc.
    apply Hc. by apply Forall_singleton. }
  unfold setattr. destruct (w_path_of w ino) as [path|]; [|done]. cbv zeta. destruct (_ && _); [done|].
  destruct size as [n|].
  - destruct (negb _); [done|]. pose proof (truncate_served c path n w Hw Hn) as Ht.
    destruct (fs_truncate c path n w) as [[u|e] w1]; [|done]. cbn [snd] in Ht.
    assert (served_files (with_fs w1 (set_handles (w_fs w1) (clip_handle ino n <$> fs_handles (w_fs w1))))) as Hw1.
    { apply (frame_served w1); [done..|]. cbn. intros fh h. rewrite lookup_fmap. destruct (fs_handles (w_fs w1) !! fh) as [h0|] eqn:Eh; [|done].
      cbn. intros [= <-]. unfold clip_handle. pose proof (sf_staged w1 Ht fh h0 Eh). destruct (_ =? _); [by apply clip_ok|done]. }
    destruct (if _ || _ then _ else _) as [[u'|e'] w2] eqn:E2; by apply (Hset _ _ _ _ _ Hw1) in E2.
  - destruct (if _ || _ then _ else _) as [[u'|e'] w2] eqn:E2; by apply (Hset _ _ _ _ _ Hw) in E2.
Qed.

Lemma handle_served i w : served_files w → served_files (new_handle i w).2.
Proof.
  intros Hw. apply (frame_served w); [done..|]. cbn.
  intros fh h [[_ <-]|[_ Hh]]%lookup_insert_Some; [by constructor|by apply (sf_staged w Hw fh)].
Qed.

Lemma create_served c parent n mode umask w : served_files w → served_files (create c parent n mode umask w).2.
Proof.
  intros Hw. unfold create. destruct (child_path parent n w) as [path|e]; [|done].
  set (x := match w_image w !! path with Some (File _ _) => _ | Some (Dir _) => _ | _ => _ end).
  assert (served_files x.2) as Hx.
  { subst x. destruct (w_image w !! path) as [[]|]; [|done..|].
    - pose proof (read_file_served path w Hw). by destruct (fs_read_file path w).
    - pose proof (commit_served c [DWrite path 0 (DInline []); DSetAttr path (Some (masked mode umask)) (Some (c_uid c)) (Some (c_gid c)) None] w Hw)
        as Hc. destruct (fs_commit c _ w). apply Hc. apply Forall_cons; split; [|by apply Forall_singleton].
      split; cbn; [done|rewrite U64_eq; lia]. }
  destruct x as [[content|e] w1]; [|done]. cbn [snd] in Hx.
  pose proof (assign_served path w1 Hx) as Ha. destruct (assign path w1) as [i w2]. cbv zeta.
  pose proof (handle_served i w2 Ha) as Hh. by destruct (new_handle i w2).
Qed.

Lemma list_served dir kids w : served_files w → served_files (list_children dir kids w).2.
Proof.
  revert w. induction kids as [|[n k] kids IH]; intros w Hw; [done|]. cbn [list_children].
  pose proof (assign_served (path_join dir n) w Hw) as Ha. destruct (assign _ w) as [i w1]. specialize (IH w1 Ha).
  by destruct (list_children dir kids w1).
Qed.

(** The numbers of a request fit: a write ends within a [u64], and so does a
    new size. *)
Definition sizes_ok (r : Request) : Prop :=
  match r with
  | RWrite _ offset data => extent_ok (offset, data)
  | RSetattr _ _ _ _ size _ => from_option (λ n, n < U64) True size
  | _ => True
  end.

Lemma one_small d : delta_small d → Forall delta_small [d].
Proof. apply Forall_singleton. Qed.

Lemma two_small d d' : delta_small d → delta_small d' → Forall delta_small [d; d'].
Proof. intros H' H''. by apply Forall_cons; split; [|apply Forall_singleton]. Qed.

Lemma serve_served c r w : sizes_ok r → served_files w → served_files (serve c r w).2.
Proof.
  intros Hr Hw. destruct r; cbn [serve outcome fst snd sizes_ok] in *; try done.
  - unfold lookup. destruct (child_path _ _ _); [|done]. destruct (w_image w !! _); [by apply entry_served|done].
  - by apply setattr_served.
  - unfold symlink. destruct link_name, target; try done. destruct (child_path _ _ _); [|done]. by apply make_node_served, two_small.
  - unfold mkdir. destruct (child_path _ _ _); [|done]. by apply make_node_served, two_small.
  - unfold readdir, readdir_entries. destruct (w_path_of w ino) as [dir|]; [|done]. destruct (is_dir _ _); [|done]. cbv zeta.
    pose proof (assign_served (parent_path dir) w Hw) as Ha. destruct (assign _ w) as [pi w1].
    pose proof (list_served dir (btree_iter (children (w_image w) dir)) w1 Ha) as Hl. by destruct (list_children _ _ w1).
  - by apply create_served.
  - unfold open. destruct (w_path_of w ino); [|done]. destruct (w_image w !! _) as [[]|]; try done. by apply handle_served.
  - unfold read. destruct (w_path_of w ino) as [p|]; [|done]. pose proof (read_range_served p offset size w Hw).
    by destruct (fs_read_range _ _ _ _) as [[[]|] ?].
  - unfold write. destruct (fs_handles (w_fs w) !! fh) as [h|] eqn:Eh; [|done]. apply (frame_served w); [done..|]. cbn.
    intros fh' h' [[_ <-]|[_ Hh]]%lookup_insert_Some; [|by apply (sf_staged w Hw fh')]. cbn. apply Forall_app.
    split; [by apply (sf_staged w Hw fh)|by apply Forall_singleton].
  - by apply flush_served.
  - by apply flush_served.
  - unfold release. pose proof (flush_served c fh w Hw) as Hf. destruct (flush_fh c fh w) as [r w'].
    apply (frame_served w'); [done..|]. cbn. intros fh' h [_ Hh]%lookup_delete_Some. by apply (sf_staged w' Hf fh').
  - unfold unlink. destruct (named_path _ _ _); [|done]. destruct (w_image w !! _) as [[]|]; try done; by apply commit_served, one_small.
  - unfold rmdir. destruct (named_path _ _ _); [|done]. destruct (w_image w !! _) as [[]|]; try done.
    destruct (bool_decide _); [by apply commit_served, one_small|done].
  - unfold rename. destruct (negb _); [done|]. destruct name, newname; try done.
    destruct (w_path_of w parent), (w_path_of w newparent); try done. cbv zeta. destruct (rename_kind _); [|done].
    destruct (rename_check _ _ _); [|done]. match goal with |- context [fs_commit c ?ds w] =>
      pose proof (commit_served c ds w Hw) as Hc; destruct (fs_commit c ds w) as [[|] w1] end;
      specialize (Hc ltac:(by apply one_small)); [|done]. apply (frame_served w1); [done..|apply Hc].
  - unfold setxattr. destruct (w_path_of w ino); [|done]. destruct (_ && _); [done|]. destruct name; [by apply commit_served, one_small|done].
  - unfold removexattr. destruct (w_path_of w ino); [|done]. destruct name; [|done].
    destruct (w_image w !! _); [|done]. destruct (is_some _); [by apply commit_served, one_small|done].
Qed.

Lemma run_served w w' : run (λ _ r _, sizes_ok r) w w' → served_files w → served_files w'.
Proof. intros Hr Hw. induction Hr as [|c r w1 _ IH Hs]; [done|]. by apply serve_served. Qed.

Lemma mount_served v b d : readable v b → served_files (mkWorld (with_backend (BVolume v)) b d).
Proof. intros Hv. split; [by exists v|]. cbn. intros fh h. by rewrite lookup_empty. Qed.

Lemma served_legible w : served_files w → legible (w_bucket w) (w_image w).
Proof. intros [(v & E & []) _]. unfold w_image, fs_image. by rewrite E. Qed.

(** C14: every file of a mount can be read.  Whatever requests a mount served,
    with commits that chunked files and commits that failed half way, each file
    of its image has its bytes, and a read of any range of it through a number
    of its path, with nothing staged, returns the bytes of the range: no read
    fails because a block is missing.  The files of the image that was mounted
    must have their bytes to begin with. *)
Theorem mount_files_readable v b d w :
  readable v b → run (λ _ r _, sizes_ok r) (mkWorld (with_backend (BVolume v)) b d) w →
  ∀ p ct meta, w_image w !! p = Some (File ct meta) →
  ∃ c, file_bytes (w_bucket w) ct c ∧ Z.of_nat (length c) < U64
    ∧ ∀ i fh offset len, w_path_of w i = Some p → fs_handles (w_fs w) !! fh = None →
        0 ≤ offset → 0 ≤ len → offset + len < U64 →
        (read i fh offset len w).1 = Ok (take (Z.to_nat len) (drop (Z.to_nat offset) c)).
Proof.
  intros Hv Hr p ct meta Hp. pose proof (run_served _ _ Hr (mount_served v b d Hv)) as [(v' & E & [Ha Hc _ Hf]) _].
  unfold w_image, fs_image in Hp. rewrite E in Hp. destruct (Hf p ct meta Hp) as (c & Hct & Hl). exists c. split_and!; [done..|].
  intros i fh offset len Hi Hfh Ho Hn Hol. unfold read. rewrite Hi. unfold fs_read_range. rewrite E.
  unfold Volume_read_file_range, read_file_range. rewrite Hp.
  destruct (read_bytes (w_bucket w) (v_blocks v') ct c offset len Hct Hc Ho Hn Hol Hl) as (cache & -> & _). cbn. by rewrite Hfh.
Qed.
End mounts.
