(* ===== verification/FsTree.v ===== *)
(** * The images of a mount are trees

    Every node of an image a mount serves has a directory at each path above
    it, whatever requests the kernel sends, as long as names are names, a
    rename goes into a directory that exists and not into its own source, and
    handles are flushed to files that exist. *)

From S2P Require Import Prelude Text Slate Types Keys Kv Fork Store Bucket Btree Image Volume Replica Fs.
From S2P Require Import Disk DiskThms Mirror MirrorTree ImageThms FsTable FsServe FsThms.
Local Open Scope Z_scope.

(** ** Paths of nodes *)

Definition node_path (p : string) : Prop := ∃ r, place r ∧ p = key r.

Definition dir_path (p : string) : Prop := p = "/" ∨ node_path p.

Lemma place_names r s : place (r ++ s) → Forall name s.
Proof. intros [_ Hr]. by apply Forall_app in Hr as [_ ?]. Qed.

Lemma place_append r s : place r → Forall name s → place (r ++ s).
Proof. intros [Hne Hr] Hs. split; [by destruct r|]. by apply Forall_app. Qed.

Lemma place_one n : name n → place [n].
Proof. intros Hn. split; [done|by apply Forall_singleton]. Qed.

Lemma place_child r n : place r → name n → place (r ++ [n]).
Proof. intros Hr Hn. apply place_append; [done|]. by apply Forall_singleton. Qed.

Lemma names_free r : Forall name r → Forall slash_free r.
Proof. intros H. eapply Forall_impl; [exact H|]. by intros c []. Qed.

Lemma key_app r s : r ≠ [] → s ≠ [] → key (r ++ s) = key r +:+ "/" +:+ join s.
Proof. intros Hr Hs. unfold key. rewrite join_app by done. by rewrite !str_app_assoc. Qed.

(** What is under a node's path has the path's components first. *)
Lemma key_under r q u : place r → place q → key q = key r +:+ "/" +:+ u → ∃ s, s ≠ [] ∧ q = r ++ s ∧ u = join s.
Proof.
  intros [Hr Hr'] [Hq Hq'] E. apply (join_prefix r q u); [done|by apply names_free..|].
  unfold key in E. rewrite str_app_assoc in E. apply str_app_inj_l in E. by rewrite E, !str_app_assoc.
Qed.

Lemma below_key r q : place r → place q → below (key r) (key q) = true → ∃ s, s ≠ [] ∧ q = r ++ s.
Proof. intros Hr Hq [u Hu]%below_iff. destruct (key_under r q u Hr Hq Hu) as (s & Hs & -> & _). eauto. Qed.

Lemma node_path_root : ¬ node_path "/".
Proof.
  intros (r & [Hr Hn] & E). unfold key in E. apply (str_app_inj_l "/" "" (join r)) in E.
  destruct r as [|c r]; [done|]. apply Forall_cons in Hn as [[Hc _] _]. destruct c as [|x c]; [done|]. by destruct r.
Qed.

(** The path of a child. *)
Lemma join_key r n : place r → path_join (key r) n = key (r ++ [n]).
Proof.
  intros Hr. unfold path_join. destruct (String.eqb_spec (key r) "/") as [E|_].
  - destruct node_path_root. by exists r.
  - rewrite key_app; [done|apply Hr|done].
Qed.

Lemma join_node dir n : dir_path dir → name n → node_path (path_join dir n).
Proof.
  intros [->|(r & Hr & ->)] Hn.
  - exists [n]. split; [by apply place_one|done].
  - exists (r ++ [n]). split; [by apply place_child|by apply join_key].
Qed.

Lemma rfind_free n : slash_free n → rfind_slash n = None.
Proof.
  unfold slash_free. induction n as [|x n IH]; [done|]. cbn [has_slash rfind_slash]. rewrite orb_false_iff. intros [Hx E].
  by rewrite IH, Hx.
Qed.

Lemma rfind_last a n : slash_free n → rfind_slash (a +:+ "/" +:+ n) = Some (String.length a).
Proof.
  intros Hn. induction a as [|x a IH]; [by simpl; rewrite rfind_free|]. rewrite str_app_cons. cbn [rfind_slash]. by rewrite IH.
Qed.

(** The path [..] stands for. *)
Lemma parent_dir p : dir_path p → dir_path (parent_path p).
Proof.
  intros [->|(r & [Hr Hn] & ->)]; [by left|]. destruct r as [|n r _] using rev_ind; [done|].
  apply Forall_app in Hn as [Hrn Hn]. apply Forall_singleton in Hn as [_ Hn]. unfold parent_path. destruct r as [|a r].
  - left. change (key ([] ++ [n])) with ("" +:+ "/" +:+ n). by rewrite rfind_last.
  - rewrite key_app by done. cbn [join]. rewrite rfind_last by done. right. exists (a :: r). split; [done|].
    destruct (String.length (key (a :: r))) eqn:E; [discriminate E|]. by rewrite <-E, take_chars_app.
Qed.

(** ** Trees *)

Record treelike (I : FsImage) : Prop := {
  sh_node p : is_Some (I !! p) → node_path p;
  sh_up p q : is_Some (I !! q) → node_path p → below p q = true → ∃ m, I !! p = Some (Dir m);
}.

(** Every path above [q] is a directory, and nothing is under [q]. *)
Definition hung (I : FsImage) (q : string) : Prop :=
  node_path q ∧ ∀ p, node_path p → below p q = true → ∃ m, I !! p = Some (Dir m).
Definition bare (I : FsImage) (q : string) : Prop := ∀ p, below q p = true → I !! p = None.

Lemma treelike_empty : treelike ∅.
Proof. split; [intros p|intros p q]; intros [? ?%lookup_empty_Some]; done. Qed.

(** The shape depends on the kinds of nodes only. *)
Definition kinds (I : FsImage) : gmap string FileType := kind_of <$> I.

Lemma kinds_dir I J p m : kinds I = kinds J → I !! p = Some (Dir m) → ∃ m', J !! p = Some (Dir m').
Proof.
  intros E Hp. assert (kinds J !! p = Some Directory) as Hk by (rewrite <-E; unfold kinds; by rewrite lookup_fmap, Hp).
  unfold kinds in Hk. rewrite lookup_fmap in Hk. destruct (J !! p) as [[]|]; try discriminate Hk. eauto.
Qed.

Lemma kinds_some I J p : kinds I = kinds J → is_Some (I !! p) → is_Some (J !! p).
Proof.
  intros E [n Hp]. assert (kinds J !! p = Some (kind_of n)) as Hk by (rewrite <-E; unfold kinds; by rewrite lookup_fmap, Hp).
  unfold kinds in Hk. rewrite lookup_fmap in Hk. by destruct (J !! p).
Qed.

Lemma treelike_kinds I J : kinds I = kinds J → treelike I → treelike J.
Proof.
  intros E [Hn Hu]. split.
  - intros p Hp. apply Hn. by apply (kinds_some J I).
  - intros p q Hq Hp Hb. destruct (Hu p q) as [m Hm]; [by apply (kinds_some J I)|done|done|]. by eapply kinds_dir.
Qed.

#[global] Instance treelike_proper : Proper ((≡) ==> iff) treelike.
Proof.
  intros I J E. assert (kinds I = kinds J) as Ek.
  { apply map_eq. intros p. unfold kinds. rewrite !lookup_fmap. specialize (E p).
    destruct (I !! p) as [n|], (J !! p) as [n'|]; [|by inversion E..|done]. apply (inj Some) in E.
    unfold equiv, node_equiv, no_mtime in E. destruct n, n'; cbn in E; try discriminate E; done. }
  split; by apply treelike_kinds.
Qed.

Section treelike.
Context (I : FsImage) (HI : treelike I).

Lemma node_hung q : is_Some (I !! q) → hung I q.
Proof. intros Hq. split; [by apply (sh_node I HI)|]. intros p. by apply (sh_up I HI). Qed.

Lemma leaf_bare q : node_path q → (∀ m, I !! q ≠ Some (Dir m)) → bare I q.
Proof.
  intros Hq Hd p Hb. destruct (I !! p) as [n|] eqn:E; [|done].
  destruct (sh_up I HI q p) as [m Hm]; [by rewrite E|done..|]. by apply Hd in Hm.
Qed.

Lemma child_hung dir n : dir_path dir → is_dir I dir = true → name n → hung I (path_join dir n).
Proof.
  intros Hd Hi Hn. split; [by apply join_node|]. intros p (a & Ha & ->) Hb. destruct Hd as [->|(r & Hr & ->)].
  - change (path_join "/" n) with (key [n]) in Hb. apply below_key in Hb as (s & Hs & E); [|done|by apply place_one].
    destruct Ha as [Ha _]. destruct a as [|? [|]], s; discriminate E || done.
  - rewrite join_key in Hb by done. apply below_key in Hb as (s & Hs & E); [|done|by apply place_child].
    destruct s as [|c s _] using rev_ind; [done|]. rewrite app_assoc in E. apply app_inj_tail in E as [-> _].
    assert (∃ m, I !! key (a ++ s) = Some (Dir m)) as [m Hm].
    { unfold is_dir in Hi. destruct (String.eqb_spec (key (a ++ s)) "/") as [E|_]; [destruct node_path_root; by exists (a ++ s)|].
      simpl in Hi. destruct (I !! key (a ++ s)) as [[]|]; try discriminate Hi. eauto. }
    destruct s as [|x s]; [rewrite app_nil_r in Hm; eauto|].
    apply (sh_up I HI _ (key (a ++ x :: s))); [by rewrite Hm|by exists a|]. by apply key_below; [apply Ha|].
Qed.

(** A directory without children has nothing under it. *)
Lemma childless_bare q : node_path q → children I q = ∅ → bare I q.
Proof.
  intros (r & Hr & ->) Hc p Hb. destruct (I !! p) as [n|] eqn:E; [|done]. exfalso.
  destruct (sh_node I HI p) as (a & Ha & ->); [by rewrite E|]. apply below_key in Hb as (s & Hs & ->); [|done..].
  destruct s as [|c s]; [done|]. pose proof (place_names _ _ Ha) as Hn. apply Forall_cons in Hn as [[Hcn Hcs] _].
  assert (is_Some (I !! key (r ++ [c]))) as [x Hx].
  { destruct s as [|y s]; [by rewrite E|]. replace (r ++ c :: y :: s) with ((r ++ [c]) ++ y :: s) in * by by rewrite <-app_assoc.
    destruct (sh_up I HI (key (r ++ [c])) (key ((r ++ [c]) ++ y :: s))) as [m Hm]; [by rewrite E| | |by rewrite Hm].
    - exists (r ++ [c]). split; [|done]. by eapply place_app; [|exact Ha]; destruct r.
    - apply key_below; [by destruct r|done]. }
  assert (children I (key r) !! c = Some (kind_of x)) as Hk; [|by rewrite Hc, lookup_empty in Hk].
  apply children_spec. split; [by intros ->|]. split; [done|]. exists x. by rewrite join_key.
Qed.
End treelike.

(** ** Deltas *)

Lemma insert_treelike I q n : treelike I → hung I q → bare I q ∨ kind_of n = Directory → treelike (<[q := n]> I).
Proof.
  intros HI [Hq Hu] Hn. split.
  - intros p Hp. destruct (decide (p = q)) as [->|Hne]; [done|]. apply (sh_node I HI). by rewrite lookup_insert_ne in Hp.
  - intros p x Hx Hp Hb. destruct (decide (x = q)) as [->|Hxq].
    { rewrite lookup_insert_ne by by apply not_eq_sym, below_ne. by apply Hu. }
    rewrite lookup_insert_ne in Hx by done. destruct (decide (p = q)) as [->|Hpq].
    + rewrite lookup_insert_eq. destruct Hn as [Hn|Hn]; [by rewrite (Hn x Hb) in Hx; destruct Hx|]. destruct n; try done. eauto.
    + rewrite lookup_insert_ne by done. by apply (sh_up I HI p x).
Qed.

Lemma remove_treelike I t : treelike I → treelike (remove_tree I t).
Proof.
  intros HI. split.
  - intros p Hp. apply (sh_node I HI). rewrite remove_tree_lookup in Hp. by destruct (_ || _); [destruct Hp|].
  - intros p q Hq Hp Hb. rewrite remove_tree_lookup in Hq. rewrite remove_tree_lookup.
    destruct (bool_decide (q = t) || below t q) eqn:E; [by destruct Hq|]. apply orb_false_iff in E as [Eq Et].
    apply bool_decide_eq_false in Eq. destruct (bool_decide (p = t) || below t p) eqn:E.
    + apply orb_true_iff in E as [->%bool_decide_eq_true|E]; [congruence|]. by rewrite (below_trans _ _ _ E Hb) in Et.
    + by apply (sh_up I HI p q).
Qed.

Lemma meta_kinds I p f : kinds (meta_mut I p f) = kinds I.
Proof.
  unfold meta_mut, kinds. destruct (I !! p) as [n|] eqn:E; [|done]. rewrite fmap_insert.
  apply insert_id. rewrite lookup_fmap, E. by destruct n.
Qed.

(** *** Renames *)

Section renamed.
Context (I : FsImage) (from to : string) (now : Z) (HI : treelike I) (Hfrom : is_Some (I !! from))
  (Hapart : apart from to) (Hto : hung I to) (Hbare : bare I to).

(** A path under the target is that of a path under the source. *)
Lemma under_target q : node_path q → below to q = true →
  ∃ p, node_path p ∧ below from p = true ∧ q = ImageThms.moved from to p
    ∧ ∀ u, q = to +:+ "/" +:+ u → p = from +:+ "/" +:+ u.
Proof.
  intros (r & Hr & ->) [u Hu]%below_iff. destruct Hto as [(b & Hb & Eb) _]. destruct (sh_node I HI from Hfrom) as (a & Ha & Ea).
  rewrite Eb in Hu. destruct (key_under b r u Hb Hr Hu) as (s & Hs & -> & ->). exists (key (a ++ s)).
  assert (key (a ++ s) = from +:+ "/" +:+ join s) as E by (rewrite Ea; apply key_app; [apply Ha|done]).
  split_and!.
  - exists (a ++ s). split; [|done]. apply place_append; [done|]. by apply (place_names b).
  - rewrite Ea. by apply key_below; [apply Ha|].
  - rewrite E, moved_below, Eb. by apply key_app; [apply Hb|].
  - intros u'. rewrite E, Hu, Eb. by intros <-%str_app_inj_l%str_app_inj_l.
Qed.

Lemma moved_node p : node_path p → below from p = true → node_path (ImageThms.moved from to p).
Proof.
  intros (r & Hr & ->) [u Hu]%below_iff. destruct Hto as [(b & Hb & Eb) _]. destruct (sh_node I HI from Hfrom) as (a & Ha & Ea).
  rewrite Hu, moved_below. rewrite Ea in Hu. destruct (key_under a r u Ha Hr Hu) as (s & Hs & -> & ->). exists (b ++ s).
  split; [apply place_append; [done|by apply (place_names a)]|]. rewrite Eb. symmetry. by apply key_app; [apply Hb|].
Qed.

(** The directories above the target stay. *)
Lemma above_stays p : node_path p → below p to = true → ∃ m, FsImage_apply now I (DRename from to) !! p = Some (Dir m).
Proof.
  intros Hp Hb. destruct (proj2 Hto p Hp Hb) as [m Hm]. exists m. rewrite <-Hm.
  destruct Hapart as (Hne & Hft & Htf). apply (rename_lookup I from to Hapart now p).
  - intros [->|E]; [congruence|]. by rewrite (below_trans _ _ _ E Hb) in Hft.
  - intros n (x & _ & [[_ ->]|[Hx ->]]); [by apply below_ne in Hb|]. apply below_iff in Hx as [u ->].
    rewrite moved_below in Hb. assert (below to (to +:+ "/" +:+ u) = true) as Hb' by (apply below_iff; by exists u).
    by destruct (below_ne to to (below_trans _ _ _ Hb' Hb)).
Qed.

Lemma arrival_up p q n : arrives I from to q n → node_path p → below p q = true →
  ∃ m, FsImage_apply now I (DRename from to) !! p = Some (Dir m).
Proof.
  intros (x & Hx & [[-> ->]|[Hb ->]]) Hp Hpq; [by apply above_stays|].
  apply below_iff in Hb as [u ->]. rewrite moved_below in Hpq.
  assert (below to (to +:+ "/" +:+ u) = true) as Ht by (apply below_iff; by exists u).
  destruct (below_line _ _ _ Hpq Ht) as [->|[Hab|Hbe]]; [|by apply above_stays|].
  - destruct (sh_up I HI from (from +:+ "/" +:+ u)) as [m Hm]; [by rewrite Hx|by apply (sh_node I HI)|apply below_iff; by exists u|].
    exists m. apply (rename_lookup I from to Hapart now). exists from. auto.
  - destruct (under_target p Hp Hbe) as (y & Hy & Hfy & -> & Hmap). apply below_iff in Hpq as [v Hv].
    pose proof Hfy as [z ->]%below_iff. rewrite moved_below, !str_app_assoc in Hv. apply str_app_inj_l, str_app_inj_l in Hv as ->.
    destruct (sh_up I HI (from +:+ "/" +:+ z) (from +:+ "/" +:+ z +:+ "/" +:+ v)) as [m Hm];
      [by rewrite Hx|done|apply below_iff; exists v; by rewrite !str_app_assoc|].
    exists m. apply (rename_lookup I from to Hapart now). exists (from +:+ "/" +:+ z). auto.
Qed.

Lemma rename_treelike : treelike (FsImage_apply now I (DRename from to)).
Proof.
  assert (∀ q, is_Some (FsImage_apply now I (DRename from to) !! q) →
    (∃ n, arrives I from to q n) ∨ (∀ n, ¬ arrives I from to q n) ∧ ¬ leaves from q ∧ is_Some (I !! q)) as Hcases.
  { intros q Hq. destruct (arrives_or_not I from to q) as [Ha|Hna]; [by left|right].
    destruct (rename_lookup I from to Hapart now q) as (Hl & _ & Hs).
    assert (¬ leaves from q) as Hnl by (intros Hq'; rewrite (Hl Hq') in Hq; by destruct Hq). by rewrite Hs in Hq. }
  split.
  - intros q [(n & x & Hx & [[-> ->]|[Hb ->]])|(_ & _ & Hq)]%Hcases; [apply Hto| |by apply (sh_node I HI)].
    apply moved_node; [|done]. apply (sh_node I HI). by rewrite Hx.
  - intros p q Hq Hp Hb. destruct (Hcases q Hq) as [(n & Ha)|(_ & Hnl & Hs)]; [by eapply arrival_up|].
    destruct (sh_up I HI p q Hs Hp Hb) as [m Hm]. exists m. rewrite <-Hm.
    apply (rename_lookup I from to Hapart now p).
    + intros [->|E]; apply Hnl; [by right|right; by eapply below_trans].
    + intros n (x & _ & [[_ ->]|[Hx ->]]); [by rewrite (Hbare q Hb) in Hs; destruct Hs|].
      rewrite (Hbare q) in Hs; [by destruct Hs|]. eapply below_trans; [|exact Hb]. apply below_iff in Hx as [u ->].
      rewrite moved_below. apply below_iff. by exists u.
Qed.
End renamed.

(** What a delta needs of the image it is applied to. *)
Definition fits (I : FsImage) (d : Delta) : Prop :=
  match d with
  | DWrite p _ _ | DSymlink p _ => hung I p ∧ bare I p
  | DMkdir p => hung I p
  | DRename from to => is_Some (I !! from) ∧ apart from to ∧ hung I to ∧ bare I to
  | DRemove _ | DSetAttr _ _ _ _ _ | DSetXattr _ _ _ => True
  end.

Lemma apply_treelike now I d : treelike I → fits I d → treelike (FsImage_apply now I d).
Proof.
  intros HI. destruct d as [p off [x|x]|p|p|from to|p t|p|p]; cbn [fits].
  - intros [Hu Hb]. cbn [FsImage_apply]. destruct (inline_base now (I !! p)) as [c meta].
    rewrite insert_delete_eq. apply insert_treelike; auto.
  - intros [Hu Hb]. apply insert_treelike; auto.
  - intros Hu. cbn [FsImage_apply]. destruct (I !! p); [done|]. apply insert_treelike; auto.
  - intros _. by apply remove_treelike.
  - intros (Hf & Ha & Hu & Hb). by apply rename_treelike.
  - intros [Hu Hb]. apply insert_treelike; auto.
  - intros _. apply (treelike_kinds I); [|done]. symmetry. apply meta_kinds.
  - intros _. apply (treelike_kinds I); [|done]. symmetry. apply meta_kinds.
Qed.

Lemma meta_after now I d p mode uid gid mtime : treelike I → fits I d →
  treelike (fold_left (FsImage_apply now) [d; DSetAttr p mode uid gid mtime] I).
Proof. intros HI Hd. cbn [fold_left]. apply apply_treelike; [by apply apply_treelike|done]. Qed.

(** Extents written to a file. *)
Lemma extents_treelike now p es I : treelike I → (∃ ct m, I !! p = Some (File ct m)) →
  treelike (fold_left (FsImage_apply now) (extent_deltas p es) I).
Proof.
  revert I. induction es as [|e es IH]; intros I HI (ct & m & Hp); [done|]. cbn [extent_deltas fmap list_fmap fold_left].
  apply IH.
  - apply apply_treelike; [done|]. split; [by apply node_hung; [|rewrite Hp]|].
    apply leaf_bare; [done|apply (sh_node I HI); by rewrite Hp|intros m'; by rewrite Hp].
  - cbn [FsImage_apply]. destruct (inline_base now (I !! p)) as [c meta]. rewrite lookup_insert_eq. eauto.
Qed.

(** ** Worlds *)

Section mount_tree.
Context `{SlateDb} `{Codecs} `{ObjectStore} `{FuseCodecs}.

(** The paths of the inode tables. *)
Record placed (st : State) : Prop := {
  pl_path i p : path_of st !! i = Some p → dir_path p;
  pl_ino p : is_Some (ino_of st !! p) → dir_path p;
}.

(** No pending delta writes blocks: chunking is left to [commit]. *)
Definition unchunked (w : World) : Prop :=
  match fs_backend (w_fs w) with
  | BVolume v => Forall (λ d, is_block_write d = false) (pending v)
  | BReplica _ => True
  end.

Record rooted (w : World) : Prop := {
  ro_image : treelike (w_image w);
  ro_table : placed (w_state w);
  ro_pending : unchunked w;
}.

Lemma placed_new : placed State_new.
Proof.
  split.
  - cbn. intros i p [_ <-]%lookup_singleton_Some. by left.
  - cbn. intros p [i [<- _]%lookup_singleton_Some]. by left.
Qed.

Lemma placed_ino st p : placed st → dir_path p → placed (State_ino st p).2.
Proof.
  intros [Hp Hi] Hd. unfold State_ino. destruct (ino_of st !! p); [done|]. cbn [snd]. split; cbn.
  - intros i q [[_ <-]|[_ Hq]]%lookup_insert_Some; [done|by apply (Hp i)].
  - intros q [i [[<- _]|[_ Hq]]%lookup_insert_Some]; [done|]. apply Hi. by rewrite Hq.
Qed.

(** The backend and the tables decide. *)
Lemma rooted_frame w w' : rooted w → fs_backend (w_fs w') = fs_backend (w_fs w) → placed (w_state w') → rooted w'.
Proof.
  intros [Hi _ Hu] E Hp. split; [|done|].
  - unfold w_image, fs_image. rewrite E. exact Hi.
  - unfold unchunked. by rewrite E.
Qed.

Lemma assign_rooted p w : rooted w → dir_path p → rooted (assign p w).2.
Proof.
  intros Hw Hp. pose proof (placed_ino _ p (ro_table w Hw) Hp) as Ht. unfold assign.
  unfold w_state in Ht. destruct (State_ino (fs_state (w_fs w)) p) as [i st]. by apply (rooted_frame w).
Qed.

Lemma entry_rooted p w : rooted w → dir_path p → rooted (entry_reply p w).2.
Proof. intros Hw Hp. pose proof (assign_rooted p w Hw Hp). unfold entry_reply. by destruct (assign p w). Qed.

(** *** Commits *)

(** An upgraded write goes to a file. *)
Lemma upgrade_files b im C ds : Forall (λ d, is_block_write d = false) ds →
  Forall (λ d, is_block_write d = true → ∃ ct m, im !! delta_path d = Some (File ct m)) (upgrade_loop b im C ds).2.
Proof.
  intros Hd. revert C. induction Hd as [|d ds Hd Hds IH]; intros C; [constructor|].
  destruct d as [p off data| | | | | |]; cbn [upgrade_loop];
    try (specialize (IH C); destruct (upgrade_loop b im C ds); by constructor).
  destruct (bool_decide (p ∈ C)); [apply IH|].
  destruct (im !! p) as [[[c|]| |]|] eqn:E; try (specialize (IH C); destruct (upgrade_loop b im C ds); constructor; [congruence|done]).
  destruct (_ <=? _); [specialize (IH C); destruct (upgrade_loop b im C ds); constructor; [congruence|done]|].
  cbv zeta. specialize (IH ({[p]} ∪ C)). destruct (upgrade_loop b im ({[p]} ∪ C) ds). constructor; [|done].
  intros _. cbn [delta_path]. eauto.
Qed.

Lemma block_kinds now I d : is_block_write d = true → (∃ ct m, I !! delta_path d = Some (File ct m)) →
  kinds (FsImage_apply now I d) = kinds I.
Proof.
  destruct d as [p off [x|x]| | | | | |]; try done. intros _ (ct & m & E). cbn [FsImage_apply delta_path] in *. cbv zeta.
  unfold kinds. rewrite fmap_insert. apply insert_id. by rewrite lookup_fmap, E.
Qed.

Lemma upgraded_kinds now ds I J : kinds J = kinds I →
  Forall (λ d, is_block_write d = true → ∃ ct m, I !! delta_path d = Some (File ct m)) ds →
  kinds (upgraded_image now J ds) = kinds I.
Proof.
  intros E Hd. revert J E. induction Hd as [|d ds Hd Hds IH]; intros J E; [done|]. unfold upgraded_image. cbn [fold_left].
  apply IH. destruct (is_block_write d) eqn:Eb; [|done]. rewrite block_kinds; [done|done|].
  destruct (Hd eq_refl) as (ct & m & Hp). assert (kinds J !! delta_path d = Some RegularFile) as Hk
    by (rewrite E; unfold kinds; by rewrite lookup_fmap, Hp).
  unfold kinds in Hk. rewrite lookup_fmap in Hk. destruct (J !! delta_path d) as [[]|]; try discriminate Hk. eauto.
Qed.

(** A commit, accepted or not, keeps the shape its deltas gave the image. *)
Lemma commit_rooted c ds w : rooted w → Forall (λ d, is_block_write d = false) ds →
  treelike (fold_left (FsImage_apply (c_now c)) ds (w_image w)) → rooted (fs_commit c ds w).2.
Proof.
  intros [Hi Ht Hu] Hds HJ. pose proof (commit_state c ds w) as [Es _].
  unfold w_image, fs_image in HJ. unfold unchunked in Hu. unfold fs_commit in *.
  destruct (fs_backend (w_fs w)) as [v|rep] eqn:Ev; [|by apply (Build_rooted w Hi Ht); unfold unchunked; rewrite Ev]. rewrite fold_mutate in *.
  assert (Forall (λ d, is_block_write d = false) (pending v ++ ds)) as Hp by by apply Forall_app.
  unfold Volume_commit in *. cbn [pending image] in *.
  destruct (pending v ++ ds) as [|d0 ds0] eqn:Ep; [split; [done|by rewrite Es|done]|].
  set (J := fold_left (FsImage_apply (c_now c)) ds (image v)) in *.
  pose proof (upgrade_files (w_bucket w) J ∅ _ Hp) as Hf. pose proof (λ us, upgraded_kinds (c_now c) us J J eq_refl) as Hk.
  destruct (upgrade_loop _ _ _ _) as [us upg]. specialize (Hk upg Hf). symmetry in Hk.
  pose proof (treelike_kinds _ _ Hk HJ) as HJ'.
  destruct (upload_all _ _) as [[|] b1]; [|split; [done|by rewrite Es|done]].
  destruct (append_with_token _ _ _ _ _ _ _) as [[info|e] d1]; (split; [done|by rewrite Es|]).
  - apply Forall_nil_2.
  - exact Hp.
Qed.

(** *** Handlers *)

Lemma child_ok parent n w p : rooted w → (∀ x, n = Some x → name x) → child_path parent n w = Ok p → hung (w_image w) p.
Proof.
  intros [Hi Ht _] Hn E. unfold child_path in E. destruct n as [n|]; [|done]. destruct (w_path_of w parent) as [pp|] eqn:Ep; [|done].
  destruct (is_dir (w_image w) pp) eqn:Ed; [|done]. injection E as <-. apply child_hung; [done|by apply (pl_path _ Ht parent)|done|by apply Hn].
Qed.

Lemma absent_bare w p : rooted w → hung (w_image w) p → w_image w !! p = None → bare (w_image w) p.
Proof. intros Hw Hp E. apply leaf_bare; [apply Hw|apply Hp|by rewrite E]. Qed.

Lemma make_node_rooted c p d mode uid gid mtime w : rooted w → hung (w_image w) p → is_block_write d = false →
  (w_image w !! p = None → fits (w_image w) d) → rooted (make_node c p [d; DSetAttr p mode uid gid mtime] w).2.
Proof.
  intros Hw Hp Hd Hf. unfold make_node. destruct (w_image w !! p) eqn:E; [done|].
  pose proof (commit_rooted c [d; DSetAttr p mode uid gid mtime] w Hw) as Hc.
  destruct (fs_commit c _ w) as [[|e] w'].
  - apply entry_rooted; [|right; apply Hp]. apply Hc; [by repeat constructor|]. apply meta_after; [apply Hw|by apply Hf].
  - apply Hc; [by repeat constructor|]. apply meta_after; [apply Hw|by apply Hf].
Qed.

Lemma meta_rooted c d w : rooted w → fits (w_image w) d → is_block_write d = false → rooted (fs_commit c [d] w).2.
Proof. intros Hw Hd Hb. apply commit_rooted; [done|by repeat constructor|]. by apply apply_treelike; [apply Hw|]. Qed.

Lemma cache_rooted w v bl : rooted w → fs_backend (w_fs w) = BVolume v →
  rooted (with_fs w (set_backend (w_fs w) (BVolume (with_cache v bl)))).
Proof.
  intros [Hi Ht Hu] E. unfold w_image, fs_image in Hi. unfold unchunked in Hu. rewrite E in Hi, Hu. by split.
Qed.

Lemma replica_rooted w rep rep' : rooted w → fs_backend (w_fs w) = BReplica rep → r_image rep' = r_image rep →
  rooted (with_fs w (set_backend (w_fs w) (BReplica rep'))).
Proof.
  intros [Hi Ht Hu] E Er. unfold w_image, fs_image in Hi. rewrite E in Hi. split; [|done|done].
  unfold w_image, fs_image. cbn. by rewrite Er.
Qed.

Lemma read_file_rooted p w : rooted w → rooted (fs_read_file p w).2.
Proof.
  intros Hw. unfold fs_read_file. destruct (fs_backend (w_fs w)) as [v|rep] eqn:E.
  - unfold Volume_read_file. destruct (read_file _ _ _ _) as [r bl]. by apply cache_rooted.
  - unfold replica_read_file. destruct (read_file _ _ _ _) as [r bl]. by eapply replica_rooted.
Qed.

Lemma read_range_rooted p o n w : rooted w → rooted (fs_read_range p o n w).2.
Proof.
  intros Hw. unfold fs_read_range. destruct (fs_backend (w_fs w)) as [v|rep] eqn:E.
  - unfold Volume_read_file_range. destruct (read_file_range _ _ _ _ _ _) as [r bl]. by apply cache_rooted.
  - unfold replica_read_file_range. destruct (read_file_range _ _ _ _ _ _) as [r bl]. by eapply replica_rooted.
Qed.

Lemma truncate_rooted c p n w : rooted w → (∃ ct m, w_image w !! p = Some (File ct m)) → rooted (fs_truncate c p n w).2.
Proof.
  intros Hw (ct & m & Hp). unfold fs_truncate. destruct (fs_backend (w_fs w)) as [v|rep] eqn:E; [|done].
  unfold truncate, Volume_read_file. destruct (read_file _ _ _ _) as [[content|e] bl]; [|by apply cache_rooted].
  destruct Hw as [Hi Ht Hu]. unfold w_image, fs_image in Hi, Hp. unfold unchunked in Hu. rewrite E in Hi, Hp, Hu. cbv zeta.
  split; [|done|]; cbn.
  - change (treelike (FsImage_apply (c_now c) (remove_tree (image v) p)
      (DWrite p 0 (DInline (resize (default [] content) (Z.to_nat n)))))).
    pose proof (node_hung _ Hi p ltac:(by rewrite Hp)) as [Hn Hup].
    apply apply_treelike; [by apply remove_treelike|]. split; [split; [done|]|].
    + intros q Hq Hb. destruct (Hup q Hq Hb) as [m' Hm']. exists m'. rewrite remove_tree_lookup, <-Hm'.
      rewrite bool_decide_eq_false_2 by by apply below_ne. destruct (below p q) eqn:Eb; [|done].
      by destruct (below_ne p p (below_trans _ _ _ Eb Hb)).
    + intros q Hq. by rewrite remove_tree_lookup, Hq, orb_true_r.
  - rewrite <-app_assoc. apply Forall_app. split; [done|by repeat constructor].
Qed.
(** A handle whose staged extents go to a file that is there. *)
Definition lands (fh : Z) (w : World) : Prop :=
  ∀ h p, fs_handles (w_fs w) !! fh = Some h → w_path_of w (h_ino h) = Some p →
    h_extents h = [] ∨ ∃ ct m, w_image w !! p = Some (File ct m).

Lemma flush_rooted c fh w : rooted w → lands fh w → rooted (flush_fh c fh w).2.
Proof.
  intros Hw Hl. unfold flush_fh. destruct (fs_handles (w_fs w) !! fh) as [[ino [|e es]]|] eqn:Eh; [done| |done]. cbv zeta.
  assert (rooted (with_fs w (set_handles (w_fs w) (<[fh:=mkHandle ino []]> (fs_handles (w_fs w)))))) as Hw'
    by (apply (rooted_frame w); [done|done|apply Hw]).
  destruct (w_path_of _ ino) as [p|] eqn:Ep; [|done]. destruct (Hl _ p Eh Ep) as [?|Hf]; [done|].
  apply commit_rooted; [done| |].
  - apply Forall_app. split; [|by repeat constructor]. apply Forall_fmap, Forall_true. done.
  - rewrite fold_left_app. cbn [fold_left]. apply apply_treelike; [|done]. by apply extents_treelike; [apply Hw|].
Qed.

Lemma setattr_rooted c ino mode uid gid size mtime w : rooted w → rooted (setattr c ino mode uid gid size mtime w).2.
Proof.
  intros Hw.
  assert (∀ mt w0 path r w1, rooted w0 →
    (if is_some mode || is_some uid || is_some gid || is_some mt
     then fs_commit c [DSetAttr path ((λ m, Z.land m 4095) <$> mode) uid gid mt] w0 else (Ok tt, w0)) = (r, w1) →
    rooted w1) as Hset.
  { intros mt w0 path r w1 Hw0 E. destruct (_ || _); [|by injection E as _ <-].
    pose proof (meta_rooted c (DSetAttr path ((λ m, Z.land m 4095) <$> mode) uid gid mt) w0 Hw0 I eq_refl) as Hc. by rewrite E in Hc. }
  unfold setattr. destruct (w_path_of w ino) as [path|]; [|done]. cbv zeta. destruct (_ && _); [done|].
  destruct size as [n|].
  - destruct (w_image w !! path) as [[ct m| |]|] eqn:En; try done. cbn [negb].
    pose proof (truncate_rooted c path n w Hw ltac:(eauto)) as Ht. destruct (fs_truncate c path n w) as [[u|e] w1]; [|done].
    cbn [snd] in Ht.
    assert (rooted (with_fs w1 (set_handles (w_fs w1) (clip_handle ino n <$> fs_handles (w_fs w1))))) as Hw1
      by (apply (rooted_frame w1); [done|done|apply Ht]).
    destruct (if _ || _ then _ else _) as [[u'|e'] w2] eqn:E2; by apply (Hset _ _ _ _ _ Hw1) in E2.
  - destruct (if _ || _ then _ else _) as [[u'|e'] w2] eqn:E2; by apply (Hset _ _ _ _ _ Hw) in E2.
Qed.

Lemma create_rooted c parent n mode umask w : rooted w → (∀ x, n = Some x → name x) →
  rooted (create c parent n mode umask w).2.
Proof.
  intros Hw Hn. unfold create. destruct (child_path parent n w) as [path|e] eqn:Ec; [|done].
  pose proof (child_ok _ _ _ _ Hw Hn Ec) as Hp.
  set (x := match w_image w !! path with Some (File _ _) => _ | Some (Dir _) => _ | _ => _ end).
  assert (rooted x.2) as Hx.
  { subst x. destruct (w_image w !! path) as [[]|] eqn:E; [|done..|].
    - pose proof (read_file_rooted path w Hw). by destruct (fs_read_file path w).
    - pose proof (commit_rooted c [DWrite path 0 (DInline []); DSetAttr path (Some (masked mode umask)) (Some (c_uid c)) (Some (c_gid c)) None] w Hw)
        as Hc. destruct (fs_commit c _ w) as [r w']. apply Hc; [by repeat constructor|].
      apply meta_after; [apply Hw|]. split; [done|by apply absent_bare]. }
  destruct x as [[content|e] w1]; [|done]. cbn [snd] in Hx.
  pose proof (assign_rooted path w1 Hx ltac:(right; apply Hp)) as Ha. destruct (assign path w1) as [i w2]. cbv zeta.
  destruct (new_handle i w2) as [fh w3] eqn:En. injection En as _ <-. apply (rooted_frame w2); [done|done|apply Ha].
Qed.

(** The parent of a path, and the children a listing names. *)
Lemma list_rooted dir kids w : rooted w → Forall (λ k, dir_path (path_join dir k.1)) kids → rooted (list_children dir kids w).2.
Proof.
  intros Hw Hk. revert w Hw. induction Hk as [|[n k] kids Hn Hk IH]; intros w Hw; [done|]. cbn [list_children].
  pose proof (assign_rooted _ w Hw Hn) as Ha. destruct (assign _ w) as [i w1]. specialize (IH w1 Ha).
  by destruct (list_children dir kids w1).
Qed.
Lemma readdir_rooted {B} add (buf : B) ino offset w : rooted w → rooted (readdir add buf ino offset w).2.
Proof.
  intros Hw. unfold readdir, readdir_entries. destruct (w_path_of w ino) as [dir|] eqn:Ep; [|done].
  destruct (is_dir (w_image w) dir) eqn:Ed; [|done]. cbv zeta. pose proof (pl_path _ (ro_table w Hw) ino dir Ep) as Hd.
  pose proof (assign_rooted _ w Hw (parent_dir dir Hd)) as Ha. destruct (assign (parent_path dir) w) as [pino w1].
  assert (Forall (λ k, dir_path (path_join dir k.1)) (btree_iter (children (w_image w) dir))) as Hk.
  { apply Forall_forall. intros [n k] Hin%btree_iter_elem%children_spec. destruct Hin as (_ & _ & x & Hx & _).
    cbn [fst]. right. apply (sh_node _ (ro_image w Hw)). by rewrite Hx. }
  pose proof (list_rooted dir _ w1 Ha Hk) as Hl. by destruct (list_children dir _ w1).
Qed.

(** *** Renames *)

Lemma remap_dir from to p q : node_path from → node_path to → dir_path p → remap from to p = Some q → dir_path q.
Proof.
  intros (a & Ha & ->) Hto Hp Hq. unfold remap in Hq. destruct (String.eqb p (key a)); [injection Hq as <-; by right|].
  destruct (strip_prefix (key a +:+ "/") p) as [u|] eqn:E; [|done]. injection Hq as <-. apply strip_prefix_Some in E.
  rewrite str_app_assoc in E. destruct Hto as (b & Hb & ->). destruct Hp as [->|(r & Hr & ->)].
  - destruct (key a) eqn:Ek; [discriminate Ek|]. simpl in E. injection E as _ E. by destruct s.
  - destruct (key_under a r u Ha Hr E) as (s & Hs & -> & ->). right. exists (b ++ s).
    split; [apply place_append; [done|by apply (place_names a)]|]. symmetry. by apply key_app; [apply Hb|].
Qed.

Lemma rename_placed from to st : node_path from → node_path to → placed st → placed (rename_subtree from to st).
Proof.
  intros Hf Ht Hst. unfold rename_subtree.
  assert (∀ e, e ∈ Fs.moved from to st → dir_path e.1) as Hm.
  { intros [p i] [_ Hin%elem_of_map_to_list]%list_elem_of_filter. apply (pl_ino _ Hst). cbn [fst]. by rewrite Hin. }
  revert Hst Hm. generalize (Fs.moved from to st) as l. intros l. revert st. induction l as [|[p i] l IH]; intros st Hst Hm; [done|].
  cbn [fold_left]. apply IH; [|intros e He; apply Hm; by right]. unfold rename_entry. cbn [fst snd].
  destruct (remap from to p) as [q|] eqn:E; [|done].
  assert (dir_path q) as Hq by (eapply remap_dir; [..|exact E]; [done|done|]; apply (Hm (p, i)); by left).
  destruct Hst as [Hp Hi]. split; cbn.
  - intros j x [[_ <-]|[_ Hx]]%lookup_insert_Some; [done|by apply (Hp j)].
  - intros x [j [[<- _]|[_ [_ Hx]%lookup_delete_Some]]%lookup_insert_Some]; [done|]. apply Hi. by rewrite Hx.
Qed.

(** The checks on the target leave nothing under it that would stay. *)
Lemma check_bare I from to fk u : treelike I → rename_kind (I !! from) = Some fk → rename_check I fk to = Ok u → node_path to →
  bare I to.
Proof.
  intros HI Hk Hc Ht. destruct (I !! to) as [[]|] eqn:E; unfold rename_check in Hc; rewrite E in Hc; cbn [rename_kind] in Hc.
  - apply leaf_bare; [done..|by rewrite E].
  - destruct (I !! from) as [[]|]; try discriminate Hk; injection Hk as <-; try done.
    destruct (bool_decide (children I to = ∅)) eqn:Eb; [|done]. apply childless_bare; [done..|by apply bool_decide_eq_true in Eb].
  - apply leaf_bare; [done..|by rewrite E].
  - apply leaf_bare; [done..|by rewrite E].
Qed.

(** What the kernel checks before it asks for a rename: the target's directory
    is there, and the target is not the source nor below it. *)
Definition renames_out (parent : Z) (n : string) (newparent : Z) (n' : string) (w : World) : Prop :=
  ∀ from_dir to_dir, w_path_of w parent = Some from_dir → w_path_of w newparent = Some to_dir →
    is_dir (w_image w) to_dir = true ∧ path_join from_dir n ≠ path_join to_dir n'
    ∧ below (path_join from_dir n) (path_join to_dir n') = false.

Lemma rename_rooted c parent n newparent n' flags w : rooted w → (∀ x, n' = Some x → name x) →
  (∀ x x', n = Some x → n' = Some x' → renames_out parent x newparent x' w) →
  rooted (rename c parent n newparent n' flags w).2.
Proof.
  intros Hw Hn Hv. unfold rename. destruct (negb _); [done|]. destruct n as [n|], n' as [n'|]; try done.
  destruct (w_path_of w parent) as [fd|] eqn:Ef, (w_path_of w newparent) as [td|] eqn:Et; try done. cbv zeta.
  destruct (Hv n n' eq_refl eq_refl fd td Ef Et) as (Hd & Hne & Hft). specialize (Hn n' eq_refl).
  set (from := path_join fd n) in *. set (to := path_join td n') in *.
  destruct (rename_kind (w_image w !! from)) as [fk|] eqn:Ek; [|done].
  destruct (rename_check (w_image w) fk to) as [u|] eqn:Ec; [|done].
  assert (is_Some (w_image w !! from)) as Hfrom by (by destruct (w_image w !! from); [|discriminate Ek]).
  pose proof (child_hung _ (ro_image w Hw) td n' (pl_path _ (ro_table w Hw) newparent td Et) Hd Hn) as Hto. fold to in Hto.
  pose proof (check_bare _ _ _ _ _ (ro_image w Hw) Ek Ec (proj1 Hto)) as Hb.
  assert (apart from to) as Ha.
  { split_and!; [done|done|]. destruct (below to from) eqn:E; [|done]. rewrite (Hb from E) in Hfrom. by destruct Hfrom. }
  pose proof (meta_rooted c (DRename from to) w Hw) as Hc. pose proof (commit_state c [DRename from to] w) as [Es _].
  destruct (fs_commit c [DRename from to] w) as [[|e] w']; cbn [snd] in *; [|by apply Hc].
  specialize (Hc ltac:(done) eq_refl). apply (rooted_frame w'); [done|done|]. apply rename_placed; [|apply Hto|apply Hc].
  by apply (sh_node _ (ro_image w Hw)).
Qed.
(** *** All requests *)

(** What the kernel guarantees of a request: its names are single components,
    and a rename goes into a directory it has looked up, not under its source. *)
Definition vfs (r : Request) (w : World) : Prop :=
  match r with
  | RMkdir _ n _ _ | RCreate _ n _ _ | RSymlink _ n _ => ∀ x, n = Some x → name x
  | RRename parent n newparent n' _ =>
      (∀ x, n' = Some x → name x) ∧ ∀ x x', n = Some x → n' = Some x' → renames_out parent x newparent x' w
  | _ => True
  end.

(** What the kernel does not guarantee: a handle is flushed to a file that is
    there.  It does send the release of a file that was unlinked while open. *)
Definition flush_lands (r : Request) (w : World) : Prop :=
  match r with RFlush fh | RFsync fh | RRelease fh => lands fh w | _ => True end.

(** A request under both conditions. *)
Definition orderly (_ : Call) (r : Request) (w : World) : Prop := vfs r w ∧ flush_lands r w.

Lemma serve_rooted c r w : orderly c r w → rooted w → rooted (serve c r w).2.
Proof.
  intros [Hv Hl] Hw. destruct r; cbn [serve outcome fst snd vfs flush_lands] in *; try done.
  - unfold lookup. destruct (child_path _ _ _) as [p|]; [|done]. destruct (w_image w !! p) eqn:E; [|done].
    apply entry_rooted; [done|]. right. apply (sh_node _ (ro_image w Hw)). by rewrite E.
  - by apply setattr_rooted.
  - unfold symlink. destruct link_name as [n|], target as [t|]; try done. destruct (child_path _ _ _) as [p|] eqn:E; [|done].
    pose proof (child_ok _ _ _ _ Hw Hv E) as Hp. apply make_node_rooted; [done..|]. intros En. split; [done|by apply absent_bare].
  - unfold mkdir. destruct (child_path _ _ _) as [p|] eqn:E; [|done].
    pose proof (child_ok _ _ _ _ Hw Hv E) as Hp. by apply make_node_rooted.
  - by apply readdir_rooted.
  - by apply create_rooted.
  - unfold open. destruct (w_path_of w ino); [|done]. destruct (w_image w !! _) as [[]|]; try done.
    apply (rooted_frame w); [done|done|apply Hw].
  - unfold read. destruct (w_path_of w ino) as [p|]; [|done]. pose proof (read_range_rooted p offset size w Hw).
    by destruct (fs_read_range _ _ _ _) as [[[]|] ?].
  - unfold write. destruct (fs_handles (w_fs w) !! fh); [|done]. apply (rooted_frame w); [done|done|apply Hw].
  - by apply flush_rooted.
  - by apply flush_rooted.
  - unfold release. pose proof (flush_rooted c fh w Hw Hl) as Hf. destruct (flush_fh c fh w) as [r w'].
    apply (rooted_frame w'); [done|done|apply Hf].
  - unfold unlink. destruct (named_path _ _ _); [|done]. destruct (w_image w !! _) as [[]|]; try done; by apply meta_rooted.
  - unfold rmdir. destruct (named_path _ _ _); [|done]. destruct (w_image w !! _) as [[]|]; try done.
    destruct (bool_decide _); [by apply meta_rooted|done].
  - destruct Hv. by apply rename_rooted.
  - unfold setxattr. destruct (w_path_of w ino); [|done]. destruct (_ && _); [done|].
    destruct name; [by apply meta_rooted|done].
  - unfold removexattr. destruct (w_path_of w ino); [|done]. destruct name; [|done].
    destruct (w_image w !! _); [|done]. destruct (is_some _); [by apply meta_rooted|done].
Qed.

Lemma run_rooted w w' : run orderly w w' → rooted w → rooted w'.
Proof. intros Hr Hw. induction Hr as [|c r w1 _ IH Hv]; [done|]. by apply serve_rooted. Qed.

Lemma mount_rooted v b d : treelike (image v) → pending v = [] → rooted (mkWorld (with_backend (BVolume v)) b d).
Proof. intros Hi Hp. split; [done|apply placed_new|]. unfold unchunked. cbn. by rewrite Hp. Qed.

(** C15: the images of a mount stay trees.  Whatever requests a mount serves,
    failed commits included, as long as new names are names and a rename goes
    into a directory that is there and not under its own source (as the kernel
    sees to), and handles are flushed to files that are there (which it does
    not: a file unlinked while it is open is the exception), every node has a path of plain names, each
    path above it is a directory, and every inode number leads to such a path. *)
Theorem mount_stays_tree v b d w :
  treelike (image v) → pending v = [] → run orderly (mkWorld (with_backend (BVolume v)) b d) w →
  (∀ p n, w_image w !! p = Some n → ∃ r, place r ∧ p = key r)
  ∧ (∀ r s n, place (r ++ s) → r ≠ [] → s ≠ [] → w_image w !! key (r ++ s) = Some n → ∃ m, w_image w !! key r = Some (Dir m))
  ∧ ∀ i p, w_path_of w i = Some p → p = "/" ∨ ∃ r, place r ∧ p = key r.
Proof.
  intros Hi Hp Hr. destruct (run_rooted _ _ Hr (mount_rooted v b d Hi Hp)) as [[Hn Hu] Ht _]. split_and!.
  - intros p n E. apply Hn. by rewrite E.
  - intros r s n Hrs Hne Hse E. apply (Hu _ (key (r ++ s))); [by rewrite E| |by apply key_below].
    exists r. split; [by eapply place_app|done].
  - intros i p. apply (pl_path _ Ht).
Qed.
End mount_tree.
