(* ===== verification/FsMirror.v ===== *)
(** * From a mount to a mirrored directory

    What a mount accepted is what a mirror of the volume shows: the images of
    a mount are trees ([FsTree]), its commits are durable ([FsDurable]), a
    replica replays them ([Replica]) and a pass of the mirror renders the
    replay ([MirrorPass]). *)

From S2P Require Import Prelude Text Slate Types Keys Kv Fork Store Batch Append Wf Commit.
From S2P Require Import Appended Ops Purge History Txn Invariant Samples AppendThms ForkThms SnapshotThms.
From S2P Require Import Frames Bucket Btree Image Volume ImageThms VolumeThms CommitThms Replica Fs FsTable FsServe FsThms FsDurable FsLegible.
From S2P Require Import Disk DiskThms Mirror MirrorTree MirrorThms MirrorPass FsTree.
Local Open Scope Z_scope.

(** Equivalent images hold the same files. *)
Lemma file_equiv (I J : FsImage) p ct meta : I ≡ J → I !! p = Some (File ct meta) → ∃ meta', J !! p = Some (File ct meta').
Proof.
  intros E Hp. specialize (E p). rewrite Hp in E. destruct (J !! p) as [n|]; [|by inversion E]. apply (inj Some) in E.
  unfold equiv, node_equiv, no_mtime in E. destruct n; cbn in E; try discriminate E. injection E as -> _. eauto.
Qed.

Lemma run_impl `{SlateDb} `{Codecs} `{ObjectStore} `{FuseCodecs} (P Q : Call → Request → World → Prop) w w' :
  (∀ c r x, P c r x → Q c r x) → run P w w' → run Q w w'.
Proof. intros HPQ Hr. induction Hr as [|c r x _ IH Hx]; [constructor|]. constructor; [done|by apply HPQ]. Qed.

Section fs_mirror.
Context `{SlateDbLaws} `{CodecLaws} `{ObjectStoreLaws} `{FuseCodecLaws} `{MirrorCodecLaws} `{!HashLaw}.

(** A volume that is no fork, whose stream was never trimmed. *)
Lemma stored_retained b d s l : stored b d s l → fork_ref d s = Ok None → numbered (vis d s) →
  key_lim (Z.of_nat (length (vis d s))) → l = vis d s ∧ retained b d s (vis d s) 0.
Proof.
  intros Hst Hf Hn Hk. assert (l = vis d s) as -> by (eapply hist_unique; [apply Hst|by apply hist_root]).
  split; [done|]. pose proof Hst as [Hwf Hs _ _ Hfa Hcov _ _ _]. split; [done..|].
  intros r Hr. destruct (Hfa r Hr) as (im & Him & Hre). specialize (Hcov r Hr).
  destruct (snapshot_shaped d s (wf_shaped d Hwf) Hs) as (r' & Hr' & Hnum). rewrite Hr in Hr'. injection Hr' as <-. cbn in Hnum. unfold key_num in Hnum.
  assert (next_version (vis d s) = Z.of_nat (length (vis d s))) as El.
  { unfold next_version. destruct (last (vis d s)) as [e|] eqn:E; simpl; [by apply numbered_last|]. apply last_None in E as ->. done. }
  exists (Z.to_nat (sn_through_version r + 1)), im. split_and!; [lia|lia|done|]. intros clk. rewrite Hre, <-numbered_upto by done.
  by replace (Z.of_nat (Z.to_nat (sn_through_version r + 1)) - 1) with (sn_through_version r) by lia.
Qed.

(** A replica opened on it replays it. *)
Lemma open_replays clk b d s L : retained b d s L 0 → ∃ rep, open_replica clk b s d = Ok rep ∧ r_image rep ≡ replay_log clk L.
Proof.
  intros HR. destruct (sync_position clk b d s L 0 (mkReplica s ∅ None ∅) 0 HR eq_refl) as (rep & E & _ & _ & _ & Hp).
  - split_and!; [lia|done|done|]. intros clk'. reflexivity.
  - left. lia.
  - exists rep. unfold open_replica. rewrite E. split; [done|]. rewrite (Hp clk). by rewrite firstn_all.
Qed.

(** The image of a tree, with readable files and none of the mirror's names. *)
Lemma treelike_tree b I J : treelike I → J ≡ I →
  (∀ p ct meta, I !! p = Some (File ct meta) → ∃ c, file_bytes b ct c ∧ Z.of_nat (length c) < U64) →
  (∀ r, place r → reserved r = true → I !! key r = None) → tree b J.
Proof.
  intros HI E Hf Hr. pose proof (proj2 (treelike_proper J I E) HI) as HJ. split.
  - intros p n Hp. destruct (sh_node J HJ p) as (r & Hpl & ->); [by rewrite Hp|]. exists r. split_and!; [done..|].
    destruct (reserved r) eqn:Er; [|done]. specialize (E (key r)). rewrite Hp, (Hr r Hpl Er) in E. by inversion E.
  - intros q s n Hpl Hq Hs Hn. apply (sh_up J HJ _ (key (q ++ s))); [by rewrite Hn| |by apply key_below].
    exists q. split; [by eapply place_app|done].
  - intros p ct meta Hp. destruct (file_equiv J I p ct meta E Hp) as [meta' Hp']. by apply (Hf p ct meta').
Qed.

(** A volume nothing was written to. *)
Lemma mount_readable o clk watch b s d v d' :
  stored b d s [] → addressed b → mount o clk watch b s d = (Ok v, d') → readable v b.
Proof.
  intros Hst Ha Hm. destruct (mount_mounted _ _ _ _ _ _ _ _ _ Hst Hm) as [[_ _ Hp Hi] _].
  assert (v_blocks v = ∅) as Hb.
  { unfold mount in Hm. destruct (fence _ _ _ _ _) as [[info|] d1]; [|done]. cbn [rbind] in Hm.
    destruct (checkpoint_base b s d1) as [[im from]|]; [|done]. cbn [rbind] in Hm.
    destruct (fold d1 s _ im _) as [[im' tl]|]; [|done]. by injection Hm as <- _. }
  split; [done|by rewrite Hb; intros h x ?%lookup_empty_Some|by rewrite Hp|].
  intros p ct meta E. specialize (Hi p). rewrite E in Hi. by inversion Hi.
Qed.

Lemma open_dir umask now clk b d vol dir fs m fs' : open_mirror umask now clk b d vol dir fs = (Ok m, fs') → mi_dir m = dir.
Proof.
  unfold open_mirror. destruct (create_dir_all _ _ _) as [[|] fs1]; [|done].
  destruct (load_state fs1 dir) as [st|]; [|done]. destruct (open_replica clk b vol d) as [rep|]; [|done]. cbn [rbind].
  destruct (materialize _ _ _ _ _) as [[r m1] fs2] eqn:E. unfold materialize in E. cbv zeta in E.
  destruct (fold_left (delete_path _) _ _) as [st' fs3]. destruct (save_state _ _ _ _ _) as [r' fs4]. injection E as <- <- <-.
  destruct (mirror_io r'); [|done]. by intros [= <- _].
Qed.

(** C17: what a mount accepted is what a mirror shows.  A volume that was served
    by a mount from its first delta on, each request committed, is mirrored
    exactly: a mirror opened in a new directory succeeds and leaves there,
    beside its own files, a file, directory or link for each node the mount
    serves and nothing else, with the same contents, modes and targets, and
    touches nothing elsewhere.  It holds when
    - names are single components and a rename goes into a directory that is
      there and not under its source (the kernel's part), and a dirty handle is
      only flushed or released while its path is a file that is there and not
      chunked (no file unlinked while open and dirty: the kernel allows that);
    - the volume is no fork and was never trimmed (versions are positions), and
      what is written stays within the sizes of the format;
    - no node is on one of the mirror's own names, its temporary files and its
      state file, when the mirror is opened;
    - permission bits do not stop the mirror's process (it runs as root). *)
Theorem mirror_shows_mount umask now o clk watch b s d v d' w dir fs clk' :
  stored b d s [] → addressed b → mount o clk watch b s d = (Ok v, d') →
  run (λ c r w, served_ok s c r w ∧ orderly c r w ∧ sizes_ok r) (mkWorld (with_backend (BVolume v)) b d') w →
  fork_ref (w_db w) s = Ok None → numbered (vis (w_db w) s) → key_lim (Z.of_nat (length (vis (w_db w) s))) →
  (∀ r, place r → reserved r = true → w_image w !! key r = None) →
  plain fs dir → dir ≠ [] → (∀ r, fs !! (dir ++ r) = None) →
  ∃ m fs', open_mirror umask now clk' (w_bucket w) (w_db w) s dir fs = (Ok m, fs')
    ∧ (∃ I, I ≡ w_image w ∧ mirrors (w_bucket w) I dir fs') ∧ ∀ q, ¬ dir `prefix_of` q → fs' !! q = fs !! q.
Proof.
  intros Hst Had Hm Hr Hfk Hn Hk Hres Hp Hne Hno. destruct (mount_mounted _ _ _ _ _ _ _ _ _ Hst Hm) as [Hmt Hv].
  assert (treelike (w_image w)) as Hsh.
  { apply run_impl with (Q := orderly) in Hr; [|by intros ??? (? & ? & ?)]. eapply ro_image, run_rooted; [exact Hr|].
    apply mount_rooted; [|apply Hmt]. rewrite (mt_image _ _ _ Hmt). apply treelike_empty. }
  assert (legible (w_bucket w) (w_image w)) as Hfiles.
  { apply run_impl with (Q := λ _ r _, sizes_ok r) in Hr; [|by intros ??? (? & ? & ?)].
    apply served_legible, (run_served _ _ Hr), mount_served. by eapply mount_readable. }
  apply run_impl with (Q := served_ok s) in Hr; [|by intros ??? (? & ? & ?)].
  destruct (run_mounted _ _ _ _ _ Hv Hmt Hr) as (v1 & l1 & [M1 M2 M3 M4] & Hv1). rewrite Hv1 in M2.
  destruct (stored_retained _ _ _ _ M2 Hfk Hn Hk) as [-> HR]. destruct (open_replays clk' _ _ _ _ HR) as (rep & Er & Hrep).
  assert (r_image rep ≡ w_image w) as Hi by (unfold w_image, fs_image; rewrite Hrep, M1, M4; apply logged_clk).
  destruct (open_fresh umask now clk' (w_bucket w) (w_db w) s dir fs rep) as (m & fs' & E & Him & Hs & Hout); [done..| |].
  { by eapply treelike_tree. }
  exists m, fs'. split_and!; [done| |done]. exists (r_image rep). split; [done|].
  assert (mi_dir m = dir) as Ed by (by eapply open_dir). pose proof (se_mirrors _ _ _ Hs) as Hmi. by rewrite Him, Ed in Hmi.
Qed.
End fs_mirror.
