(* ===== verification/FsMirrorRuns.v ===== *)
(** * Runs of a mount and a mirror of its volume *)

From S2P Require Import Prelude Text Slate Types Keys Kv Fork Store Batch Append Wf Commit.
From S2P Require Import Appended Ops Purge History Txn Invariant Samples AppendThms ForkThms SnapshotThms.
From S2P Require Import Frames Bucket Btree Image Volume ImageThms VolumeThms CommitThms Replica FuseSamples Fs FsTable FsServe FsThms FsDurable FsLegible FsRuns FsFaults.
From S2P Require Import Disk DiskThms Mirror MirrorTree MirrorThms MirrorPass MirrorRuns FsTree FsMirror.
Local Open Scope Z_scope.
Import Samples FuseSamples MirrorSamples.

(** A name, by its computation. *)
Lemma name_checked c : is_normal c && negb (has_slash c) = true → name c.
Proof. intros [H1 H2]%andb_true_iff. split; [done|]. unfold slash_free. by destruct (has_slash c). Qed.

Lemma lands_here : orderly (call 50) (RFlush 1) f3.
Proof.
  split; [exact I|].
  intros h p Hh Hp. assert (fs_handles (w_fs f3) !! 1 = Some (mkHandle 3 [(0, [x68; x69])])) as E by run.
  rewrite E in Hh. injection Hh as <-. assert (w_path_of f3 3 = Some "/d/f") as E' by run.
  cbn [h_ino] in Hp. rewrite E' in Hp. injection Hp as <-. right.
  exists (Inline []), (mkMeta 420 1000 100 30 ∅). run.
Qed.

Lemma tree4 : run (λ c r w, served_ok "v" c r w ∧ orderly c r w ∧ sizes_ok r) f0 f4.
Proof.
  refine (run_step (λ c r w, served_ok "v" c r w ∧ orderly c r w ∧ sizes_ok r) f0 (call 50) (RFlush 1) f3 _ _);
    [|split; [split; [apply orc_ok|apply (room_of _ _ (Some 3)); run|exact flush_here|run]|split; [exact lands_here|exact I]]].
  refine (run_step (λ c r w, served_ok "v" c r w ∧ orderly c r w ∧ sizes_ok r) f0 (call 40) (RWrite 1 0 [x68; x69]) f2 _ _);
    [|split; [split; [apply orc_ok|apply (room_of _ _ (Some 3)); run|exact I|run]|split; [split; exact I|split; [done|cbn; rewrite U64_eq; lia]]]].
  refine (run_step (λ c r w, served_ok "v" c r w ∧ orderly c r w ∧ sizes_ok r) f0 (call 30) (RCreate 2 (Some "f") 438 18) f1 _ _);
    [|split; [split; [apply orc_ok|apply (room_of _ _ (Some 1)); run|exact I|run]|split; [split; [by intros x [= <-]; apply name_checked|exact I]|exact I]]].
  refine (run_step (λ c r w, served_ok "v" c r w ∧ orderly c r w ∧ sizes_ok r) f0 (call 20) (RMkdir 1 (Some "d") 493 18) f0 _ _);
    [|split; [split; [apply orc_ok|apply (room_of _ _ None); run|exact I|run]|split; [split; [by intros x [= <-]; apply name_checked|exact I]|exact I]]].
  apply run_nil.
Qed.

(** The directory is renamed, too. *)
Lemma tree5 : run orderly f0 f5.
Proof.
  refine (run_step orderly f0 (call 60) (RRename 1 (Some "d") 1 (Some "e") 0) f4 _ _).
  - eapply run_impl; [|exact tree4]. by intros c r w (? & ? & ?).
  - split; [|exact I]. split; [by intros x [= <-]; apply name_checked|]. intros x x' [= <-] [= <-] fd td Hf Ht.
    assert (w_path_of f4 1 = Some "/") as E by run. rewrite E in Hf, Ht. injection Hf as <-. injection Ht as <-.
    split_and!; [run|done|run].
Qed.

Lemma file5 : w_image f5 !! key (["e"] ++ ["f"]) = Some file4.
Proof. run. Qed.

Lemma place_ef : place (["e"] ++ ["f"]).
Proof. split; [discriminate|]. repeat (apply Forall_cons; split; [by apply name_checked|]). apply Forall_nil_2. Qed.

Lemma vol0_new : treelike (image vol0) ∧ pending vol0 = [].
Proof. split; [|run]. assert (image vol0 = ∅) as -> by run. apply treelike_empty. Qed.

Lemma mount_stays_tree_witness : ∃ m, w_image f5 !! key ["e"] = Some (Dir m).
Proof.
  refine (proj1 (proj2 (mount_stays_tree vol0 (∅ : bucket) dm0 f5 (proj1 vol0_new) (proj2 vol0_new) tree5))
    ["e"] ["f"] file4 place_ef _ _ file5); discriminate.
Defined.

Lemma vis4_numbered : numbered (vis (w_db f4) "v").
Proof.
  intros i e Hi. assert (env_version <$> vis (w_db f4) "v" = [0; 1; 2; 3; 4; 5]) as E by run.
  assert ((env_version <$> vis (w_db f4) "v") !! i = Some (env_version e)) as Hv by by rewrite list_lookup_fmap, Hi.
  rewrite E in Hv. do 6 (destruct i as [|i]; [by injection Hv as <-|]). discriminate Hv.
Qed.

Lemma empty_addressed : addressed (∅ : bucket).
Proof. intros x y E. discriminate E. Qed.

Lemma file_d : w_image f4 !! "/d/f" = Some file4 ∧ w_path_of f4 3 = Some "/d/f" ∧ fs_handles (w_fs f4) !! 9 = None.
Proof. split_and!; run. Qed.

Lemma mount_files_readable_witness :
  ∃ c, file_bytes (w_bucket f4) (Inline [x68; x69]) c ∧ (read 3 9 0 1 f4).1 = Ok (take 1 c).
Proof.
  destruct file_d as (Hf & Hp & Hh).
  destruct (mount_files_readable vol0 (∅ : bucket) dm0 f4
    (mount_readable _ _ _ _ _ _ _ _ empty_stored empty_addressed mount0_eq)
    (run_impl _ (λ _ r _, sizes_ok r) _ _ (λ c r x H, proj2 (proj2 H)) tree4) "/d/f" (Inline [x68; x69]) _ Hf) as (c & Hc & _ & Hr).
  exists c. split; [exact Hc|]. refine (Hr 3 9 0 1 Hp Hh _ _ _); [lia|lia|rewrite U64_eq; lia].
Defined.

Lemma mirror_shows_mount_witness :
  ∃ m fs', open_mirror 18 9 (λ _, 16) (w_bucket f4) (w_db f4) "v" here host = (Ok m, fs')
    ∧ (∃ I, I ≡ w_image f4 ∧ mirrors (w_bucket f4) I here fs') ∧ ∀ q, ¬ here `prefix_of` q → fs' !! q = host !! q.
Proof.
  assert (tree_check (w_image f4) = true) as Ht by run. pose proof (tree_checked (w_bucket f4) _ Ht) as Htree.
  apply (mirror_shows_mount 18 9 (sample_oracle 10) (λ _, 7) [mkStatus 9 false] ∅ "v" mem_empty vol0 dm0 f4 here host (λ _, 16));
    [exact empty_stored|exact empty_addressed|exact mount0_eq|exact tree4|run|exact vis4_numbered| | |apply host_plain|done|apply host_nothing].
  - assert (length (vis (w_db f4) "v") = 6%nat) as -> by run. small.
  - intros r Hp Hr. destruct (w_image f4 !! key r) as [n|] eqn:E; [|done].
    destruct (tr_place _ _ Htree _ _ E) as (r' & Ek & Hp' & Hr'). apply key_inj in Ek as <-; [congruence|done..].
Defined.

(** A handle that is released after its file and its directory were removed
    brings the file back without the directory: it has no listing. *)
Theorem orphan_returns :
  let w := served [RWrite 1 0 [x41]; RUnlink 2 (Some "f"); RRmdir 1 (Some "d"); RRelease 1] f4 in
  w.1 = [None; None; None; None]
  ∧ (w_image w.2 !! "/d", is_some (w_image w.2 !! "/d/f"), children (w_image w.2) "/") = (None, true, ∅)
  ∧ ¬ treelike (w_image w.2).
Proof.
  cbv zeta. set (w := served _ f4). assert (w.1 = [None; None; None; None]) as E1 by run.
  assert (w_image w.2 !! "/d" = None) as E2 by run. assert (is_some (w_image w.2 !! "/d/f") = true) as E3 by run.
  split; [exact E1|]. split; [rewrite E2, E3; do 2 f_equal; run|]. intros Ht.
  destruct (sh_up _ Ht "/d" "/d/f") as [m Hm]; [destruct (w_image w.2 !! "/d/f"); [by eexists|discriminate E3]| |reflexivity|congruence].
  exists ["d"]. split; [apply place_one; by apply name_checked|reflexivity].
Qed.
