(* ===== verification/BankAccount.v ===== *)
(** * The bank account example ([examples/bank_account.rs])

    An aggregate over the store, and the program that appends to it, tails it
    and compacts it. *)

From S2P Require Import Prelude Text Slate Types Keys Kv Fork Store Batch Append Wf Commit.
From S2P Require Import Appended Ops Purge History Txn Invariant Samples ForkThms SnapshotThms ReadThms Reader.
Local Open Scope Z_scope.

Inductive AccountEvent :=
| Opened (owner : string)
| Deposited (cents : Z)
| Withdrawn (cents : Z).

Record Account := mkAccount { owner : string; balance : Z }.

#[global] Instance account_event_eq_dec : EqDecision AccountEvent.
Proof. solve_decision. Defined.
#[global] Instance account_eq_dec : EqDecision Account.
Proof. solve_decision. Defined.

(** One event's effect, with the [i64] arithmetic of a release build. *)
Definition apply_account (a : Account) (e : AccountEvent) : Account :=
  match e with
  | Opened owner => mkAccount owner (balance a)
  | Deposited cents => mkAccount (owner a) (as_i64 (balance a + as_i64 cents))
  | Withdrawn cents => mkAccount (owner a) (as_i64 (balance a - as_i64 cents))
  end.

Class BankCodecs := { #[global] codec_account_event :: Json AccountEvent; #[global] codec_account :: Json Account }.
Class BankCodecLaws `{BankCodecs} : Prop := {
  #[global] codec_account_event_law :: JsonLaw AccountEvent;
  #[global] codec_account_law :: JsonLaw Account;
}.

Section account.
Context `{BankCodecs}.

(** [Account::apply]; [None] is a program that has panicked on an event it
    cannot read. *)
Definition Account_apply (a : option Account) (e : Event) : option Account :=
  match a, Event_json AccountEvent e with
  | Some a, Ok ae => Some (apply_account a ae)
  | _, _ => None
  end.

Definition Account_snapshot (a : option Account) : R bytes :=
  match a with Some a => Ok (to_vec a) | None => Err (InvalidInput NoSnapshotImpl) end.

Definition Account_restore (state : bytes) : R (option Account) :=
  match from_slice state with Some a => Ok (Some a) | None => Err Encoding end.

#[global] Instance account_aggregate : Aggregate (option Account) := {|
  agg_default := Some (mkAccount "" 0);
  agg_apply := Account_apply;
  agg_snapshot := Account_snapshot;
  agg_restore := Account_restore;
|}.
End account.

(** ** What an account is worth *)

Definition amount (e : AccountEvent) : Z :=
  match e with Opened _ => 0 | Deposited cents => cents | Withdrawn cents => - cents end.

Definition total (es : list AccountEvent) : Z := foldr (λ e n, amount e + n) 0 es.

(** The owner named last. *)
Definition last_owner (es : list AccountEvent) : string :=
  fold_left (λ o e, match e with Opened o => o | _ => o end) es "".

Lemma as_i64_eq z : as_i64 z = (z + 2 ^ 63) `mod` 2 ^ 64 - 2 ^ 63.
Proof.
  unfold as_i64. rewrite U64_eq. change 18446744073709551616 with (2 ^ 64). rewrite <-Zplus_mod_idemp_l.
  pose proof (Z.mod_pos_bound z (2 ^ 64) ltac:(lia)). destruct (Z.ltb_spec (z `mod` 2 ^ 64) (2 ^ 63)).
  - rewrite (Z.mod_small (z `mod` 2 ^ 64 + 2 ^ 63)); lia.
  - rewrite <-(Z.mod_unique (z `mod` 2 ^ 64 + 2 ^ 63) (2 ^ 64) 1 (z `mod` 2 ^ 64 - 2 ^ 63)); lia.
Qed.

Lemma as_i64_add a b : as_i64 (as_i64 a + b) = as_i64 (a + b).
Proof.
  rewrite !as_i64_eq. f_equal. replace ((a + 2 ^ 63) `mod` 2 ^ 64 - 2 ^ 63 + b + 2 ^ 63) with ((a + 2 ^ 63) `mod` 2 ^ 64 + b) by lia.
  rewrite Zplus_mod_idemp_l. f_equal. lia.
Qed.

Lemma as_i64_opp a : as_i64 (- as_i64 a) = as_i64 (- a).
Proof.
  rewrite !as_i64_eq. f_equal. replace (- ((a + 2 ^ 63) `mod` 2 ^ 64 - 2 ^ 63) + 2 ^ 63) with (2 ^ 64 - (a + 2 ^ 63) `mod` 2 ^ 64) by lia.
  rewrite Zminus_mod_idemp_r. f_equal. lia.
Qed.

Lemma as_i64_idemp a : as_i64 (as_i64 a) = as_i64 a.
Proof. pose proof (as_i64_add a 0) as E. by rewrite !Z.add_0_r in E. Qed.

Lemma apply_amount a e : as_i64 (balance a) = balance a → balance (apply_account a e) = as_i64 (balance a + amount e).
Proof.
  intros Ha. destruct e as [o|n|n]; cbn [apply_account balance amount].
  - by rewrite Z.add_0_r.
  - by rewrite Z.add_comm, as_i64_add, Z.add_comm.
  - replace (balance a - as_i64 n) with (- as_i64 n + balance a) by lia.
    rewrite <-as_i64_add, as_i64_opp, as_i64_add. f_equal. lia.
Qed.

Lemma apply_accounts a es :
  as_i64 (balance a) = balance a →
  balance (fold_left apply_account es a) = as_i64 (balance a + total es)
  ∧ owner (fold_left apply_account es a) = fold_left (λ o e, match e with Opened o => o | _ => o end) es (owner a).
Proof.
  revert a. induction es as [|e es IH]; intros a Ha; cbn [fold_left total foldr].
  - by rewrite Z.add_0_r.
  - pose proof (apply_amount a e Ha) as E. destruct (IH (apply_account a e)) as [-> ->]; [by rewrite E, as_i64_idemp|].
    rewrite E, as_i64_add. split; [f_equal; unfold total; lia|]. by destruct e.
Qed.

(** The stream holds the events [es]. *)
Definition account_log `{BankCodecs} (l : list Envelope) (es : list AccountEvent) : Prop :=
  Forall2 (λ env e, from_slice (env_data env) = Some e) l es.

Lemma replay_account `{BankCodecs} l es : account_log l es →
  replay (option Account) l = Some (fold_left apply_account es (mkAccount "" 0)).
Proof.
  intros Hl. unfold replay. cbn [agg_default agg_apply account_aggregate]. generalize (mkAccount "" 0).
  induction Hl as [|env e l es He Hl IH]; intros a; [done|]. cbn [fmap list_fmap fold_left].
  rewrite <-IH. f_equal. unfold Account_apply, Event_json. cbn. by rewrite He.
Qed.

Section bank_laws.
Context `{SlateDbLaws} `{CodecLaws} `{BankCodecLaws}.

Lemma account_lawful : lawful (option Account).
Proof.
  intros [a|] x E; [|discriminate E]. cbn in E. injection E as <-. cbn. unfold Account_restore. by rewrite from_to_vec.
Qed.

(** Rehydrating an account, from a snapshot or not, gives the owner named last
    and, as a 64-bit integer, what was deposited less what was withdrawn. *)
Theorem rehydrate_account d s l es :
  wf d → slash_free s → hist d s l → StronglySorted version_lt l → honest (option Account) d s l → account_log l es →
  rehydrate (option Account) d s
  = Ok (Some (mkAccount (last_owner es) (as_i64 (total es))), env_version <$> last l).
Proof.
  intros Hwf Hs Hl Hsort Hhon Hlog. rewrite (rehydrate_honest _ d s l) by done. rewrite (replay_account l es) by done.
  destruct (apply_accounts (mkAccount "" 0) es eq_refl) as [E1 E2]. do 3 f_equal.
  destruct (fold_left apply_account es (mkAccount "" 0)) as [o n]. cbn in *. by rewrite E1, E2.
Qed.
End bank_laws.

(** ** The program *)

(** The lines it prints. *)
Inductive Line :=
| LCommitted (first last : Version)
| LHas (owner : string) (cents : Z)
| LTailed (version : Version) (event_type : string)
| LCompacted (through : Version) (stream : string)
| LRehydrated (version : option Version) (cents : Z).

(** How it ends. *)
Inductive Exit := Exited (r : R unit) | Crashed.

Section main.
Context `{SlateDb} `{Codecs} `{BankCodecs}.

(** The loop over the tail: up to the event at version 3, the end of the tail
    or an error; [None] when it still waits after all polls, until the timeout. *)
Fixpoint tailed (events : list (R Event)) : option (list Line) :=
  match events with
  | [] => None
  | Err _ :: _ => Some []
  | Ok e :: events =>
      let line := LTailed (ev_version e) (ev_type e) in
      if ev_version e =? 3 then Some [line]
      else match tailed events with Some lines => Some (line :: lines) | None => None end
  end.

(** From the compaction on. *)
Definition bank_compact (o : Oracle) (watch : list DbStatus) (d : db) : Exit * list Line * db :=
  match compact (option Account) o (λ d, d) watch "account-42" d with
  | (Err e, d) => (Exited (Err e), [], d)
  | (Ok record, d) =>
      let line := LCompacted (cr_through_version record) (cr_stream record) in
      match rehydrate (option Account) d "account-42" with
      | Err e => (Exited (Err e), [line], d)
      | Ok (None, _) => (Crashed, [line], d)
      | Ok (Some a, version) => (Exited (Ok tt), [line; LRehydrated version (balance a)], d)
      end
  end.

(** From the tail on; the reader polls [early] times before it sees the last
    append. *)
Definition bank_tail (o : nat → nat → Oracle) (watch : list DbStatus) (early : nat) (d : db) : Exit * list Line * db :=
  match append (o 2%nat) quiet "account-42" (Exact 2) [NewEvent_json "deposited" (Deposited 500)] d with
  | (Err e, d') => (Exited (Err e), [], d')
  | (Ok _, d') =>
      match tailed (follow_stream "account-42" 0 (replicate early d ++ [d'])) with
      | None => (Crashed, [], d')
      | Some lines =>
          let '(r, more, d') := bank_compact (o 3%nat 0%nat) watch d' in (r, lines ++ more, d')
      end
  end.

(** [main] after both handles are open. *)
Definition bank_main (o : nat → nat → Oracle) (watch : list DbStatus) (early : nat) (d : db) : Exit * list Line * db :=
  match append (o 0%nat) quiet "account-42" NoStream
      [NewEvent_json "opened" (Opened "ada"); NewEvent_json "deposited" (Deposited 10000)] d with
  | (Err e, d) => (Exited (Err e), [], d)
  | (Ok commit, d) =>
      let line := LCommitted (first_version commit) (last_version commit) in
      match rehydrate (option Account) d "account-42" with
      | Err e => (Exited (Err e), [line], d)
      | Ok (None, _) => (Crashed, [line], d)
      | Ok (Some a, None) => (Crashed, [line; LHas (owner a) (balance a)], d)
      | Ok (Some a, Some version) =>
          let lines := [line; LHas (owner a) (balance a)] in
          match append (o 1%nat) quiet "account-42" (Exact version) [NewEvent_json "withdrawn" (Withdrawn 2500)] d with
          | (Err e, d) => (Exited (Err e), lines, d)
          | (Ok _, d) => let '(r, more, d) := bank_tail o watch early d in (r, lines ++ more, d)
          end
      end
  end.
End main.

(** ** A run *)

Import Samples.

Module BankSamples.
#[export] Instance account_event_countable : Countable AccountEvent.
Proof.
  apply (inj_countable' (λ e, match e with Opened o => inl o | Deposited n => inr (inl n) | Withdrawn n => inr (inr n) end)
    (λ x, match x with inl o => Opened o | inr (inl n) => Deposited n | inr (inr n) => Withdrawn n end)). by intros [].
Defined.

#[export] Instance account_countable : Countable Account.
Proof. apply (inj_countable' (λ a, (owner a, balance a)) (λ '(o, n), mkAccount o n)). by intros []. Defined.

#[export] Instance sample_bank_codecs : BankCodecs := {|
  codec_account_event := json_of_countable AccountEvent;
  codec_account := json_of_countable Account;
|}.

#[export] Instance sample_bank_laws : BankCodecLaws.
Proof. split; apply json_of_countable_law. Qed.
End BankSamples.
Import BankSamples.

(** The example prints what its comments say, on an empty store. *)
Theorem bank_main_prints :
  (bank_main (λ i, orc (100 * i)) [mkStatus 9 false] 2 mem_empty).1
  = (Exited (Ok tt),
     [LCommitted 0 1; LHas "ada" 10000; LTailed 0 "opened"; LTailed 1 "deposited"; LTailed 2 "withdrawn";
      LTailed 3 "deposited"; LCompacted 3 "account-42"; LRehydrated (Some 3) 8000]).
Proof. run. Qed.
