(* ===== verification/FsSnapshots.v ===== *)
(** * The snapshot example ([examples/fs_snapshots.rs])

    A volume of paths and contents whose checkpoints are manifests of delta
    segments in a bucket of its own.  A panic of the program is [None]. *)

From S2P Require Import Prelude Text Slate Types Keys Kv Fork Store Batch Append Wf Commit.
From S2P Require Import Appended Ops Purge History Txn Invariant Samples ForkThms SnapshotThms ReadThms Reader Frames.
Local Open Scope Z_scope.

Inductive FsEvent :=
| FWrite (path content : string)
| FDelete (path : string).

(** [FsImage], a [HashMap]. *)
Abbreviation Files := (gmap string string).

Record Manifest := mkManifest { segments : list string }.

#[global] Instance fs_event_eq_dec : EqDecision FsEvent.
Proof. solve_decision. Defined.
#[global] Instance fs_manifest_eq_dec : EqDecision Manifest.
Proof. solve_decision. Defined.

Class FilesCodecs := {
  #[global] codec_fs_event :: Json FsEvent;
  #[global] codec_files :: Json Files;
  #[global] codec_fs_manifest :: Json Manifest;
}.
Class FilesCodecLaws `{FilesCodecs} : Prop := {
  #[global] codec_fs_event_law :: JsonLaw FsEvent;
  #[global] codec_files_law :: JsonLaw Files;
  #[global] codec_fs_manifest_law :: JsonLaw Manifest;
}.

(** One event's effect. *)
Definition apply_files (image : Files) (e : FsEvent) : Files :=
  match e with
  | FWrite path content => <[path := content]> image
  | FDelete path => delete path image
  end.

Section program.
Context `{SlateDb} `{Codecs} `{FilesCodecs}.

(** [apply] *)
Definition fs_apply (image : option Files) (e : Event) : option Files :=
  match image, Event_json FsEvent e with
  | Some image, Ok e => Some (apply_files image e)
  | _, _ => None
  end.

(** The loop of [mount] over the segments, new over old. *)
Fixpoint load (bucket : gmap string bytes) (image : Files) (segs : list string) : R (option Files) :=
  match segs with
  | [] => Ok (Some image)
  | seg :: segs =>
      match bucket !! seg with
      | None => Ok None
      | Some x =>
          match from_slice x with
          | None => Err Encoding
          | Some delta => load bucket (delta ∪ image) segs
          end
      end
  end.

(** [mount] *)
Definition mount (d : db) (bucket : gmap string bytes) (vol : string) : R (option Files * option Version) :=
  let? snap := latest_snapshot d vol in
  let? (manifest, checkpoint_tip) :=
    match snap with
    | Some s =>
        match from_slice (sn_state s) with
        | Some m => Ok (m, Some (sn_through_version s))
        | None => Err Encoding
        end
    | None => Ok (mkManifest [], None)
    end in
  let from := map_or 0 (λ v, u64_add v 1) checkpoint_tip in
  let? image := load bucket ∅ (segments manifest) in
  match image with
  | None => Ok (None, None)
  | Some image =>
      let? (image, backlog_tip) := fold d vol (Included from, Unbounded) (Some image) fs_apply in
      Ok (image, match backlog_tip with Some v => Some v | None => checkpoint_tip end)
  end.

(** The manifest [checkpoint] extends. *)
Definition last_manifest (snap : option SnapshotRecord) : option Manifest :=
  match snap with
  | Some s => from_slice (sn_state s)
  | None => Some (mkManifest [])
  end.

(** [checkpoint] *)
Definition checkpoint (o : Oracle) (watch : list DbStatus) (vol : string) (bucket : gmap string bytes) (d : db) :
    option (R unit) * gmap string bytes * db :=
  match latest_snapshot d vol with
  | Err e => (Some (Err e), bucket, d)
  | Ok snap =>
      let from := map_or 0 (λ s, u64_add (sn_through_version s) 1) snap in
      match fold d vol (Included from, Unbounded) (Some ∅) fs_apply with
      | Err e => (Some (Err e), bucket, d)
      | Ok (None, _) => (None, bucket, d)
      | Ok (Some _, None) => (Some (Ok tt), bucket, d)
      | Ok (Some delta, Some tip) =>
          match last_manifest snap with
          | None => (None, bucket, d)
          | Some manifest =>
              let seg_id := o_ulid o 1 in
              let bucket := <[seg_id := to_vec delta]> bucket in
              let '(r, d) := publish_snapshot o (λ d, d) watch vol (mkCompaction vol tip 0 None 0)
                               (to_vec (mkManifest (segments manifest ++ [seg_id]))) d in
              (Some r, bucket, d)
          end
      end
  end.

(** A mount is a rehydration: its snapshots restore from the bucket. *)
Definition files_aggregate (bucket : gmap string bytes) : Aggregate (option Files) := {|
  agg_default := Some ∅;
  agg_apply := fs_apply;
  agg_snapshot := no_snapshot;
  agg_restore state :=
    match from_slice state with
    | Some m => load bucket ∅ (segments m)
    | None => Err Encoding
    end;
|}.

Lemma mount_rehydrate d b vol :
  (∀ r, latest_snapshot d vol = Ok (Some r) → ∃ im, agg_restore (Aggregate := files_aggregate b) (sn_state r) = Ok (Some im)) →
  mount d b vol = @rehydrate _ _ (option Files) (files_aggregate b) d vol.
Proof.
  intros Hr. unfold mount, rehydrate. destruct (latest_snapshot d vol) as [[r|]|e]; [| |done].
  - destruct (Hr r eq_refl) as [im E]. cbn [agg_restore files_aggregate] in *.
    cbn [rbind]. destruct (from_slice (sn_state r)) as [m|]; [|done]. cbn [rbind map_or]. rewrite E. cbn [rbind agg_apply].
    destruct (fold _ _ _ _ _) as [[a t]|e]; [|done]. by destruct t.
  - cbn [rbind map_or segments load agg_default agg_apply files_aggregate].
    destruct (fold _ _ _ _ _) as [[a t]|e]; [|done]. by destruct t.
Qed.
End program.

(** ** Mounts after checkpoints *)

(** The stream holds the events [es]. *)
Definition files_log `{FilesCodecs} (l : list Envelope) (es : list FsEvent) : Prop :=
  Forall2 (λ env e, from_slice (env_data env) = Some e) l es.

Definition is_write (e : FsEvent) : Prop := match e with FWrite _ _ => True | FDelete _ => False end.

Lemma apply_log `{FilesCodecs} l es im : files_log l es →
  fold_left fs_apply (from_parts <$> l) (Some im) = Some (fold_left apply_files es im).
Proof.
  intros Hl. revert im. induction Hl as [|env e l es He Hl IH]; intros im; [done|]. cbn [fmap list_fmap fold_left].
  rewrite <-IH. f_equal. unfold fs_apply, Event_json. cbn. by rewrite He.
Qed.

Lemma writes_over es im x : Forall is_write es → fold_left apply_files es (x ∪ im) = fold_left apply_files es x ∪ im.
Proof.
  intros He. revert x. induction He as [|e es He Hes IH]; intros x; [done|]. cbn [fold_left]. destruct e as [p c|]; [|done].
  cbn [apply_files]. by rewrite <-IH, insert_union_l.
Qed.

Lemma load_files_app `{FilesCodecs} b segs1 segs2 im im' :
  load b im segs1 = Ok (Some im') → load b im (segs1 ++ segs2) = load b im' segs2.
Proof.
  revert im. induction segs1 as [|s segs1 IH]; intros im; [by intros [= <-]|]. cbn [load app].
  destruct (b !! s) as [x|]; [|done]. destruct (from_slice x); [|done]. apply IH.
Qed.

Lemma load_put `{FilesCodecs} b segs im s x : s ∉ segs → load (<[s := x]> b) im segs = load b im segs.
Proof.
  revert im. induction segs as [|s' segs IH]; intros im Hs; [done|]. apply not_elem_of_cons in Hs as [Hne Hs]. cbn [load].
  rewrite lookup_insert_ne by done. destruct (b !! s') as [y|]; [|done]. destruct (from_slice y); [|done]. by apply IH.
Qed.

Lemma files_log_filter `{FilesCodecs} (P : Envelope → Prop) `{∀ x, Decision (P x)} l es :
  files_log l es → ∃ es', files_log (filter P l) es' ∧ (Forall is_write es → Forall is_write es').
Proof.
  induction 1 as [|env e l es He Hl (es' & Hl' & Hw)]; [by exists []; split; [constructor|]|]. rewrite filter_cons.
  destruct (decide (P env)); [|exists es'; split; [done|by intros [_ ?]%Forall_cons; auto]].
  exists (e :: es'). split; [by constructor|]. intros [? ?]%Forall_cons. constructor; auto.
Qed.

Section files_laws.
Context `{SlateDbLaws} `{CodecLaws} `{FilesCodecLaws}.

(** The checkpoints of [vol] in [b] load to what they cover. *)
Definition sound (b : gmap string bytes) (d : db) (vol : string) (l : list Envelope) : Prop :=
  @honest _ _ (option Files) (files_aggregate b) d vol l.

Lemma replay_files b l es : files_log l es →
  @replay (option Files) (files_aggregate b) l = Some (fold_left apply_files es ∅).
Proof. apply apply_log. Qed.

(** A mount gives the replay of the whole history, however much of it the
    checkpoints cover. *)
Theorem example_mount_replays b d vol l es :
  wf d → slash_free vol → hist d vol l → StronglySorted version_lt l → sound b d vol l → files_log l es →
  mount d b vol = Ok (Some (fold_left apply_files es ∅), env_version <$> last l).
Proof.
  intros Hwf Hs Hl Hsort Hhon Hlog. rewrite mount_rehydrate.
  - rewrite (rehydrate_honest _ d vol l) by done. by rewrite (replay_files b l es).
  - intros r Hr. destruct (Hhon r Hr) as [_ E]. destruct (files_log_filter (λ e, env_version e ≤ sn_through_version r) l es Hlog)
      as (es' & Hlog' & _). rewrite E, (replay_files b _ es') by done. by eexists.
Qed.

(** What a checkpoint starts from. *)
Lemma checkpoint_start b d vol l :
  wf d → slash_free vol → hist d vol l → StronglySorted version_lt l → sound b d vol l → (∃ es, files_log l es) →
  ∃ snap m im early late, latest_snapshot d vol = Ok snap ∧ last_manifest snap = Some m
    ∧ load b ∅ (segments m) = Ok (Some im) ∧ l = early ++ late
    ∧ fold_left fs_apply (from_parts <$> early) (Some ∅) = Some im
    ∧ fold d vol (Included (map_or 0 (λ s, u64_add (sn_through_version s) 1) snap), Unbounded) (Some ∅) fs_apply
      = Ok (fold_left fs_apply (from_parts <$> late) (Some ∅), env_version <$> last late).
Proof.
  intros Hwf Hs Hl Hsort Hhon [es Hes].
  destruct (snapshot_shaped d vol (wf_shaped _ Hwf) Hs) as ([r|] & Hr & Hn); cbn [from_option] in Hn.
  - destruct (Hhon r Hr) as [_ E]. destruct (files_log_filter (λ e, env_version e ≤ sn_through_version r) l es Hes)
      as (es' & Hlog' & _). rewrite (replay_files b _ es') in E by done. cbn [agg_restore files_aggregate] in E.
    destruct (from_slice (sn_state r)) as [m|] eqn:Em; [|done].
    exists (Some r), m, (fold_left apply_files es' ∅), (upto (sn_through_version r) l), (within (sn_through_version r + 1) None l).
    split_and!; [done|done|done|by apply history_split|by apply apply_log|]. cbn [map_or].
    assert (u64_add (sn_through_version r) 1 = sn_through_version r + 1) as -> by (unfold key_num in Hn; by u64_norm).
    apply fold_history; [done..|]. unfold key_num, key_lim in *. lia.
  - exists None, (mkManifest []), ∅, [], l. split_and!; [done..|]. cbn [map_or].
    assert (within 0 None l = l) as E.
    { apply filter_all. intros e He. destruct (hist_num d vol l e (wf_shaped _ Hwf) Hs Hl He) as [Hv _].
      unfold in_window. simpl. rewrite andb_true_r. by apply Z.leb_le. }
    pose proof (fold_history d vol l 0 (Some (∅ : Files)) fs_apply Hwf Hs Hl) as Hf. rewrite E in Hf. apply Hf. pose proof KEY_MAX_pos. unfold key_lim. lia.
Qed.

(** A checkpoint of a volume that only writes keeps the history and the
    soundness of its checkpoints: later mounts give the same files. *)
Theorem checkpoint_sound o watch vol b d l es b' d' :
  wf d → slash_free vol → oracle_ok o → hist d vol l → StronglySorted version_lt l → sound b d vol l →
  files_log l es → Forall is_write es → snaps_below d vol → key_num (durable_sequence d + 1) →
  (∀ snap m, latest_snapshot d vol = Ok snap → last_manifest snap = Some m → o_ulid o 1 ∉ segments m) →
  checkpoint o watch vol b d = (Some (Ok tt), b', d') →
  wf d' ∧ hist d' vol l ∧ sound b' d' vol l.
Proof.
  intros Hwf Hs Ho Hl Hsort Hhon Hes Hw Hbelow Hseq Hfresh E.
  destruct (checkpoint_start b d vol l Hwf Hs Hl Hsort Hhon (ex_intro _ es Hes))
    as (snap & m & im & early & late & Esn & Em & Hload & Hsplit & Hearly & Hfold).
  unfold checkpoint in E. rewrite Esn, Hfold in E. clear Hfold. specialize (Hfresh snap m Esn Em).
  unfold files_log in Hes. rewrite Hsplit in Hes. apply Forall2_app_inv_l in Hes as (es1 & es2 & He1 & He2 & ->).
  rewrite (apply_log late es2) in E by done. rewrite (apply_log early es1) in Hearly by done. injection Hearly as <-.
  destruct (env_version <$> last late) as [tip|] eqn:Etip; [|by injection E as <- <-]. rewrite Em in E.
  set (rec := mkCompaction vol tip 0 None 0) in E. set (state := to_vec (mkManifest (segments m ++ [o_ulid o 1]))) in E.
  destruct (publish_snapshot o (λ d, d) watch vol rec state d) as [r d1] eqn:Ep. injection E as -> <- <-.
  apply publish_Ok in Ep. rewrite u64_add_small in Ep by (unfold key_num in Hseq; u64_facts; lia).
  assert (env_version <$> last l = Some tip) as Hlast.
  { rewrite Hsplit, last_app. by destruct (last late). }
  pose proof (last_num d vol l tip Hwf Hs Hl Hlast) as Hth.
  pose proof (published_wf d o vol rec state Hwf Hs Ho Hth Hseq) as Hwf1.
  pose proof (published_hist d o vol rec state Hwf Hs Ho Hth Hseq vol l Hs Hl) as Hl1.
  pose proof (published_latest d o vol rec state Hwf Hs Ho Hth Hseq Hbelow) as Hsn1.
  rewrite <-Ep in Hwf1, Hl1, Hsn1. split_and!; [done|done|].
  intros r Hr. rewrite Hsn1 in Hr. injection Hr as <-. cbn [sn_state sn_through_version rec cr_through_version]. split.
  - destruct (last l) as [e|] eqn:El; [|done]. exists e. split; [by apply last_Some_elem_of|by injection Hlast].
  - rewrite (upto_last l tip) by done. cbn [agg_restore files_aggregate]. unfold state. rewrite from_to_vec. cbn [segments].
    rewrite (load_files_app _ _ _ _ (fold_left apply_files es1 ∅)) by by rewrite load_put. cbn [load]. rewrite lookup_insert_eq, from_to_vec.
    rewrite (replay_files _ l (es1 ++ es2)) by (rewrite Hsplit; by apply Forall2_app). do 2 f_equal.
    rewrite fold_left_app. apply Forall_app in Hw as [_ Hw].
    by rewrite <-writes_over, (left_id_L ∅ (∪)).
Qed.
End files_laws.

(** ** The program *)

Definition decimal (v : Z) : string := fixed_dec (ndigits v) v.

Section churn.
Context `{SlateDb} `{Codecs} `{FilesCodecs}.

(** The event of commit [i]. *)
Definition churn_event (i : Z) : NewEvent :=
  NewEvent_json "write" (FWrite ("/var/log/" +:+ decimal (i `mod` 10) +:+ ".log") ("gen " +:+ decimal i)).

(** The loop of [main]: [n] commits from commit [i] on, and a checkpoint after
    each [every] of them. *)
Fixpoint churn (o : nat → nat → Oracle) (oc : nat → Oracle) (watch : list DbStatus) (every : Z) (n i : nat) (v : option Version)
    (bucket : gmap string bytes) (d : db) : option (R unit) * gmap string bytes * db :=
  match n with
  | O => (Some (Ok tt), bucket, d)
  | S n =>
      match append (o i) quiet "vol-7" (map_or NoStream Exact v) [churn_event (Z.of_nat i)] d with
      | (Err e, d) => (Some (Err e), bucket, d)
      | (Ok commit, d) =>
          let '(r, bucket, d) :=
            if (Z.of_nat i + 1) `mod` every =? 0 then checkpoint (oc i) watch "vol-7" bucket d else (Some (Ok tt), bucket, d) in
          match r with
          | Some (Ok _) => churn o oc watch every n (S i) (Some (last_version commit)) bucket d
          | r => (r, bucket, d)
          end
      end
  end.

(** [main] over [n] commits: the files and the tip it mounts; [None] when it
    panics, as its assertion does. *)
Definition churn_main (o : nat → nat → Oracle) (oc : nat → Oracle) (watch : list DbStatus) (every : Z) (n : nat) (d : db) :
    option (R (nat * option Version)) :=
  let '(r, bucket, d) := churn o oc watch every n 0 None ∅ d in
  match r with
  | None => None
  | Some (Err e) => Some (Err e)
  | Some (Ok _) =>
      match mount d bucket "vol-7" with
      | Err e => Some (Err e)
      | Ok (None, _) => None
      | Ok (Some image, tip) => if (size image =? 10)%nat then Some (Ok (size image, tip)) else None
      end
  end.
End churn.

(** ** Runs *)

Import Samples.

Module FilesSamples.
#[export] Instance fs_event_countable : Countable FsEvent.
Proof.
  apply (inj_countable' (λ e, match e with FWrite p c => inl (p, c) | FDelete p => inr p end)
    (λ x, match x with inl (p, c) => FWrite p c | inr p => FDelete p end)). by intros [].
Defined.

#[export] Instance fs_manifest_countable : Countable Manifest.
Proof. apply (inj_countable' segments mkManifest). by intros []. Defined.

#[export] Instance sample_files_codecs : FilesCodecs := {|
  codec_fs_event := json_of_countable FsEvent;
  codec_files := json_of_countable Files;
  codec_fs_manifest := json_of_countable Manifest;
|}.

#[export] Instance sample_files_laws : FilesCodecLaws.
Proof. split; apply json_of_countable_law. Qed.
End FilesSamples.
Import FilesSamples.

(** The program with a fifth of its commits: 200, and a checkpoint after every
    50. *)
Theorem churn_mounts :
  churn_main (λ i, orc (10 * i)) (λ i, sample_oracle (10 * i + 5)) [mkStatus 9999 false] 50 200 mem_empty
  = Some (Ok (10%nat, Some 199)).
Proof. run. Qed.

(** A path deleted after a checkpoint is back after the next one: its segment
    does not mention it. *)
Definition files_with (e : FsEvent) (expected : ExpectedVersion) (n : nat) (s : gmap string bytes * db) : gmap string bytes * db :=
  let d := (append (orc n) quiet "w" expected [NewEvent_json "e" e] s.2).2 in
  let '(_, b, d) := checkpoint (sample_oracle (n + 5)) [mkStatus 99 false] "w" s.1 d in (b, d).

Theorem deletion_returns :
  let s1 := files_with (FWrite "/a" "1") NoStream 0 (∅, mem_empty) in
  let s2 := files_with (FDelete "/a") (Exact 0) 10 s1 in
  mount s2.2 s2.1 "w" = Ok (Some {[ "/a" := "1" ]}, Some 1)
  ∧ mount (append (orc 10) quiet "w" (Exact 0) [NewEvent_json "e" (FDelete "/a")] s1.2).2 s1.1 "w" = Ok (Some ∅, Some 1).
Proof. split; run. Qed.
