(* ===== verification/Cli.v ===== *)
(** * The command line ([landslide-fuse/src/bin/landslidefs.rs])

    What [main] makes of its arguments, and the commands that work on a volume
    and end: checkpoint, verify, and one pass of a mirror. *)

From S2P Require Import Prelude Text Slate Types Keys Kv Fork Store Batch Append Wf Commit.
From S2P Require Import Appended Ops Purge History Txn Invariant Samples ForkThms SnapshotThms ReadThms Reader.
From S2P Require Import Frames Bucket Btree Image ImageThms Volume FuseSamples VolumeThms Replica Disk Mirror.
Local Open Scope Z_scope.

Inductive Command :=
| Mount (vol mountpoint : string)
| Follow (vol mountpoint : string) (interval_ms : Z)
| MirrorOnce (vol dir : string)
| MirrorFollow (vol dir : string) (interval_ms : Z)
| Checkpoint (vol : string)
| Verify (vol : string).

(** [Usage] exits with 1, [Missing] is the panic of an [expect]. *)
Inductive Parsed := Run (c : Command) | Usage | Missing.

(** [args.next().and_then(|s| s.parse().ok()).unwrap_or(2000)] *)
Definition interval (args : list string) : Z := default 2000 (head args ≫= parse_u64).

Definition two (args : list string) (f : string → string → list string → Parsed) : Parsed :=
  match args with
  | a :: b :: rest => f a b rest
  | _ => Missing
  end.

(** The arguments after [mirror]. *)
Definition parse_mirror (args : list string) : Parsed :=
  let sub := default "follow" (head args) in
  two (List.tl args) (λ vol dir rest,
    if String.eqb sub "once" then Run (MirrorOnce vol dir)
    else if String.eqb sub "follow" then Run (MirrorFollow vol dir (interval rest))
    else Usage).

(** The arguments of [main]; [fuse] is the feature of that name. *)
Definition parse (fuse : bool) (args : list string) : Parsed :=
  let cmd := default "help" (head args) in
  let rest := List.tl args in
  if fuse && String.eqb cmd "mount" then two rest (λ vol mp _, Run (Mount vol mp))
  else if fuse && String.eqb cmd "follow" then two rest (λ vol mp rest, Run (Follow vol mp (interval rest)))
  else if String.eqb cmd "mirror" then parse_mirror rest
  else if String.eqb cmd "checkpoint" then match rest with vol :: _ => Run (Checkpoint vol) | [] => Missing end
  else if String.eqb cmd "verify" then match rest with vol :: _ => Run (Verify vol) | [] => Missing end
  else Usage.

(** The size the fold of [verify] gives a node. *)
Definition stat_size (n : Node) : Z := match n with File content _ => content_len content | _ => 0 end.

(** The fold of [verify] over the nodes: files and bytes. *)
Definition stats (im : FsImage) : Z * Z :=
  fold_left (λ '(f, b) pn, let s := stat_size pn.2 in (f + (if 0 <? s then 1 else 0), u64_add b s)) (btree_iter im) (0, 0).

(** What [verify] prints. *)
Record Report := mkReport {
  rp_nodes : nat;
  rp_files : Z;
  rp_bytes : Z;
  rp_tail : option Version;
  rp_cached : nat;
}.

Section commands.
Context `{SlateDb} `{Codecs} `{ObjectStore} `{FuseCodecs}.

Definition verify (o : Oracle) (clk : Version → Z) (watch : list DbStatus) (b : bucket) (vol : string) (d : db) : R Report * db :=
  match mount o clk watch b vol d with
  | (Err e, d) => (Err e, d)
  | (Ok v, d) =>
      let '(files, bytes) := stats (image v) in
      (let? tail := volume_tail v d in
       Ok (mkReport (size (image v)) files bytes tail (size (v_blocks v))), d)
  end.

(** The command [checkpoint]: the version it prints. *)
Definition force_checkpoint (oa : nat → Oracle) (o om : Oracle) (now : Z) (clk : Version → Z) (watch : list DbStatus)
    (b : bucket) (vol : string) (d : db) : R Version * bucket * db :=
  match mount om clk watch b vol d with
  | (Err e, d) => (Err e, b, d)
  | (Ok v, d) =>
      let '(r, _, b, d) := checkpoint oa quiet o now clk watch v b d in
      (rmap cr_through_version r, b, d)
  end.
End commands.

(** ** The figures of [verify] *)

Definition nonempty_file (pn : string * Node) : Prop := 0 < stat_size pn.2.

#[global] Instance nonempty_file_dec pn : Decision (nonempty_file pn).
Proof. unfold nonempty_file. apply _. Defined.

Definition content_bytes (im : FsImage) : Z := foldr (λ pn s, stat_size pn.2 + s) 0 (map_to_list im).

Lemma stats_fold l f b : 0 ≤ b < U64 →
  fold_left (λ '(f, b) (pn : string * Node), let s := stat_size pn.2 in (f + (if 0 <? s then 1 else 0), u64_add b s)) l (f, b)
  = (f + Z.of_nat (length (filter nonempty_file l)), (b + foldr (λ pn s, stat_size pn.2 + s) 0 l) `mod` U64).
Proof.
  revert f b. induction l as [|pn l IH]; intros f b Hb; cbn [fold_left].
  - cbn. rewrite !Z.add_0_r. by rewrite Z.mod_small.
  - rewrite IH by apply u64_add_range. rewrite filter_cons. f_equal.
    + destruct (decide (nonempty_file pn)) as [Hp|Hp]; unfold nonempty_file in Hp; cbn [length];
        destruct (Z.ltb_spec 0 (stat_size pn.2)); lia.
    + unfold u64_add. cbn [foldr]. rewrite Zplus_mod_idemp_l. f_equal. lia.
Qed.

Lemma filter_to_list (P : string * Node → Prop) `{∀ x, Decision (P x)} (im : FsImage) :
  map_to_list (filter P im) ≡ₚ filter P (map_to_list im).
Proof.
  apply NoDup_Permutation; [apply NoDup_map_to_list|apply NoDup_filter, NoDup_map_to_list|].
  intros [p n]. rewrite list_elem_of_filter, !elem_of_map_to_list, map_lookup_filter_Some. tauto.
Qed.

(** [verify] counts the files that are not empty and, modulo [2^64], the bytes
    of all contents. *)
Theorem stats_exact im :
  stats im = (Z.of_nat (size (filter nonempty_file im)), content_bytes im `mod` U64).
Proof.
  unfold stats. rewrite stats_fold by (rewrite U64_eq; lia). rewrite !Z.add_0_l. f_equal.
  - rewrite <-length_map_to_list, filter_to_list. f_equal. apply Permutation_length. unfold btree_iter.
    by rewrite merge_sort_Permutation.
  - f_equal. apply foldr_permutation_proper; [apply _|intros x y ? ->; done|lia|apply merge_sort_Permutation].
Qed.

(** ** Runs *)

Import Samples FuseSamples.

Theorem parsed_arguments :
  parse true ["follow"; "v"; "/mnt"; "500"] = Run (Follow "v" "/mnt" 500)
  ∧ parse true ["follow"; "v"; "/mnt"; "soon"] = Run (Follow "v" "/mnt" 2000)
  ∧ parse false ["mount"; "v"; "/mnt"] = Usage
  ∧ parse true ["mirror"; "once"; "v"; "/srv/m"] = Run (MirrorOnce "v" "/srv/m")
  ∧ parse true ["mirror"; "v"; "/srv/m"] = Missing
  ∧ parse true [] = Usage.
Proof. split_and!; run. Qed.

(** A writer that mounted the volume and wrote to it. *)
Definition writer : R Volume * db := mount (sample_oracle 70) (λ _, 16) [mkStatus 99 false] ∅ "v" dm1.
Definition dirty : Volume := write_file 17 (opened writer) "/a/g" 0 [x21].
Definition report : R Report * db := verify (sample_oracle 80) (λ _, 18) [mkStatus 99 false] ∅ "v" writer.2.

(** [verify] mounts the volume it looks at, which takes the fence: the writer
    cannot commit any more. *)
Theorem verify_fences_writer :
  report.1 = Ok (mkReport 2 1 2 (Some 1) 0)
  ∧ (Volume_commit (orc 90) quiet 17 dirty (∅ : gmap string bytes) writer.2).1.1.1 = Ok tt
  ∧ (Volume_commit (orc 90) quiet 17 dirty (∅ : gmap string bytes) report.2).1.1.1
    = Err (FenceMismatch "v" (o_ulid (sample_oracle 80) 0)).
Proof. split_and!; run. Qed.
