(* ===== verification/Churn.v ===== *)
(** * The churn probe ([landslide-sqlite/examples/churn.rs])

    The generator of its keys; the rest of the program measures and prints. *)

From S2P Require Import Prelude.
Local Open Scope Z_scope.

(** [u64::wrapping_mul] *)
Definition wrapping_mul (a b : Z) : Z := (a * b) `mod` U64.

(** The three shifts of [next_key]; [<<] drops the bits past the width. *)
Definition shift_right (k x : Z) : Z := Z.lxor x (Z.shiftr x k).
Definition shift_left (k x : Z) : Z := Z.lxor x (Z.shiftl x k `mod` U64).
Definition xorshift (rng : Z) : Z := shift_right 27 (shift_left 25 (shift_right 12 rng)).

(** [next_key]: the key and the state after it; [None] is a remainder by zero. *)
Definition next_key (rng keys : Z) : option Z * Z :=
  let rng := xorshift rng in
  (if keys =? 0 then None else Some (wrapping_mul rng 2685821657736338717 `mod` keys), rng).

Definition u64 (x : Z) : Prop := 0 ≤ x < U64.

Lemma u64_bits x : 0 ≤ x → (∀ i, 64 ≤ i → Z.testbit x i = false) → u64 x.
Proof.
  intros Hx Hb. split; [done|]. rewrite U64_eq. change 18446744073709551616 with (2 ^ 64).
  destruct (decide (x = 0)) as [->|Hne]; [lia|]. apply Z.log2_lt_pow2; [lia|].
  destruct (Z.lt_ge_cases (Z.log2 x) 64) as [H|H]; [done|]. pose proof (Z.bit_log2 x ltac:(lia)) as Hbit.
  by rewrite Hb in Hbit.
Qed.

Lemma u64_high x i : u64 x → 64 ≤ i → Z.testbit x i = false.
Proof.
  intros [H0 H1] Hi. rewrite U64_eq in H1. destruct (decide (x = 0)) as [->|Hne]; [apply Z.bits_0|].
  apply Z.bits_above_log2; [done|]. enough (Z.log2 x < 64) by lia. apply Z.log2_lt_pow2; [lia|]. exact H1.
Qed.

Lemma mod_bits x i : 0 ≤ i → Z.testbit (x `mod` U64) i = (i <? 64) && Z.testbit x i.
Proof.
  intros Hi. rewrite U64_eq. change 18446744073709551616 with (2 ^ 64). destruct (Z.ltb_spec i 64).
  - by rewrite Z.mod_pow2_bits_low.
  - rewrite Z.mod_pow2_bits_high by lia. done.
Qed.

Lemma u64_lxor x y : u64 x → u64 y → u64 (Z.lxor x y).
Proof.
  intros Hx Hy. apply u64_bits; [apply Z.lxor_nonneg; split; intros _; [apply Hy|apply Hx]|].
  intros i Hi. rewrite Z.lxor_spec. by rewrite !u64_high.
Qed.

Lemma u64_shiftr k x : 0 ≤ k → u64 x → u64 (Z.shiftr x k).
Proof.
  intros Hk Hx. apply u64_bits; [apply Z.shiftr_nonneg, Hx|]. intros i Hi. rewrite Z.shiftr_spec by lia. apply u64_high; [done|lia].
Qed.

(** A number is not its own shift. *)
Lemma shiftr_fixed k z : 0 < k → u64 z → z = Z.shiftr z k → z = 0.
Proof.
  intros Hk [H0 _] E. rewrite Z.shiftr_div_pow2 in E by lia. destruct (decide (z = 0)) as [|Hne]; [done|].
  assert (1 < 2 ^ k) by (apply Z.pow_gt_1; lia). pose proof (Z.div_lt z (2 ^ k) ltac:(lia) ltac:(lia)). lia.
Qed.

Lemma shiftl_fixed k z : 0 < k → u64 z → z = Z.shiftl z k `mod` U64 → z = 0.
Proof.
  intros Hk Hz E. apply Z.bits_inj_0. intros i. destruct (Z.lt_ge_cases i 0) as [Hi|Hi]; [by apply Z.testbit_neg_r|].
  revert Hi. induction i as [i IH] using (well_founded_induction (Z.lt_wf 0)). intros Hi.
  rewrite E, mod_bits by done. destruct (Z.ltb_spec i 64); [|done]. simpl. rewrite Z.shiftl_spec by done.
  destruct (Z.lt_ge_cases (i - k) 0); [by apply Z.testbit_neg_r|]. apply IH; lia.
Qed.

Lemma shift_right_ok k x : 0 < k → u64 x → u64 (shift_right k x).
Proof. intros Hk Hx. apply u64_lxor; [done|]. apply u64_shiftr; [lia|done]. Qed.

Lemma u64_mod x : u64 (x `mod` U64).
Proof. unfold u64. apply Z.mod_pos_bound. rewrite U64_eq. lia. Qed.

Lemma shift_left_ok k x : u64 x → u64 (shift_left k x).
Proof. intros Hx. apply u64_lxor; [done|apply u64_mod]. Qed.

(** Both shifts are linear, so they are injective when only zero is a fixed point. *)
Lemma shift_right_inj k x y : 0 < k → u64 x → u64 y → shift_right k x = shift_right k y → x = y.
Proof.
  intros Hk Hx Hy E. apply Z.lxor_eq, (shiftr_fixed k); [done|by apply u64_lxor|]. rewrite Z.shiftr_lxor.
  apply Z.lxor_eq. unfold shift_right in E. apply (f_equal (Z.lxor (Z.lxor y (Z.shiftr y k)))) in E. rewrite Z.lxor_nilpotent in E.
  rewrite <-E. apply Z.bits_inj'. intros i _. rewrite !Z.lxor_spec. by destruct (Z.testbit x i), (Z.testbit y i), (Z.testbit _ _), (Z.testbit _ _).
Qed.

Lemma shift_left_inj k x y : 0 < k → u64 x → u64 y → shift_left k x = shift_left k y → x = y.
Proof.
  intros Hk Hx Hy E. apply Z.lxor_eq, (shiftl_fixed k); [done|by apply u64_lxor|].
  assert (Z.shiftl (Z.lxor x y) k `mod` U64 = Z.lxor (Z.shiftl x k `mod` U64) (Z.shiftl y k `mod` U64)) as ->.
  { apply Z.bits_inj'. intros i Hi. rewrite Z.lxor_spec, !mod_bits by done. rewrite Z.shiftl_lxor, Z.lxor_spec.
    by destruct (i <? 64), (Z.testbit (Z.shiftl x k) i), (Z.testbit (Z.shiftl y k) i). }
  apply Z.lxor_eq. unfold shift_left in E. apply (f_equal (Z.lxor (Z.lxor y (Z.shiftl y k `mod` U64)))) in E.
  rewrite Z.lxor_nilpotent in E. rewrite <-E. apply Z.bits_inj'. intros i _. rewrite !Z.lxor_spec.
  by destruct (Z.testbit x i), (Z.testbit y i), (Z.testbit _ _), (Z.testbit _ _).
Qed.

(** The generator's step is a permutation of the 64-bit words that fixes zero:
    from a state that is not zero it never gets stuck. *)
Theorem xorshift_permutes x y :
  u64 x → u64 y → u64 (xorshift x) ∧ (xorshift x = xorshift y → x = y) ∧ (x ≠ 0 → xorshift x ≠ 0).
Proof.
  assert (∀ x y, u64 x → u64 y → xorshift x = xorshift y → x = y) as Hinj.
  { intros a b Ha Hb E. pose proof (shift_right_ok 12 a ltac:(lia) Ha). pose proof (shift_right_ok 12 b ltac:(lia) Hb).
    apply (shift_right_inj 12); [lia|done|done|]. apply (shift_left_inj 25); [lia|done|done|].
    apply (shift_right_inj 27); [lia|by apply shift_left_ok|by apply shift_left_ok|done]. }
  intros Hx Hy. split_and!; [|by apply Hinj|].
  - apply shift_right_ok; [lia|]. apply shift_left_ok, shift_right_ok; [lia|done].
  - intros Hne E. apply Hne, (Hinj x 0); [done|split; [done|rewrite U64_eq; lia]|]. by rewrite E.
Qed.

(** Every key is in range, and the state stays a word that is not zero. *)
Lemma next_key_in rng keys :
  u64 rng → rng ≠ 0 → 0 < keys →
  ∃ k, (next_key rng keys).1 = Some k ∧ 0 ≤ k < keys ∧ u64 (next_key rng keys).2 ∧ (next_key rng keys).2 ≠ 0.
Proof.
  intros Hr Hne Hk. destruct (xorshift_permutes rng 0 Hr) as (Hu & _ & Hz); [split; [done|rewrite U64_eq; lia]|].
  unfold next_key. destruct (Z.eqb_spec keys 0); [lia|]. eexists. split; [done|]. split; [by apply Z.mod_pos_bound|]. split; [done|by apply Hz].
Qed.
