(* ===== verification/Wire.v ===== *)
(** * Wire formats

    What the types of the three crates become in serde's data model, by their
    derives and field attributes, with the base64 field codecs
    ([src/envelope.rs], [landslide-fuse/src/lib.rs], [landslide-sqlite/src/lib.rs]),
    and that each is read back.  serde_json and bincode turn these values into
    bytes; base64's [STANDARD] engine is a parameter. *)

From S2P Require Import Prelude Text Types Btree Sqlite Image.
Local Open Scope Z_scope.

(** ** The data model *)

Local Set Warnings "-register-all".

Inductive Value :=
| VNull
| VNum (z : Z)
| VStr (s : string)
| VBytes (b : bytes)
| VSeq (l : list Value)
| VMap (l : list (string * Value)).

(** Base64's standard alphabet with padding. *)
Class Base64 := { b64_encode : bytes → string; b64_decode : string → option bytes }.
Class Base64Law `{Base64} : Prop := { b64_decode_encode b : b64_decode (b64_encode b) = Some b }.

Definition de_str (v : Value) : option string := match v with VStr s => Some s | _ => None end.

(** A number that fits its type. *)
Definition de_num (lo hi : Z) (v : Value) : option Z :=
  match v with VNum z => if (lo <=? z) && (z <? hi) then Some z else None | _ => None end.
Definition de_u32 : Value → option Z := de_num 0 (2 ^ 32).
Definition de_u64 : Value → option Z := de_num 0 (2 ^ 64).
Definition de_i64 : Value → option Z := de_num (- 2 ^ 63) (2 ^ 63).

Definition de_opt {A} (f : Value → option A) (v : Value) : option (option A) :=
  match v with VNull => Some None | _ => Some <$> f v end.
Definition ser_opt {A} (f : A → Value) (x : option A) : Value := match x with None => VNull | Some x => f x end.

Definition de_vec {A} (f : Value → option A) (v : Value) : option (list A) :=
  match v with VSeq l => mapM f l | _ => None end.
Definition ser_vec {A} (f : A → Value) (l : list A) : Value := VSeq (f <$> l).

(** [BTreeMap<String, _>] *)
Definition ser_map {A} (f : A → Value) (m : gmap string A) : Value := VMap ((λ e, (e.1, f e.2)) <$> btree_iter m).
Definition de_map {A} (f : Value → option A) (v : Value) : option (gmap string A) :=
  match v with
  | VMap l => l ← mapM (λ e, pair e.1 <$> f e.2) l; Some (fold_left (λ m e, <[e.1 := e.2]> m) l ∅)
  | _ => None
  end.

(** [(String, _)] *)
Definition ser_pair {A} (f : A → Value) (e : string * A) : Value := VSeq [VStr e.1; f e.2].
Definition de_pair {A} (f : Value → option A) (v : Value) : option (string * A) :=
  match v with VSeq [k; x] => k ← de_str k; x ← f x; Some (k, x) | _ => None end.

(** The fields of a struct: unknown ones are ignored, a repeated one is an
    error. *)
Fixpoint all_fields (k : string) (l : list (string * Value)) : list Value :=
  match l with
  | [] => []
  | e :: l => if String.eqb e.1 k then e.2 :: all_fields k l else all_fields k l
  end.

Definition field {A} (f : Value → option A) (k : string) (l : list (string * Value)) : option A :=
  match all_fields k l with [v] => f v | _ => None end.

(** ... with a default for a missing field: [Option] fields, [#[serde(default)]]. *)
Definition field_or {A} (x : A) (f : Value → option A) (k : string) (l : list (string * Value)) : option A :=
  match all_fields k l with [] => Some x | [v] => f v | _ => None end.

Definition de_struct {A} (f : list (string * Value) → option A) (v : Value) : option A :=
  match v with VMap l => f l | _ => None end.

(** A struct whose format may be binary.  A human-readable format (JSON) writes
    it as a map; a binary one (bincode) as a tuple, the fields in their order
    without their names, and reads exactly as many as the struct has: none can
    be left out, and a default is never used. *)
Definition ser_struct (human : bool) (fields : list (string * Value)) : Value :=
  if human then VMap fields else VSeq fields.*2.

Definition de_record {A} (human : bool) (names : list string) (f : list (string * Value) → option A) (v : Value) : option A :=
  if human then de_struct f v
  else match v with
  | VSeq l => if (length l =? length names)%nat then f (zip names l) else None
  | _ => None
  end.

(** A byte string: [Vec<u8>] and [Bytes].  A binary format writes a byte string
    as it writes a sequence of bytes; JSON has an array of numbers. *)
Definition de_u8s (v : Value) : option bytes :=
  match v with
  | VBytes b => Some b
  | VSeq l => mapM (λ v, byte_of_Z <$> de_num 0 256 v) l
  | _ => None
  end.

Section wire.
Context `{Base64}.

(** ** Field codecs *)

(** [b64_bytes] *)
Definition b64_bytes_serialize (human : bool) (b : bytes) : Value :=
  if human then VStr (b64_encode b) else VBytes b.
Definition b64_bytes_deserialize (human : bool) (v : Value) : option bytes :=
  if human then s ← de_str v; b64_decode s else de_u8s v.

(** [b64_headers] *)
Definition b64_headers_serialize (human : bool) (h : list (string * bytes)) : Value :=
  if human then ser_vec (ser_pair VStr) ((λ e, (e.1, b64_encode e.2)) <$> h)
  else ser_vec (ser_pair VBytes) h.
Definition b64_headers_deserialize (human : bool) (v : Value) : option (list (string * bytes)) :=
  if human then l ← de_vec (de_pair de_str) v; mapM (λ e, pair e.1 <$> b64_decode e.2) l
  else de_vec (de_pair de_u8s) v.

(** [b64] of landslide-sqlite. *)
Definition sqlite_b64_serialize (human : bool) (b : bytes) : Value :=
  if human then VStr (b64_encode b) else VBytes b.
Definition sqlite_b64_deserialize (human : bool) (v : Value) : option bytes :=
  if human then s ← de_str v; b64_decode s else de_u8s v.

(** [b64] of landslide-fuse. *)
Definition b64_serialize (b : bytes) : Value := VStr (b64_encode b).
Definition b64_deserialize (v : Value) : option bytes := s ← de_str v; b64_decode s.

(** [b64_opt] *)
Definition b64_opt_serialize (b : option bytes) : Value := ser_opt VStr (b64_encode <$> b).
Definition b64_opt_deserialize (v : Value) : option (option bytes) :=
  s ← de_opt de_str v;
  match s with None => Some None | Some s => Some <$> b64_decode s end.

(** ** Envelopes *)

Definition Envelope_FIELDS : list string := ["id"; "type"; "version"; "seq"; "data"; "metadata"; "ts_ms"].

Definition Envelope_serialize (human : bool) (e : Envelope) : Value :=
  ser_struct human [("id", VStr (env_id e)); ("type", VStr (env_type e)); ("version", VNum (env_version e)); ("seq", VNum (env_seq e));
        ("data", b64_bytes_serialize human (env_data e)); ("metadata", b64_headers_serialize human (env_metadata e));
        ("ts_ms", VNum (env_ts_ms e))].

Definition Envelope_deserialize (human : bool) : Value → option Envelope :=
  de_record human Envelope_FIELDS (λ l,
    id ← field de_str "id" l; ty ← field de_str "type" l; version ← field de_u64 "version" l; seq ← field de_u64 "seq" l;
    data ← field (b64_bytes_deserialize human) "data" l;
    metadata ← field_or [] (b64_headers_deserialize human) "metadata" l;
    ts ← field de_i64 "ts_ms" l; Some (mkEnvelope id ty version seq data metadata ts)).

(** ** Records of the store, which are JSON *)

Definition TailRecord_serialize (r : TailRecord) : Value := VMap [("version", VNum (tail_version r)); ("ts_ms", VNum (tail_ts_ms r))].
Definition TailRecord_deserialize : Value → option TailRecord :=
  de_struct (λ l, version ← field de_u64 "version" l; ts ← field de_i64 "ts_ms" l; Some (mkTail version ts)).

Definition ForkRef_serialize (r : ForkRef) : Value := VMap [("stream", VStr (fr_stream r)); ("at_version", VNum (fr_at_version r))].
Definition ForkRef_deserialize : Value → option ForkRef :=
  de_struct (λ l, stream ← field de_str "stream" l; at_version ← field de_u64 "at_version" l; Some (mkForkRef stream at_version)).

Definition SnapshotRecord_serialize (r : SnapshotRecord) : Value :=
  VMap [("through_version", VNum (sn_through_version r)); ("ts_ms", VNum (sn_ts_ms r)); ("state", b64_bytes_serialize true (sn_state r))].
Definition SnapshotRecord_deserialize : Value → option SnapshotRecord :=
  de_struct (λ l, through ← field de_u64 "through_version" l; ts ← field de_i64 "ts_ms" l;
    state ← field (b64_bytes_deserialize true) "state" l; Some (mkSnapshot through ts state)).

(** A field with [skip_serializing_if = "Option::is_none"]. *)
Definition if_some {A} (k : string) (f : A → Value) (x : option A) : list (string * Value) :=
  match x with None => [] | Some x => [(k, f x)] end.

Definition CompactionRecord_serialize (r : CompactionRecord) : Value :=
  VMap ([("stream", VStr (cr_stream r)); ("through_version", VNum (cr_through_version r));
         ("events_compacted", VNum (cr_events_compacted r))]
        ++ if_some "job_id" VStr (cr_job_id r) ++ [("ts_ms", VNum (cr_ts_ms r))]).
Definition CompactionRecord_deserialize : Value → option CompactionRecord :=
  de_struct (λ l, stream ← field de_str "stream" l; through ← field de_u64 "through_version" l;
    n ← field de_u64 "events_compacted" l; job ← field_or None (de_opt de_str) "job_id" l;
    ts ← field de_i64 "ts_ms" l; Some (mkCompaction stream through n job ts)).

(** [JobEvent], tagged by [type] *)
Definition JobEvent_serialize (e : JobEvent) : Value :=
  match e with
  | Requested job_id stream ts_ms =>
      VMap [("type", VStr "requested"); ("job_id", VStr job_id); ("stream", VStr stream); ("ts_ms", VNum ts_ms)]
  | Claimed job_id worker ts_ms =>
      VMap [("type", VStr "claimed"); ("job_id", VStr job_id); ("worker", VStr worker); ("ts_ms", VNum ts_ms)]
  | JobFailed job_id error ts_ms =>
      VMap [("type", VStr "failed"); ("job_id", VStr job_id); ("error", VStr error); ("ts_ms", VNum ts_ms)]
  end.
Definition JobEvent_deserialize : Value → option JobEvent :=
  de_struct (λ l,
    ty ← field de_str "type" l; job_id ← field de_str "job_id" l;
    if String.eqb ty "requested" then stream ← field de_str "stream" l; ts ← field de_i64 "ts_ms" l; Some (Requested job_id stream ts)
    else if String.eqb ty "claimed" then worker ← field de_str "worker" l; ts ← field de_i64 "ts_ms" l; Some (Claimed job_id worker ts)
    else if String.eqb ty "failed" then error ← field de_str "error" l; ts ← field de_i64 "ts_ms" l; Some (JobFailed job_id error ts)
    else None).

(** ** Pages and manifests of landslide-sqlite *)

Definition Frame_serialize (human : bool) (f : Frame) : Value :=
  ser_struct human [("pgno", VNum (pgno f)); ("data", sqlite_b64_serialize human (page f))].
Definition Frame_deserialize (human : bool) : Value → option Frame :=
  de_record human ["pgno"; "data"] (λ l, n ← field de_u32 "pgno" l; data ← field (sqlite_b64_deserialize human) "data" l; Some (mkFrame n data)).

Definition Tx_serialize (human : bool) (d : Sqlite.Delta) : Value :=
  ser_struct human [("txid", VNum (d_txid d)); ("page_size", VNum (d_page_size d)); ("db_size", VNum (d_db_size d));
        ("pages", ser_vec (Frame_serialize human) (d_pages d))].
Definition Tx_deserialize (human : bool) : Value → option Sqlite.Delta :=
  de_record human ["txid"; "page_size"; "db_size"; "pages"] (λ l, txid ← field de_u64 "txid" l; page_size ← field de_u32 "page_size" l; db_size ← field de_u32 "db_size" l;
    pages ← field (de_vec (Frame_deserialize human)) "pages" l; Some (mkDelta txid page_size db_size pages)).

(** Sealed segments are only written in the binary format. *)
Definition Ltx_serialize (human : bool) (l : Ltx) : Value :=
  ser_struct human [("txid_start", VNum (l_txid_start l)); ("txid_end", VNum (l_txid_end l)); ("page_size", VNum (l_page_size l));
        ("db_size", VNum (l_db_size l)); ("pages", ser_vec (Frame_serialize human) (l_pages l))].
Definition Ltx_deserialize (human : bool) : Value → option Ltx :=
  de_record human ["txid_start"; "txid_end"; "page_size"; "db_size"; "pages"] (λ l,
    start ← field de_u64 "txid_start" l; stop ← field de_u64 "txid_end" l; page_size ← field de_u32 "page_size" l;
    db_size ← field de_u32 "db_size" l; pages ← field (de_vec (Frame_deserialize human)) "pages" l;
    Some (mkLtx start stop page_size db_size pages)).

Definition SegmentRef_serialize (r : SegmentRef) : Value :=
  VMap [("path", VStr (sr_path r)); ("txid_start", VNum (sr_txid_start r)); ("txid_end", VNum (sr_txid_end r));
        ("page_size", VNum (sr_page_size r)); ("db_size", VNum (sr_db_size r))].
Definition SegmentRef_deserialize : Value → option SegmentRef :=
  de_struct (λ l, path ← field de_str "path" l; start ← field de_u64 "txid_start" l; stop ← field de_u64 "txid_end" l;
    page_size ← field de_u32 "page_size" l; db_size ← field de_u32 "db_size" l; Some (mkRef path start stop page_size db_size)).

Definition LtxManifest_serialize (m : Sqlite.Manifest) : Value :=
  VMap [("segments", ser_vec SegmentRef_serialize (m_segments m)); ("retire", ser_vec VStr (m_retire m))].
Definition LtxManifest_deserialize : Value → option Sqlite.Manifest :=
  de_struct (λ l, segs ← field (de_vec SegmentRef_deserialize) "segments" l; retire ← field_or [] (de_vec de_str) "retire" l;
    Some (Sqlite.mkManifest segs retire)).

(** ** Nodes and deltas of landslide-fuse, which are stored as JSON *)

(** [Bytes] without a field codec. *)
Definition Bytes_serialize (b : bytes) : Value := VSeq ((λ x, VNum (Z_of_byte x)) <$> b).
Definition Bytes_deserialize (v : Value) : option bytes := match v with VStr s => Some (as_bytes s) | _ => de_u8s v end.

Definition NodeMeta_serialize (m : NodeMeta) : Value :=
  VMap ([("mode", VNum (mode m)); ("uid", VNum (uid m)); ("gid", VNum (gid m)); ("mtime_ms", VNum (mtime_ms m))]
        ++ if bool_decide (xattrs m = ∅) then [] else [("xattrs", ser_map Bytes_serialize (xattrs m))]).
Definition NodeMeta_deserialize : Value → option NodeMeta :=
  de_struct (λ l, mode ← field de_u32 "mode" l; uid ← field de_u32 "uid" l; gid ← field de_u32 "gid" l;
    mtime ← field de_i64 "mtime_ms" l; xattrs ← field_or ∅ (de_map Bytes_deserialize) "xattrs" l;
    Some (mkMeta mode uid gid mtime xattrs)).

Definition BlockRef_serialize (b : BlockRef) : Value := VMap [("hash", VStr (block_hash b)); ("len", VNum (block_len b))].
Definition BlockRef_deserialize : Value → option BlockRef :=
  de_struct (λ l, hash ← field de_str "hash" l; len ← field de_u64 "len" l; Some (mkBlock hash len)).

(** The first variant of an untagged enum that reads. *)
Definition or_else {A} (x y : option A) : option A := match x with Some _ => x | None => y end.

(** [Content], untagged *)
Definition Content_serialize (c : Content) : Value :=
  match c with
  | Inline b => b64_serialize b
  | Blocks blocks size => VMap [("blocks", ser_vec BlockRef_serialize blocks); ("size", VNum size)]
  end.
Definition Content_deserialize (v : Value) : option Content :=
  or_else (Inline <$> b64_deserialize v)
    (de_struct (λ l, blocks ← field (de_vec BlockRef_deserialize) "blocks" l; size ← field de_u64 "size" l;
      Some (Blocks blocks size)) v).

(** [Node], tagged by [kind] *)
Definition Node_serialize (n : Node) : Value :=
  match n with
  | File content meta =>
      VMap [("kind", VStr "file"); ("content", Content_serialize content); ("meta", NodeMeta_serialize meta)]
  | Dir meta => VMap [("kind", VStr "dir"); ("meta", NodeMeta_serialize meta)]
  | Symlink target meta => VMap [("kind", VStr "symlink"); ("target", VStr target); ("meta", NodeMeta_serialize meta)]
  end.
Definition Node_deserialize : Value → option Node :=
  de_struct (λ l,
    kind ← field de_str "kind" l;
    if String.eqb kind "file" then
      content ← field Content_deserialize "content" l; meta ← field NodeMeta_deserialize "meta" l; Some (File content meta)
    else if String.eqb kind "dir" then meta ← field NodeMeta_deserialize "meta" l; Some (Dir meta)
    else if String.eqb kind "symlink" then
      target ← field de_str "target" l; meta ← field NodeMeta_deserialize "meta" l; Some (Symlink target meta)
    else None).

(** [Data], untagged *)
Definition Data_serialize (d : Data) : Value :=
  match d with DInline b => b64_serialize b | DBlocks blocks => ser_vec BlockRef_serialize blocks end.
Definition Data_deserialize (v : Value) : option Data :=
  or_else (DInline <$> b64_deserialize v) (DBlocks <$> de_vec BlockRef_deserialize v).

(** [Delta], tagged by [op] *)
Definition Delta_serialize (d : Delta) : Value :=
  match d with
  | DWrite path offset data =>
      VMap [("op", VStr "write"); ("path", VStr path); ("offset", VNum offset); ("data", Data_serialize data)]
  | DMkdir path => VMap [("op", VStr "mkdir"); ("path", VStr path)]
  | DRemove path => VMap [("op", VStr "remove"); ("path", VStr path)]
  | DRename from to => VMap [("op", VStr "rename"); ("from", VStr from); ("to", VStr to)]
  | DSymlink path target => VMap [("op", VStr "symlink"); ("path", VStr path); ("target", VStr target)]
  | DSetAttr path mode uid gid mtime =>
      VMap [("op", VStr "set_attr"); ("path", VStr path); ("mode", ser_opt VNum mode); ("uid", ser_opt VNum uid);
            ("gid", ser_opt VNum gid); ("mtime_ms", ser_opt VNum mtime)]
  | DSetXattr path name value =>
      VMap [("op", VStr "set_xattr"); ("path", VStr path); ("name", VStr name); ("value", b64_opt_serialize value)]
  end.

Definition Delta_deserialize : Value → option Delta :=
  de_struct (λ l,
    op ← field de_str "op" l;
    if String.eqb op "write" then
      path ← field de_str "path" l; offset ← field de_u64 "offset" l; data ← field Data_deserialize "data" l;
      Some (DWrite path offset data)
    else if String.eqb op "mkdir" then path ← field de_str "path" l; Some (DMkdir path)
    else if String.eqb op "remove" then path ← field de_str "path" l; Some (DRemove path)
    else if String.eqb op "rename" then from ← field de_str "from" l; to ← field de_str "to" l; Some (DRename from to)
    else if String.eqb op "symlink" then
      path ← field de_str "path" l; target ← field de_str "target" l; Some (DSymlink path target)
    else if String.eqb op "set_attr" then
      path ← field de_str "path" l; mode ← field_or None (de_opt de_u32) "mode" l; uid ← field_or None (de_opt de_u32) "uid" l;
      gid ← field_or None (de_opt de_u32) "gid" l; mtime ← field_or None (de_opt de_i64) "mtime_ms" l;
      Some (DSetAttr path mode uid gid mtime)
    else if String.eqb op "set_xattr" then
      path ← field de_str "path" l; name ← field de_str "name" l; value ← field b64_opt_deserialize "value" l;
      Some (DSetXattr path name value)
    else None).

Definition Segment_serialize (s : Segment) : Value := VMap [("entries", ser_map (ser_opt Node_serialize) (entries s))].
Definition Segment_deserialize : Value → option Segment :=
  de_struct (λ l, es ← field (de_map (de_opt Node_deserialize)) "entries" l; Some (mkSegment es)).

Definition Manifest_serialize (m : Manifest) : Value := VMap [("segments", ser_vec VStr (segments m))].
Definition Manifest_deserialize : Value → option Manifest :=
  de_struct (λ l, s ← field (de_vec de_str) "segments" l; Some (mkManifest s)).
End wire.

(** ** Round trips *)

Section roundtrip.
Context `{Base64Law}.

(** [de] reads back what [ser] wrote of an [x]. *)
Definition reads {A} (ser : A → Value) (de : Value → option A) (x : A) : Prop := de (ser x) = Some x.

Definition in_num (lo hi z : Z) : Prop := lo ≤ z < hi.
Definition in_u32 : Z → Prop := in_num 0 (2 ^ 32).
Definition in_u64 : Z → Prop := in_num 0 (2 ^ 64).
Definition in_i64 : Z → Prop := in_num (- 2 ^ 63) (2 ^ 63).

Lemma num_reads lo hi z : in_num lo hi z → de_num lo hi (VNum z) = Some z.
Proof. intros Hz. unfold in_num, de_num in *. by rewrite (proj2 (Z.leb_le lo z)), (proj2 (Z.ltb_lt z hi)) by lia. Qed.

Lemma vec_reads {A} (ser : A → Value) de l : Forall (reads ser de) l → reads (ser_vec ser) (de_vec de) l.
Proof. intros Hl. unfold reads, ser_vec. simpl. by apply mapM_fmap_Forall_Some. Qed.

Lemma opt_reads {A} (ser : A → Value) de x : (∀ y, ser y ≠ VNull) → from_option (reads ser de) True x →
  reads (ser_opt ser) (de_opt de) x.
Proof.
  intros Hn Hx. unfold reads in *. destruct x as [x|]; [|done]. cbn in *. unfold de_opt. specialize (Hn x).
  destruct (ser x); try done; by rewrite Hx.
Qed.

Lemma map_fold {A} (m : gmap string A) : fold_left (λ m e, <[e.1 := e.2]> m) (btree_iter m) ∅ = m.
Proof.
  apply map_eq. intros k.
  assert (∀ l (m0 : gmap string A), NoDup l.*1 → fold_left (λ m e, <[e.1 := e.2]> m) l m0 !! k
    = match list_find (λ e, e.1 = k) l with Some (_, e) => Some e.2 | None => m0 !! k end) as Hf.
  { induction l as [|[k' x] l IH]; intros m0 Hn; [done|]. apply NoDup_cons in Hn as [Hk Hn]. cbn [fold_left list_find fst snd].
    rewrite IH by done. destruct (decide (k' = k)) as [->|Hne].
    - destruct (list_find (λ e, e.1 = k) l) as [[i e]|] eqn:E; [|by rewrite lookup_insert_eq].
      apply list_find_Some in E as (Hi & <- & _). destruct Hk. apply list_elem_of_fmap. exists e. split; [done|by eapply list_elem_of_lookup_2].
    - destruct (list_find _ l) as [[i e]|]; [done|]. by rewrite lookup_insert_ne. }
  rewrite Hf by apply btree_keys_NoDup. rewrite lookup_empty.
  destruct (list_find (λ e, e.1 = k) (btree_iter m)) as [[i [k' x]]|] eqn:E.
  - apply list_find_Some in E as (Hi & <- & _). symmetry. apply btree_iter_elem. by eapply list_elem_of_lookup_2.
  - apply list_find_None in E. destruct (m !! k) as [x|] eqn:Ex; [|done]. apply btree_iter_elem in Ex.
    rewrite Forall_forall in E. by destruct (E _ Ex).
Qed.

Lemma map_reads {A} (ser : A → Value) de m : map_Forall (λ _, reads ser de) m → reads (ser_map ser) (de_map de) m.
Proof.
  intros Hm. unfold reads, ser_map, de_map.
  rewrite (mapM_fmap_Forall_Some (λ e, pair e.1 <$> de e.2) (λ e, (e.1, ser e.2))).
  - simpl. by rewrite map_fold.
  - apply Forall_forall. intros [k x] Hx%btree_iter_elem. simpl. by rewrite (Hm k x Hx).
Qed.

Lemma byte_number x : 0 ≤ Z_of_byte x < 256 ∧ byte_of_Z (Z_of_byte x) = x.
Proof.
  unfold byte_of_Z, Z_of_byte. pose proof (Byte.to_N_bounded x). split; [lia|].
  rewrite Z.mod_small by lia. by rewrite N2Z.id, Byte.of_to_N.
Qed.

Lemma u8s_reads b : de_u8s (Bytes_serialize b) = Some b.
Proof.
  unfold Bytes_serialize. cbn [de_u8s]. apply mapM_fmap_Forall_Some, Forall_true. intros x.
  destruct (byte_number x) as [Hx E]. rewrite num_reads by done. simpl. by rewrite E.
Qed.

Lemma data_reads human b : reads (b64_bytes_serialize human) (b64_bytes_deserialize human) b.
Proof. unfold reads. destruct human; simpl; [apply b64_decode_encode|done]. Qed.

Lemma page_reads human b : reads (sqlite_b64_serialize human) (sqlite_b64_deserialize human) b.
Proof. apply data_reads. Qed.

Lemma headers_reads human h : reads (b64_headers_serialize human) (b64_headers_deserialize human) h.
Proof.
  unfold reads, b64_headers_serialize, b64_headers_deserialize. destruct human.
  - rewrite (vec_reads (ser_pair VStr) (de_pair de_str)) by by apply Forall_true; intros []. simpl.
    apply mapM_fmap_Forall_Some, Forall_true. intros [k b]. simpl. by rewrite b64_decode_encode.
  - apply vec_reads, Forall_true. by intros [].
Qed.

Lemma b64_reads b : reads b64_serialize b64_deserialize b.
Proof. unfold reads. simpl. apply b64_decode_encode. Qed.

Lemma b64_opt_reads b : reads b64_opt_serialize b64_opt_deserialize b.
Proof.
  unfold reads, b64_opt_serialize, b64_opt_deserialize. destruct b as [b|]; [|done]. simpl. by rewrite b64_decode_encode.
Qed.

(** *** Structs and enums *)

(** What a struct's fields are read from is what they were written as, named. *)
Lemma record_reads {A} human names (f : list (string * Value) → option A) fields :
  fields.*1 = names → de_record human names f (ser_struct human fields) = f fields.
Proof.
  intros <-. unfold de_record, ser_struct. destruct human; [done|]. rewrite !length_fmap, Nat.eqb_refl. f_equal.
  apply zip_fst_snd.
Qed.

(** Reads the fields of a struct, one by one. *)
Local Ltac de_fields :=
  rewrite ?record_reads by done;
  cbn [de_struct field field_or all_fields String.eqb Ascii.eqb Bool.eqb fst snd de_str mbind option_bind];
  repeat first
    [ rewrite num_reads by done
    | rewrite data_reads | rewrite page_reads | rewrite headers_reads | rewrite b64_opt_reads
    | progress cbn [mbind option_bind] ].

Definition env_ok (e : Envelope) : Prop := in_u64 (env_version e) ∧ in_u64 (env_seq e) ∧ in_i64 (env_ts_ms e).

Lemma envelope_reads human e : env_ok e → reads (Envelope_serialize human) (Envelope_deserialize human) e.
Proof.
  intros (H1 & H2 & H3). unfold reads, Envelope_serialize, Envelope_deserialize, de_u64, de_i64, field, field_or.
  de_fields. by destruct e.
Qed.

Lemma envelope_positions l e : Envelope_deserialize false (VSeq l) = Some e → length l = length Envelope_FIELDS.
Proof. unfold Envelope_deserialize, de_record. by destruct (Nat.eqb_spec (length l) (length Envelope_FIELDS)). Qed.

(** The numbers of the store's records. *)
Definition snapshot_ok (r : SnapshotRecord) : Prop := in_u64 (sn_through_version r) ∧ in_i64 (sn_ts_ms r).
Definition compaction_ok (r : CompactionRecord) : Prop :=
  in_u64 (cr_through_version r) ∧ in_u64 (cr_events_compacted r) ∧ in_i64 (cr_ts_ms r).
Definition job_ok (e : JobEvent) : Prop := match e with Requested _ _ t | Claimed _ _ t | JobFailed _ _ t => in_i64 t end.

Lemma tail_reads r : in_u64 (tail_version r) → in_i64 (tail_ts_ms r) → reads TailRecord_serialize TailRecord_deserialize r.
Proof. intros H1 H2. unfold reads, TailRecord_serialize, TailRecord_deserialize, de_u64, de_i64, field. de_fields. by destruct r. Qed.

Lemma forkref_reads r : in_u64 (fr_at_version r) → reads ForkRef_serialize ForkRef_deserialize r.
Proof. intros H1. unfold reads, ForkRef_serialize, ForkRef_deserialize, de_u64, field. de_fields. by destruct r. Qed.

Lemma snapshot_reads r : snapshot_ok r → reads SnapshotRecord_serialize SnapshotRecord_deserialize r.
Proof.
  intros [H1 H2]. unfold reads, SnapshotRecord_serialize, SnapshotRecord_deserialize, de_u64, de_i64, field. de_fields. by destruct r.
Qed.

Lemma compaction_reads r : compaction_ok r → reads CompactionRecord_serialize CompactionRecord_deserialize r.
Proof.
  intros (H1 & H2 & H3). unfold reads, CompactionRecord_serialize, CompactionRecord_deserialize, de_u64, de_i64, field, field_or.
  destruct r as [s v n [j|] t]; cbn [cr_job_id if_some app]; de_fields; done.
Qed.

Lemma job_reads e : job_ok e → reads JobEvent_serialize JobEvent_deserialize e.
Proof.
  intros He. unfold reads, JobEvent_serialize, JobEvent_deserialize, de_i64, field. destruct e; cbn [job_ok] in He; de_fields; done.
Qed.

Definition frame_ok (f : Frame) : Prop := in_u32 (pgno f).
Definition tx_ok (d : Sqlite.Delta) : Prop :=
  in_u64 (d_txid d) ∧ in_u32 (d_page_size d) ∧ in_u32 (d_db_size d) ∧ Forall frame_ok (d_pages d).

Lemma frame_reads human f : frame_ok f → reads (Frame_serialize human) (Frame_deserialize human) f.
Proof.
  intros Hf. unfold reads, Frame_serialize, Frame_deserialize, de_u32, field.
  de_fields. by destruct f.
Qed.

Lemma tx_reads human d : tx_ok d → reads (Tx_serialize human) (Tx_deserialize human) d.
Proof.
  intros (H1 & H2 & H3 & H4). unfold reads, Tx_serialize, Tx_deserialize, de_u64, de_u32, field. de_fields.
  rewrite (vec_reads (Frame_serialize human) (Frame_deserialize human)); [by destruct d|].
  eapply Forall_impl; [exact H4|]. apply frame_reads.
Qed.

Definition ltx_ok (l : Ltx) : Prop :=
  in_u64 (l_txid_start l) ∧ in_u64 (l_txid_end l) ∧ in_u32 (l_page_size l) ∧ in_u32 (l_db_size l) ∧ Forall frame_ok (l_pages l).

Lemma ltx_reads human l : ltx_ok l → reads (Ltx_serialize human) (Ltx_deserialize human) l.
Proof.
  intros (H1 & H2 & H3 & H4 & H5). unfold reads, Ltx_serialize, Ltx_deserialize, de_u64, de_u32, field. de_fields.
  rewrite (vec_reads (Frame_serialize human) (Frame_deserialize human)); [by destruct l|].
  eapply Forall_impl; [exact H5|]. apply frame_reads.
Qed.

Definition ref_ok (r : SegmentRef) : Prop :=
  in_u64 (sr_txid_start r) ∧ in_u64 (sr_txid_end r) ∧ in_u32 (sr_page_size r) ∧ in_u32 (sr_db_size r).

Lemma ltx_manifest_reads m : Forall ref_ok (m_segments m) → reads LtxManifest_serialize LtxManifest_deserialize m.
Proof.
  intros Hm. unfold reads, LtxManifest_serialize, LtxManifest_deserialize, field, field_or. de_fields.
  rewrite (vec_reads SegmentRef_serialize SegmentRef_deserialize).
  - de_fields. rewrite (vec_reads VStr de_str); [by destruct m|by apply Forall_true].
  - eapply Forall_impl; [exact Hm|]. intros r (H1 & H2 & H3 & H4).
    unfold reads, SegmentRef_serialize, SegmentRef_deserialize, de_u64, de_u32, field. de_fields. by destruct r.
Qed.

Definition meta_ok (m : NodeMeta) : Prop := in_u32 (mode m) ∧ in_u32 (uid m) ∧ in_u32 (gid m) ∧ in_i64 (mtime_ms m).
Definition block_ok (b : BlockRef) : Prop := in_u64 (block_len b).
Definition content_ok (c : Content) : Prop :=
  match c with Inline _ => True | Blocks blocks size => Forall block_ok blocks ∧ in_u64 size end.
Definition node_ok (n : Node) : Prop :=
  meta_ok (node_meta n) ∧ match n with File content _ => content_ok content | _ => True end.
Definition data_ok (d : Data) : Prop := match d with DInline _ => True | DBlocks blocks => Forall block_ok blocks end.

(** Every number of a delta fits the type of its field. *)
Definition delta_ok (d : Delta) : Prop :=
  match d with
  | DWrite _ offset data => in_u64 offset ∧ data_ok data
  | DSetAttr _ mode uid gid mtime =>
      from_option in_u32 True mode ∧ from_option in_u32 True uid ∧ from_option in_u32 True gid ∧ from_option in_i64 True mtime
  | _ => True
  end.

Lemma meta_reads m : meta_ok m → reads NodeMeta_serialize NodeMeta_deserialize m.
Proof.
  intros (H1 & H2 & H3 & H4). unfold reads, NodeMeta_serialize, NodeMeta_deserialize, de_u32, de_i64, field, field_or.
  destruct (bool_decide (xattrs m = ∅)) eqn:E; cbn [app]; de_fields.
  - apply bool_decide_eq_true in E. destruct m. cbn in *. by subst.
  - rewrite (map_reads Bytes_serialize Bytes_deserialize); [by destruct m|]. intros k b _. apply u8s_reads.
Qed.

Lemma block_reads b : block_ok b → reads BlockRef_serialize BlockRef_deserialize b.
Proof. intros Hb. unfold reads, BlockRef_serialize, BlockRef_deserialize, de_u64, field. de_fields. by destruct b. Qed.

Lemma blocks_reads bs : Forall block_ok bs → de_vec BlockRef_deserialize (ser_vec BlockRef_serialize bs) = Some bs.
Proof. intros Hb. apply vec_reads. eapply Forall_impl; [exact Hb|]. apply block_reads. Qed.

Lemma content_reads c : content_ok c → reads Content_serialize Content_deserialize c.
Proof.
  unfold reads, Content_serialize, Content_deserialize, de_u64, field. destruct c as [b|bs size].
  - intros _. by rewrite b64_reads.
  - intros [Hb Hs]. cbn [b64_deserialize de_str mbind option_bind fmap option_fmap option_map or_else]. de_fields.
    by rewrite blocks_reads.
Qed.

Lemma node_reads n : node_ok n → reads Node_serialize Node_deserialize n.
Proof.
  intros [Hm Hc]. apply meta_reads in Hm. unfold reads, Node_serialize, Node_deserialize, field in *.
  destruct n as [content meta|meta|target meta]; cbn [node_meta] in Hm; de_fields.
  - rewrite content_reads by done. de_fields. by rewrite Hm.
  - by rewrite Hm.
  - by rewrite Hm.
Qed.

Lemma write_data_reads d : data_ok d → reads Data_serialize Data_deserialize d.
Proof.
  unfold reads, Data_serialize, Data_deserialize. destruct d as [b|bs].
  - intros _. by rewrite b64_reads.
  - intros Hb. by rewrite blocks_reads.
Qed.

Lemma opt_num_reads lo hi z : from_option (in_num lo hi) True z → de_opt (de_num lo hi) (ser_opt VNum z) = Some z.
Proof. intros Hz. apply opt_reads; [done|]. destruct z; [|done]. by apply num_reads. Qed.

Lemma delta_reads d : delta_ok d → reads Delta_serialize Delta_deserialize d.
Proof.
  unfold reads, Delta_serialize, Delta_deserialize, de_u64, de_u32, de_i64, field, field_or.
  destruct d; cbn [delta_ok]; try by intros _; de_fields.
  - intros [Ho Hd]. de_fields. by rewrite write_data_reads.
  - intros (H1 & H2 & H3 & H4). de_fields. rewrite !opt_num_reads by done. done.
Qed.

Lemma segment_reads s : map_Forall (λ _, from_option node_ok True) (entries s) → reads Segment_serialize Segment_deserialize s.
Proof.
  intros Hs. unfold reads, Segment_serialize, Segment_deserialize, field. de_fields.
  rewrite (map_reads (ser_opt Node_serialize) (de_opt Node_deserialize)); [by destruct s|].
  intros k n Hn. apply opt_reads; [by intros []|]. specialize (Hs k n Hn). destruct n as [n|]; [|done]. by apply node_reads.
Qed.

Lemma manifest_reads m : reads Manifest_serialize Manifest_deserialize m.
Proof.
  unfold reads, Manifest_serialize, Manifest_deserialize, field. de_fields.
  rewrite (vec_reads VStr de_str); [by destruct m|]. by apply Forall_true.
Qed.

(** C26: nothing is lost on the wire.  An envelope, a replicated transaction and
    a sealed segment are read back from either kind of format: from a
    human-readable one, which names the fields and has base64, and from a binary
    one, which has raw bytes and the fields by position alone, all of them; a
    tuple with a field left out is refused.  A volume's deltas, segments and manifests, the
    manifests of a database, and the store's snapshots, compactions and job
    events are read back from JSON: the tags and untagged variants of the enums
    do not overlap, and what is left out (absent extended attributes and job
    ids) and tombstones come back as such. *)
Theorem wire_roundtrip :
  (∀ human e, env_ok e → Envelope_deserialize human (Envelope_serialize human e) = Some e)
  ∧ (∀ human d, tx_ok d → Tx_deserialize human (Tx_serialize human d) = Some d)
  ∧ (∀ human l, ltx_ok l → Ltx_deserialize human (Ltx_serialize human l) = Some l)
  ∧ (∀ l e, Envelope_deserialize false (VSeq l) = Some e → length l = length Envelope_FIELDS)
  ∧ (∀ d, delta_ok d → Delta_deserialize (Delta_serialize d) = Some d)
  ∧ (∀ s, map_Forall (λ _, from_option node_ok True) (entries s) → Segment_deserialize (Segment_serialize s) = Some s)
  ∧ (∀ m, Manifest_deserialize (Manifest_serialize m) = Some m)
  ∧ (∀ m, Forall ref_ok (m_segments m) → LtxManifest_deserialize (LtxManifest_serialize m) = Some m)
  ∧ (∀ r, snapshot_ok r → SnapshotRecord_deserialize (SnapshotRecord_serialize r) = Some r)
  ∧ (∀ r, compaction_ok r → CompactionRecord_deserialize (CompactionRecord_serialize r) = Some r)
  ∧ ∀ e, job_ok e → JobEvent_deserialize (JobEvent_serialize e) = Some e.
Proof.
  split_and!; [apply envelope_reads|apply tx_reads|apply ltx_reads|apply envelope_positions|apply delta_reads|apply segment_reads|apply manifest_reads|apply ltx_manifest_reads
    |apply snapshot_reads|apply compaction_reads|apply job_reads].
Qed.

(** A string that is not base64 is refused by every codec, and by every
    variant of the untagged enums. *)
Theorem bad_base64_refused s : b64_decode s = None →
  b64_bytes_deserialize true (VStr s) = None ∧ b64_opt_deserialize (VStr s) = None
  ∧ Content_deserialize (VStr s) = None ∧ Data_deserialize (VStr s) = None
  ∧ ∀ k l, b64_headers_deserialize true (VSeq (ser_pair VStr (k, s) :: l)) = None.
Proof.
  intros Hs. unfold Content_deserialize, Data_deserialize, b64_opt_deserialize, b64_deserialize, b64_headers_deserialize, ser_pair.
  simpl. rewrite Hs. split_and!; [done..|]. intros k l. destruct (mapM (de_pair de_str) l); [|done]. simpl. by rewrite Hs.
Qed.
End roundtrip.

(** ** Instances *)

Module WireSamples.
#[export] Instance sample_base64 : Base64 := {| b64_encode := string_of_list_byte; b64_decode s := Some (list_byte_of_string s) |}.

#[export] Instance sample_base64_law : Base64Law.
Proof. split. intros b. exact (f_equal Some (list_byte_of_string_of_list_byte b)). Qed.
End WireSamples.
Import WireSamples.

Definition wired_node : Node :=
  File (Blocks [mkBlock "ab" 3] 3) (mkMeta 420 1000 100 (-5) {["user.k" := [x00; xff]]}).

Lemma wire_roundtrip_witness :
  Envelope_deserialize false (Envelope_serialize false (mkEnvelope "i" "t" 3 4 [x61] [] (-1)))
    = Some (mkEnvelope "i" "t" 3 4 [x61] [] (-1))
  ∧ Delta_deserialize (Delta_serialize (DWrite "/f" 5 (DInline [x68; x69]))) = Some (DWrite "/f" 5 (DInline [x68; x69]))
  ∧ Segment_deserialize (Segment_serialize (mkSegment {["/f" := Some wired_node; "/g" := None]}))
    = Some (mkSegment {["/f" := Some wired_node; "/g" := None]}).
Proof.
  destruct wire_roundtrip as (He & _ & _ & _ & Hd & Hs & _). split; [|split].
  - apply He. split_and!; split; reflexivity || discriminate.
  - apply Hd. split; [|exact I]. split; reflexivity || discriminate.
  - apply Hs. apply map_Forall_insert_2; [|by apply map_Forall_singleton].
    split; [split_and!; split; reflexivity || discriminate|]. split; [|split; reflexivity || discriminate].
    apply Forall_singleton. split; reflexivity || discriminate.
Defined.
