(* ===== verification/Lifecycle.v ===== *)
(** * Opening and closing a store ([src/store.rs], [src/reader.rs])

    [Config], [EventStore::open] and the settings a store is opened with.  The
    builder of SlateDB, its settings other than the two the code names, and the
    handles' own [flush] and [close] are parameters. *)

From S2P Require Import Prelude Text Types.
Local Open Scope Z_scope.

(** SlateDB's settings: the WAL flush interval in milliseconds, the size at
    which the memtable is frozen, and the rest. *)
Record Settings (rest : Type) := mkSettings {
  flush_interval : option Z;
  l0_sst_size_bytes : Z;
  other_settings : rest;
}.
Arguments mkSettings {_}. Arguments flush_interval {_}. Arguments l0_sst_size_bytes {_}. Arguments other_settings {_}.

(** The options of a SlateDB reader: how often it looks for a new manifest, in
    milliseconds, and the rest. *)
Record DbReaderOptions (rest : Type) := mkReaderOptions {
  manifest_poll_interval : Z;
  other_options : rest;
}.
Arguments mkReaderOptions {_}. Arguments manifest_poll_interval {_}. Arguments other_options {_}.

(** The environment variables. *)
Abbreviation Env := (string → option string).

(** What the programs ask an object store client for. *)
Inductive BucketSpec :=
| S3 (bucket_name : string) (region : option string)
| LocalDir (dir : string).

(** What SlateDB and the object store give: [Settings::default()], the memory
    store, and the calls on handles. *)
Class SlateBuilder := {
  rest_settings : Type;
  stock : Settings rest_settings;
  object_store : Type;
  memory_store : object_store;
  handle : Type;
  build : string → object_store → Settings rest_settings → R handle;
  slate_flush : handle → R unit;
  slate_close : handle → R unit;
  rest_options : Type;
  stock_reader : DbReaderOptions rest_options;
  reader_handle : Type;
  reader_open : string → object_store → DbReaderOptions rest_options → R reader_handle;
}.

Section lifecycle.
Context `{SlateBuilder}.

(** [Config] *)
Record Config := mkConfig {
  cfg_path : string;
  cfg_object_store : object_store;
  cfg_settings : option (Settings rest_settings);
}.

(** [Config::in_memory] *)
Definition in_memory : Config := mkConfig "landslide" memory_store None.

Definition default_settings : Settings rest_settings :=
  mkSettings (Some 10) (4 * 1024 * 1024) (other_settings stock).

(** [config.settings.unwrap_or_else(default_settings)] *)
Definition opened_with (config : Config) : Settings rest_settings := default default_settings (cfg_settings config).

(** [EventStore::open] *)
Definition EventStore_open (config : Config) : R handle :=
  build (cfg_path config) (cfg_object_store config) (opened_with config).

Definition open_in_memory : R handle := EventStore_open in_memory.

(** [EventStore::flush], [EventStore::close] *)
Definition EventStore_flush (h : handle) : R unit := slate_flush h.
Definition EventStore_close (h : handle) : R unit := slate_close h.

(** [ReaderConfig], [EventStoreReader::open] *)
Record ReaderConfig := mkReaderConfig {
  rc_path : string;
  rc_object_store : object_store;
  rc_options : option (DbReaderOptions rest_options);
}.

Definition EventStoreReader_open (config : ReaderConfig) : R reader_handle :=
  reader_open (rc_path config) (rc_object_store config) (default stock_reader (rc_options config)).

(** ** Clients from the environment ([landslide-fuse/src/bin/landslidefs.rs]) *)

(** [bucket] *)
Definition env_bucket (env : Env) : BucketSpec :=
  match env "LANDSLIDE_BUCKET" with
  | Some name =>
      S3 name (Some (match env "LANDSLIDE_REGION" with
                     | Some region => region
                     | None => default "us-east-1" (env "AWS_REGION")
                     end))
  | None => LocalDir (default "/tmp/landslide-bucket" (env "LANDSLIDE_BUCKET_DIR"))
  end.

Definition env_path (env : Env) : string := default "landslidefs/churn" (env "LANDSLIDE_PATH").

(** The configuration [reader] opens. *)
Definition reader_config (env : Env) (bucket : object_store) : ReaderConfig :=
  mkReaderConfig (env_path env) bucket
    (Some (mkReaderOptions (default 500 (env "LANDSLIDE_POLL_MS" ≫= parse_u64)) (other_options stock_reader))).

(** The configuration [store] opens. *)
Definition store_config (env : Env) (bucket : object_store) : Config := mkConfig (env_path env) bucket None.

(** [backend] of the churn probe: its label and its bucket, the region from
    the client's own environment. *)
Definition env_backend (env : Env) : string * BucketSpec :=
  match env "LANDSLIDE_TEST_BUCKET" with
  | Some name => ("s3", S3 name None)
  | None => ("local", LocalDir (default "/tmp/landslide-churn-bucket" (env "LANDSLIDE_BUCKET_DIR")))
  end.

(** ** The profiles of the churn probe ([landslide-sqlite/examples/churn.rs]) *)

(** [settings_for_profile]; [None] is its panic. *)
Definition settings_for_profile (profile : string) : option (option (Settings rest_settings)) :=
  if String.eqb profile "default" then Some None
  else if String.eqb profile "fastflush" then
    Some (Some (mkSettings (Some 10) (l0_sst_size_bytes stock) (other_settings stock)))
  else if String.eqb profile "compact" then
    Some (Some (mkSettings (Some 10) (256 * 1024) (other_settings stock)))
  else if String.eqb profile "compact4mb" then
    Some (Some (mkSettings (Some 10) (4 * 1024 * 1024) (other_settings stock)))
  else None.

(** [open_store] *)
Definition open_store (backend : string) (bucket : object_store) (profile : string) : option Config :=
  settings ← settings_for_profile profile;
  Some (mkConfig ("churn/" +:+ backend +:+ "-" +:+ profile) bucket settings).

(** A store that is opened without settings has the tuned profile, and given
    settings are used as they are, the stock ones too. *)
Theorem open_settings path os s :
  opened_with (mkConfig path os None) = mkSettings (Some 10) 4194304 (other_settings stock)
  ∧ opened_with (mkConfig path os (Some s)) = s.
Proof. done. Qed.

(** The probe's [default] profile is not stock SlateDB (100 ms and 64 MB) but
    the tuned profile: it opens the store with the settings of [compact4mb]. *)
Theorem default_profile_is_compact4mb backend bucket :
  opened_with <$> open_store backend bucket "default" = opened_with <$> open_store backend bucket "compact4mb".
Proof. done. Qed.

(** The reader and the store of the command line are of one database, in every
    environment; the reader looks for new commits twice a second unless told
    otherwise, and the store has the tuned profile. *)
Theorem clients_agree env bucket :
  rc_path (reader_config env bucket) = cfg_path (store_config env bucket)
  ∧ opened_with (store_config env bucket) = default_settings
  ∧ (env "LANDSLIDE_POLL_MS" = None → manifest_poll_interval <$> rc_options (reader_config env bucket) = Some 500).
Proof. split_and!; [done..|]. intros E. cbn. by rewrite E. Qed.
End lifecycle.
