(* ===== verification/Demo.v ===== *)
(** * The volume demo ([landslide-fuse/examples/churn.rs])

    [main] after its clients are built: the store is opened before the command
    is looked at. *)

From S2P Require Import Prelude Text Slate Types Keys Kv Fork Store Bucket Btree Image Volume Replica Fs FsMounts Cli Lifecycle.
From S2P Require Import Samples FuseSamples.
Local Open Scope Z_scope.

Inductive Demo `{SlateDb} `{Codecs} `{ObjectStore} `{FuseCodecs} :=
| Serving (w : World)
| Verified (rep : Report) (first : list (string * FileType))
| Checkpointed (through : Version)
| DemoFailed (e : Error)
| DemoUsage
| DemoMissing.

Section demo.
Context `{SlateDb} `{Codecs} `{ObjectStore} `{FuseCodecs}.

Definition of_result {A} (f : A → Demo) (r : R A) : Demo :=
  match r with Ok a => f a | Err e => DemoFailed e end.

(** The nodes [verify] prints, by their kind. *)
Definition first_nodes (im : FsImage) : list (string * FileType) := take 5 ((λ e, (e.1, kind_of e.2)) <$> btree_iter im).

(** The command [verify]: [Cli.verify], and the first nodes of the image; the
    line that is printed before the tail is read is part of the report. *)
Definition demo_verify (o : Oracle) (clk : Version → Z) (watch : list DbStatus) (b : bucket) (vol : string) (d : db) : Demo * db :=
  match mount o clk watch b vol d with
  | (Err e, d) => (DemoFailed e, d)
  | (Ok v, d) =>
      let '(files, bytes) := stats (image v) in
      (of_result (λ tail, Verified (mkReport (size (image v)) files bytes tail (size (v_blocks v))) (first_nodes (image v)))
         (volume_tail v d), d)
  end.

(** [bucket]: the text of the command line's. *)
Definition demo_bucket (env : Env) : BucketSpec :=
  match env "LANDSLIDE_BUCKET" with
  | Some name =>
      S3 name (Some (match env "LANDSLIDE_REGION" with
                     | Some region => region
                     | None => default "us-east-1" (env "AWS_REGION")
                     end))
  | None => LocalDir (default "/tmp/landslide-bucket" (env "LANDSLIDE_BUCKET_DIR"))
  end.

(** [main]: [store] is what [EventStore::open] gives, [reader] what
    [EventStoreReader::open] does; the third argument of a mount is needed
    after the store is open.  A mount goes on until it is unmounted. *)
Definition demo (oa : nat → Oracle) (o om : Oracle) (now : Z) (clk : Version → Z) (watch : list DbStatus)
    (store reader : R db) (b : bucket) (args : list string) : Demo * bucket * R db :=
  let cmd := default "help" (args !! 0%nat) in
  let vol := default "churn-demo" (args !! 1%nat) in
  match store with
  | Err e => (DemoFailed e, b, store)
  | Ok d =>
      if String.eqb cmd "mount" then
        match args !! 2%nat with
        | None => (DemoMissing, b, Ok d)
        | Some mp => (of_result Serving (mount_fs om clk watch b vol d), b, Ok (mount om clk watch b vol d).2)
        end
      else if String.eqb cmd "follow" then
        match args !! 2%nat with
        | None => (DemoMissing, b, Ok d)
        | Some mp => (of_result Serving (let? view := reader in mount_replica clk b vol view), b, Ok d)
        end
      else if String.eqb cmd "verify" then
        let '(r, d) := demo_verify om clk watch b vol d in (r, b, Ok d)
      else if String.eqb cmd "checkpoint" then
        let '(r, b, d) := force_checkpoint oa o om now clk watch b vol d in (of_result Checkpointed r, b, Ok d)
      else (DemoUsage, b, Ok d)
  end.

(** The commands report what the command line's do: the same figures, and the
    same version. *)
Theorem demo_reports oa o om now clk watch d reader b vol rest :
  (demo oa o om now clk watch (Ok d) reader b ("verify" :: vol :: rest)).1.1 =
     match (verify om clk watch b vol d).1 with
     | Ok rep => Verified rep (match (mount om clk watch b vol d).1 with Ok v => first_nodes (image v) | Err _ => [] end)
     | Err e => DemoFailed e
     end
  ∧ (demo oa o om now clk watch (Ok d) reader b ("checkpoint" :: vol :: rest)).1.1 =
      of_result Checkpointed (force_checkpoint oa o om now clk watch b vol d).1.1.
Proof.
  split.
  - unfold demo, demo_verify, verify. cbn. destruct (mount om clk watch b vol d) as [[v|e] d']; [|done].
    destruct (stats (image v)) as [files bytes]. cbn. by destruct (volume_tail v d').
  - unfold demo. cbn. by destruct (force_checkpoint oa o om now clk watch b vol d) as [[r b'] d'].
Qed.

(** Every command, and none, needs the store to open as a writer first: a
    [follow], which only reads, fails with it, and so does a wrong usage. *)
Theorem demo_opens_first oa o om now clk watch e reader b args :
  demo oa o om now clk watch (Err e) reader b args = (DemoFailed e, b, Err e).
Proof. done. Qed.
End demo.
