(* ===== verification/Probe.v ===== *)
(** * The run of the churn probe ([landslide-sqlite/examples/churn.rs])

    [main]: rounds of writes, each synced, some checkpointed, and a restore of
    the database from the backend, whose bytes are compared.  SQLite is outside:
    what a round leaves in the WAL file is a function of the rows it wrote. *)

From S2P Require Import Prelude Text Slate Types Keys Kv Fork Store Batch Append Wf Commit.
From S2P Require Import Appended Ops Purge History Txn Invariant Samples AppendThms ForkThms SnapshotThms.
From S2P Require Import Frames Bucket Wal Sqlite PageThms SqliteThms SealThms DbThms Sessions SqliteRuns Churn Lifecycle.
Local Open Scope Z_scope.

(** ** Arguments *)

(** [env_usize]; [usize] has 64 bits. *)
Definition env_usize (env : Env) (key : string) (dflt : Z) : Z := default dflt (env key ≫= parse_u64).

Record Knobs := mkKnobs { k_rounds : Z; k_txns : Z; k_keys : Z; k_ckpt_every : Z }.

Definition knobs (env : Env) : Knobs :=
  mkKnobs (env_usize env "LANDSLIDE_CHURN_ROUNDS" 30) (env_usize env "LANDSLIDE_CHURN_TXNS" 150)
    (env_usize env "LANDSLIDE_CHURN_KEYS" 500) (env_usize env "LANDSLIDE_CHURN_CKPT_EVERY" 2).

(** ** Rows *)

Definition hex_digit (d : Z) : ascii := ascii_of_N (if d <? 10 then 48 + Z.to_N d else 87 + Z.to_N d).

Fixpoint hex_upto (fuel : nat) (k : Z) (s : string) : string :=
  match fuel with
  | O => s
  | S fuel => let s := String (hex_digit (k `mod` 16)) s in if k / 16 =? 0 then s else hex_upto fuel (k / 16) s
  end.

(** ["{k:08x}"] of a [u64]. *)
Definition hex08 (k : Z) : string := let s := hex_upto 16 k "" in string_of_list_ascii (replicate (8 - String.length s) "0"%char) +:+ s.

(** The closure [value]. *)
Definition value (k : Z) : string := "v-" +:+ hex08 k +:+ "-" +:+ string_of_list_ascii (replicate 200 "x"%char).

(** The inserts of a round: the rows and the generator after them; [None] is a
    panic. *)
Fixpoint draw (txns : nat) (rng keys : Z) : option (list (Z * string)) * Z :=
  match txns with
  | O => (Some [], rng)
  | S txns =>
      match next_key rng keys with
      | (None, rng) => (None, rng)
      | (Some k, rng) =>
          let '(rows, rng) := draw txns rng keys in ((λ rows, (k, value k) :: rows) <$> rows, rng)
      end
  end.

(** ** Rounds *)

(** What a round meets: the WAL file after its inserts, and the ULIDs, clocks,
    watermarks and answers of its sync and of its checkpoint. *)
Record Round := mkRound {
  r_wal : list (Z * string) → WalFile;
  r_sync : nat → Oracle;
  r_watch : list DbStatus;
  r_ckpt_sync : nat → Oracle;
  r_ckpt_wal : list (Z * string) → WalFile;
  r_seal : Oracle;
  r_restart : bool;
}.

Definition probe_opts : CheckpointOpts := mkOpts 3 true.

(** [round % ckpt_every == ckpt_every - 1]; [None] is the remainder by zero. *)
Definition checkpoints (round ckpt_every : Z) : option bool :=
  if ckpt_every =? 0 then None else Some (round `mod` ckpt_every =? ckpt_every - 1).

(** A program that ended with a result, or panicked ([None]). *)
Abbreviation Ended A := (option (R A)).

Section probe.
Context `{SlateDb} `{Codecs} `{ObjectStore} `{SqliteCodecs}.

(** The loop over the rounds from number [i] on. *)
Fixpoint run_rounds (kn : Knobs) (i : Z) (rounds : list Round) (rng : Z) (h : Db) (b : bucket) (d : db) :
    Ended Db * bucket * db :=
  match rounds with
  | [] => (Some (Ok h), b, d)
  | r :: rounds =>
      match draw (Z.to_nat (k_txns kn)) rng (k_keys kn) with
      | (None, _) => (None, b, d)
      | (Some rows, rng) =>
          match sync (r_sync r) quiet (r_watch r) (r_wal r rows) h d with
          | (Err e, _, d) => (Some (Err e), b, d)
          | (Ok _, h, d) =>
              match checkpoints i (k_ckpt_every kn) with
              | None => (None, b, d)
              | Some false => run_rounds kn (i + 1) rounds rng h b d
              | Some true =>
                  match checkpoint_with (r_ckpt_sync r) quiet (r_watch r) (r_ckpt_wal r rows) (r_seal r) (r_watch r)
                          (r_restart r) probe_opts h b d with
                  | (Err e, _, b, d) => (Some (Err e), b, d)
                  | (Ok _, h, b, d) => run_rounds kn (i + 1) rounds rng h b d
                  end
              end
          end
      end
  end.

(** The line [VERIFY]. *)
Record Verify := mkVerify { v_txid : Z; v_restored_txid : Z; v_byte_equal : bool }.

Definition RNG : Z := 11400714819323198485.

(** What the rounds meet, one after another. *)
Definition round_list (kn : Knobs) (rounds : nat → Round) : list Round := rounds <$> seq 0 (Z.to_nat (k_rounds kn)).

(** [main] once the store is open; the second store is the first one opened
    again. *)
Definition probe (o : Oracle) (watch : list DbStatus) (file_ok conn_ok : bool) (name : string) (kn : Knobs) (rounds : nat → Round)
    (b : bucket) (d : db) : Ended Verify :=
  match open o watch d (λ _, b) d file_ok conn_ok name d with
  | (Err e, _) => Some (Err e)
  | (Ok (h, _), d) =>
      match run_rounds kn 0 (round_list kn rounds) RNG h b d with
      | (None, _, _) => None
      | (Some (Err e), _, _) => Some (Err e)
      | (Some (Ok h), b, d) =>
          match to_bytes (dh_image h) with
          | None => None
          | Some image_bytes =>
              match restore d (λ _, b) d name with
              | Err e => Some (Err e)
              | Ok (image, _) =>
                  match to_bytes image with
                  | None => None
                  | Some x => Some (Ok (mkVerify (i_txid (dh_image h)) (i_txid image) (bool_decide (x = image_bytes))))
                  end
              end
          end
      end
  end.
End probe.

(** ** Equal images have equal files *)

Lemma filter_map {A B} (P : B → Prop) `{∀ x, Decision (P x)} (f : A → B) (l : list A) : filter P (f <$> l) = f <$> filter (λ x, P (f x)) l.
Proof.
  induction l as [|x l IH]; [done|]. rewrite fmap_cons, !filter_cons.
  destruct (decide (P (f x))); [by rewrite fmap_cons, IH|done].
Qed.

Lemma frames_upto (m1 m2 : Pages) n : (∀ p, p ≤ n → m1 !! p = m2 !! p) →
  filter (λ f, pgno f ≤ n) (into_frames m1) = filter (λ f, pgno f ≤ n) (into_frames m2).
Proof.
  intros Hp. unfold into_frames. rewrite !filter_map. f_equal.
  assert (∀ m : Pages, StronglySorted page_le (filter (λ p, pgno (mkFrame p.1 p.2) ≤ n) (merge_sort page_le (map_to_list m)))) as Hs.
  { intros m. apply StronglySorted_filter, StronglySorted_merge_sort; intros ??; unfold page_le; lia. }
  assert (∀ m (x : Z * bytes), x ∈ filter (λ p, pgno (mkFrame p.1 p.2) ≤ n) (merge_sort page_le (map_to_list m)) ↔ x.1 ≤ n ∧ m !! x.1 = Some x.2) as Hin.
  { intros m [p x]. by rewrite list_elem_of_filter, merge_sort_Permutation, elem_of_map_to_list. }
  eapply (StronglySorted_unique_strong page_le); [|apply Hs..|].
  - intros [p x] [q y] [Hx1 Hx]%Hin [Hy1 Hy]%Hin. unfold page_le. cbn in *. intros. assert (p = q) as -> by lia.
    rewrite Hp in Hx by done. congruence.
  - apply NoDup_Permutation; [apply NoDup_filter; rewrite merge_sort_Permutation; apply NoDup_map_to_list..|].
    intros x. rewrite !Hin. split; intros [Hl Hx]; (split; [done|]); [rewrite <-Hp|rewrite Hp]; done.
Qed.

Lemma write_pages_upto i l out : fold_left (write_page i) l out
  = fold_left (write_page i) (filter (λ f, pgno f ≤ i_db_size i) l) out.
Proof.
  revert out. induction l as [|f l IH]; intros out; [done|]. rewrite filter_cons. cbn [fold_left].
  destruct (decide (pgno f ≤ i_db_size i)) as [Hle|Hgt]; [apply IH|]. unfold write_page at 2.
  rewrite (proj2 (Z.ltb_lt _ _)), orb_true_r by lia. apply IH.
Qed.

#[global] Instance to_bytes_proper : Proper ((≡) ==> (=)) to_bytes.
Proof.
  intros i1 i2 (Hps & Hs & _ & Hp). unfold to_bytes. rewrite (write_pages_upto i1), (write_pages_upto i2), <-Hs, <-Hps.
  rewrite (frames_upto (i_pages i1) (i_pages i2)) by done. destruct (_ =? _); [done|].
  generalize (filter (λ f, pgno f ≤ i_db_size i1) (into_frames (i_pages i2))) as l. intros l.
  generalize (Some (replicate (Z.to_nat (i_db_size i1) * Z.to_nat (i_page_size i1)) x00)) as out.
  induction l as [|f l IH]; intros out; [done|]. cbn [fold_left]. rewrite IH. f_equal. unfold write_page. by rewrite Hs, Hps.
Qed.

(** ** The probe verifies *)

Section verifies.
Context `{SlateDbLaws} `{CodecLaws} `{ObjectStoreLaws} `{SqliteCodecLaws}.

(** What the rounds owe the database, along the run. *)
Fixpoint rounds_ok (s : string) (kn : Knobs) (i : Z) (rounds : list Round) (rng : Z) (h : Db) (b : bucket) (d : db) : Prop :=
  match rounds with
  | [] => True
  | r :: rounds =>
      match draw (Z.to_nat (k_txns kn)) rng (k_keys kn) with
      | (None, _) => True
      | (Some rows, rng) =>
          sync_env s (r_sync r) (r_wal r rows) false h d
          ∧ match sync (r_sync r) quiet (r_watch r) (r_wal r rows) h d with
            | (Err _, _, _) => True
            | (Ok _, h, d) =>
                match checkpoints i (k_ckpt_every kn) with
                | None => True
                | Some false => rounds_ok s kn (i + 1) rounds rng h b d
                | Some true =>
                    sync_env s (r_ckpt_sync r) (r_ckpt_wal r rows) false h d
                    ∧ seal_env s (r_seal r) (sync (r_ckpt_sync r) quiet (r_watch r) (r_ckpt_wal r rows) h d).2
                    ∧ match checkpoint_with (r_ckpt_sync r) quiet (r_watch r) (r_ckpt_wal r rows) (r_seal r) (r_watch r)
                              (r_restart r) probe_opts h b d with
                      | (Err _, _, _, _) => True
                      | (Ok _, h, b, d) => rounds_ok s kn (i + 1) rounds rng h b d
                      end
                end
            end
      end
  end.

(** The rounds are a session. *)
Lemma rounds_session s kn i rounds rng h b d acc h' b' d' :
  session s (Some (h, Current)) b d acc → rounds_ok s kn i rounds rng h b d →
  run_rounds kn i rounds rng h b d = (Some (Ok h'), b', d') → ∃ acc', session s (Some (h', Current)) b' d' acc'.
Proof.
  revert i rng h b d acc. induction rounds as [|r rounds IH]; intros i rng h b d acc Hs Hok E; cbn [run_rounds rounds_ok] in *.
  { injection E as <- <- <-. eauto. }
  destruct (draw _ rng _) as [[rows|] rng']; [|done]. destruct Hok as [He Hok].
  destruct (sync (r_sync r) quiet (r_watch r) (r_wal r rows) h d) as [[[n|e] h1] d1] eqn:Es; [|done].
  pose proof (se_sync s h Current b d acc (r_sync r) (r_watch r) (r_wal r rows) false (Ok n) h1 d1 _ Current Hs He Es
    (accepts_ok _ _ _ _ _)) as Hs1.
  destruct (checkpoints i (k_ckpt_every kn)) as [[|]|]; [| |done].
  - destruct Hok as (He2 & Hse & Hok).
    destruct (checkpoint_with _ _ _ _ _ _ _ _ h1 b d1) as [[[[rec|e] h2] b2] d2] eqn:Ec; [|done].
    destruct (sync (r_ckpt_sync r) quiet (r_watch r) (r_ckpt_wal r rows) h1 d1) as [[[n'|e'] hs] ds] eqn:Es2.
    2: { unfold checkpoint_with in Ec. by rewrite Es2 in Ec. }
    pose proof (se_checkpoint s h1 b d1 _ _ _ _ (Ok n') hs ds _ Current _ _ _ _ _ _ _ _ Hs1 He2 Es2 (accepts_ok _ _ _ _ _) Hse Ec) as Hs2.
    eapply IH; [exact Hs2|exact Hok|exact E].
  - by eapply IH.
Qed.

(** The keys can be drawn. *)
Lemma draw_some n rng keys : u64 rng → rng ≠ 0 → 0 < keys →
  ∃ rows, (draw n rng keys).1 = Some rows ∧ length rows = n ∧ Forall (λ row, 0 ≤ row.1 < keys) rows
    ∧ u64 (draw n rng keys).2 ∧ (draw n rng keys).2 ≠ 0.
Proof.
  revert rng. induction n as [|n IH]; intros rng Hr Hne Hk; [by exists []|]. cbn [draw].
  destruct (next_key_in rng keys Hr Hne Hk) as (k & Ek & Hkr & Hr' & Hne').
  destruct (next_key rng keys) as [ok rng'] eqn:En. cbn [fst snd] in *. subst ok.
  destruct (IH rng' Hr' Hne' Hk) as (rows & E & Hl & Hf & Hr2 & Hne2). destruct (draw n rng' keys) as [rows' rng2].
  cbn [fst snd] in *. subst rows'. exists ((k, value k) :: rows). split_and!; [done|by rewrite <-Hl|by constructor|done|done].
Qed.

(** No round panics. *)
Lemma rounds_total kn i rounds rng h b d :
  u64 rng → rng ≠ 0 → 0 < k_keys kn → 0 < k_ckpt_every kn → (run_rounds kn i rounds rng h b d).1.1 ≠ None.
Proof.
  intros Hr Hne Hk Hc. revert i rng h b d Hr Hne. induction rounds as [|r rounds IH]; intros i rng h b d Hr Hne; [done|].
  cbn [run_rounds]. destruct (draw_some (Z.to_nat (k_txns kn)) rng (k_keys kn) Hr Hne Hk) as (rows & Er & _ & _ & Hr' & Hne').
  destruct (draw _ rng _) as [rows' rng']. cbn [fst snd] in *. subst rows'.
  destruct (sync _ _ _ _ h d) as [[[n|e] h1] d1]; [|done]. unfold checkpoints. destruct (Z.eqb_spec (k_ckpt_every kn) 0); [lia|].
  destruct (_ =? _); [|by apply IH]. destruct (checkpoint_with _ _ _ _ _ _ _ _ h1 b d1) as [[[[rec|e] h2] b2] d2]; [by apply IH|done].
Qed.

(** The probe's check holds.  With knobs of at least one key and one round
    per checkpoint, no round panics; and on a stream nothing was written to,
    whatever the rounds wrote, when the run gets to its [VERIFY] line, the
    restored transaction id is the writer's and the restored file is byte for
    byte the writer's image. *)
Theorem probe_verifies o watch file_ok conn_ok s kn rounds b d :
  slash_free s → unused s d → 0 < k_keys kn → 0 < k_ckpt_every kn →
  (∀ h file d', open o watch d (λ _, b) d file_ok conn_ok s d = (Ok (h, file), d') →
     rounds_ok s kn 0 (round_list kn rounds) RNG h b d') →
  (∀ h b d, (run_rounds kn 0 (round_list kn rounds) RNG h b d).1.1 ≠ None)
  ∧ ∀ v, probe o watch file_ok conn_ok s kn rounds b d = Some (Ok v) → v_txid v = v_restored_txid v ∧ v_byte_equal v = true.
Proof.
  intros Hs Hun Hk Hc Hok. split.
  { intros h b0 d0. apply rounds_total; [|done..]. split; [done|]. rewrite U64_eq. done. }
  intros v E. unfold probe in E.
  destruct (open o watch d (λ _, b) d file_ok conn_ok s d) as [[[h file]|e] d1] eqn:Eo; [|done].
  pose proof (se_open s None b d [] o watch file_ok conn_ok _ _ (se_start s b d Hun) Eo) as Hse.
  destruct (run_rounds kn 0 (round_list kn rounds) RNG h b d1) as [[[[h'|e]|] b2] d2] eqn:Er; [|done|done].
  destruct (rounds_session _ _ _ _ _ _ _ _ _ _ _ _ Hse (Hok _ _ _ eq_refl) Er) as [acc Hse'].
  destruct (session_represents s (Some (h', Current)) b2 d2 acc Hs Hse') as (L & <- & Hr & Hh). cbn in Hh.
  destruct (restore_impl_ok s Hs b2 d2 L Hr) as (im & snap & _ & Ei & Him). unfold restore in E. rewrite Ei in E. cbn [rbind] in E.
  assert (im ≡ dh_image h') as Heq by (rewrite Him; symmetry; apply Hh).
  rewrite (to_bytes_proper _ _ Heq) in E. destruct (to_bytes (dh_image h')) as [x|]; [|done]. injection E as <-. cbn.
  split; [symmetry; apply Heq|by apply bool_decide_eq_true_2].
Qed.
End verifies.

(** ** A run *)

Import Samples SqliteRuns.

(** One round of one insert, checkpointed. *)
Definition round1 : Round := mkRound (λ _, wal1) (orc 20) up (orc 30) (λ _, wal1) (sample_oracle 40) true.
Definition probe1 : Ended Verify := probe (sample_oracle 10) up true true "q" (mkKnobs 1 1 5 1) (λ _, round1) ∅ mem_empty.

Lemma opened_eq : open (sample_oracle 10) up mem_empty (λ _, ∅) mem_empty true true "q" mem_empty = (opened.1, q0).
Proof. run. Qed.

Lemma opened_h0 : match opened.1 with Ok (h, _) => h | Err _ => no_db end = h0.
Proof. run. Qed.

Lemma round1_ok h file d' :
  open (sample_oracle 10) up mem_empty (λ _, ∅) mem_empty true true "q" mem_empty = (Ok (h, file), d') →
  rounds_ok "q" (mkKnobs 1 1 5 1) 0 [round1] RNG h ∅ d'.
Proof.
  rewrite opened_eq. intros E. pose proof (f_equal fst E) as Er. apply (f_equal snd) in E. cbn [snd] in E. subst d'. cbn [fst] in Er.
  pose proof opened_h0 as Eh. rewrite Er in Eh. subst h.
  assert (∃ rows rng, draw (Z.to_nat 1) RNG 5 = (Some rows, rng)) as (rows & rng & Ed) by (do 2 eexists; run).
  cbn [rounds_ok k_txns k_keys k_ckpt_every]. rewrite Ed. cbn [round1 r_wal r_sync r_watch r_ckpt_sync r_ckpt_wal r_seal r_restart].
  split; [exact env1|]. unfold sync at 1. rewrite sync1_eq. cbn [checkpoints].
  change (checkpoints 0 1) with (Some true). split; [exact env_ckpt1|]. split; [exact seal1|].
  by destruct (checkpoint_with _ _ _ _ _ _ _ _ _ _ _) as [[[[]]]].
Qed.

Theorem probe_run : probe1 = Some (Ok (mkVerify 1 1 true)).
Proof. run. Qed.

(** No key, or no round per checkpoint, and the probe panics. *)
Theorem probe_panics :
  probe (sample_oracle 10) up true true "q" (mkKnobs 1 1 0 1) (λ _, round1) ∅ mem_empty = None
  ∧ probe (sample_oracle 10) up true true "q" (mkKnobs 1 1 5 0) (λ _, round1) ∅ mem_empty = None.
Proof. split; run. Qed.
